(** * StelloVault server core: wallet authentication, escrows and loans

    A shallow embedding of the TypeScript services of the StelloVault
    server, followed by the properties their specification states.

    - [AuthService]   (server/src/services/auth.service.ts)
    - [EscrowService] (escrow service: transition table, webhook events,
                       timeout detector, listing)
    - [LoanService]   (loan service: collateral ratio, repayments)

    Modelling conventions.
    - The Prisma store is a record of tables; every table is a list of rows
      in insertion order.  A Prisma call is a function on the store; the
      services run in the monad [M], which threads the store and an error.
      [transaction] restores the store when its body throws.
    - Time is a number of milliseconds ([Z]).  An input has the type its
      TypeScript declaration gives it: [string | undefined] is
      [option string], and [None] is the absent value ([undefined] or
      [null]).  Where the code tests [typeof value !== "string"], any
      other value that is not a string takes the same branch and is
      [None] as well.
    - Strings are strings of ASCII characters, and [trim] and
      [toUpperCase] are those of JavaScript on such strings
      ([ascii_string]).  On other strings JavaScript trims further white
      space (U+00A0, U+FEFF, ...) and maps further letters.
    - Code running between two awaits of a service call (another request,
      the background timer) is a function on the store, passed to the
      models that await more than once. *)

From Stdlib Require Import ZArith List String Ascii Bool Lia.
From Stdlib Require Import Strings.Byte.
From Stdlib Require Import QArith Qround.
Import ListNotations.

Local Open Scope string_scope.
Local Open Scope list_scope.
Local Open Scope Z_scope.

(* ===================================================================== *)
(** * Errors (server/src/config/errors.ts)                                *)
(* ===================================================================== *)

(** The application error classes, with the two kinds of foreign errors the
    services can surface: a Prisma known-request error (it carries a
    [code]) and a plain [Error]. *)
Inductive AppError : Type :=
| NotFoundError (message : string)
| UnauthorizedError (message : string)
| ForbiddenError (message : string)
| ConflictError (message : string)
| ValidationError (message : string)
| TooManyRequestsError (message : string)
| PrismaError (code : string)
| PlainError (message : string).

(** [this.name] of the error object. *)
Definition error_name (e : AppError) : string :=
  match e with
  | NotFoundError _ => "NotFoundError"
  | UnauthorizedError _ => "UnauthorizedError"
  | ForbiddenError _ => "ForbiddenError"
  | ConflictError _ => "ConflictError"
  | ValidationError _ => "ValidationError"
  | TooManyRequestsError _ => "TooManyRequestsError"
  | PrismaError _ => "PrismaClientKnownRequestError"
  | PlainError _ => "Error"
  end.

Inductive result (A : Type) : Type :=
| Ok (a : A)
| Err (e : AppError).
Arguments Ok {A} a.
Arguments Err {A} e.

Definition is_ok {A} (r : result A) : bool :=
  match r with Ok _ => true | Err _ => false end.

(* ===================================================================== *)
(** * JavaScript strings                                                  *)
(* ===================================================================== *)

(** The white space and line terminators of JavaScript below U+0080: the
    space and U+0009 to U+000D. *)
Definition is_space (c : ascii) : bool :=
  let n := nat_of_ascii c in
  (Nat.eqb n 32 || (Nat.leb 9 n && Nat.leb n 13))%bool.

Fixpoint trimStart (s : string) : string :=
  match s with
  | EmptyString => EmptyString
  | String c r => if is_space c then trimStart r else s
  end.

Fixpoint trimEnd (s : string) : string :=
  match s with
  | EmptyString => EmptyString
  | String c r =>
      match trimEnd r with
      | EmptyString => if is_space c then EmptyString else String c EmptyString
      | r' => String c r'
      end
  end.

(** [s.trim()], for [s] of ASCII characters. *)
Definition trim (s : string) : string := trimEnd (trimStart s).

(** [toUpperCase] below U+0080 maps [a]..[z] to [A]..[Z] and nothing
    else. *)
Definition upper_char (c : ascii) : ascii :=
  let n := nat_of_ascii c in
  if (Nat.leb 97 n && Nat.leb n 122)%bool then ascii_of_nat (n - 32) else c.

(** [s.toUpperCase()], for [s] of ASCII characters. *)
Fixpoint toUpperCase (s : string) : string :=
  match s with
  | EmptyString => EmptyString
  | String c r => String (upper_char c) (toUpperCase r)
  end.

(** JavaScript truthiness of a [string | undefined]. *)
Definition truthy (v : option string) : bool :=
  match v with
  | Some s => negb (String.eqb s "")
  | None => false
  end.

Fixpoint string_forall (p : ascii -> bool) (s : string) : bool :=
  match s with
  | EmptyString => true
  | String c r => p c && string_forall p r
  end.

(** The strings on which [trim] and [toUpperCase] are those of
    JavaScript: every character is below U+0080. *)
Definition ascii_string (s : string) : Prop :=
  string_forall (fun c => Nat.ltb (nat_of_ascii c) 128) s = true.

(** An absent value, or a string of ASCII characters. *)
Definition ascii_input (v : option string) : Prop :=
  match v with
  | Some s => ascii_string s
  | None => True
  end.

Definition is_digit (c : ascii) : bool :=
  let n := nat_of_ascii c in (Nat.leb 48 n && Nat.leb n 57)%bool.
Definition is_hex_char (c : ascii) : bool :=
  let n := nat_of_ascii c in
  (is_digit c || (Nat.leb 97 n && Nat.leb n 102) || (Nat.leb 65 n && Nat.leb n 70))%bool.
Definition is_base64_char (c : ascii) : bool :=
  let n := nat_of_ascii c in
  (is_digit c || (Nat.leb 97 n && Nat.leb n 122) || (Nat.leb 65 n && Nat.leb n 90)
   || Nat.eqb n 43 || Nat.eqb n 47)%bool.

(** [/^[0-9a-fA-F]+$/.test(value)] *)
Definition matches_hex (s : string) : bool :=
  (negb (String.eqb s "") && string_forall is_hex_char s)%bool.

(** [/^[A-Za-z0-9+/]+={0,2}$/.test(value)] *)
Fixpoint base64_tail (s : string) : bool :=
  match s with
  | EmptyString => true
  | String c r =>
      if is_base64_char c then base64_tail r
      else (Ascii.eqb c "="
            && (String.eqb r "" || String.eqb r "="))%bool
  end.
Definition matches_base64 (s : string) : bool :=
  match s with
  | EmptyString => false
  | String c r => (is_base64_char c && base64_tail r)%bool
  end.

(** Hexadecimal digits, as [Buffer.toString("hex")] writes them and
    [Buffer.from(_, "hex")] reads them. *)
Definition hex_digit (n : N) : ascii :=
  ascii_of_N (if (n <? 10)%N then 48 + n else 87 + n)%N.

Definition hex_value (c : ascii) : N :=
  let n := N_of_ascii c in
  if is_digit c then (n - 48)%N
  else if (97 <=? n)%N then (n - 87)%N else (n - 55)%N.

Definition byte_of_N (n : N) : byte :=
  match Byte.of_N n with Some b => b | None => Byte.x00 end.

Definition byte_to_hex (b : byte) : string :=
  let n := Byte.to_N b in
  String (hex_digit (n / 16)%N) (String (hex_digit (n mod 16)%N) EmptyString).

Fixpoint Buffer_toString_hex (bs : list byte) : string :=
  match bs with
  | [] => EmptyString
  | b :: r => (byte_to_hex b ++ Buffer_toString_hex r)%string
  end.

(** [Buffer.from(s, "hex")] on a string of hexadecimal digits of even
    length (a trailing single digit is dropped, as Node does). *)
Fixpoint Buffer_from_hex (s : string) : list byte :=
  match s with
  | String h (String l r) =>
      byte_of_N (16 * hex_value h + hex_value l)%N :: Buffer_from_hex r
  | _ => []
  end.

(* ===================================================================== *)
(** * The store                                                           *)
(* ===================================================================== *)

Module User.
Record t : Type := mk { id : string; stellarAddress : string }.
End User.

Module Wallet.
Record t : Type := mk {
    id : string;
    userId : string;
    address : string;
    isPrimary : bool;
    label : option string;
    createdAt : Z
  }.
Definition with_isPrimary (b : bool) (w : t) : t :=
    mk (id w) (userId w) (address w) b (label w) (createdAt w).
Definition with_label (l : option string) (w : t) : t :=
    mk (id w) (userId w) (address w) (isPrimary w) l (createdAt w).
End Wallet.

Inductive ChallengePurpose : Type := LOGIN | LINK_WALLET.

Definition purpose_eqb (a b : ChallengePurpose) : bool :=
  match a, b with
  | LOGIN, LOGIN | LINK_WALLET, LINK_WALLET => true
  | _, _ => false
  end.

Module WalletChallenge.
Record t : Type := mk {
    userId : option string;
    walletAddress : string;
    nonce : string;
    purpose : ChallengePurpose;
    expiresAt : Z;
    usedAt : option Z
  }.
Definition with_usedAt (u : option Z) (c : t) : t :=
    mk (userId c) (walletAddress c) (nonce c) (purpose c) (expiresAt c) u.
End WalletChallenge.

Inductive EscrowStatus : Type := PENDING | ACTIVE | COMPLETED | DISPUTED | EXPIRED.

Definition status_eqb (a b : EscrowStatus) : bool :=
  match a, b with
  | PENDING, PENDING | ACTIVE, ACTIVE | COMPLETED, COMPLETED
  | DISPUTED, DISPUTED | EXPIRED, EXPIRED => true
  | _, _ => false
  end.

Module Escrow.
Record t : Type := mk {
    id : string;
    buyerId : string;
    sellerId : string;
    amount : string;
    assetCode : string;
    status : EscrowStatus;
    stellarTxHash : option string;
    expiresAt : Z;
    createdAt : Z
  }.
Definition with_status (s : EscrowStatus) (e : t) : t :=
    mk (id e) (buyerId e) (sellerId e) (amount e) (assetCode e) s
       (stellarTxHash e) (expiresAt e) (createdAt e).
Definition with_stellarTxHash (h : option string) (e : t) : t :=
    mk (id e) (buyerId e) (sellerId e) (amount e) (assetCode e) (status e)
       h (expiresAt e) (createdAt e).
End Escrow.

(* ===================================================================== *)
(** * decimal.js                                                          *)
(* ===================================================================== *)

(** The loan service computes with [Decimal] objects of decimal.js in its
    default configuration: [precision = 20] significant digits and
    [rounding = ROUND_HALF_UP].  The constructor and the comparisons are
    exact; [plus], [minus] and [div] return the exact result rounded to
    [precision] significant digits.  A finite value is [coef * 10 ^ exp]. *)
Module Decimal.

Record t : Type := mk { coef : Z; exp : Z }.

(** What [new Decimal(v)] can hold. *)
Inductive value : Type :=
| Finite (d : t)
| Infinite (negative : bool)
| NaN.

Definition precision : Z := 20.

Definition ZERO : t := mk 0 0.

(** The coefficient of [d] written at the exponent [lo <= exp d]. *)
Definition align (lo : Z) (d : t) : Z := coef d * 10 ^ (exp d - lo).

Definition cmp (x y : t) : comparison :=
  let lo := Z.min (exp x) (exp y) in
  (align lo x ?= align lo y).

Definition eq (x y : t) : bool :=
  match cmp x y with Eq => true | _ => false end.
Definition lt (x y : t) : bool :=
  match cmp x y with Lt => true | _ => false end.
Definition gt (x y : t) : bool :=
  match cmp x y with Gt => true | _ => false end.
Definition lte (x y : t) : bool :=
  match cmp x y with Gt => false | _ => true end.

(** Number of decimal digits of a positive integer ([0] for [n <= 0]). *)
Fixpoint ndigits_aux (fuel : nat) (n : Z) : Z :=
  match fuel with
  | O => 0
  | S f => if n <=? 0 then 0 else 1 + ndigits_aux f (n / 10)
  end.

Definition ndigits (n : Z) : Z := ndigits_aux (S (Z.to_nat (Z.log2 n))) n.

(** [finalise(x, precision, ROUND_HALF_UP)]: keep the first [precision]
    significant digits, rounding to nearest and ties away from zero. *)
Definition finalise (d : t) : t :=
  let n := ndigits (Z.abs (coef d)) in
  if n <=? precision then d
  else
    let k := n - precision in
    mk (Z.sgn (coef d) * ((Z.abs (coef d) + 5 * 10 ^ (k - 1)) / 10 ^ k))
       (exp d + k).

Definition add_exact (x y : t) : t :=
  let lo := Z.min (exp x) (exp y) in mk (align lo x + align lo y) lo.

Definition sub_exact (x y : t) : t :=
  let lo := Z.min (exp x) (exp y) in mk (align lo x - align lo y) lo.

Definition plus (x y : t) : t := finalise (add_exact x y).
Definition minus (x y : t) : t := finalise (sub_exact x y).

(** [x.div(y)] for a non-zero divisor.  The quotient of the coefficients is
    taken with [precision + 2] digits or more, so that the digit deciding
    the rounding is a digit of the truncated quotient. *)
Definition div (x y : t) : t :=
  let a := Z.abs (coef x) in
  let b := Z.abs (coef y) in
  let s := ndigits b + precision + 1 in
  finalise (mk (Z.sgn (coef x) * Z.sgn (coef y) * (a * 10 ^ s / b))
               (exp x - exp y - s)).

(** The exact product. *)
Definition mul_exact (x y : t) : t := mk (coef x * coef y) (exp x + exp y).

(** A value that needs no more than [precision] significant digits. *)
Definition fits (d : t) : Prop := ndigits (Z.abs (coef d)) <= precision.

Definition of_Z (n : Z) : t := mk n 0.

End Decimal.

Module LoanStatus.
Inductive t : Type := PENDING | ACTIVE | REPAID | DEFAULTED.
Definition eqb (a b : t) : bool :=
  match a, b with
  | PENDING, PENDING | ACTIVE, ACTIVE | REPAID, REPAID | DEFAULTED, DEFAULTED => true
  | _, _ => false
  end.
End LoanStatus.

(** Amount columns hold the decimal the service wrote with
    [amount.toString()]. *)
Module Loan.
Record t : Type := mk {
  id : string;
  borrowerId : string;
  lenderId : string;
  amount : Decimal.t;
  collateralAmt : Decimal.t;
  assetCode : string;
  escrowAddress : option string;
  status : LoanStatus.t
}.
Definition with_status (s : LoanStatus.t) (l : t) : t :=
  mk (id l) (borrowerId l) (lenderId l) (amount l) (collateralAmt l)
     (assetCode l) (escrowAddress l) s.
End Loan.

Module Repayment.
Record t : Type := mk {
  id : string;
  loanId : string;
  amount : Decimal.t;
  paidAt : Z
}.
End Repayment.

(** Messages handed to the websocket service. *)
Inductive Broadcast : Type :=
| EscrowCreated (escrowId buyerId sellerId : string)
| EscrowUpdated (escrowId : string) (status : EscrowStatus)
| LoanUpdated (loanId : string) (status : LoanStatus.t).

(** The tables, and the messages broadcast so far. *)
Record World : Type := mkWorld {
  users : list User.t;
  wallets : list Wallet.t;
  walletChallenges : list WalletChallenge.t;
  escrows : list Escrow.t;
  loans : list Loan.t;
  repayments : list Repayment.t;
  outbox : list Broadcast
}.

Definition set_users (v : list User.t) (w : World) : World :=
  mkWorld v (wallets w) (walletChallenges w) (escrows w) (loans w) (repayments w) (outbox w).
Definition set_wallets (v : list Wallet.t) (w : World) : World :=
  mkWorld (users w) v (walletChallenges w) (escrows w) (loans w) (repayments w) (outbox w).
Definition set_walletChallenges (v : list WalletChallenge.t) (w : World) : World :=
  mkWorld (users w) (wallets w) v (escrows w) (loans w) (repayments w) (outbox w).
Definition set_escrows (v : list Escrow.t) (w : World) : World :=
  mkWorld (users w) (wallets w) (walletChallenges w) v (loans w) (repayments w) (outbox w).
Definition set_loans (v : list Loan.t) (w : World) : World :=
  mkWorld (users w) (wallets w) (walletChallenges w) (escrows w) v (repayments w) (outbox w).
Definition set_repayments (v : list Repayment.t) (w : World) : World :=
  mkWorld (users w) (wallets w) (walletChallenges w) (escrows w) (loans w) v (outbox w).
Definition set_outbox (v : list Broadcast) (w : World) : World :=
  mkWorld (users w) (wallets w) (walletChallenges w) (escrows w) (loans w) (repayments w) v.

Definition empty_world : World := mkWorld [] [] [] [] [] [] [].

(* ===================================================================== *)
(** * The service monad                                                   *)
(* ===================================================================== *)

(** A computation runs on the store and ends in a value or a thrown
    error; the store it leaves is kept in both cases. *)
Definition M (A : Type) : Type := World -> World * result A.

Definition ret {A} (a : A) : M A := fun w => (w, Ok a).
Definition throw {A} (e : AppError) : M A := fun w => (w, Err e).
Definition bind {A B} (m : M A) (k : A -> M B) : M B :=
  fun w =>
    match m w with
    | (w', Ok a) => k a w'
    | (w', Err e) => (w', Err e)
    end.
Definition lift {A} (r : result A) : M A := fun w => (w, r).
Definition get : M World := fun w => (w, Ok w).
Definition modify (f : World -> World) : M unit := fun w => (f w, Ok tt).

Declare Scope service_scope.
Delimit Scope service_scope with service.
Notation "x <- m ;; k" := (bind m (fun x => k))
  (at level 61, m at next level, right associativity) : service_scope.
Notation "m ;;; k" := (bind m (fun _ => k))
  (at level 61, right associativity) : service_scope.
Local Open Scope service_scope.

(** [prisma.$transaction(body)]: the tables are restored when [body]
    throws; what was broadcast meanwhile stays broadcast. *)
Definition transaction {A} (body : M A) : M A :=
  fun w =>
    match body w with
    | (w', Ok a) => (w', Ok a)
    | (w', Err e) => (set_outbox (outbox w') w, Err e)
    end.

(** [websocketService.broadcast...] *)
Definition broadcast (b : Broadcast) : M unit :=
  modify (fun w => set_outbox (outbox w ++ [b]) w).

(** What runs on the store between two awaits of one call. *)
Definition Interference : Type := World -> World.
Definition interfere (env : Interference) : M unit := modify env.
Definition quiet : Interference := fun w => w.

(* ===================================================================== *)
(** * Collaborators                                                       *)
(* ===================================================================== *)

(** The result of JavaScript's [Number(v)].  Every finite double is a
    rational; the listing code only compares, floors and caps, which is
    exact on doubles. *)
Inductive JsNumber : Type :=
| JsNaN
| JsInfinity (negative : bool)
| JsFinite (q : Q).

Inductive JsValue : Type :=
| JsStr (s : string)
| JsNum (n : JsNumber).

(** An argument of a contract invocation. *)
Inductive XdrArg : Type :=
| ArgString (s : string)
| ArgDecimal (d : Decimal.t)
| ArgNull.

(** What the services take from outside this code base: the Stellar SDK
    key pair, Node's base64 decoder, the string-to-number conversion of the
    language, the configured contract ids and the contract service. *)
Class Platform : Type := {
  (** [Keypair.fromPublicKey(address)] returns ([true]) or throws. *)
  Keypair_fromPublicKey : string -> bool;
  (** [Keypair.fromPublicKey(address).verify(message, signature)] *)
  Keypair_verify : string -> string -> list byte -> bool;
  (** [Buffer.from(value, "base64")] *)
  Buffer_from_base64 : string -> list byte;
  (** [Number(s)] on a string *)
  StringToNumber : string -> JsNumber;
  contracts_loan : string;
  contracts_escrow : string;
  buildContractInvokeXDR : string -> string -> list XdrArg -> result string
}.

(* ===================================================================== *)
(** * Prisma calls                                                        *)
(* ===================================================================== *)

Definition find {A} (p : A -> bool) (l : list A) : option A := List.find p l.

(** [updateMany({ where, data })]: the rows after the update and the count
    of rows matched. *)
Definition updateMany {A} (where_ : A -> bool) (data : A -> A) (l : list A)
  : list A * nat :=
  (map (fun r => if where_ r then data r else r) l, List.length (filter where_ l)).

Fixpoint insert_by {A} (le : A -> A -> bool) (x : A) (l : list A) : list A :=
  match l with
  | [] => [x]
  | y :: r => if le x y then x :: l else y :: insert_by le x r
  end.

(** [orderBy]: a stable sort. *)
Definition sort_by {A} (le : A -> A -> bool) (l : list A) : list A :=
  fold_right (insert_by le) [] l.

Definition user_exists (uid : string) (w : World) : bool :=
  existsb (fun u => String.eqb (User.id u) uid) (users w).

(** [tx.user.update({ where: { id }, data: { stellarAddress } })];
    [stellarAddress] is a unique column. *)
Definition user_update_stellarAddress (uid addr : string) : M unit :=
  fun w =>
    if negb (user_exists uid w) then (w, Err (PrismaError "P2025"))
    else if existsb (fun u => negb (String.eqb (User.id u) uid)
                              && String.eqb (User.stellarAddress u) addr) (users w)
    then (w, Err (PrismaError "P2002"))
    else (set_users (map (fun u => if String.eqb (User.id u) uid
                                   then User.mk (User.id u) addr else u) (users w)) w,
          Ok tt).

Definition user_wallets (uid : string) (w : World) : list Wallet.t :=
  filter (fun x => String.eqb (Wallet.userId x) uid) (wallets w).

(** [tx.wallet.create({ data })]; [id] and [address] are unique columns. *)
Definition wallet_create (row : Wallet.t) : M Wallet.t :=
  fun w =>
    if existsb (fun x => String.eqb (Wallet.id x) (Wallet.id row)
                         || String.eqb (Wallet.address x) (Wallet.address row)) (wallets w)
    then (w, Err (PrismaError "P2002"))
    else (set_wallets (wallets w ++ [row]) w, Ok row).

(** [tx.wallet.updateMany({ where: { userId }, data: { isPrimary: false } })] *)
Definition wallet_clear_primary (uid : string) : M nat :=
  fun w =>
    let '(rows, n) := updateMany (fun x => String.eqb (Wallet.userId x) uid)
                                 (Wallet.with_isPrimary false) (wallets w) in
    (set_wallets rows w, Ok n).

(** [tx.wallet.update({ where: { id }, data })] *)
Definition wallet_update (wid : string) (data : Wallet.t -> Wallet.t) : M Wallet.t :=
  fun w =>
    match find (fun x => String.eqb (Wallet.id x) wid) (wallets w) with
    | None => (w, Err (PrismaError "P2025"))
    | Some x =>
        (set_wallets (map (fun y => if String.eqb (Wallet.id y) wid then data y else y)
                          (wallets w)) w,
         Ok (data x))
    end.

(** [tx.wallet.delete({ where: { id } })] *)
Definition wallet_delete (wid : string) : M unit :=
  fun w =>
    if existsb (fun x => String.eqb (Wallet.id x) wid) (wallets w)
    then (set_wallets (filter (fun x => negb (String.eqb (Wallet.id x) wid)) (wallets w)) w,
          Ok tt)
    else (w, Err (PrismaError "P2025")).

Definition challenge_key (c : WalletChallenge.t) : string * string * ChallengePurpose :=
  (WalletChallenge.walletAddress c, WalletChallenge.nonce c, WalletChallenge.purpose c).

Definition key_eqb (a b : string * string * ChallengePurpose) : bool :=
  let '(a1, a2, a3) := a in
  let '(b1, b2, b3) := b in
  (String.eqb a1 b1 && String.eqb a2 b2 && purpose_eqb a3 b3)%bool.

(** [db.walletChallenge.create({ data })]; [(walletAddress, nonce,
    purpose)] is a unique index and [userId] a foreign key. *)
Definition walletChallenge_create (row : WalletChallenge.t) : M unit :=
  fun w =>
    if existsb (fun c => key_eqb (challenge_key c) (challenge_key row)) (walletChallenges w)
    then (w, Err (PrismaError "P2002"))
    else
      match WalletChallenge.userId row with
      | Some u =>
          if user_exists u w
          then (set_walletChallenges (walletChallenges w ++ [row]) w, Ok tt)
          else (w, Err (PrismaError "P2003"))
      | None => (set_walletChallenges (walletChallenges w ++ [row]) w, Ok tt)
      end.

(* ===================================================================== *)
(** * AuthService (server/src/services/auth.service.ts)                   *)
(* ===================================================================== *)

Definition CHALLENGE_TTL_MS : Z := 10 * 60 * 1000.

Record Challenge : Type := mkChallenge {
  challenge_nonce : string;
  challenge_expiresAt : Z;
  challenge_message : string
}.

Definition requireNonEmptyString (value : option string) (fieldName : string)
  : result string :=
  match value with
  | Some s =>
      if String.eqb (trim s) ""
      then Err (ValidationError (fieldName ++ " is required")%string)
      else Ok (trim s)
  | None => Err (ValidationError (fieldName ++ " is required")%string)
  end.

Definition normalizeAddress (address : option string) : result string :=
  match requireNonEmptyString address "walletAddress" with
  | Ok s => Ok (toUpperCase s)
  | Err e => Err e
  end.

Definition buildChallengeMessage (purpose : ChallengePurpose) (nonce : string) : string :=
  let action := match purpose with LOGIN => "login" | LINK_WALLET => "link-wallet" end in
  ("stellovault:" ++ action ++ ":" ++ nonce)%string.

(** [randomBytes(n)], the generator's output given as [entropy]. *)
Definition randomBytes (entropy : nat -> byte) (n : nat) : list byte :=
  map entropy (seq 0 n).

(** The [where] of the consuming update. *)
Definition consume_where (address nonce : string) (purpose : ChallengePurpose)
  (userId : option string) (now : Z) (c : WalletChallenge.t) : bool :=
  (String.eqb (WalletChallenge.walletAddress c) address
   && String.eqb (WalletChallenge.nonce c) nonce
   && purpose_eqb (WalletChallenge.purpose c) purpose
   && match WalletChallenge.usedAt c with None => true | Some _ => false end
   && (now <? WalletChallenge.expiresAt c)
   && (if truthy userId
       then match WalletChallenge.userId c, userId with
            | Some u, Some v => String.eqb u v
            | _, _ => false
            end
       else true))%bool.

(** [db.walletChallenge.updateMany({ where, data: { usedAt: now } })] *)
Definition walletChallenge_consume (address nonce : string) (purpose : ChallengePurpose)
  (userId : option string) (now : Z) : M nat :=
  fun w =>
    let '(rows, n) := updateMany (consume_where address nonce purpose userId now)
                                 (WalletChallenge.with_usedAt (Some now))
                                 (walletChallenges w) in
    (set_walletChallenges rows w, Ok n).

(** [SELECT id FROM "User" WHERE id = userId FOR UPDATE] *)
Definition lockUserRow (userId : string) : M unit :=
  fun w =>
    if user_exists userId w then (w, Ok tt)
    else (w, Err (NotFoundError "User not found")).

Definition normalizeLabel (label : option string) : option string :=
  match label with
  | Some l => if String.eqb (trim l) "" then None else Some (trim l)
  | None => None
  end.

(** The [catch] of [linkWallet]: an error whose [code] is ["P2002"]
    becomes a [ConflictError]. *)
Definition map_P2002 {A} (m : M A) : M A :=
  fun w =>
    match m w with
    | (w', Err (PrismaError code)) =>
        if String.eqb code "P2002"
        then (w', Err (ConflictError "Wallet address is already linked"))
        else (w', Err (PrismaError code))
    | r => r
    end.

Section AuthService.
Context {P : Platform}.

Definition assertValidStellarAddress (address : string) : result unit :=
  if Keypair_fromPublicKey address then Ok tt
  else Err (ValidationError "Invalid Stellar wallet address").

Definition decodeSignature (signature : option string) : result (list byte) :=
  match requireNonEmptyString signature "signature" with
  | Err e => Err e
  | Ok value =>
      let fromBase64 :=
        if (matches_base64 value
            && Nat.eqb (List.length (Buffer_from_base64 value)) 64)%bool
        then Ok (Buffer_from_base64 value)
        else Err (ValidationError "Signature must be a 64-byte hex or base64 value") in
      if (matches_hex value && Nat.even (String.length value))%bool
      then if Nat.eqb (List.length (Buffer_from_hex value)) 64
           then Ok (Buffer_from_hex value)
           else fromBase64
      else fromBase64
  end.

(** [now] is the [new Date()] the call takes. *)
Definition verifyAndConsumeChallenge (now : Z) (address nonce signature : string)
  (purpose : ChallengePurpose) (userId : option string) : M unit :=
  normalizedNonce <- lift (requireNonEmptyString (Some nonce) "nonce") ;;
  let message := buildChallengeMessage purpose normalizedNonce in
  signatureBytes <- lift (decodeSignature (Some signature)) ;;
  if negb (Keypair_fromPublicKey address)
  then throw (PlainError "Invalid Stellar public key")
  else if negb (Keypair_verify address message signatureBytes)
  then throw (UnauthorizedError "Invalid signature")
  else
    count <- walletChallenge_consume address normalizedNonce purpose userId now ;;
    if Nat.eqb count 1 then ret tt
    else throw (UnauthorizedError "Invalid or expired challenge").

(** [now] is [Date.now()], [entropy] what [randomBytes] draws. *)
Definition generateChallenge (now : Z) (entropy : nat -> byte)
  (address : option string) (purpose : ChallengePurpose) (userId : option string)
  : M Challenge :=
  normalizedAddress <- lift (normalizeAddress address) ;;
  lift (assertValidStellarAddress normalizedAddress) ;;;
  if (purpose_eqb purpose LINK_WALLET && negb (truthy userId))%bool
  then throw (ValidationError "userId is required for wallet linking challenges")
  else
    let nonce := Buffer_toString_hex (randomBytes entropy 24) in
    let expiresAt := now + CHALLENGE_TTL_MS in
    walletChallenge_create
      (WalletChallenge.mk userId normalizedAddress nonce purpose expiresAt None) ;;;
    ret (mkChallenge nonce expiresAt (buildChallengeMessage purpose nonce)).

Definition getUserWallets (userId : string) : M (list Wallet.t) :=
  fun w =>
    (w, Ok (sort_by (fun a b => if Bool.eqb (Wallet.isPrimary a) (Wallet.isPrimary b)
                                then Wallet.createdAt a <=? Wallet.createdAt b
                                else Wallet.isPrimary a)
                    (user_wallets userId w))).

(** [newId] and [createdAt] are the defaults the store gives the new row. *)
Definition linkWallet (now : Z) (newId : string) (createdAt : Z)
  (userId address nonce signature : string) (label : option string) : M Wallet.t :=
  normalizedAddress <- lift (normalizeAddress (Some address)) ;;
  lift (assertValidStellarAddress normalizedAddress) ;;;
  map_P2002 (transaction (
    lockUserRow userId ;;;
    w <- get ;;
    match find (fun x => String.eqb (Wallet.address x) normalizedAddress) (wallets w) with
    | Some _ => throw (ConflictError "Wallet address is already linked")
    | None =>
        let addressInUseByUser :=
          find (fun u => String.eqb (User.stellarAddress u) normalizedAddress) (users w) in
        if match addressInUseByUser with
           | Some u => negb (String.eqb (User.id u) userId)
           | None => false
           end
        then throw (ConflictError "Wallet address is already linked")
        else
          verifyAndConsumeChallenge now normalizedAddress nonce signature
                                    LINK_WALLET (Some userId) ;;;
          w1 <- get ;;
          let walletCount := List.length (user_wallets userId w1) in
          let isPrimary := Nat.eqb walletCount 0 in
          createdWallet <- wallet_create
            (Wallet.mk newId userId normalizedAddress isPrimary
                       (normalizeLabel label) createdAt) ;;
          (if isPrimary then user_update_stellarAddress userId normalizedAddress
           else ret tt) ;;;
          ret createdWallet
    end)).

Definition unlinkWallet (userId walletId : string) : M unit :=
  transaction (
    lockUserRow userId ;;;
    w <- get ;;
    let wallets :=
      sort_by (fun a b => Wallet.createdAt a <=? Wallet.createdAt b) (user_wallets userId w) in
    match find (fun item => String.eqb (Wallet.id item) walletId) wallets with
    | None => throw (NotFoundError "Wallet not found")
    | Some wallet =>
        if Nat.leb (List.length wallets) 1
        then throw (ValidationError "Cannot unlink the only wallet")
        else
          (if Wallet.isPrimary wallet
           then
             match find (fun item => negb (String.eqb (Wallet.id item) walletId)) wallets with
             | None => throw (ValidationError "Cannot unlink the only primary wallet")
             | Some replacement =>
                 wallet_clear_primary userId ;;;
                 wallet_update (Wallet.id replacement) (Wallet.with_isPrimary true) ;;;
                 user_update_stellarAddress userId (Wallet.address replacement)
             end
           else ret tt) ;;;
          wallet_delete walletId
    end).

Definition setPrimaryWallet (userId walletId : string) : M Wallet.t :=
  transaction (
    lockUserRow userId ;;;
    w <- get ;;
    match find (fun x => (String.eqb (Wallet.id x) walletId
                          && String.eqb (Wallet.userId x) userId)%bool) (wallets w) with
    | None => throw (NotFoundError "Wallet not found")
    | Some _ =>
        wallet_clear_primary userId ;;;
        updatedWallet <- wallet_update walletId (Wallet.with_isPrimary true) ;;
        user_update_stellarAddress userId (Wallet.address updatedWallet) ;;;
        ret updatedWallet
    end).

Definition updateWalletLabel (userId walletId : string) (label : option string)
  : M Wallet.t :=
  w <- get ;;
  match find (fun x => (String.eqb (Wallet.id x) walletId
                        && String.eqb (Wallet.userId x) userId)%bool) (wallets w) with
  | None => throw (NotFoundError "Wallet not found")
  | Some _ => wallet_update walletId (Wallet.with_label (normalizeLabel label))
  end.

End AuthService.

(* ===================================================================== *)
(** * EscrowService                                                       *)
(* ===================================================================== *)

Definition status_to_string (s : EscrowStatus) : string :=
  match s with
  | PENDING => "PENDING"
  | ACTIVE => "ACTIVE"
  | COMPLETED => "COMPLETED"
  | DISPUTED => "DISPUTED"
  | EXPIRED => "EXPIRED"
  end.

Definition ESCROW_STATUSES : list EscrowStatus :=
  [PENDING; ACTIVE; COMPLETED; DISPUTED; EXPIRED].

(** [ESCROW_STATUSES.has(s)], with the status the string is cast to. *)
Definition parse_status (s : string) : option EscrowStatus :=
  find (fun st => String.eqb (status_to_string st) s) ESCROW_STATUSES.

Definition ESCROW_ALLOWED_TRANSITIONS (from : EscrowStatus) : list EscrowStatus :=
  match from with
  | PENDING => [PENDING; ACTIVE; COMPLETED; DISPUTED; EXPIRED]
  | ACTIVE => [ACTIVE; COMPLETED; DISPUTED; EXPIRED]
  | COMPLETED => [COMPLETED]
  | DISPUTED => [DISPUTED; ACTIVE; COMPLETED; EXPIRED]
  | EXPIRED => [EXPIRED]
  end.

(** [ESCROW_ALLOWED_TRANSITIONS[from].has(to)] *)
Definition allowed (from to : EscrowStatus) : bool :=
  existsb (status_eqb to) (ESCROW_ALLOWED_TRANSITIONS from).

Definition MIN_PAGE : Z := 1.
Definition DEFAULT_PAGE : Z := 1.
Definition DEFAULT_LIMIT : Z := 20.
Definition MAX_LIMIT : Z := 100.

Module EscrowListQuery.
Record t : Type := mk {
  buyerId : option string;
  sellerId : option string;
  status : option string;
  page : option JsValue;
  limit : option JsValue
}.
End EscrowListQuery.

Module EscrowEventPayload.
Record t : Type := mk {
  escrowId : option string;
  status : option string;
  stellarTxHash : option string
}.
End EscrowEventPayload.

Record Pagination : Type := mkPagination {
  pg_page : Z;
  pg_limit : Z;
  pg_total : Z;
  pg_totalPages : Z
}.

Record EscrowPage : Type := mkEscrowPage {
  items : list Escrow.t;
  pagination : Pagination
}.

Definition normalizeStatus (value : option string) (fieldName : string)
  : result EscrowStatus :=
  let bad := Err (ValidationError
    (fieldName ++ " must be one of: PENDING, ACTIVE, COMPLETED, DISPUTED, EXPIRED")%string) in
  match option_map (fun v => toUpperCase (trim v)) value with
  | Some status =>
      match parse_status status with
      | Some st => Ok st
      | None => bad
      end
  | None => bad
  end.

Definition escrow_findUnique (escrowId : string) (w : World) : option Escrow.t :=
  find (fun e => String.eqb (Escrow.id e) escrowId) (escrows w).

(** [db.escrow.updateMany({ where, data })] *)
Definition escrow_updateMany (where_ : Escrow.t -> bool) (data : Escrow.t -> Escrow.t)
  : M nat :=
  fun w =>
    let '(rows, n) := updateMany where_ data (escrows w) in
    (set_escrows rows w, Ok n).

Record Timer : Type := mkTimer { delay : Z; unref : bool }.

Module EscrowService.
Record t : Type := mk { timeoutTimer : option Timer }.
End EscrowService.

(** Which store call of a timer tick fails, if any. *)
Inductive TickFault : Type :=
| NoFault
| OverdueQueryFails (e : AppError)
| UpdateFails (e : AppError)
| ExpiredQueryFails (e : AppError).

Section EscrowService.
Context {P : Platform}.

Definition Number (v : JsValue) : JsNumber :=
  match v with
  | JsStr s => StringToNumber s
  | JsNum n => n
  end.

Definition coercePage (value : option JsValue) : Z :=
  match Number (match value with Some v => v | None => JsNum (JsFinite (inject_Z DEFAULT_PAGE)) end) with
  | JsFinite page =>
      if negb (Qle_bool (inject_Z MIN_PAGE) page) then DEFAULT_PAGE else Qfloor page
  | _ => DEFAULT_PAGE
  end.

Definition coerceLimit (value : option JsValue) : Z :=
  match Number (match value with Some v => v | None => JsNum (JsFinite (inject_Z DEFAULT_LIMIT)) end) with
  | JsFinite limit =>
      if negb (Qle_bool 1%Q limit) then DEFAULT_LIMIT else Z.min MAX_LIMIT (Qfloor limit)
  | _ => DEFAULT_LIMIT
  end.

(** The [where] record of [listEscrows], as a test on rows. *)
Definition list_where (buyerId sellerId : option string) (status : option EscrowStatus)
  (e : Escrow.t) : bool :=
  ((match buyerId with Some b => String.eqb (Escrow.buyerId e) b | None => true end)
   && (match sellerId with Some s => String.eqb (Escrow.sellerId e) s | None => true end)
   && (match status with Some st => status_eqb (Escrow.status e) st | None => true end))%bool.

(** [v?.trim()] when it is truthy. *)
Definition trimmed (v : option string) : option string :=
  match v with
  | Some s => if String.eqb (trim s) "" then None else Some (trim s)
  | None => None
  end.

(** [total] and [limit] are counts far below [2 ^ 46], where the double
    division followed by [Math.ceil] is the exact ceiling. *)
Definition listEscrows (query : EscrowListQuery.t) : M EscrowPage :=
  let page := coercePage (EscrowListQuery.page query) in
  let limit := coerceLimit (EscrowListQuery.limit query) in
  let skip := (page - 1) * limit in
  status <- lift (match trimmed (EscrowListQuery.status query) with
                  | Some _ =>
                      match normalizeStatus (EscrowListQuery.status query) "status" with
                      | Ok st => Ok (Some st)
                      | Err e => Err e
                      end
                  | None => Ok None
                  end) ;;
  w <- get ;;
  let matching :=
    filter (list_where (trimmed (EscrowListQuery.buyerId query))
                       (trimmed (EscrowListQuery.sellerId query)) status) (escrows w) in
  let items :=
    firstn (Z.to_nat limit)
      (skipn (Z.to_nat skip)
         (sort_by (fun a b => Escrow.createdAt b <=? Escrow.createdAt a) matching)) in
  let total := Z.of_nat (List.length matching) in
  let totalPages := Z.max 1 (Qceiling (inject_Z total / inject_Z limit)) in
  ret (mkEscrowPage items (mkPagination page limit total totalPages)).

(** [env1] runs between the lookup and the conditional update, [env2]
    between the update and the final lookup. *)
Definition processEscrowEvent (env1 env2 : Interference) (event : EscrowEventPayload.t)
  : M Escrow.t :=
  match trimmed (EscrowEventPayload.escrowId event) with
  | None => throw (ValidationError "escrowId is required")
  | Some escrowId =>
      status <- lift (normalizeStatus (EscrowEventPayload.status event) "status") ;;
      w <- get ;;
      match escrow_findUnique escrowId w with
      | None => throw (NotFoundError "Escrow not found")
      | Some existing =>
          if negb (allowed (Escrow.status existing) status)
          then throw (ValidationError
                 ("Illegal escrow status transition: "
                  ++ status_to_string (Escrow.status existing) ++ " -> "
                  ++ status_to_string status)%string)
          else
            interfere env1 ;;;
            count <- escrow_updateMany
              (fun e => (String.eqb (Escrow.id e) escrowId
                         && status_eqb (Escrow.status e) (Escrow.status existing))%bool)
              (fun e =>
                 let e' := Escrow.with_status status e in
                 if truthy (EscrowEventPayload.stellarTxHash event)
                 then Escrow.with_stellarTxHash (EscrowEventPayload.stellarTxHash event) e'
                 else e') ;;
            if negb (Nat.eqb count 1)
            then throw (ValidationError
                   "Escrow status changed concurrently. Please retry with latest state.")
            else
              interfere env2 ;;;
              w2 <- get ;;
              match escrow_findUnique escrowId w2 with
              | None => throw (NotFoundError "Escrow not found")
              | Some updated =>
                  (if negb (status_eqb (Escrow.status existing) (Escrow.status updated))
                   then broadcast (EscrowUpdated (Escrow.id updated) (Escrow.status updated))
                   else ret tt) ;;;
                  ret updated
              end
      end
  end.

(** [timeoutDetector()]: arm the interval once. *)
Definition timeoutDetector (svc : EscrowService.t) : EscrowService.t :=
  match EscrowService.timeoutTimer svc with
  | Some _ => svc
  | None => EscrowService.mk (Some (mkTimer 60000 true))
  end.

Definition id_in (ids : list string) (e : Escrow.t) : bool :=
  existsb (String.eqb (Escrow.id e)) ids.

(** The [try] block of the interval callback; [now] is its [new Date()]. *)
Definition timeoutSweep (env1 env2 : Interference) (fault : TickFault) (now : Z) : M unit :=
  (match fault with OverdueQueryFails e => throw e | _ => ret tt end) ;;;
  w <- get ;;
  let overdueEscrows :=
    filter (fun e => (status_eqb (Escrow.status e) ACTIVE
                      && (Escrow.expiresAt e <? now))%bool) (escrows w) in
  let ids := map Escrow.id overdueEscrows in
  if Nat.eqb (List.length overdueEscrows) 0 then ret tt
  else
    interfere env1 ;;;
    (match fault with UpdateFails e => throw e | _ => ret tt end) ;;;
    escrow_updateMany
      (fun e => (status_eqb (Escrow.status e) ACTIVE && id_in ids e)%bool)
      (Escrow.with_status EXPIRED) ;;;
    interfere env2 ;;;
    (match fault with ExpiredQueryFails e => throw e | _ => ret tt end) ;;;
    w2 <- get ;;
    let expiredEscrows :=
      filter (fun e => (id_in ids e && status_eqb (Escrow.status e) EXPIRED)%bool)
             (escrows w2) in
    fold_right (fun e k => broadcast (EscrowUpdated (Escrow.id e) EXPIRED) ;;; k)
               (ret tt) expiredEscrows.

(** One run of the interval callback: the store it leaves and what its
    [catch] wrote with [console.error]. *)
Definition timeoutTick (env1 env2 : Interference) (fault : TickFault) (now : Z)
  (w : World) : World * list AppError :=
  match timeoutSweep env1 env2 fault now w with
  | (w', Ok _) => (w', [])
  | (w', Err e) => (w', [e])
  end.

Record Tick : Type := mkTick {
  tick_env1 : Interference;
  tick_env2 : Interference;
  tick_fault : TickFault;
  tick_now : Z
}.

(** The armed interval firing the given ticks in turn; one log per tick
    that ran. *)
Fixpoint run_timer (svc : EscrowService.t) (ticks : list Tick) (w : World)
  : World * list (list AppError) :=
  match EscrowService.timeoutTimer svc, ticks with
  | Some _, t :: rest =>
      let '(w', log) := timeoutTick (tick_env1 t) (tick_env2 t) (tick_fault t) (tick_now t) w in
      let '(w'', logs) := run_timer svc rest w' in
      (w'', log :: logs)
  | _, _ => (w, [])
  end.

End EscrowService.

(* ===================================================================== *)
(** * LoanService                                                         *)
(* ===================================================================== *)

Definition MIN_COLLATERAL_RATIO : Decimal.t := Decimal.mk 15 (-1).
Definition ZERO : Decimal.t := Decimal.ZERO.

(** A request amount is given by what [new Decimal(value)] makes of it:
    [None] when the constructor throws. *)
Module IssueLoanRequest.
Record t : Type := mk {
  requestingUserId : option string;
  borrowerId : option string;
  lenderId : option string;
  amount : option Decimal.value;
  assetCode : option string;
  collateralAmt : option Decimal.value;
  escrowAddress : option string
}.
End IssueLoanRequest.

(** [paidAt] of a repayment request: absent, or what [new Date(paidAt)]
    makes of it. *)
Inductive DateInput : Type :=
| DateAbsent
| DateInvalid
| DateValid (t : Z).

Module RecordRepaymentRequest.
Record t : Type := mk {
  requestingUserId : option string;
  loanId : option string;
  amount : option Decimal.value;
  paidAt : DateInput
}.
End RecordRepaymentRequest.

Record IssuedLoan : Type := mkIssuedLoan {
  issued_loanId : string;
  issued_xdr : string;
  issued_loan : Loan.t
}.

Record RepaymentResult : Type := mkRepaymentResult {
  repayment : Repayment.t;
  outstandingBefore : Decimal.t;
  outstandingAfter : Decimal.t;
  fullyRepaid : bool;
  loan : Loan.t * list Repayment.t
}.

Definition parsePositiveDecimal (value : option Decimal.value) (fieldName : string)
  : result Decimal.t :=
  match value with
  | Some (Decimal.Finite parsed) =>
      if Decimal.lte parsed ZERO
      then Err (ValidationError (fieldName ++ " must be a positive number")%string)
      else Ok parsed
  | _ => Err (ValidationError (fieldName ++ " must be a positive number")%string)
  end.

(** [v?.trim()], required to be truthy. *)
Definition required (v : option string) (message : string) : result string :=
  match v with
  | Some s => if String.eqb (trim s) "" then Err (ValidationError message) else Ok (trim s)
  | None => Err (ValidationError message)
  end.

(** [v || d] *)
Definition or_default (v : option string) (d : string) : string :=
  match v with
  | Some s => if String.eqb s "" then d else s
  | None => d
  end.

(** [v || null] *)
Definition or_null (v : option string) : option string :=
  if truthy v then v else None.

Definition loan_findUnique (loanId : string) (w : World) : option Loan.t :=
  find (fun l => String.eqb (Loan.id l) loanId) (loans w).

(** The [repayments] relation of a loan. *)
Definition loan_repayments (loanId : string) (w : World) : list Repayment.t :=
  filter (fun r => String.eqb (Repayment.loanId r) loanId) (repayments w).

Definition loan_create (row : Loan.t) : M Loan.t :=
  fun w =>
    if existsb (fun l => String.eqb (Loan.id l) (Loan.id row)) (loans w)
    then (w, Err (PrismaError "P2002"))
    else (set_loans (loans w ++ [row]) w, Ok row).

Definition repayment_create (row : Repayment.t) : M Repayment.t :=
  fun w =>
    if existsb (fun r => String.eqb (Repayment.id r) (Repayment.id row)) (repayments w)
    then (w, Err (PrismaError "P2002"))
    else (set_repayments (repayments w ++ [row]) w, Ok row).

(** [tx.loan.update({ where: { id }, data: { status } })] *)
Definition loan_update_status (loanId : string) (s : LoanStatus.t) : M unit :=
  fun w =>
    if existsb (fun l => String.eqb (Loan.id l) loanId) (loans w)
    then (set_loans (map (fun l => if String.eqb (Loan.id l) loanId
                                   then Loan.with_status s l else l) (loans w)) w,
          Ok tt)
    else (w, Err (PrismaError "P2025")).

(** [loan.repayments.reduce((sum, r) => sum.plus(r.amount), ZERO)] *)
Definition totalRepaid (rs : list Repayment.t) : Decimal.t :=
  fold_left (fun sum r => Decimal.plus sum (Repayment.amount r)) rs ZERO.

(** The outstanding balance as [recordRepayment] computes it. *)
Definition outstanding (l : Loan.t) (rs : list Repayment.t) : Decimal.t :=
  Decimal.minus (Loan.amount l) (totalRepaid rs).

(** The status a repayment leaves the loan in. *)
Definition nextStatus (current : LoanStatus.t) (outstandingAfter : Decimal.t)
  : LoanStatus.t :=
  if Decimal.eq outstandingAfter ZERO then LoanStatus.REPAID
  else match current with
       | LoanStatus.PENDING => LoanStatus.ACTIVE
       | s => s
       end.

Section LoanService.
Context {P : Platform}.

(** [newId] is the id the store gives the new row. *)
Definition issueLoan (newId : string) (payload : IssueLoanRequest.t) : M IssuedLoan :=
  requestingUserId <- lift (required (IssueLoanRequest.requestingUserId payload)
                                     "requestingUserId is required") ;;
  borrowerId <- lift (required (IssueLoanRequest.borrowerId payload)
                               "borrowerId is required") ;;
  lenderId <- lift (required (IssueLoanRequest.lenderId payload)
                             "lenderId is required") ;;
  if String.eqb borrowerId lenderId
  then throw (ValidationError "Borrower and lender must be different")
  else if (negb (String.eqb requestingUserId borrowerId)
           && negb (String.eqb requestingUserId lenderId))%bool
  then throw (ForbiddenError "Only the borrower or lender can create this loan")
  else
    amount <- lift (parsePositiveDecimal (IssueLoanRequest.amount payload) "amount") ;;
    collateralAmt <- lift (parsePositiveDecimal (IssueLoanRequest.collateralAmt payload)
                                                "collateralAmt") ;;
    let collateralRatio := Decimal.div collateralAmt amount in
    if Decimal.lt collateralRatio MIN_COLLATERAL_RATIO
    then throw (ValidationError "Collateral ratio must be at least 1.50")
    else
      w <- get ;;
      let found :=
        filter (fun u => (String.eqb (User.id u) borrowerId
                          || String.eqb (User.id u) lenderId)%bool) (users w) in
      if negb (Nat.eqb (List.length found) 2)
      then throw (ValidationError "borrowerId or lenderId does not exist")
      else
        let loanContractId := trim contracts_loan in
        if String.eqb loanContractId ""
        then throw (ValidationError "LOAN_CONTRACT_ID not configured")
        else
          let assetCode := or_default (IssueLoanRequest.assetCode payload) "USDC" in
          let escrowAddress := or_null (IssueLoanRequest.escrowAddress payload) in
          xdr <- lift (buildContractInvokeXDR loanContractId "issue_loan"
                         [ArgString borrowerId; ArgString lenderId;
                          ArgDecimal amount; ArgDecimal collateralAmt;
                          ArgString assetCode;
                          match escrowAddress with Some a => ArgString a | None => ArgNull end]) ;;
          loan <- loan_create (Loan.mk newId borrowerId lenderId amount collateralAmt
                                       assetCode escrowAddress LoanStatus.PENDING) ;;
          broadcast (LoanUpdated (Loan.id loan) (Loan.status loan)) ;;;
          ret (mkIssuedLoan (Loan.id loan) xdr loan).

(** [newId] and [now] are the defaults the store gives the new row. *)
Definition recordRepayment (newId : string) (now : Z) (payload : RecordRepaymentRequest.t)
  : M RepaymentResult :=
  requestingUserId <- lift (required (RecordRepaymentRequest.requestingUserId payload)
                                     "requestingUserId is required") ;;
  loanId <- lift (required (RecordRepaymentRequest.loanId payload) "loanId is required") ;;
  amount <- lift (parsePositiveDecimal (RecordRepaymentRequest.amount payload) "amount") ;;
  paidAt <- lift (match RecordRepaymentRequest.paidAt payload with
                  | DateAbsent => Ok None
                  | DateInvalid => Err (ValidationError "paidAt must be a valid date")
                  | DateValid t => Ok (Some t)
                  end) ;;
  transaction (
    w <- get ;;
    match loan_findUnique loanId w with
    | None => throw (NotFoundError "Loan not found")
    | Some loan =>
        if (negb (String.eqb requestingUserId (Loan.borrowerId loan))
            && negb (String.eqb requestingUserId (Loan.lenderId loan)))%bool
        then throw (ForbiddenError "Only the borrower or lender can record repayments")
        else if LoanStatus.eqb (Loan.status loan) LoanStatus.DEFAULTED
        then throw (ValidationError "Cannot record repayment for a defaulted loan")
        else
          let outstandingBefore := outstanding loan (loan_repayments loanId w) in
          if Decimal.lte outstandingBefore ZERO
          then throw (ValidationError "Loan is already fully repaid")
          else if Decimal.gt amount outstandingBefore
          then throw (ValidationError "Repayment exceeds outstanding balance")
          else
            repayment <- repayment_create
              (Repayment.mk newId loanId amount
                            (match paidAt with Some t => t | None => now end)) ;;
            let outstandingAfter := Decimal.minus outstandingBefore amount in
            let next := nextStatus (Loan.status loan) outstandingAfter in
            (if negb (LoanStatus.eqb next (Loan.status loan))
             then loan_update_status loanId next ;;;
                  broadcast (LoanUpdated loanId next)
             else ret tt) ;;;
            w' <- get ;;
            match loan_findUnique loanId w' with
            | None => throw (NotFoundError "Loan not found")
            | Some updatedLoan =>
                ret (mkRepaymentResult repayment outstandingBefore outstandingAfter
                       (Decimal.eq outstandingAfter ZERO)
                       (updatedLoan, loan_repayments loanId w'))
            end
    end).

End LoanService.

(* ===================================================================== *)
(** * Properties of the store                                             *)
(* ===================================================================== *)

(** Every escrow of [w] is still in [w'], in a status its transition
    table allows. *)
Definition along_table (w w' : World) : Prop :=
  forall id e, escrow_findUnique id w = Some e ->
    exists e', escrow_findUnique id w' = Some e'
               /\ allowed (Escrow.status e) (Escrow.status e') = true.

(** A writer that moves escrows along the table only. *)
Definition respects_table (env : Interference) : Prop :=
  forall w, along_table w (env w).

(** [id] is the primary key of the escrow table. *)
Definition escrow_ids_unique (w : World) : Prop := NoDup (map Escrow.id (escrows w)).

(** The rows an update of the timeout sweep flips, among those it runs on. *)
Definition flipped_by_sweep (ids : list string) (rows : list Escrow.t) : list Escrow.t :=
  filter (fun e => (status_eqb (Escrow.status e) ACTIVE && id_in ids e)%bool) rows.

(** The rows the sweep selects at [now]. *)
Definition overdue (now : Z) (w : World) : list Escrow.t :=
  filter (fun e => (status_eqb (Escrow.status e) ACTIVE
                    && (Escrow.expiresAt e <? now))%bool) (escrows w).

(** [(walletAddress, nonce, purpose)] is a unique index of the challenge
    table. *)
Definition challenges_unique (w : World) : Prop :=
  NoDup (map challenge_key (walletChallenges w)).

(** The calls that write the challenge table. *)
Inductive ChallengeCall : Type :=
| Issue (now : Z) (entropy : nat -> byte) (address : option string)
        (purpose : ChallengePurpose) (userId : option string)
| Consume (now : Z) (address nonce signature : string)
          (purpose : ChallengePurpose) (userId : option string).

(** The challenge a consumption attempt names. *)
Definition targets (key : string * string * ChallengePurpose) (call : ChallengeCall) : bool :=
  match call with
  | Issue _ _ _ _ _ => false
  | Consume _ address nonce _ purpose _ => key_eqb (address, trim nonce, purpose) key
  end.

Section Schedules.
Context {P : Platform}.

(** One call on the store: the store it leaves and whether it returned. *)
Definition run_call (call : ChallengeCall) (w : World) : World * bool :=
  match call with
  | Issue now entropy address purpose userId =>
      let '(w', r) := generateChallenge now entropy address purpose userId w in
      (w', is_ok r)
  | Consume now address nonce signature purpose userId =>
      let '(w', r) := verifyAndConsumeChallenge now address nonce signature purpose userId w in
      (w', is_ok r)
  end.

(** The number of attempts on the challenge [key] that succeed when the
    calls run in the given order. *)
Fixpoint successful_consumptions (key : string * string * ChallengePurpose)
  (calls : list ChallengeCall) (w : World) : nat :=
  match calls with
  | [] => 0
  | call :: rest =>
      let '(w', ok) := run_call call w in
      ((if (ok && targets key call)%bool then 1 else 0)
       + successful_consumptions key rest w')%nat
  end.

End Schedules.

(** [id] is the primary key of the wallet table. *)
Definition wallet_ids_unique (w : World) : Prop := NoDup (map Wallet.id (wallets w)).

(** The primary wallets of a user. *)
Definition primaries (uid : string) (w : World) : list Wallet.t :=
  filter Wallet.isPrimary (user_wallets uid w).

(** Every user with a wallet has exactly one primary wallet, whose address
    is the address kept on the user row. *)
Definition single_primary (w : World) : Prop :=
  forall u, In u (users w) -> user_wallets (User.id u) w <> [] ->
    exists p, primaries (User.id u) w = [p]
              /\ User.stellarAddress u = Wallet.address p.

(** A platform to run the services on concrete inputs: every address
    starting with [G] is a public key, a signature is accepted when its
    first byte is [0x01], and no string is base64 or a numeral. *)
Definition stub_platform : Platform := {|
  Keypair_fromPublicKey := fun a => match a with String "G" _ => true | _ => false end;
  Keypair_verify := fun _ _ sig => match sig with x01 :: _ => true | _ => false end;
  Buffer_from_base64 := fun _ => [];
  StringToNumber := fun _ => JsNaN;
  contracts_loan := "CLOAN";
  contracts_escrow := "CESCROW";
  buildContractInvokeXDR := fun _ method _ => Ok method
|}.

(** Sample rows and requests. *)
Definition sample_escrow (id : string) (status : EscrowStatus) (expiresAt : Z) : Escrow.t :=
  Escrow.mk id "buyer" "seller" "500" "USDC" status None expiresAt 0.

Definition escrow_world (rows : list Escrow.t) : World := set_escrows rows empty_world.

Definition status_event (escrowId status : string) : EscrowEventPayload.t :=
  EscrowEventPayload.mk (Some escrowId) (Some status) None.

(** A webhook call that runs to its end between two awaits of another
    call. *)
Definition webhook (event : EscrowEventPayload.t) : Interference :=
  fun w => fst (processEscrowEvent quiet quiet event w).

Definition two_users : World :=
  set_users [User.mk "alice" "GALICE"; User.mk "bob" "GBOB"] empty_world.

Definition loan_request (amount collateralAmt : Decimal.t) : IssueLoanRequest.t :=
  IssueLoanRequest.mk (Some "alice") (Some "alice") (Some "bob")
    (Some (Decimal.Finite amount)) None (Some (Decimal.Finite collateralAmt)) None.

(** The largest 20-digit value below the minimum collateral ratio. *)
Definition BELOW_MIN_COLLATERAL_RATIO : Decimal.t := Decimal.mk 14999999999999999999 (-19).

Definition one_loan (principal : Decimal.t) (status : LoanStatus.t) : World :=
  set_loans [Loan.mk "loan1" "alice" "bob" principal (Decimal.of_Z 450) "USDC" None status]
            two_users.

Definition repay_request (amount : Decimal.t) : RecordRepaymentRequest.t :=
  RecordRepaymentRequest.mk (Some "alice") (Some "loan1")
    (Some (Decimal.Finite amount)) DateAbsent.

(** A 64-byte signature in hexadecimal that [stub_platform] accepts. *)
Definition good_signature : string :=
  ("01" ++ "00000000000000000000000000000000000000000000000000000000000000"
   ++ "0000000000000000000000000000000000000000000000000000000000000000")%string.

Definition one_challenge (usedAt : option Z) : World :=
  set_walletChallenges
    [WalletChallenge.mk (Some "alice") "GWALLET" "abc" LINK_WALLET 1000 usedAt]
    two_users.

Definition sample_wallet (id userId address : string) (isPrimary : bool) (createdAt : Z)
  : Wallet.t :=
  Wallet.mk id userId address isPrimary None createdAt.

(** Alice with two wallets, the first primary; Bob with none. *)
Definition two_wallets : World :=
  set_wallets [sample_wallet "w1" "alice" "GALICE" true 1;
               sample_wallet "w2" "alice" "GSECOND" false 2] two_users.

(* ===================================================================== *)
(** * Views of the services used in the statements                        *)
(* ===================================================================== *)

(** Unfolding of the monad's operations. *)
Ltac unfold_m :=
  unfold interfere, broadcast in *;
  unfold bind, ret, throw, lift, get, modify in *.

(** What the conditional update of [processEscrowEvent] writes. *)
Definition event_data (event : EscrowEventPayload.t) (st : EscrowStatus) (e : Escrow.t)
  : Escrow.t :=
  let e' := Escrow.with_status st e in
  if truthy (EscrowEventPayload.stellarTxHash event)
  then Escrow.with_stellarTxHash (EscrowEventPayload.stellarTxHash event) e'
  else e'.

(** The [where] of the conditional update of [processEscrowEvent]. *)
Definition event_guard (escrowId : string) (observed : EscrowStatus) (e : Escrow.t)
  : bool :=
  (String.eqb (Escrow.id e) escrowId && status_eqb (Escrow.status e) observed)%bool.

(** The error of [processEscrowEvent] when its update changed no row. *)
Definition CONCURRENT_CHANGE : AppError :=
  ValidationError "Escrow status changed concurrently. Please retry with latest state.".

(** What the timeout sweep broadcasts for an escrow. *)
Definition expired_event (e : Escrow.t) : Broadcast := EscrowUpdated (Escrow.id e) EXPIRED.

(** The [where] of the update of the sweep and of its second read. *)
Definition sweep_guard (ids : list string) (e : Escrow.t) : bool :=
  (status_eqb (Escrow.status e) ACTIVE && id_in ids e)%bool.

Definition sweep_reread (ids : list string) (e : Escrow.t) : bool :=
  (id_in ids e && status_eqb (Escrow.status e) EXPIRED)%bool.

(** The [where] of the first read of the sweep, and the rows after a
    sweep that no other writer interleaves with. *)
Definition overdue_test (now : Z) (e : Escrow.t) : bool :=
  (status_eqb (Escrow.status e) ACTIVE && (Escrow.expiresAt e <? now))%bool.

Definition expire_overdue (now : Z) (e : Escrow.t) : Escrow.t :=
  if overdue_test now e then Escrow.with_status EXPIRED e else e.

(** [issueLoan] from the collateral check on. *)
Definition issueLoan_checked {P : Platform} (newId : string) (payload : IssueLoanRequest.t)
  (borrowerId lenderId : string) (amount collateralAmt : Decimal.t) : M IssuedLoan :=
  fun w =>
    if Decimal.lt (Decimal.div collateralAmt amount) MIN_COLLATERAL_RATIO
    then (w, Err (ValidationError "Collateral ratio must be at least 1.50"))
    else if negb (Nat.eqb (List.length
                   (filter (fun u => (String.eqb (User.id u) borrowerId
                                      || String.eqb (User.id u) lenderId)%bool) (users w))) 2)
    then (w, Err (ValidationError "borrowerId or lenderId does not exist"))
    else if String.eqb (trim contracts_loan) ""
    then (w, Err (ValidationError "LOAN_CONTRACT_ID not configured"))
    else
      let assetCode := or_default (IssueLoanRequest.assetCode payload) "USDC" in
      let escrowAddress := or_null (IssueLoanRequest.escrowAddress payload) in
      match buildContractInvokeXDR (trim contracts_loan) "issue_loan"
              [ArgString borrowerId; ArgString lenderId;
               ArgDecimal amount; ArgDecimal collateralAmt; ArgString assetCode;
               match escrowAddress with Some a => ArgString a | None => ArgNull end] with
      | Err e => (w, Err e)
      | Ok xdr =>
          let row := Loan.mk newId borrowerId lenderId amount collateralAmt
                             assetCode escrowAddress LoanStatus.PENDING in
          if existsb (fun l => String.eqb (Loan.id l) newId) (loans w)
          then (w, Err (PrismaError "P2002"))
          else (set_outbox (outbox w ++ [LoanUpdated newId LoanStatus.PENDING])
                           (set_loans (loans w ++ [row]) w),
                Ok (mkIssuedLoan newId xdr row))
      end.





(** A challenge that exists and is used. *)
Definition spent (key : string * string * ChallengePurpose) (w : World) : Prop :=
  (exists c, In c (walletChallenges w) /\ challenge_key c = key)
  /\ (forall c, In c (walletChallenges w) -> challenge_key c = key ->
                WalletChallenge.usedAt c <> None).

(** The challenge table after the conditional update of
    [verifyAndConsumeChallenge]. *)
Definition consumed_rows (address nonce : string) (purpose : ChallengePurpose)
  (userId : option string) (now : Z) (w : World) : list WalletChallenge.t :=
  map (fun r => if consume_where address nonce purpose userId now r
                then WalletChallenge.with_usedAt (Some now) r else r)
      (walletChallenges w).

(** The wallets of a user in a wallet table, and the single-primary
    invariant on the two tables it reads. *)
Definition wallets_of (uid : string) (ws : list Wallet.t) : list Wallet.t :=
  filter (fun x => String.eqb (Wallet.userId x) uid) ws.

Definition one_primary (us : list User.t) (ws : list Wallet.t) : Prop :=
  forall u, In u us -> wallets_of (User.id u) ws <> [] ->
    exists p, filter Wallet.isPrimary (wallets_of (User.id u) ws) = [p]
              /\ User.stellarAddress u = Wallet.address p.

(** The wallet table after [updateMany({ userId }, { isPrimary: false })]
    and [update({ id: target }, { isPrimary: true })]. *)
Definition promote (uid target : string) (ws : list Wallet.t) : list Wallet.t :=
  map (fun y => if String.eqb (Wallet.id y) target then Wallet.with_isPrimary true y else y)
      (map (fun x => if String.eqb (Wallet.userId x) uid
                     then Wallet.with_isPrimary false x else x) ws).

(** One row of that table. *)
Definition promoted (uid target : string) (x : Wallet.t) : Wallet.t :=
  let y := if String.eqb (Wallet.userId x) uid then Wallet.with_isPrimary false x else x in
  if String.eqb (Wallet.id y) target then Wallet.with_isPrimary true y else y.

(** The user table after [user.update({ id }, { stellarAddress })]. *)
Definition readdress (uid addr : string) (us : list User.t) : list User.t :=
  map (fun u => if String.eqb (User.id u) uid then User.mk (User.id u) addr else u) us.

(** [orderBy: { createdAt: "asc" }] *)
Definition by_createdAt (a b : Wallet.t) : bool := Wallet.createdAt a <=? Wallet.createdAt b.

(** The wallet table after [wallet.delete({ where: { id } })]. *)
Definition without (walletId : string) (ws : list Wallet.t) : list Wallet.t :=
  filter (fun x => negb (String.eqb (Wallet.id x) walletId)) ws.

(** A database call broadcasts nothing. *)
Definition keeps_outbox {A} (m : M A) : Prop :=
  forall w, outbox (fst (m w)) = outbox w.

(* ===================================================================== *)
(** * Further definitions of the services and of their callers            *)
(* ===================================================================== *)

From Stdlib Require Import Permutation Sorted.

(** A string that does not start with white space. *)
Definition starts_clean (s : string) : Prop :=
  match s with
  | EmptyString => True
  | String c _ => is_space c = false
  end.

(** Sample entropy and the nonce drawn from it. *)
Definition zero_entropy : nat -> byte := fun _ => x00.
Definition zero_nonce : string := Buffer_toString_hex (randomBytes zero_entropy 24).

(** The order of [orderBy: [{ isPrimary: "desc" }, { createdAt: "asc" }]]. *)
Definition listed_before (a b : Wallet.t) : Prop :=
  (Wallet.isPrimary a = true /\ Wallet.isPrimary b = false)
  \/ (Wallet.isPrimary a = Wallet.isPrimary b /\ Wallet.createdAt a <= Wallet.createdAt b).

(** The wallet table after [wallet.update({ where: { id }, data: { label } })]. *)
Definition relabel (walletId : string) (label : option string) (ws : list Wallet.t)
  : list Wallet.t :=
  map (fun y => if String.eqb (Wallet.id y) walletId then Wallet.with_label label y else y)
      ws.

(** A call that writes the escrow table: a webhook event or a tick of the
    timeout detector, each run to its end before the next one starts. *)
Inductive EscrowCall : Type :=
| WebhookCall (event : EscrowEventPayload.t)
| TickCall (fault : TickFault) (now : Z).

Definition run_escrow_call (c : EscrowCall) (w : World) : World :=
  match c with
  | WebhookCall event => fst (processEscrowEvent quiet quiet event w)
  | TickCall fault now => fst (timeoutTick quiet quiet fault now w)
  end.

Definition run_escrow_calls (calls : list EscrowCall) (w : World) : World :=
  fold_left (fun w c => run_escrow_call c w) calls w.

Section ListingViews.
Context {P : Platform}.

(** The same query for another page. *)
Definition with_page (query : EscrowListQuery.t) (p : Z) : EscrowListQuery.t :=
  EscrowListQuery.mk (EscrowListQuery.buyerId query) (EscrowListQuery.sellerId query)
    (EscrowListQuery.status query) (Some (JsNum (JsFinite (inject_Z p))))
    (EscrowListQuery.limit query).

(** The items [listEscrows] returns ([[]] when it throws). *)
Definition page_items (query : EscrowListQuery.t) (w : World) : list Escrow.t :=
  match snd (listEscrows query w) with
  | Ok pg => items pg
  | Err _ => []
  end.

(** The status filter of a query: none when the parameter is blank or
    absent. *)
Definition status_filter (query : EscrowListQuery.t) : result (option EscrowStatus) :=
  match trimmed (EscrowListQuery.status query) with
  | Some _ =>
      match normalizeStatus (EscrowListQuery.status query) "status" with
      | Ok st => Ok (Some st)
      | Err e => Err e
      end
  | None => Ok None
  end.

(** The rows a query matches, newest first. *)
Definition matches (query : EscrowListQuery.t) (st : option EscrowStatus) (w : World)
  : list Escrow.t :=
  sort_by (fun a b => Escrow.createdAt b <=? Escrow.createdAt a)
    (filter (list_where (trimmed (EscrowListQuery.buyerId query))
                        (trimmed (EscrowListQuery.sellerId query)) st) (escrows w)).

End ListingViews.

(* ===================================================================== *)
(** * EscrowService: creating and reading an escrow                       *)
(* ===================================================================== *)

(** [Buffer.from(value).toString("base64")]: three bytes give four
    characters of the alphabet, a last group of one or two bytes is padded
    with [=]. *)
Definition base64_alphabet : string :=
  "ABCDEFGHIJKLMNOPQRSTUVWXYZabcdefghijklmnopqrstuvwxyz0123456789+/".

Definition base64_char (n : N) : ascii :=
  match String.get (N.to_nat n) base64_alphabet with
  | Some c => c
  | None => "="%char
  end.

(** The six bits of [n] from bit [k] on, as a character. *)
Definition sextet (n : N) (k : N) : ascii := base64_char (N.land (N.shiftr n k) 63).

Fixpoint base64_encode (s : string) : string :=
  match s with
  | String a (String b (String c r)) =>
      let n := (N_of_ascii a * 65536 + N_of_ascii b * 256 + N_of_ascii c)%N in
      String (sextet n 18) (String (sextet n 12) (String (sextet n 6) (String (sextet n 0)
        (base64_encode r))))
  | String a (String b EmptyString) =>
      let n := (N_of_ascii a * 65536 + N_of_ascii b * 256)%N in
      String (sextet n 18) (String (sextet n 12) (String (sextet n 6) "="))
  | String a EmptyString =>
      let n := (N_of_ascii a * 65536)%N in
      String (sextet n 18) (String (sextet n 12) "==")
  | EmptyString => EmptyString
  end.

Definition ensureBase64 (value : string) : string :=
  if (matches_base64 value && Nat.eqb (String.length value mod 4) 0)%bool then value
  else base64_encode value.

Module CreateEscrowRequest.
Record t : Type := mk {
  buyerId : option string;
  sellerId : option string;
  amount : option JsValue;
  assetCode : option string;
  expiresAt : DateInput
}.
End CreateEscrowRequest.

Record CreatedEscrow : Type := mkCreatedEscrow {
  created_escrowId : string;
  created_xdr : string
}.

(** How the language writes a number and a date: [amount.toString()] and
    [expiresAt.toISOString()]. *)
Class Formatting : Type := {
  Number_toString : Q -> string;
  Date_toISOString : Z -> string
}.

(** [expiresAt] is given as [DateInput]: absent when the value is falsy,
    else what [new Date(value)] (or the [Date] itself) holds. *)
Definition parseDate (value : DateInput) (fieldName : string) : result Z :=
  match value with
  | DateAbsent => Err (ValidationError (fieldName ++ " is required")%string)
  | DateInvalid => Err (ValidationError (fieldName ++ " must be a valid date")%string)
  | DateValid t => Ok t
  end.

(** [db.escrow.create({ data })] *)
Definition escrow_create (row : Escrow.t) : M Escrow.t :=
  fun w =>
    if existsb (fun e => String.eqb (Escrow.id e) (Escrow.id row)) (escrows w)
    then (w, Err (PrismaError "P2002"))
    else (set_escrows (escrows w ++ [row]) w, Ok row).

Section EscrowCreation.
Context {P : Platform} {F : Formatting}.

Definition parsePositiveAmount (value : option JsValue) (fieldName : string) : result Q :=
  let bad := Err (ValidationError (fieldName ++ " must be a positive number")%string) in
  match (match value with Some v => Number v | None => JsNaN end) with
  | JsFinite amount => if Qle_bool amount 0 then bad else Ok amount
  | _ => bad
  end.

(** [now] is the [Date.now()] of the call; [newId] and [createdAt] are the
    defaults the store gives the new row. *)
Definition createEscrow (now : Z) (newId : string) (createdAt : Z)
  (payload : CreateEscrowRequest.t) : M CreatedEscrow :=
  buyerId <- lift (required (CreateEscrowRequest.buyerId payload) "buyerId is required") ;;
  sellerId <- lift (required (CreateEscrowRequest.sellerId payload)
                             "sellerId is required") ;;
  if String.eqb buyerId sellerId
  then throw (ValidationError "buyerId and sellerId must be different")
  else
    amount <- lift (parsePositiveAmount (CreateEscrowRequest.amount payload) "amount") ;;
    expiresAt <- lift (parseDate (CreateEscrowRequest.expiresAt payload) "expiresAt") ;;
    if expiresAt <=? now
    then throw (ValidationError "expiresAt must be in the future")
    else
      w <- get ;;
      let found :=
        filter (fun u => (String.eqb (User.id u) buyerId
                          || String.eqb (User.id u) sellerId)%bool) (users w) in
      if negb (Nat.eqb (List.length found) 2)
      then throw (ValidationError "buyerId or sellerId does not exist")
      else
        let escrowContractId := trim contracts_escrow in
        if String.eqb escrowContractId ""
        then throw (PlainError
                      "Escrow contract ID not configured: contracts.escrow is empty")
        else
          let assetCode := or_default (CreateEscrowRequest.assetCode payload) "USDC" in
          unsignedXdr <- lift (buildContractInvokeXDR escrowContractId "create_escrow"
                                 [ArgString buyerId; ArgString sellerId;
                                  ArgString (Number_toString amount);
                                  ArgString assetCode;
                                  ArgString (Date_toISOString expiresAt)]) ;;
          escrow <- escrow_create
            (Escrow.mk newId buyerId sellerId (Number_toString amount) assetCode
                       PENDING None expiresAt createdAt) ;;
          broadcast (EscrowCreated (Escrow.id escrow) (Escrow.buyerId escrow)
                                   (Escrow.sellerId escrow)) ;;;
          ret (mkCreatedEscrow (Escrow.id escrow) (ensureBase64 unsignedXdr)).

Definition getEscrow (id : string) : M Escrow.t :=
  fun w =>
    match escrow_findUnique id w with
    | Some escrow => (w, Ok escrow)
    | None => (w, Err (NotFoundError "Escrow not found"))
    end.

End EscrowCreation.

(** A formatting for concrete runs: numbers and dates are written by
    their integer part in decimal digits. *)
Fixpoint digits_of (fuel : nat) (n : N) (acc : string) : string :=
  match fuel with
  | O => acc
  | S f =>
      let acc' := String (ascii_of_N (48 + n mod 10)) acc in
      if (n / 10 =? 0)%N then acc' else digits_of f (n / 10) acc'
  end.

Definition decimal_of_Z (z : Z) : string :=
  let n := Z.to_N (Z.abs z) in
  let body := digits_of (S (N.to_nat (N.log2 n))) n "" in
  if z <? 0 then String "-" body else body.

Definition stub_formatting : Formatting := {|
  Number_toString := fun q => decimal_of_Z (Qfloor q);
  Date_toISOString := decimal_of_Z
|}.

Definition escrow_request (buyerId sellerId : string) (amount : Z) (expiresAt : Z)
  : CreateEscrowRequest.t :=
  CreateEscrowRequest.mk (Some buyerId) (Some sellerId)
    (Some (JsNum (JsFinite (inject_Z amount)))) None (DateValid expiresAt).

(** [id] is the primary key of the user table. *)
Definition user_ids_unique (w : World) : Prop := NoDup (map User.id (users w)).

(* ===================================================================== *)
(** * The rate limiter (rateLimitMiddleware)                              *)
(* ===================================================================== *)

Module RateLimit.

Definition WINDOW_MS : Z := 60000.
Definition MAX_REQUESTS : Z := 100.

Record Entry : Type := mkEntry { count : Z; resetAt : Z }.

(** [requestCounts], a [Map] from the address to its entry. *)
Definition Counts : Type := list (string * Entry).

Definition get (ip : string) (m : Counts) : option Entry :=
  option_map snd (find (fun kv => String.eqb (fst kv) ip) m).

Definition set (ip : string) (e : Entry) (m : Counts) : Counts :=
  if existsb (fun kv => String.eqb (fst kv) ip) m
  then map (fun kv => if String.eqb (fst kv) ip then (ip, e) else kv) m
  else m ++ [(ip, e)].

(** The request goes on ([next()]), or is answered 429 with a
    [Retry-After] header of that many seconds. *)
Inductive Decision : Type :=
| Next
| TooManyRequests (retryAfter : Z).

(** [ip] is [req.ip], [now] is [Date.now()].  The entry is an object of
    the map: [entry.count++] writes the map. *)
Definition rateLimitMiddleware (ip : option string) (now : Z) (m : Counts)
  : Counts * Decision :=
  let ip := or_default ip "unknown" in
  match get ip m with
  | Some entry =>
      if now >? resetAt entry
      then (set ip (mkEntry 1 (now + WINDOW_MS)) m, Next)
      else
        let entry' := mkEntry (count entry + 1) (resetAt entry) in
        let m' := set ip entry' m in
        if count entry' >? MAX_REQUESTS
        then (m', TooManyRequests
                    (Qceiling (inject_Z (resetAt entry' - now) / inject_Z 1000)))
        else (m', Next)
  | None => (set ip (mkEntry 1 (now + WINDOW_MS)) m, Next)
  end.

(** The requests of a run, in the order they arrive. *)
Fixpoint run (requests : list (option string * Z)) (m : Counts)
  : Counts * list Decision :=
  match requests with
  | [] => (m, [])
  | (ip, now) :: rest =>
      let '(m1, d) := rateLimitMiddleware ip now m in
      let '(m2, ds) := run rest m1 in
      (m2, d :: ds)
  end.

(** How many requests of [ip] a run lets through. *)
Fixpoint passed (ip : string) (requests : list (option string * Z)) (ds : list Decision)
  : nat :=
  match requests, ds with
  | (i, _) :: rest, d :: ds' =>
      ((if String.eqb (or_default i "unknown") ip
        then match d with Next => 1 | TooManyRequests _ => 0 end
        else 0) + passed ip rest ds')%nat
  | _, _ => O
  end.

End RateLimit.

(* ===================================================================== *)
(** * The HTTP layer: error middleware and wallet controller              *)
(* ===================================================================== *)

Module Http.

(** The JSON body of a response: [{ success: true, data }], nothing (204),
    or [{ success: false, error }]. *)
Inductive Body : Type :=
| Wallets (data : list Wallet.t)
| IssuedChallenge (data : Challenge)
| OneWallet (data : Wallet.t)
| NoContent
| Failure (error : option string).

Record Response : Type := mkResponse { status : Z; body : Body }.

(** A [label] of a request body. *)
Inductive LabelValue : Type :=
| LabelUndefined
| LabelNull
| LabelString (s : string)
| LabelOther.

(** The fields of [req.body] the wallet controller reads; a field that is
    missing or not a string is [None]. *)
Record RequestBody : Type := mkRequestBody {
  walletAddress : option string;
  nonce : option string;
  signature : option string;
  label : LabelValue
}.

(** [user] is [req.user?.userId], [params_id] is [req.params.id]. *)
Record Request : Type := mkRequest {
  user : option string;
  payload : option RequestBody;
  params_id : string
}.

Definition field (f : RequestBody -> option string) (req : Request) : option string :=
  match payload req with
  | Some b => f b
  | None => None
  end.

End Http.

(** [err.message]; the text of a store error is not modelled. *)
Definition error_message (e : AppError) : option string :=
  match e with
  | NotFoundError m | UnauthorizedError m | ForbiddenError m | ConflictError m
  | ValidationError m | TooManyRequestsError m | PlainError m => Some m
  | PrismaError _ => None
  end.

Definition errorMiddleware (err : AppError) : Http.Response :=
  let status :=
    match err with
    | ValidationError _ => 400
    | UnauthorizedError _ => 401
    | ForbiddenError _ => 403
    | NotFoundError _ => 404
    | ConflictError _ => 409
    | TooManyRequestsError _ => 429
    | _ => 500
    end in
  Http.mkResponse status
    (Http.Failure (option_map (fun m => if String.eqb m "" then "Internal server error"
                                        else m) (error_message err))).

(** [notFoundMiddleware] hands a [NotFoundError] to the error middleware. *)
Definition notFoundMiddleware : Http.Response :=
  errorMiddleware (NotFoundError "Route not found").

(** A handler of the form [try { ... res.json(...) } catch (err) { next(err) }],
    with the error middleware last in the chain. *)
Definition respond (handler : M Http.Response) (w : World) : World * Http.Response :=
  match handler w with
  | (w', Ok res) => (w', res)
  | (w', Err e) => (w', errorMiddleware e)
  end.

Module WalletController.
Section Handlers.
Context {P : Platform}.

Definition getUserId (req : Http.Request) : result string :=
  match Http.user req with
  | Some userId =>
      if String.eqb userId "" then Err (UnauthorizedError "Unauthorized") else Ok userId
  | None => Err (UnauthorizedError "Unauthorized")
  end.

Definition listWallets (req : Http.Request) : M Http.Response :=
  userId <- lift (getUserId req) ;;
  wallets <- getUserWallets userId ;;
  ret (Http.mkResponse 200 (Http.Wallets wallets)).

Definition walletChallenge (now : Z) (entropy : nat -> byte) (req : Http.Request)
  : M Http.Response :=
  walletAddress <- lift (requireNonEmptyString (Http.field Http.walletAddress req)
                                               "walletAddress") ;;
  userId <- lift (getUserId req) ;;
  challenge <- generateChallenge now entropy (Some walletAddress) LINK_WALLET
                                 (Some userId) ;;
  ret (Http.mkResponse 200 (Http.IssuedChallenge challenge)).

Definition linkWallet (now : Z) (newId : string) (createdAt : Z) (req : Http.Request)
  : M Http.Response :=
  walletAddress <- lift (requireNonEmptyString (Http.field Http.walletAddress req)
                                               "walletAddress") ;;
  nonce <- lift (requireNonEmptyString (Http.field Http.nonce req) "nonce") ;;
  signature <- lift (requireNonEmptyString (Http.field Http.signature req)
                                           "signature") ;;
  label <- lift (match option_map Http.label (Http.payload req) with
                 | Some (Http.LabelString s) => Ok (Some s)
                 | Some Http.LabelUndefined | None => Ok None
                 | Some _ => Err (ValidationError "label must be a string")
                 end) ;;
  userId <- lift (getUserId req) ;;
  wallet <- linkWallet now newId createdAt userId walletAddress nonce signature label ;;
  ret (Http.mkResponse 201 (Http.OneWallet wallet)).

Definition unlinkWallet (req : Http.Request) : M Http.Response :=
  userId <- lift (getUserId req) ;;
  unlinkWallet userId (Http.params_id req) ;;;
  ret (Http.mkResponse 204 Http.NoContent).

Definition setPrimaryWallet (req : Http.Request) : M Http.Response :=
  userId <- lift (getUserId req) ;;
  wallet <- setPrimaryWallet userId (Http.params_id req) ;;
  ret (Http.mkResponse 200 (Http.OneWallet wallet)).

(** [const { label } = req.body] throws when there is no body; a label
    that is neither a string nor null or undefined has no [trim], and
    [label?.trim()] throws once the wallet is found.  [typeError] is the
    text the runtime gives these errors. *)
Definition updateWallet (typeError : string) (req : Http.Request) : M Http.Response :=
  match Http.payload req with
  | None => throw (PlainError typeError)
  | Some b =>
      userId <- lift (getUserId req) ;;
      wallet <-
        match Http.label b with
        | Http.LabelString s => updateWalletLabel userId (Http.params_id req) (Some s)
        | Http.LabelUndefined | Http.LabelNull =>
            updateWalletLabel userId (Http.params_id req) None
        | Http.LabelOther =>
            w <- get ;;
            match find (fun x => (String.eqb (Wallet.id x) (Http.params_id req)
                                  && String.eqb (Wallet.userId x) userId)%bool)
                       (wallets w) with
            | None => throw (NotFoundError "Wallet not found")
            | Some _ => throw (PlainError typeError)
            end
        end ;;
      ret (Http.mkResponse 200 (Http.OneWallet wallet))
  end.

End Handlers.
End WalletController.

(** What a handler may answer: the status of its success, or an error
    status with an error body and the store as it was. *)
Definition answers (success : Z) (w : World) (out : World * Http.Response) : Prop :=
  Http.status (snd out) = success
  \/ (400 <= Http.status (snd out) <= 500
      /\ fst out = w
      /\ exists error, Http.body (snd out) = Http.Failure error).

(* ===================================================================== *)
(** * UserService (server/src/services/user.service.ts)                   *)
(* ===================================================================== *)

(** [orderBy: [{ isPrimary: "desc" }, { createdAt: "asc" }]] *)
Definition wallet_order (a b : Wallet.t) : bool :=
  if Bool.eqb (Wallet.isPrimary a) (Wallet.isPrimary b)
  then Wallet.createdAt a <=? Wallet.createdAt b
  else Wallet.isPrimary a.

(** The user with its wallets, the primary one also on its own. *)
Record UserProfile : Type := mkUserProfile {
  profile_user : User.t;
  profile_primaryWallet : option Wallet.t;
  profile_wallets : list Wallet.t
}.

(** [user.upsert({ where: { stellarAddress }, update: {}, create: { stellarAddress } })];
    [newId] is the id the store gives a new row. *)
Definition user_upsert (newId stellarAddress : string) : M User.t :=
  fun w =>
    match find (fun u => String.eqb (User.stellarAddress u) stellarAddress) (users w) with
    | Some existing => (w, Ok existing)
    | None =>
        if existsb (fun u => String.eqb (User.id u) newId) (users w)
        then (w, Err (PrismaError "P2002"))
        else (set_users (users w ++ [User.mk newId stellarAddress]) w,
              Ok (User.mk newId stellarAddress))
    end.

Module UserService.
Section Service.
Context {P : Platform}.

Definition normalise (address : string) : string := toUpperCase (trim address).

Definition getUserById (id : string) : M UserProfile :=
  fun w =>
    match find (fun u => String.eqb (User.id u) id) (users w) with
    | None => (w, Err (NotFoundError "User not found"))
    | Some user =>
        let wallets := sort_by wallet_order (user_wallets (User.id user) w) in
        (w, Ok (mkUserProfile user (find Wallet.isPrimary wallets) wallets))
    end.

Definition createUser (newId : string) (stellarAddress : option string) : M User.t :=
  match stellarAddress with
  | Some s =>
      if String.eqb (trim s) ""
      then throw (ValidationError "stellarAddress is required")
      else
        let normalised := normalise s in
        lift (assertValidStellarAddress normalised) ;;;
        user_upsert newId normalised
  | None => throw (ValidationError "stellarAddress is required")
  end.

End Service.
End UserService.

(** [stellarAddress] is a unique column of the user table. *)
Definition user_addresses_unique (w : World) : Prop :=
  NoDup (map User.stellarAddress (users w)).

(* ===================================================================== *)
(** * The websocket connection set (websocket.service.ts)                 *)
(* ===================================================================== *)

Module Ws.

Inductive ReadyState : Type := CONNECTING | OPEN | CLOSING | CLOSED.

Definition readyState_eqb (a b : ReadyState) : bool :=
  match a, b with
  | CONNECTING, CONNECTING | OPEN, OPEN | CLOSING, CLOSING | CLOSED, CLOSED => true
  | _, _ => false
  end.

(** A socket object: [ref] is its identity, [isAlive] the flag the
    service keeps on it, [readyState] the state the [ws] library keeps. *)
Record ExtendedWebSocket : Type := mkSocket {
  ref : nat;
  isAlive : bool;
  readyState : ReadyState
}.

Definition set_isAlive (v : bool) (ws : ExtendedWebSocket) : ExtendedWebSocket :=
  mkSocket (ref ws) v (readyState ws).

Definition set_readyState (v : ReadyState) (ws : ExtendedWebSocket) : ExtendedWebSocket :=
  mkSocket (ref ws) (isAlive ws) v.

Inductive WebSocketEvent : Type :=
| ESCROW_CREATED (escrowId buyerId sellerId : string)
| ESCROW_UPDATED (escrowId status : string)
| LOAN_UPDATED (loanId status : string)
| GOVERNANCE_VOTE_CAST (proposalId : string) (newTally : Q).

(** Calls made on the sockets. *)
Inductive Call : Type :=
| Terminate (target : nat)
| Ping (target : nat)
| Send (target : nat) (message : string)
| Close (target : nat).

(** [connections]: a [Set] of socket objects in insertion order. *)
Definition Connections : Type := list ExtendedWebSocket.

Definition has (r : nat) (connections : Connections) : bool :=
  existsb (fun ws => Nat.eqb (ref ws) r) connections.

Definition delete (r : nat) (connections : Connections) : Connections :=
  filter (fun ws => negb (Nat.eqb (ref ws) r)) connections.

(** Writing a field of the object [r], seen through the set. *)
Definition update (r : nat) (f : ExtendedWebSocket -> ExtendedWebSocket)
  (connections : Connections) : Connections :=
  map (fun ws => if Nat.eqb (ref ws) r then f ws else ws) connections.

(** The callback of the 30 s interval, run by [forEach] on every
    connection: the connections that stay, and the calls made. *)
Fixpoint heartbeat (connections : Connections) : Connections * list Call :=
  match connections with
  | [] => ([], [])
  | ws :: rest =>
      let (kept, calls) := heartbeat rest in
      if negb (isAlive ws) then (kept, Terminate (ref ws) :: calls)
      else (set_isAlive false ws :: kept, Ping (ref ws) :: calls)
  end.

(** [addConnection]: [ws] is the object [r], in state [state] when it is
    not in the set yet. *)
Definition addConnection (r : nat) (state : ReadyState) (connections : Connections)
  : Connections :=
  if has r connections then update r (set_isAlive true) connections
  else connections ++ [mkSocket r true state].

(** The three handlers [addConnection] registers on the socket. *)
Definition on_pong (r : nat) (connections : Connections) : Connections :=
  update r (set_isAlive true) connections.

Definition on_close (r : nat) (connections : Connections) : Connections :=
  delete r connections.

Definition on_error (r : nat) (connections : Connections) : Connections :=
  delete r connections.

Section Broadcasting.
Variable JSON_stringify : WebSocketEvent -> string.

Definition broadcastEvent (event : WebSocketEvent) (connections : Connections)
  : list Call :=
  let message := JSON_stringify event in
  flat_map (fun ws => if readyState_eqb (readyState ws) OPEN
                      then [Send (ref ws) message] else []) connections.

End Broadcasting.

Definition getConnectionCount (connections : Connections) : nat :=
  List.length connections.

Definition cleanup (connections : Connections) : Connections * list Call :=
  ([], map (fun ws => Close (ref ws)) connections).

(** What happens to a [WsState] after its construction. *)
Inductive Happening : Type :=
| Added (r : nat) (state : ReadyState)
| Pong (r : nat)
| Closed (r : nat)
| Failed (r : nat)
| Interval
| StateChanged (r : nat) (state : ReadyState).

Definition happen (connections : Connections) (h : Happening) : Connections :=
  match h with
  | Added r state => addConnection r state connections
  | Pong r => on_pong r connections
  | Closed r => on_close r connections
  | Failed r => on_error r connections
  | Interval => fst (heartbeat connections)
  | StateChanged r state => update r (set_readyState state) connections
  end.

Definition after (history : list Happening) : Connections :=
  fold_left happen history [].

Definition refs (connections : Connections) : list nat := map ref connections.

Definition answered (r : nat) (history : list Happening) : bool :=
  existsb (fun h => match h with Pong r' => Nat.eqb r' r | _ => false end) history.

Definition only_pongs (history : list Happening) : bool :=
  forallb (fun h => match h with Pong _ => true | _ => false end) history.

End Ws.

(** Every connection with identity [r] is waiting for a pong. *)
Definition ws_silent (r : nat) (connections : Ws.Connections) : Prop :=
  forall ws, In ws connections -> Ws.ref ws = r -> Ws.isAlive ws = false.

(* ===================================================================== *)
(** * Facts about decimal.js arithmetic                                   *)
(* ===================================================================== *)

Module DecimalFacts.
Import Decimal.

Lemma ndigits_aux_nonpos (fuel : nat) (n : Z) : n <= 0 -> ndigits_aux fuel n = 0.
Proof.
  intros Hn. destruct fuel as [|f]; simpl; [reflexivity|].
  destruct (n <=? 0) eqn:E; [reflexivity|]. apply Z.leb_gt in E. lia.
Qed.

Lemma ndigits_aux_spec (fuel : nat) :
  forall n, 0 < n < 2 ^ Z.of_nat fuel ->
    1 <= ndigits_aux fuel n /\
    10 ^ (ndigits_aux fuel n - 1) <= n < 10 ^ ndigits_aux fuel n.
Proof.
  induction fuel as [|f IH]; intros n Hn.
  - simpl in Hn. lia.
  - cbn [ndigits_aux]. destruct (n <=? 0) eqn:E.
    { apply Z.leb_le in E. lia. }
    destruct (Z_lt_le_dec n 10) as [Hs|Hb].
    + rewrite (ndigits_aux_nonpos f (n / 10)).
      2:{ rewrite Z.div_small by lia. lia. }
      replace (1 + 0 - 1) with 0 by lia. replace (1 + 0) with 1 by lia.
      simpl. lia.
    + assert (Hq : 0 < n / 10 < 2 ^ Z.of_nat f).
      { split.
        - apply Z.div_str_pos. lia.
        - rewrite Nat2Z.inj_succ, Z.pow_succ_r in Hn by lia.
          apply Z.div_lt_upper_bound; lia. }
      destruct (IH _ Hq) as [H1 [H2 H3]].
      set (r := ndigits_aux f (n / 10)) in *.
      split; [lia|].
      replace (1 + r - 1) with (Z.succ (r - 1)) by lia.
      replace (1 + r) with (Z.succ r) by lia.
      rewrite !Z.pow_succ_r by lia.
      pose proof (Z.div_mod n 10 ltac:(lia)) as Hd.
      pose proof (Z.mod_pos_bound n 10 ltac:(lia)) as Hm.
      lia.
Qed.

Lemma ndigits_spec (n : Z) :
  0 < n -> 1 <= ndigits n /\ 10 ^ (ndigits n - 1) <= n < 10 ^ ndigits n.
Proof.
  intros Hn. unfold ndigits. apply ndigits_aux_spec. split; [lia|].
  rewrite Nat2Z.inj_succ, Z2Nat.id by apply Z.log2_nonneg.
  apply Z.log2_spec. lia.
Qed.

Lemma ndigits_zero (n : Z) : n <= 0 -> ndigits n = 0.
Proof. intros. unfold ndigits. apply ndigits_aux_nonpos. assumption. Qed.

Lemma ndigits_nonneg (n : Z) : 0 <= ndigits n.
Proof.
  destruct (Z_lt_le_dec 0 n) as [H|H].
  - destruct (ndigits_spec n H). lia.
  - rewrite ndigits_zero; lia.
Qed.

(** A positive integer below [10 ^ k] has at most [k] digits. *)
Lemma ndigits_le (n k : Z) : 0 <= k -> n < 10 ^ k -> ndigits n <= k.
Proof.
  intros Hk Hn. destruct (Z_lt_le_dec 0 n) as [H|H].
  - destruct (ndigits_spec n H) as [H1 [H2 _]].
    destruct (Z_lt_le_dec k (ndigits n)) as [Hlt|]; [|lia].
    assert (10 ^ k <= 10 ^ (ndigits n - 1)) by (apply Z.pow_le_mono_r; lia).
    lia.
  - rewrite ndigits_zero; lia.
Qed.

Lemma pow10_pos (k : Z) : 0 <= k -> 0 < 10 ^ k.
Proof. intros. apply Z.pow_pos_nonneg; lia. Qed.

Lemma pow10_split (a b : Z) : 0 <= a -> 0 <= b -> 10 ^ (a + b) = 10 ^ a * 10 ^ b.
Proof. intros. apply Z.pow_add_r; assumption. Qed.

(** Comparison can be made at any exponent below both operands. *)
Lemma align_lower (lo lo' : Z) (d : t) :
  lo' <= lo -> lo <= exp d -> align lo' d = align lo d * 10 ^ (lo - lo').
Proof.
  intros H1 H2. unfold align.
  replace (exp d - lo') with ((exp d - lo) + (lo - lo')) by lia.
  rewrite pow10_split by lia. ring.
Qed.

Lemma cmp_at (lo : Z) (x y : t) :
  lo <= exp x -> lo <= exp y -> cmp x y = (align lo x ?= align lo y).
Proof.
  intros Hx Hy. unfold cmp.
  set (m := Z.min (exp x) (exp y)).
  rewrite (align_lower m lo x), (align_lower m lo y) by (subst m; lia).
  apply Zmult_compare_compat_r.
  apply Z.lt_gt, pow10_pos. subst m; lia.
Qed.

Lemma cmp_le_at (lo : Z) (x y : t) :
  lo <= exp x -> lo <= exp y -> (cmp x y <> Gt <-> align lo x <= align lo y).
Proof.
  intros Hx Hy. rewrite (cmp_at lo) by assumption. symmetry. apply Z.compare_le_iff.
Qed.


Lemma cmp_antisym (x y : t) : cmp y x = CompOpp (cmp x y).
Proof.
  unfold cmp. rewrite (Z.min_comm (exp y) (exp x)). apply Z.compare_antisym.
Qed.

Lemma cmp_ZERO (x : t) : cmp x ZERO = (coef x ?= 0).
Proof.
  unfold cmp, align, ZERO; simpl.
  set (lo := Z.min (exp x) 0).
  rewrite (Zmult_compare_compat_r (coef x) 0 (10 ^ (exp x - lo))).
  - reflexivity.
  - apply Z.lt_gt, pow10_pos. subst lo. lia.
Qed.



(** ** Rounding to [precision] digits *)

Lemma half_lt_unit (k : Z) : 0 < k -> 0 <= 5 * 10 ^ (k - 1) < 10 ^ k.
Proof.
  intros Hk.
  assert (E : 10 ^ k = 10 * 10 ^ (k - 1)).
  { rewrite <- Z.pow_succ_r by lia. f_equal. lia. }
  pose proof (pow10_pos (k - 1) ltac:(lia)). lia.
Qed.

Lemma round_multiple (m k : Z) :
  0 < k -> (m * 10 ^ k + 5 * 10 ^ (k - 1)) / 10 ^ k = m.
Proof.
  intros Hk. pose proof (half_lt_unit k Hk). pose proof (pow10_pos k ltac:(lia)).
  rewrite Z.div_add_l by lia. rewrite Z.div_small by lia. lia.
Qed.

Lemma round_core_upper (c k cy a b : Z) :
  0 < k -> 0 <= a -> 0 <= b ->
  10 ^ (19 + k) <= c -> 0 <= cy <= 10 ^ 20 ->
  c * 10 ^ a <= cy * 10 ^ b ->
  (c + 5 * 10 ^ (k - 1)) / 10 ^ k * 10 ^ (a + k) <= cy * 10 ^ b.
Proof.
  intros Hk Ha Hb Hc Hcy Hle.
  pose proof (pow10_pos k ltac:(lia)) as HK.
  pose proof (pow10_pos a Ha) as HA.
  rewrite (pow10_split a k) by lia.
  destruct (Z_le_gt_dec (a + k) b) as [Hcase|Hcase].
  - replace b with ((b - a - k) + (a + k)) in * by lia.
    rewrite (pow10_split (b - a - k) (a + k)) in * by lia.
    rewrite (pow10_split a k) in * by lia.
    set (m := cy * 10 ^ (b - a - k)) in *.
    assert (Hcm : c <= m * 10 ^ k).
    { apply (Z.mul_le_mono_pos_r _ _ (10 ^ a)); [assumption|]. subst m. lia. }
    assert (Hr : (c + 5 * 10 ^ (k - 1)) / 10 ^ k <= m).
    { rewrite <- (round_multiple m k Hk). apply Z.div_le_mono; lia. }
    replace (cy * (10 ^ (b - a - k) * (10 ^ a * 10 ^ k))) with (m * (10 ^ a * 10 ^ k))
      by (subst m; ring).
    apply Z.mul_le_mono_nonneg_r; lia.
  - assert (Hy : cy * 10 ^ b <= 10 ^ (19 + k) * 10 ^ a).
    { rewrite <- pow10_split by lia.
      apply Z.le_trans with (10 ^ 20 * 10 ^ b).
      - apply Z.mul_le_mono_nonneg_r; [apply Z.lt_le_incl, pow10_pos|]; lia.
      - rewrite <- pow10_split by lia. apply Z.pow_le_mono_r; lia. }
    assert (Hx : 10 ^ (19 + k) * 10 ^ a <= c * 10 ^ a)
      by (apply Z.mul_le_mono_nonneg_r; lia).
    assert (Hceq : c = 10 ^ (19 + k)).
    { apply (Z.mul_cancel_r _ _ (10 ^ a)); lia. }
    rewrite Hceq, (pow10_split 19 k) by lia.
    rewrite round_multiple by lia.
    rewrite (pow10_split 19 k) in Hx, Hy by lia. lia.
Qed.

Lemma round_core_lower (c k cy a b : Z) :
  0 < k -> 0 <= a -> 0 <= b ->
  10 ^ (19 + k) <= c -> 0 <= cy <= 10 ^ 20 ->
  cy * 10 ^ b <= c * 10 ^ a ->
  cy * 10 ^ b <= (c + 5 * 10 ^ (k - 1)) / 10 ^ k * 10 ^ (a + k).
Proof.
  intros Hk Ha Hb Hc Hcy Hle.
  pose proof (pow10_pos k ltac:(lia)) as HK.
  pose proof (pow10_pos a Ha) as HA.
  pose proof (half_lt_unit k Hk) as Hh.
  rewrite (pow10_split a k) by lia.
  destruct (Z_le_gt_dec (a + k) b) as [Hcase|Hcase].
  - replace b with ((b - a - k) + (a + k)) in * by lia.
    rewrite (pow10_split (b - a - k) (a + k)) in * by lia.
    rewrite (pow10_split a k) in * by lia.
    set (m := cy * 10 ^ (b - a - k)) in *.
    assert (Hcm : m * 10 ^ k <= c).
    { apply (Z.mul_le_mono_pos_r _ _ (10 ^ a)); [assumption|]. subst m. lia. }
    assert (Hr : m <= (c + 5 * 10 ^ (k - 1)) / 10 ^ k).
    { apply Z.div_le_lower_bound; lia. }
    replace (cy * (10 ^ (b - a - k) * (10 ^ a * 10 ^ k))) with (m * (10 ^ a * 10 ^ k))
      by (subst m; ring).
    apply Z.mul_le_mono_nonneg_r; lia.
  - assert (Hy : cy * 10 ^ b <= 10 ^ 19 * (10 ^ a * 10 ^ k)).
    { rewrite <- !pow10_split by lia.
      apply Z.le_trans with (10 ^ 20 * 10 ^ b).
      - apply Z.mul_le_mono_nonneg_r; [apply Z.lt_le_incl, pow10_pos|]; lia.
      - rewrite <- pow10_split by lia. apply Z.pow_le_mono_r; lia. }
    assert (Hr : 10 ^ 19 <= (c + 5 * 10 ^ (k - 1)) / 10 ^ k).
    { apply Z.div_le_lower_bound; [lia|].
      rewrite (pow10_split 19 k) in Hc by lia. lia. }
    apply Z.le_trans with (1 := Hy).
    apply Z.mul_le_mono_nonneg_r; lia.
Qed.

(** The shape of [finalise] on a positive coefficient that is too long. *)
Lemma finalise_long (d : t) :
  0 < coef d -> precision < ndigits (coef d) ->
  finalise d =
  mk ((coef d + 5 * 10 ^ (ndigits (coef d) - precision - 1))
        / 10 ^ (ndigits (coef d) - precision))
     (exp d + (ndigits (coef d) - precision)).
Proof.
  intros Hc Hn. unfold finalise.
  rewrite (Z.abs_eq (coef d)) by lia.
  destruct (ndigits (coef d) <=? precision) eqn:E.
  { apply Z.leb_le in E. lia. }
  rewrite Z.sgn_pos by lia. f_equal.
  replace (ndigits (coef d) - precision - 1) with (ndigits (coef d) - precision - 1) by lia.
  rewrite Z.mul_1_l. reflexivity.
Qed.

Lemma finalise_short (d : t) : fits d -> finalise d = d.
Proof.
  unfold fits, finalise. intros H.
  destruct (ndigits (Z.abs (coef d)) <=? precision) eqn:E; [reflexivity|].
  apply Z.leb_gt in E. lia.
Qed.

(** Rounding never crosses a value of at most [precision] digits. *)
Lemma finalise_upper (x y : t) :
  0 <= coef x -> 0 <= coef y <= 10 ^ precision ->
  cmp x y <> Gt -> cmp (finalise x) y <> Gt.
Proof.
  intros Hx Hy Hle.
  destruct (Z_le_gt_dec (ndigits (Z.abs (coef x))) precision) as [Hs|Hl].
  { rewrite finalise_short; assumption. }
  rewrite Z.abs_eq in Hl by lia.
  assert (Hpos : 0 < coef x).
  { destruct (Z.eq_dec (coef x) 0) as [E|]; [|lia].
    rewrite E in Hl. rewrite ndigits_zero in Hl; unfold precision in *; lia. }
  rewrite finalise_long by lia.
  destruct (ndigits_spec (coef x) Hpos) as [_ [Hlo _]].
  set (k := ndigits (coef x) - precision) in *.
  set (lo := Z.min (exp x) (exp y)).
  assert (Hle' : align lo x <= align lo y)
    by (apply (cmp_le_at lo); [subst lo; lia | subst lo; lia | exact Hle]).
  apply (cmp_le_at lo); [cbn [exp]; subst lo; lia | subst lo; lia |].
  unfold align in *. cbn [coef exp].
  replace (ndigits (coef x) - precision - 1) with (k - 1) by (subst k; lia).
  replace (exp x + k - lo) with ((exp x - lo) + k) by lia.
  apply round_core_upper; try (subst lo k; unfold precision in *; lia).
  replace (19 + k) with (ndigits (coef x) - 1) by (subst k; unfold precision; lia).
  assumption.
Qed.

Lemma finalise_lower (x y : t) :
  0 <= coef x -> 0 <= coef y <= 10 ^ precision ->
  cmp y x <> Gt -> cmp y (finalise x) <> Gt.
Proof.
  intros Hx Hy Hle.
  destruct (Z_le_gt_dec (ndigits (Z.abs (coef x))) precision) as [Hs|Hl].
  { rewrite finalise_short; assumption. }
  rewrite Z.abs_eq in Hl by lia.
  assert (Hpos : 0 < coef x).
  { destruct (Z.eq_dec (coef x) 0) as [E|]; [|lia].
    rewrite E in Hl. rewrite ndigits_zero in Hl; unfold precision in *; lia. }
  rewrite finalise_long by lia.
  destruct (ndigits_spec (coef x) Hpos) as [_ [Hlo _]].
  set (k := ndigits (coef x) - precision) in *.
  set (lo := Z.min (exp x) (exp y)).
  assert (Hle' : align lo y <= align lo x)
    by (apply (cmp_le_at lo); [subst lo; lia | subst lo; lia | exact Hle]).
  apply (cmp_le_at lo); [subst lo; lia | cbn [exp]; subst lo; lia |].
  unfold align in *. cbn [coef exp].
  replace (ndigits (coef x) - precision - 1) with (k - 1) by (subst k; lia).
  replace (exp x + k - lo) with ((exp x - lo) + k) by lia.
  apply round_core_lower; try (subst lo k; unfold precision in *; lia).
  replace (19 + k) with (ndigits (coef x) - 1) by (subst k; unfold precision; lia).
  assumption.
Qed.





(** ** Division *)

Lemma div_positive (x y : t) :
  0 < coef x -> 0 < coef y ->
  div x y = finalise (mk (coef x * 10 ^ (ndigits (coef y) + precision + 1) / coef y)
                         (exp x - exp y - (ndigits (coef y) + precision + 1))).
Proof.
  intros Hx Hy. unfold div.
  rewrite !Z.abs_eq, !Z.sgn_pos by lia. rewrite !Z.mul_1_l. reflexivity.
Qed.

(** The truncated quotient has more than [precision + 1] digits. *)
Lemma quotient_long (cc ca : Z) :
  0 < cc -> 0 < ca ->
  10 ^ 21 <= cc * 10 ^ (ndigits ca + precision + 1) / ca.
Proof.
  intros Hc Ha. destruct (ndigits_spec ca Ha) as [Hn [_ Hhi]].
  apply Z.div_le_lower_bound; [assumption|].
  replace (ndigits ca + precision + 1) with (ndigits ca + 21) by (unfold precision; lia).
  rewrite pow10_split by lia.
  pose proof (pow10_pos 21 ltac:(lia)). pose proof (pow10_pos (ndigits ca) ltac:(lia)).
  nia.
Qed.

Lemma quotient_lower (cc ca cy g h s d : Z) :
  0 < ca -> 0 <= g -> 0 <= h -> 0 <= s -> 0 <= d -> g + s = d + h ->
  cy * ca * 10 ^ g <= cc * 10 ^ h ->
  cy * 10 ^ d <= cc * 10 ^ s / ca.
Proof.
  intros Ha Hg Hh Hs Hd E H.
  apply Z.div_le_lower_bound; [assumption|].
  apply (Z.mul_le_mono_pos_r _ _ (10 ^ h)); [apply pow10_pos; assumption|].
  replace (ca * (cy * 10 ^ d) * 10 ^ h) with (cy * ca * (10 ^ d * 10 ^ h)) by ring.
  rewrite <- pow10_split, <- E, pow10_split by lia.
  replace (cc * 10 ^ s * 10 ^ h) with (cc * 10 ^ h * 10 ^ s) by ring.
  replace (cy * ca * (10 ^ g * 10 ^ s)) with (cy * ca * 10 ^ g * 10 ^ s) by ring.
  apply Z.mul_le_mono_nonneg_r; [apply Z.lt_le_incl, pow10_pos|]; assumption.
Qed.

Lemma quotient_upper (cc ca cy g h s d : Z) :
  0 < ca -> 0 <= g -> 0 <= h -> 0 <= s -> 0 <= d -> g + s = d + h ->
  cc * 10 ^ h <= cy * ca * 10 ^ g ->
  cc * 10 ^ s / ca <= cy * 10 ^ d.
Proof.
  intros Ha Hg Hh Hs Hd E H.
  apply Z.div_le_upper_bound; [assumption|].
  apply (Z.mul_le_mono_pos_r _ _ (10 ^ h)); [apply pow10_pos; assumption|].
  replace (ca * (cy * 10 ^ d) * 10 ^ h) with (cy * ca * (10 ^ d * 10 ^ h)) by ring.
  rewrite <- pow10_split, <- E, pow10_split by lia.
  replace (cc * 10 ^ s * 10 ^ h) with (cc * 10 ^ h * 10 ^ s) by ring.
  replace (cy * ca * (10 ^ g * 10 ^ s)) with (cy * ca * 10 ^ g * 10 ^ s) by ring.
  apply Z.mul_le_mono_nonneg_r; [apply Z.lt_le_incl, pow10_pos|]; assumption.
Qed.

(** A quotient is at least any value of at most [precision] digits that
    the exact quotient reaches. *)
Lemma div_lower (c a y : t) :
  0 < coef c -> 0 < coef a -> 0 <= coef y <= 10 ^ precision ->
  cmp (mul_exact y a) c <> Gt -> cmp y (div c a) <> Gt.
Proof.
  intros Hc Ha Hy H. rewrite div_positive by assumption.
  set (s := ndigits (coef a) + precision + 1).
  assert (Hs : 0 <= s) by (pose proof (ndigits_nonneg (coef a)); subst s; unfold precision; lia).
  pose proof (quotient_long (coef c) (coef a) Hc Ha) as Hq. fold s in Hq.
  apply finalise_lower; cbn [coef]; [pose proof (pow10_pos 21 ltac:(lia)); lia|assumption|].
  set (lo' := Z.min (exp y + exp a) (exp c)).
  assert (H' : align lo' (mul_exact y a) <= align lo' c)
    by (apply (cmp_le_at lo'); [unfold mul_exact; cbn [exp]; subst lo'; lia|subst lo'; lia|exact H]).
  unfold align, mul_exact in H'. cbn [coef exp] in H'.
  set (E := exp c - exp a - s).
  set (lo := Z.min (exp y) E).
  apply (cmp_le_at lo); [subst lo; lia|cbn [exp]; subst lo; lia|].
  unfold align. cbn [coef exp]. fold E.
  destruct (Z_le_gt_dec E (exp y)) as [Hcase|Hcase].
  - replace lo with E by (subst lo; lia).
    replace (E - E) with 0 by lia. rewrite Z.pow_0_r, Z.mul_1_r.
    apply (quotient_lower _ _ _ (exp y + exp a - lo') (exp c - lo'));
      first [exact H' | subst lo' E; lia].
  - replace lo with (exp y) by (subst lo; lia).
    replace (exp y - exp y) with 0 by lia. rewrite Z.pow_0_r, Z.mul_1_r.
    pose proof (pow10_pos (E - exp y) ltac:(lia)).
    assert (10 ^ precision <= 10 ^ 21) by (apply Z.pow_le_mono_r; unfold precision; lia).
    nia.
Qed.

(** A quotient is at most any value of at most [precision] digits that
    the exact quotient does not exceed. *)
Lemma div_upper (c a y : t) :
  0 < coef c -> 0 < coef a -> 0 <= coef y <= 10 ^ precision ->
  cmp c (mul_exact y a) <> Gt -> cmp (div c a) y <> Gt.
Proof.
  intros Hc Ha Hy H. rewrite div_positive by assumption.
  set (s := ndigits (coef a) + precision + 1).
  assert (Hs : 0 <= s) by (pose proof (ndigits_nonneg (coef a)); subst s; unfold precision; lia).
  pose proof (quotient_long (coef c) (coef a) Hc Ha) as Hq. fold s in Hq.
  apply finalise_upper; cbn [coef]; [pose proof (pow10_pos 21 ltac:(lia)); lia|assumption|].
  set (lo' := Z.min (exp y + exp a) (exp c)).
  assert (H' : align lo' c <= align lo' (mul_exact y a))
    by (apply (cmp_le_at lo'); [subst lo'; lia|unfold mul_exact; cbn [exp]; subst lo'; lia|exact H]).
  unfold align, mul_exact in H'. cbn [coef exp] in H'.
  set (E := exp c - exp a - s).
  set (lo := Z.min (exp y) E).
  apply (cmp_le_at lo); [cbn [exp]; subst lo; lia|subst lo; lia|].
  unfold align. cbn [coef exp]. fold E.
  destruct (Z_le_gt_dec E (exp y)) as [Hcase|Hcase].
  - replace lo with E by (subst lo; lia).
    replace (E - E) with 0 by lia. rewrite Z.pow_0_r, Z.mul_1_r.
    apply (quotient_upper _ _ _ (exp y + exp a - lo') (exp c - lo'));
      first [exact H' | subst lo' E; lia].
  - exfalso.
    set (q := coef c * 10 ^ s / coef a) in *.
    assert (Hqa : q * coef a <= coef c * 10 ^ s).
    { subst q. rewrite Z.mul_comm. apply Z.mul_div_le. assumption. }
    set (g := exp y + exp a - lo') in *. set (h := exp c - lo') in *.
    assert (Hg : 0 <= g) by (subst g lo'; lia).
    assert (Hh : h = (E - exp y) + (g + s)) by (subst h g E; lia).
    pose proof (pow10_pos (g + s) ltac:(lia)) as HT.
    pose proof (pow10_pos (E - exp y) ltac:(lia)) as HD.
    pose proof (pow10_pos s Hs) as HS.
    assert (H1 : q * coef a * 10 ^ h <= coef y * coef a * 10 ^ g * 10 ^ s).
    { apply Z.le_trans with (coef c * 10 ^ s * 10 ^ h).
      - apply Z.mul_le_mono_nonneg_r; [apply Z.lt_le_incl, pow10_pos; lia|assumption].
      - replace (coef c * 10 ^ s * 10 ^ h) with (coef c * 10 ^ h * 10 ^ s) by ring.
        apply Z.mul_le_mono_nonneg_r; [lia|assumption]. }
    rewrite Hh, (pow10_split (E - exp y) (g + s)) in H1 by lia.
    replace (coef y * coef a * 10 ^ g * 10 ^ s) with (coef y * coef a * 10 ^ (g + s)) in H1
      by (rewrite (pow10_split g s) by lia; ring).
    assert (H2 : q * 10 ^ (E - exp y) <= coef y).
    { apply (Z.mul_le_mono_pos_r _ _ (coef a * 10 ^ (g + s))); [nia|].
      replace (q * 10 ^ (E - exp y) * (coef a * 10 ^ (g + s)))
        with (q * coef a * (10 ^ (E - exp y) * 10 ^ (g + s))) by ring.
      replace (coef y * (coef a * 10 ^ (g + s))) with (coef y * coef a * 10 ^ (g + s)) by ring.
      exact H1. }
    assert (10 ^ precision < 10 ^ 21) by (apply Z.pow_lt_mono_r; unfold precision; lia).
    nia.
Qed.

Lemma cmp_le_lt_trans (x y z : t) : cmp x y <> Gt -> cmp y z = Lt -> cmp x z = Lt.
Proof.
  intros H1 H2. set (lo := Z.min (exp x) (Z.min (exp y) (exp z))).
  rewrite (cmp_at lo x y) in H1 by (subst lo; lia).
  rewrite (cmp_at lo y z) in H2 by (subst lo; lia).
  rewrite (cmp_at lo x z) by (subst lo; lia).
  change (align lo x <= align lo y) in H1.
  pose proof (proj1 (Z.compare_lt_iff _ _) H2) as H2'.
  apply Z.compare_lt_iff. lia.
Qed.

Lemma cmp_positive (x : t) : lte x ZERO = false -> 0 < coef x.
Proof.
  unfold lte. rewrite cmp_ZERO. destruct (coef x ?= 0) eqn:E; try discriminate.
  intros _. apply Z.compare_gt_iff in E. lia.
Qed.

(** ** Subtraction *)













End DecimalFacts.

(* ===================================================================== *)
(** * Lists as tables                                                     *)
(* ===================================================================== *)

Section Keyed.
Context {A : Type} (key : A -> string).

Lemma find_map_keyed (f : A -> A) (k : string) (l : list A) :
  (forall x, key (f x) = key x) ->
  find (fun x => String.eqb (key x) k) (map f l)
  = option_map f (find (fun x => String.eqb (key x) k) l).
Proof.
  intros Hf. unfold find. induction l as [|a l IH]; simpl; [reflexivity|].
  rewrite Hf. destruct (String.eqb (key a) k); [reflexivity|exact IH].
Qed.

Lemma find_some_keyed (k : string) (l : list A) (a : A) :
  find (fun x => String.eqb (key x) k) l = Some a -> In a l /\ key a = k.
Proof.
  unfold find. intros H. apply find_some in H. destruct H as [H1 H2].
  split; [assumption|]. apply String.eqb_eq. assumption.
Qed.

Lemma find_none_keyed (k : string) (l : list A) :
  find (fun x => String.eqb (key x) k) l = None ->
  filter (fun x => String.eqb (key x) k) l = [].
Proof.
  unfold find. induction l as [|a l IH]; simpl; [reflexivity|].
  destruct (String.eqb (key a) k); [discriminate|exact IH].
Qed.

Lemma filter_absent (k : string) (l : list A) :
  ~ In k (map key l) -> filter (fun x => String.eqb (key x) k) l = [].
Proof.
  induction l as [|a l IH]; simpl; intros H; [reflexivity|].
  destruct (String.eqb (key a) k) eqn:E.
  - apply String.eqb_eq in E. tauto.
  - apply IH. tauto.
Qed.

(** Under a unique key, the row found is the only row with that key. *)
Lemma filter_unique (k : string) (l : list A) (a : A) :
  NoDup (map key l) ->
  find (fun x => String.eqb (key x) k) l = Some a ->
  filter (fun x => String.eqb (key x) k) l = [a].
Proof.
  unfold find. induction l as [|b l IH]; simpl; intros Hnd H; [discriminate|].
  inversion Hnd as [|? ? Hnin Hnd']; subst.
  destruct (String.eqb (key b) k) eqn:E.
  - injection H as ->. apply String.eqb_eq in E. subst k.
    rewrite filter_absent by assumption. reflexivity.
  - apply IH; assumption.
Qed.

Lemma filter_and (p q : A -> bool) (l : list A) :
  filter (fun x => (p x && q x)%bool) l = filter q (filter p l).
Proof.
  induction l as [|a l IH]; simpl; [reflexivity|].
  destruct (p a); simpl; [destruct (q a)|]; rewrite IH; reflexivity.
Qed.

Lemma keyed_inj (l : list A) (a b : A) :
  NoDup (map key l) -> In a l -> In b l -> key a = key b -> a = b.
Proof.
  induction l as [|c l IH]; simpl; intros Hnd Ha Hb E; [contradiction|].
  inversion Hnd as [|? ? Hnin Hnd']; subst.
  destruct Ha as [->|Ha], Hb as [->|Hb].
  - reflexivity.
  - exfalso. apply Hnin. rewrite E. apply in_map. assumption.
  - exfalso. apply Hnin. rewrite <- E. apply in_map. assumption.
  - apply IH; assumption.
Qed.

Lemma map_key_map (f : A -> A) (l : list A) :
  (forall x, key (f x) = key x) -> map key (map f l) = map key l.
Proof.
  intros Hf. rewrite map_map. apply map_ext. assumption.
Qed.

End Keyed.

(* ===================================================================== *)
(** * Escrow status transitions                                           *)
(* ===================================================================== *)

Lemma status_eqb_eq (a b : EscrowStatus) : status_eqb a b = true <-> a = b.
Proof. destruct a, b; simpl; split; intros H; try reflexivity; discriminate. Qed.

Lemma status_eqb_refl (a : EscrowStatus) : status_eqb a a = true.
Proof. destruct a; reflexivity. Qed.

Lemma allowed_refl (s : EscrowStatus) : allowed s s = true.
Proof. destruct s; reflexivity. Qed.

Lemma allowed_trans (a b c : EscrowStatus) :
  allowed a b = true -> allowed b c = true -> allowed a c = true.
Proof. destruct a, b, c; simpl; intros H1 H2; try reflexivity; discriminate. Qed.

Lemma along_table_refl (w : World) : along_table w w.
Proof. intros id e H. exists e. split; [assumption|apply allowed_refl]. Qed.

Lemma along_table_trans (a b c : World) :
  along_table a b -> along_table b c -> along_table a c.
Proof.
  intros H1 H2 id e H. destruct (H1 id e H) as [e1 [F1 A1]].
  destruct (H2 id e1 F1) as [e2 [F2 A2]].
  exists e2. split; [assumption|]. eapply allowed_trans; eassumption.
Qed.

Lemma along_table_same_escrows (w w' : World) :
  escrows w' = escrows w -> along_table w w'.
Proof.
  intros E id e H. exists e. split; [|apply allowed_refl].
  unfold escrow_findUnique in *. rewrite E. assumption.
Qed.

Lemma quiet_respects_table : respects_table quiet.
Proof. intros w. apply along_table_refl. Qed.

(** A conditional update guarded by the status [s0] moves along the table
    when [s0 -> st] is allowed. *)
Lemma along_table_guarded_update (w : World) (guard : Escrow.t -> bool)
  (data : Escrow.t -> Escrow.t) (s0 st : EscrowStatus) :
  allowed s0 st = true ->
  (forall e, guard e = true -> Escrow.status e = s0) ->
  (forall e, Escrow.id (data e) = Escrow.id e /\ Escrow.status (data e) = st) ->
  along_table w (set_escrows (fst (updateMany guard data (escrows w))) w).
Proof.
  intros Hal Hg Hd id e H. unfold escrow_findUnique in *. simpl.
  rewrite (find_map_keyed Escrow.id).
  - rewrite H. simpl. eexists. split; [reflexivity|].
    destruct (guard e) eqn:G.
    + rewrite (Hg e G). rewrite (proj2 (Hd e)). assumption.
    + apply allowed_refl.
  - intros x. destruct (guard x); [apply Hd|reflexivity].
Qed.

Section EscrowFacts.
Context {P : Platform}.

Lemma event_data_id event st e : Escrow.id (event_data event st e) = Escrow.id e.
Proof. unfold event_data. destruct (truthy _); reflexivity. Qed.

Lemma event_data_status event st e : Escrow.status (event_data event st e) = st.
Proof. unfold event_data. destruct (truthy _); reflexivity. Qed.

(** The call, once the event is parsed and the escrow found in a status
    from which the requested one is allowed. *)
Lemma processEscrowEvent_allowed (env1 env2 : Interference)
  (event : EscrowEventPayload.t) (w : World) escrowId st existing :
  trimmed (EscrowEventPayload.escrowId event) = Some escrowId ->
  normalizeStatus (EscrowEventPayload.status event) "status" = Ok st ->
  escrow_findUnique escrowId w = Some existing ->
  allowed (Escrow.status existing) st = true ->
  processEscrowEvent env1 env2 event w =
  let guard := event_guard escrowId (Escrow.status existing) in
  let w1 := env1 w in
  let written := set_escrows (fst (updateMany guard (event_data event st) (escrows w1))) w1 in
  if negb (Nat.eqb (snd (updateMany guard (event_data event st) (escrows w1))) 1)
  then (written, Err CONCURRENT_CHANGE)
  else
    let w2 := env2 written in
    match escrow_findUnique escrowId w2 with
    | None => (w2, Err (NotFoundError "Escrow not found"))
    | Some updated =>
        (if negb (status_eqb (Escrow.status existing) (Escrow.status updated))
         then set_outbox (outbox w2 ++ [EscrowUpdated (Escrow.id updated) (Escrow.status updated)]) w2
         else w2,
         Ok updated)
    end.
Proof.
  intros Ht Hn Hf Hal. unfold processEscrowEvent. rewrite Ht. unfold_m.
  rewrite Hn, Hf, Hal. unfold escrow_updateMany, updateMany.
  cbn [fst snd negb]. cbv beta iota zeta.
  fold (event_data event st).
  change (fun e : Escrow.t =>
            (String.eqb (Escrow.id e) escrowId
             && status_eqb (Escrow.status e) (Escrow.status existing))%bool)
    with (event_guard escrowId (Escrow.status existing)).
  destruct (negb (Nat.eqb (List.length (filter (event_guard escrowId (Escrow.status existing))
                                    (escrows (env1 w)))) 1)); [reflexivity|].
  clear Hf.
  destruct (escrow_findUnique escrowId (env2 _)) as [updated|]; [|reflexivity].
  destruct (negb (status_eqb (Escrow.status existing) (Escrow.status updated)));
    reflexivity.
Qed.

Lemma processEscrowEvent_along (env1 env2 : Interference)
  (event : EscrowEventPayload.t) (w : World) :
  respects_table env1 -> respects_table env2 ->
  along_table w (fst (processEscrowEvent env1 env2 event w)).
Proof.
  intros H1 H2.
  destruct (trimmed (EscrowEventPayload.escrowId event)) as [escrowId|] eqn:Ht.
  2:{ unfold processEscrowEvent. rewrite Ht. apply along_table_refl. }
  destruct (normalizeStatus (EscrowEventPayload.status event) "status") as [st|?] eqn:Hn.
  2:{ unfold processEscrowEvent. rewrite Ht. unfold_m. rewrite Hn. apply along_table_refl. }
  destruct (escrow_findUnique escrowId w) as [existing|] eqn:Hf.
  2:{ unfold processEscrowEvent. rewrite Ht. unfold_m. rewrite Hn, Hf.
      apply along_table_refl. }
  destruct (allowed (Escrow.status existing) st) eqn:Hal.
  2:{ unfold processEscrowEvent. rewrite Ht. unfold_m. rewrite Hn, Hf, Hal.
      apply along_table_refl. }
  rewrite (processEscrowEvent_allowed env1 env2 event w escrowId st existing) by assumption.
  cbv zeta.
  set (guard := event_guard escrowId (Escrow.status existing)).
  set (written := set_escrows (fst (updateMany guard (event_data event st)
                                      (escrows (env1 w)))) (env1 w)).
  assert (Hw : along_table w written).
  { eapply along_table_trans; [apply H1|].
    apply (along_table_guarded_update _ guard _ (Escrow.status existing) st Hal).
    - intros e G. subst guard. unfold event_guard in G.
      apply andb_true_iff in G. apply status_eqb_eq. apply G.
    - intros e. split; [apply event_data_id|apply event_data_status]. }
  destruct (negb (Nat.eqb (snd (updateMany guard (event_data event st) (escrows (env1 w)))) 1));
    [exact Hw|].
  assert (Hw2 : along_table w (env2 written))
    by (eapply along_table_trans; [exact Hw|apply H2]).
  destruct (escrow_findUnique escrowId (env2 written)) as [updated|]; [|exact Hw2].
  destruct (negb (status_eqb (Escrow.status existing) (Escrow.status updated))); simpl.
  - eapply along_table_trans; [exact Hw2|]. apply along_table_same_escrows. reflexivity.
  - exact Hw2.
Qed.


(** Under the primary key, the guarded update matches the row of that id
    when it still has the observed status, and no row otherwise. *)
Lemma event_guard_filter (w : World) (escrowId : string) (observed : EscrowStatus) :
  escrow_ids_unique w ->
  filter (event_guard escrowId observed) (escrows w) =
  match escrow_findUnique escrowId w with
  | Some cur => if status_eqb (Escrow.status cur) observed then [cur] else []
  | None => []
  end.
Proof.
  intros Hu. unfold event_guard.
  rewrite (filter_and (fun e => String.eqb (Escrow.id e) escrowId)).
  unfold escrow_findUnique.
  destruct (find (fun e => String.eqb (Escrow.id e) escrowId) (escrows w)) as [cur|] eqn:Hf.
  - rewrite (filter_unique Escrow.id escrowId _ cur Hu Hf). simpl.
    destruct (status_eqb (Escrow.status cur) observed); reflexivity.
  - rewrite (find_none_keyed Escrow.id _ _ Hf). reflexivity.
Qed.


Lemma event_guard_map_one (w : World) (escrowId : string) (cur : Escrow.t)
  (data : Escrow.t -> Escrow.t) :
  escrow_ids_unique w ->
  escrow_findUnique escrowId w = Some cur ->
  map (fun r => if event_guard escrowId (Escrow.status cur) r then data r else r) (escrows w)
  = map (fun r => if String.eqb (Escrow.id r) escrowId then data r else r) (escrows w).
Proof.
  intros Hu Hf. apply map_ext_in. intros r Hr. unfold event_guard.
  destruct (String.eqb (Escrow.id r) escrowId) eqn:E; [|reflexivity].
  apply String.eqb_eq in E.
  destruct (find_some_keyed Escrow.id _ _ _ Hf) as [Hin Hk].
  assert (r = cur)
    by (apply (keyed_inj Escrow.id (escrows w)); [exact Hu|assumption|assumption|congruence]).
  subst r. rewrite status_eqb_refl. reflexivity.
Qed.

(** C3.  The statuses an escrow can take after each status are those of
    the transition table; [processEscrowEvent] moves every escrow along the
    table, whatever other table-respecting writers do between its awaits; a
    requested status that is not allowed from the current one fails with a
    [ValidationError] and leaves the store as it was; [COMPLETED] and
    [EXPIRED] allow only themselves. *)
Theorem processEscrowEvent_follows_transition_table
  (env1 env2 : Interference) (event : EscrowEventPayload.t) (w : World) :
  respects_table env1 -> respects_table env2 ->
  (forall s, (allowed PENDING s = true <-> In s [PENDING; ACTIVE; COMPLETED; DISPUTED; EXPIRED])
          /\ (allowed ACTIVE s = true <-> In s [ACTIVE; COMPLETED; DISPUTED; EXPIRED])
          /\ (allowed DISPUTED s = true <-> In s [DISPUTED; ACTIVE; COMPLETED; EXPIRED])
          /\ (allowed COMPLETED s = true <-> s = COMPLETED)
          /\ (allowed EXPIRED s = true <-> s = EXPIRED))
  /\ along_table w (fst (processEscrowEvent env1 env2 event w))
  /\ (forall escrowId st existing,
        trimmed (EscrowEventPayload.escrowId event) = Some escrowId ->
        normalizeStatus (EscrowEventPayload.status event) "status" = Ok st ->
        escrow_findUnique escrowId w = Some existing ->
        allowed (Escrow.status existing) st = false ->
        processEscrowEvent env1 env2 event w =
        (w, Err (ValidationError
                   ("Illegal escrow status transition: "
                    ++ status_to_string (Escrow.status existing) ++ " -> "
                    ++ status_to_string st)%string))).
Proof.
  intros H1 H2. split; [|split].
  - intros s. repeat split; intros H; destruct s; simpl in *;
      try reflexivity; try discriminate; try tauto;
      repeat (destruct H as [H|H]; try discriminate H; try contradiction).
  - apply processEscrowEvent_along; assumption.
  - intros escrowId st existing Ht Hn Hf Hal.
    unfold processEscrowEvent. rewrite Ht. unfold_m. rewrite Hn, Hf, Hal. reflexivity.
Qed.


(** ** The timeout sweep *)

Lemma broadcast_all (l : list Escrow.t) (w : World) :
  fold_right (fun e k => broadcast (EscrowUpdated (Escrow.id e) EXPIRED) ;;; k) (ret tt) l w
  = (set_outbox (outbox w ++ map expired_event l) w, Ok tt).
Proof.
  revert w. induction l as [|e l IH]; intros w; simpl.
  - unfold ret. rewrite app_nil_r. destruct w; reflexivity.
  - unfold bind at 1. unfold broadcast at 1. unfold modify.
    rewrite IH. destruct w; simpl. unfold set_outbox; simpl.
    rewrite <- app_assoc. reflexivity.
Qed.

(** The sweep, step by step. *)
Lemma timeoutSweep_steps (env1 env2 : Interference) (fault : TickFault) (now : Z)
  (w : World) :
  timeoutSweep env1 env2 fault now w =
  match fault with
  | OverdueQueryFails e => (w, Err e)
  | _ =>
      match overdue now w with
      | [] => (w, Ok tt)
      | _ :: _ =>
          let ids := map Escrow.id (overdue now w) in
          let w1 := env1 w in
          match fault with
          | UpdateFails e => (w1, Err e)
          | _ =>
              let written :=
                set_escrows (fst (updateMany (sweep_guard ids) (Escrow.with_status EXPIRED)
                                             (escrows w1))) w1 in
              let w2 := env2 written in
              match fault with
              | ExpiredQueryFails e => (w2, Err e)
              | _ =>
                  (set_outbox (outbox w2
                               ++ map expired_event (filter (sweep_reread ids) (escrows w2))) w2,
                   Ok tt)
              end
          end
      end
  end.
Proof.
  unfold timeoutSweep, overdue, escrow_updateMany, updateMany.
  destruct fault; unfold_m; cbn [fst snd];
    try reflexivity;
    (destruct (filter _ (escrows w)) as [|o os] eqn:Ho; [reflexivity|]);
    cbn [List.length Nat.eqb]; cbv zeta; try reflexivity.
  rewrite broadcast_all. reflexivity.
Qed.

Lemma with_status_id s e : Escrow.id (Escrow.with_status s e) = Escrow.id e.
Proof. reflexivity. Qed.

Lemma filter_map_swap {A} (p : A -> bool) (f : A -> A) (l : list A) :
  filter p (map f l) = map f (filter (fun x => p (f x)) l).
Proof.
  induction l as [|a l IH]; simpl; [reflexivity|].
  destruct (p (f a)); simpl; rewrite IH; reflexivity.
Qed.

(** Under the primary key, the rows whose id was selected are the
    selected rows. *)
Lemma id_in_overdue (now : Z) (w : World) (r : Escrow.t) :
  escrow_ids_unique w -> In r (escrows w) ->
  id_in (map Escrow.id (overdue now w)) r
  = (status_eqb (Escrow.status r) ACTIVE && (Escrow.expiresAt r <? now))%bool.
Proof.
  intros Hu Hr. unfold id_in.
  destruct (status_eqb (Escrow.status r) ACTIVE && (Escrow.expiresAt r <? now))%bool eqn:E.
  - apply existsb_exists. exists (Escrow.id r). split; [|apply String.eqb_refl].
    apply in_map. unfold overdue. apply filter_In. split; assumption.
  - destruct (existsb (String.eqb (Escrow.id r)) (map Escrow.id (overdue now w))) eqn:X;
      [|reflexivity].
    apply existsb_exists in X. destruct X as [k [Hk Ek]].
    apply String.eqb_eq in Ek. apply in_map_iff in Hk. destruct Hk as [o [Ho Hin]].
    unfold overdue in Hin. apply filter_In in Hin. destruct Hin as [Hin Hp].
    assert (r = o)
      by (apply (keyed_inj Escrow.id (escrows w)); [exact Hu|assumption|assumption|congruence]).
    subst o. congruence.
Qed.

Lemma along_table_sweep (env1 env2 : Interference) (fault : TickFault) (now : Z)
  (w : World) :
  respects_table env1 -> respects_table env2 ->
  along_table w (fst (timeoutSweep env1 env2 fault now w)).
Proof.
  intros H1 H2. rewrite timeoutSweep_steps.
  assert (Hw : forall ids, along_table w
     (set_escrows (fst (updateMany (sweep_guard ids) (Escrow.with_status EXPIRED)
                                   (escrows (env1 w)))) (env1 w))).
  { intros ids. eapply along_table_trans; [apply H1|].
    apply (along_table_guarded_update _ _ _ ACTIVE EXPIRED); [reflexivity| |].
    - intros e G. unfold sweep_guard in G. apply andb_true_iff in G.
      apply status_eqb_eq. apply G.
    - intros e. split; reflexivity. }
  assert (Hw2 : forall ids, along_table w (env2
     (set_escrows (fst (updateMany (sweep_guard ids) (Escrow.with_status EXPIRED)
                                   (escrows (env1 w)))) (env1 w))))
    by (intros ids; eapply along_table_trans; [apply Hw|apply H2]).
  destruct fault; try apply along_table_refl;
    (destruct (overdue now w) as [|o os]; [apply along_table_refl|]); cbv zeta; cbn [fst];
    try apply H1; apply Hw2.
Qed.

Lemma filter_ext_in' {A} (p q : A -> bool) (l : list A) :
  (forall x, In x l -> p x = q x) -> filter p l = filter q l.
Proof.
  induction l as [|a l IH]; simpl; intros H; [reflexivity|].
  rewrite (H a) by (left; reflexivity).
  rewrite IH by (intros x Hx; apply H; right; assumption). reflexivity.
Qed.

(** Without other writers, a tick flips the selected rows and broadcasts
    one message for each of them. *)
Lemma timeoutTick_quiet (now : Z) (w : World) :
  escrow_ids_unique w ->
  timeoutTick quiet quiet NoFault now w =
  (set_outbox (outbox w ++ map expired_event (overdue now w))
              (set_escrows (map (expire_overdue now) (escrows w)) w),
   []).
Proof.
  intros Hu. unfold timeoutTick. rewrite timeoutSweep_steps.
  destruct (overdue now w) as [|o os] eqn:Ho.
  - rewrite app_nil_r.
    assert (E : map (expire_overdue now) (escrows w) = escrows w).
    { rewrite <- (map_id (escrows w)) at 2. apply map_ext_in. intros r Hr.
      unfold expire_overdue. destruct (overdue_test now r) eqn:T; [|reflexivity].
      exfalso. assert (Hin : In r (overdue now w))
        by (apply filter_In; split; assumption).
      rewrite Ho in Hin. contradiction. }
    rewrite E. destruct w; reflexivity.
  - rewrite <- Ho. clear Ho o os. cbv zeta. unfold quiet, updateMany. cbn [fst].
    assert (E : map (fun r => if sweep_guard (map Escrow.id (overdue now w)) r
                              then Escrow.with_status EXPIRED r else r) (escrows w)
                = map (expire_overdue now) (escrows w)).
    { apply map_ext_in. intros r Hr. unfold sweep_guard, expire_overdue, overdue_test.
      rewrite (id_in_overdue now w r Hu Hr).
      destruct (status_eqb (Escrow.status r) ACTIVE); reflexivity. }
    rewrite E. cbn [escrows set_escrows outbox]. f_equal. f_equal. f_equal.
    rewrite filter_map_swap, map_map.
    rewrite (filter_ext_in' _ (overdue_test now)).
    + unfold overdue. apply map_ext. intros r. unfold expired_event, expire_overdue.
      destruct (overdue_test now r); reflexivity.
    + intros r Hr. unfold sweep_reread, id_in.
      assert (Eid : Escrow.id (expire_overdue now r) = Escrow.id r)
        by (unfold expire_overdue; destruct (overdue_test now r); reflexivity).
      rewrite Eid. fold (id_in (map Escrow.id (overdue now w)) r).
      rewrite (id_in_overdue now w r Hu Hr). fold (overdue_test now r).
      unfold expire_overdue. destruct (overdue_test now r); reflexivity.
Qed.

Lemma run_timer_length (svc : EscrowService.t) (ticks : list Tick) (w : World) :
  EscrowService.timeoutTimer svc <> None ->
  List.length (snd (run_timer svc ticks w)) = List.length ticks.
Proof.
  intros Harmed. revert w. induction ticks as [|t rest IH]; intros w; simpl.
  - destruct (EscrowService.timeoutTimer svc); reflexivity.
  - destruct (EscrowService.timeoutTimer svc) as [tm|]; [|contradiction].
    destruct (timeoutTick _ _ _ _ w) as [w' log].
    specialize (IH w'). destruct (run_timer svc rest w') as [w'' logs].
    simpl in *. rewrite IH. reflexivity.
Qed.

(** C9, as amended.  A tick selects the escrows that are [ACTIVE] with
    [expiresAt] before [now], updates the rows of the selected ids that
    are still [ACTIVE] to [EXPIRED], and broadcasts one message for every
    selected escrow it reads back as [EXPIRED]; it moves escrows along the
    transition table whatever other writers do.  Without other writers
    the rows flipped are the selected ones, every other row is untouched
    and one message is broadcast per flipped row.  A failing store call
    is logged and ends that tick only; the interval runs every 60000 ms
    and every later tick still runs. *)
Theorem timeoutTick_expires_overdue_escrows
  (env1 env2 : Interference) (now : Z) (w : World) :
  escrow_ids_unique w -> respects_table env1 -> respects_table env2 ->
  (forall e, In e (overdue now w) <->
             In e (escrows w) /\ Escrow.status e = ACTIVE /\ Escrow.expiresAt e < now)
  /\ timeoutTick env1 env2 NoFault now w =
     match overdue now w with
     | [] => (w, [])
     | _ :: _ =>
         let ids := map Escrow.id (overdue now w) in
         let w1 := env1 w in
         let w2 := env2 (set_escrows (map (fun r => if sweep_guard ids r
                                                    then Escrow.with_status EXPIRED r else r)
                                          (escrows w1)) w1) in
         (set_outbox (outbox w2 ++ map expired_event (filter (sweep_reread ids) (escrows w2)))
                     w2, [])
     end
  /\ timeoutTick quiet quiet NoFault now w =
     (set_outbox (outbox w ++ map expired_event (overdue now w))
                 (set_escrows (map (expire_overdue now) (escrows w)) w), [])
  /\ (forall fault, along_table w (fst (timeoutTick env1 env2 fault now w)))
  /\ (forall e, timeoutTick env1 env2 (OverdueQueryFails e) now w = (w, [e]))
  /\ (forall e, overdue now w <> [] ->
         snd (timeoutTick env1 env2 (UpdateFails e) now w) = [e]
         /\ snd (timeoutTick env1 env2 (ExpiredQueryFails e) now w) = [e])
  /\ timeoutDetector (EscrowService.mk None) = EscrowService.mk (Some (mkTimer 60000 true))
  /\ (forall svc ticks, EscrowService.timeoutTimer svc <> None ->
         List.length (snd (run_timer svc ticks w)) = List.length ticks).
Proof.
  intros Hu H1 H2.
  split; [|split; [|split; [|split; [|split; [|split; [|split]]]]]].
  - intros e. unfold overdue. rewrite filter_In, andb_true_iff, status_eqb_eq, Z.ltb_lt.
    tauto.
  - unfold timeoutTick. rewrite timeoutSweep_steps.
    destruct (overdue now w) as [|o os]; reflexivity.
  - apply timeoutTick_quiet. assumption.
  - intros fault. unfold timeoutTick.
    pose proof (along_table_sweep env1 env2 fault now w H1 H2) as H.
    destruct (timeoutSweep env1 env2 fault now w) as [w' [u|e]]; exact H.
  - intros e. unfold timeoutTick. rewrite timeoutSweep_steps. reflexivity.
  - intros e Hne. unfold timeoutTick. rewrite !timeoutSweep_steps.
    destruct (overdue now w) as [|o os]; [contradiction|]. split; reflexivity.
  - reflexivity.
  - intros svc ticks. apply run_timer_length.
Qed.

End EscrowFacts.

(** ** The escrow properties on sample stores *)

Lemma sample_ids_unique :
  escrow_ids_unique (escrow_world [sample_escrow "e1" ACTIVE 10; sample_escrow "e2" EXPIRED 10]).
Proof.
  unfold escrow_ids_unique. simpl. repeat constructor; simpl; intuition discriminate.
Qed.

Lemma processEscrowEvent_follows_transition_table_witness :
  respects_table quiet
  /\ processEscrowEvent quiet quiet (status_event "e2" "active")
       (escrow_world [sample_escrow "e1" ACTIVE 10; sample_escrow "e2" EXPIRED 10])
     = (escrow_world [sample_escrow "e1" ACTIVE 10; sample_escrow "e2" EXPIRED 10],
        Err (ValidationError "Illegal escrow status transition: EXPIRED -> ACTIVE")).
Proof.
  split; [exact quiet_respects_table|].
  exact (proj2 (proj2 (processEscrowEvent_follows_transition_table quiet quiet
           (status_event "e2" "active")
           (escrow_world [sample_escrow "e1" ACTIVE 10; sample_escrow "e2" EXPIRED 10])
           quiet_respects_table quiet_respects_table))
         "e2" ACTIVE (sample_escrow "e2" EXPIRED 10)
         eq_refl eq_refl eq_refl eq_refl).
Defined.


Lemma timeoutTick_expires_overdue_escrows_witness :
  timeoutTick quiet quiet NoFault 20
    (escrow_world [sample_escrow "e1" ACTIVE 10; sample_escrow "e2" EXPIRED 10])
  = (set_outbox [EscrowUpdated "e1" EXPIRED]
       (escrow_world [sample_escrow "e1" EXPIRED 10; sample_escrow "e2" EXPIRED 10]),
     []).
Proof.
  exact (proj1 (proj2 (proj2 (timeoutTick_expires_overdue_escrows quiet quiet 20
           (escrow_world [sample_escrow "e1" ACTIVE 10; sample_escrow "e2" EXPIRED 10])
           sample_ids_unique quiet_respects_table quiet_respects_table)))).
Defined.

(** C9 as stated fails when a webhook expires a selected escrow between the
    selection and the update of a tick: the update of the sweep flips no
    row, and the tick still broadcasts a message for that escrow. *)
Lemma timeoutTick_broadcasts_for_escrow_it_did_not_flip :
  let w := escrow_world [sample_escrow "e1" ACTIVE 10] in
  let race := webhook (status_event "e1" "EXPIRED") in
  let ids := map Escrow.id (overdue 20 w) in
  let tick := timeoutTick race quiet NoFault 20 w in
  escrow_ids_unique w
  /\ flipped_by_sweep ids (escrows (race w)) = []
  /\ outbox (fst tick) = outbox (race w) ++ [EscrowUpdated "e1" EXPIRED]
  /\ outbox (fst tick)
     <> outbox (race w) ++ map expired_event (flipped_by_sweep ids (escrows (race w))).
Proof.
  cbv zeta. split; [|split; [|split]].
  - unfold escrow_ids_unique. simpl. repeat constructor; simpl; intuition discriminate.
  - reflexivity.
  - reflexivity.
  - vm_compute. discriminate.
Qed.

(* ===================================================================== *)
(** * Listing escrows                                                     *)
(* ===================================================================== *)

Section ListingFacts.
Context {P : Platform}.

Lemma Qfloor_ge_1 (q : Q) : (1 <= q)%Q -> 1 <= Qfloor q.
Proof.
  intros H. change 1 with (Qfloor (inject_Z 1)). apply Qfloor_resp_le. exact H.
Qed.

Lemma coerceLimit_finite (v : JsValue) (q : Q) :
  Number v = JsFinite q ->
  coerceLimit (Some v) = if Qle_bool 1 q then Z.min MAX_LIMIT (Qfloor q) else DEFAULT_LIMIT.
Proof.
  intros H. unfold coerceLimit. rewrite H. destruct (Qle_bool 1 q); reflexivity.
Qed.

Lemma coercePage_finite (v : JsValue) (q : Q) :
  Number v = JsFinite q ->
  coercePage (Some v) = if Qle_bool 1 q then Qfloor q else DEFAULT_PAGE.
Proof.
  intros H. unfold coercePage. rewrite H. unfold MIN_PAGE.
  change (inject_Z 1) with 1%Q. destruct (Qle_bool 1 q); reflexivity.
Qed.

Lemma coerceLimit_range (v : option JsValue) : 1 <= coerceLimit v <= 100.
Proof.
  unfold coerceLimit, DEFAULT_LIMIT, MAX_LIMIT.
  destruct (Number _) as [| |q]; try lia.
  destruct (Qle_bool 1 q) eqn:E; simpl; [|lia].
  apply Qle_bool_iff in E. pose proof (Qfloor_ge_1 q E). lia.
Qed.

Lemma coercePage_range (v : option JsValue) : 1 <= coercePage v.
Proof.
  unfold coercePage, DEFAULT_PAGE, MIN_PAGE.
  destruct (Number _) as [| |q]; try lia.
  change (inject_Z 1) with 1%Q.
  destruct (Qle_bool 1 q) eqn:E; simpl; [|lia].
  apply Qle_bool_iff in E. apply Qfloor_ge_1. exact E.
Qed.

Lemma Qceiling_zero_div (q : Q) : Qceiling (inject_Z 0 / q) = 0.
Proof.
  unfold Qdiv, Qmult, Qceiling, Qfloor, Qopp. simpl. reflexivity.
Qed.

(** C10.  [listEscrows] clamps [page] and [limit] before use.  A limit that
    is missing, not a number (a string that converts to [NaN], [NaN]
    itself, an infinity) or below 1 becomes 20; any other limit is floored
    and capped at 100, so the limit is always between 1 and 100.  A page
    that is missing, not a number or below 1 becomes 1; any other page is
    floored.  The page reports these values, and [totalPages] is at least
    1, and exactly 1 when no escrow matches. *)
Theorem listEscrows_clamps_page_and_limit :
  (* limit *)
  coerceLimit None = 20
  /\ (forall v, Number v = JsNaN -> coerceLimit (Some v) = 20)
  /\ (forall v neg, Number v = JsInfinity neg -> coerceLimit (Some v) = 20)
  /\ (forall v q, Number v = JsFinite q -> (q < 1)%Q -> coerceLimit (Some v) = 20)
  /\ (forall v q, Number v = JsFinite q -> (1 <= q)%Q ->
        coerceLimit (Some v) = Z.min 100 (Qfloor q))
  /\ (forall v, 1 <= coerceLimit v <= 100)
  (* page *)
  /\ coercePage None = 1
  /\ (forall v, Number v = JsNaN -> coercePage (Some v) = 1)
  /\ (forall v neg, Number v = JsInfinity neg -> coercePage (Some v) = 1)
  /\ (forall v q, Number v = JsFinite q -> (q < 1)%Q -> coercePage (Some v) = 1)
  /\ (forall v q, Number v = JsFinite q -> (1 <= q)%Q -> coercePage (Some v) = Qfloor q)
  /\ (forall v, 1 <= coercePage v)
  (* the page returned *)
  /\ (forall query w w' pg, listEscrows query w = (w', Ok pg) ->
        w' = w
        /\ pg_page (pagination pg) = coercePage (EscrowListQuery.page query)
        /\ pg_limit (pagination pg) = coerceLimit (EscrowListQuery.limit query)
        /\ 1 <= pg_totalPages (pagination pg)
        /\ (pg_total (pagination pg) = 0 -> pg_totalPages (pagination pg) = 1)
        /\ (Z.of_nat (List.length (items pg)) <= pg_limit (pagination pg))).
Proof.
  repeat match goal with |- _ /\ _ => split end.
  - reflexivity.
  - intros v H. unfold coerceLimit. rewrite H. reflexivity.
  - intros v neg H. unfold coerceLimit. rewrite H. reflexivity.
  - intros v q H Hq. rewrite (coerceLimit_finite v q H).
    destruct (Qle_bool 1 q) eqn:E; [|reflexivity].
    apply Qle_bool_iff in E. exfalso. apply (Qlt_not_le _ _ Hq E).
  - intros v q H Hq. rewrite (coerceLimit_finite v q H).
    apply Qle_bool_iff in Hq. rewrite Hq. reflexivity.
  - apply coerceLimit_range.
  - reflexivity.
  - intros v H. unfold coercePage. rewrite H. reflexivity.
  - intros v neg H. unfold coercePage. rewrite H. reflexivity.
  - intros v q H Hq. rewrite (coercePage_finite v q H).
    destruct (Qle_bool 1 q) eqn:E; [|reflexivity].
    apply Qle_bool_iff in E. exfalso. apply (Qlt_not_le _ _ Hq E).
  - intros v q H Hq. rewrite (coercePage_finite v q H).
    apply Qle_bool_iff in Hq. rewrite Hq. reflexivity.
  - apply coercePage_range.
  - intros query w w' pg H. unfold listEscrows in H. unfold_m.
    destruct (match trimmed (EscrowListQuery.status query) with
              | Some _ => _ | None => _ end) as [status|e]; [|discriminate].
    injection H as <- <-. cbn [pagination pg_page pg_limit pg_total pg_totalPages items].
    repeat split.
    + apply Z.le_max_l.
    + intros H0. rewrite H0, Qceiling_zero_div. reflexivity.
    + pose proof (coerceLimit_range (EscrowListQuery.limit query)) as Hr.
      rewrite length_firstn. lia.
Qed.

End ListingFacts.

(* ===================================================================== *)
(** * Loans                                                               *)
(* ===================================================================== *)

Lemma parsePositiveDecimal_ok (value : option Decimal.value) (fieldName : string)
  (d : Decimal.t) :
  parsePositiveDecimal value fieldName = Ok d ->
  value = Some (Decimal.Finite d) /\ 0 < Decimal.coef d.
Proof.
  unfold parsePositiveDecimal. destruct value as [[p| |]|]; try discriminate.
  destruct (Decimal.lte p ZERO) eqn:E; [discriminate|].
  intros H. injection H as ->. split; [reflexivity|].
  apply DecimalFacts.cmp_positive. exact E.
Qed.

Section LoanFacts.
Context {P : Platform}.

Lemma issueLoan_steps (newId : string) (payload : IssueLoanRequest.t) (w : World)
  (requestingUserId borrowerId lenderId : string) (amount collateralAmt : Decimal.t) :
  required (IssueLoanRequest.requestingUserId payload) "requestingUserId is required"
    = Ok requestingUserId ->
  required (IssueLoanRequest.borrowerId payload) "borrowerId is required" = Ok borrowerId ->
  required (IssueLoanRequest.lenderId payload) "lenderId is required" = Ok lenderId ->
  borrowerId <> lenderId ->
  requestingUserId = borrowerId \/ requestingUserId = lenderId ->
  parsePositiveDecimal (IssueLoanRequest.amount payload) "amount" = Ok amount ->
  parsePositiveDecimal (IssueLoanRequest.collateralAmt payload) "collateralAmt"
    = Ok collateralAmt ->
  issueLoan newId payload w
  = issueLoan_checked newId payload borrowerId lenderId amount collateralAmt w.
Proof.
  intros Hr Hb Hl Hne Hparty Ha Hc.
  unfold issueLoan, issueLoan_checked. unfold_m. rewrite Hr, Hb, Hl.
  apply String.eqb_neq in Hne. rewrite Hne.
  assert (Hp : (negb (String.eqb requestingUserId borrowerId)
                && negb (String.eqb requestingUserId lenderId))%bool = false).
  { destruct Hparty as [-> | ->]; rewrite String.eqb_refl; simpl;
      [reflexivity|apply andb_false_r]. }
  rewrite Hp, Ha, Hc.
  destruct (Decimal.lt _ _); [reflexivity|].
  destruct (negb (Nat.eqb _ 2)); [reflexivity|].
  destruct (String.eqb (trim contracts_loan) ""); [reflexivity|].
  cbv zeta. destruct (buildContractInvokeXDR _ _ _) as [xdr|e]; [|reflexivity].
  unfold loan_create. cbn [Loan.id].
  destruct (existsb _ (loans w)); reflexivity.
Qed.

(** C5, as amended.  Once the parties and both amounts are accepted,
    [issueLoan] compares the quotient [collateralAmt / amount], rounded to
    20 significant digits (half up), with 1.5: it fails with a
    [ValidationError] when the rounded quotient is below 1.5 and goes on to
    issue the loan otherwise.  A request whose exact ratio is at least 1.5
    passes the check, and a request whose exact ratio is at most
    1.4999999999999999999 fails it; amount 100 with collateral 149 fails
    and amount 100 with collateral 150 passes. *)
Theorem issueLoan_collateral_ratio_check
  (newId : string) (payload : IssueLoanRequest.t) (w : World)
  (requestingUserId borrowerId lenderId : string) (amount collateralAmt : Decimal.t) :
  required (IssueLoanRequest.requestingUserId payload) "requestingUserId is required"
    = Ok requestingUserId ->
  required (IssueLoanRequest.borrowerId payload) "borrowerId is required" = Ok borrowerId ->
  required (IssueLoanRequest.lenderId payload) "lenderId is required" = Ok lenderId ->
  borrowerId <> lenderId ->
  requestingUserId = borrowerId \/ requestingUserId = lenderId ->
  parsePositiveDecimal (IssueLoanRequest.amount payload) "amount" = Ok amount ->
  parsePositiveDecimal (IssueLoanRequest.collateralAmt payload) "collateralAmt"
    = Ok collateralAmt ->
  (Decimal.lt (Decimal.div collateralAmt amount) MIN_COLLATERAL_RATIO = true ->
     issueLoan newId payload w
     = (w, Err (ValidationError "Collateral ratio must be at least 1.50")))
  /\ (Decimal.lt (Decimal.div collateralAmt amount) MIN_COLLATERAL_RATIO = false ->
      forall xdr,
        List.length (filter (fun u => (String.eqb (User.id u) borrowerId
                                       || String.eqb (User.id u) lenderId)%bool) (users w))
          = 2%nat ->
        trim contracts_loan <> "" ->
        buildContractInvokeXDR (trim contracts_loan) "issue_loan"
          [ArgString borrowerId; ArgString lenderId;
           ArgDecimal amount; ArgDecimal collateralAmt;
           ArgString (or_default (IssueLoanRequest.assetCode payload) "USDC");
           match or_null (IssueLoanRequest.escrowAddress payload) with
           | Some a => ArgString a | None => ArgNull end] = Ok xdr ->
        existsb (fun l => String.eqb (Loan.id l) newId) (loans w) = false ->
        let row := Loan.mk newId borrowerId lenderId amount collateralAmt
                     (or_default (IssueLoanRequest.assetCode payload) "USDC")
                     (or_null (IssueLoanRequest.escrowAddress payload))
                     LoanStatus.PENDING in
        issueLoan newId payload w
        = (set_outbox (outbox w ++ [LoanUpdated newId LoanStatus.PENDING])
                      (set_loans (loans w ++ [row]) w),
           Ok (mkIssuedLoan newId xdr row)))
  /\ (Decimal.cmp (Decimal.mul_exact MIN_COLLATERAL_RATIO amount) collateralAmt <> Gt ->
      Decimal.lt (Decimal.div collateralAmt amount) MIN_COLLATERAL_RATIO = false)
  /\ (Decimal.cmp collateralAmt (Decimal.mul_exact BELOW_MIN_COLLATERAL_RATIO amount) <> Gt ->
      Decimal.lt (Decimal.div collateralAmt amount) MIN_COLLATERAL_RATIO = true)
  /\ Decimal.lt (Decimal.div (Decimal.of_Z 149) (Decimal.of_Z 100)) MIN_COLLATERAL_RATIO = true
  /\ Decimal.lt (Decimal.div (Decimal.of_Z 150) (Decimal.of_Z 100)) MIN_COLLATERAL_RATIO = false.
Proof.
  intros Hr Hb Hl Hne Hparty Ha Hc.
  rewrite (issueLoan_steps newId payload w requestingUserId borrowerId lenderId
             amount collateralAmt) by assumption.
  destruct (parsePositiveDecimal_ok _ _ _ Ha) as [_ Hapos].
  destruct (parsePositiveDecimal_ok _ _ _ Hc) as [_ Hcpos].
  unfold issueLoan_checked.
  split; [|split; [|split; [|split; [|split]]]].
  - intros Hlt. rewrite Hlt. reflexivity.
  - intros Hlt xdr Hu Hk Hx Hfresh. rewrite Hlt, Hu. cbn [Nat.eqb negb].
    apply String.eqb_neq in Hk. rewrite Hk. cbv zeta. rewrite Hx, Hfresh. reflexivity.
  - intros Hge. unfold Decimal.lt. rewrite DecimalFacts.cmp_antisym.
    pose proof (DecimalFacts.div_lower collateralAmt amount MIN_COLLATERAL_RATIO
                  Hcpos Hapos ltac:(vm_compute; split; discriminate) Hge) as H.
    destruct (Decimal.cmp MIN_COLLATERAL_RATIO (Decimal.div collateralAmt amount));
      try reflexivity. contradiction.
  - intros Hle. unfold Decimal.lt.
    pose proof (DecimalFacts.div_upper collateralAmt amount BELOW_MIN_COLLATERAL_RATIO
                  Hcpos Hapos ltac:(vm_compute; split; discriminate) Hle) as H.
    rewrite (DecimalFacts.cmp_le_lt_trans _ BELOW_MIN_COLLATERAL_RATIO _ H); reflexivity.
  - vm_compute. reflexivity.
  - vm_compute. reflexivity.
Qed.

(** ** Repayments *)



Lemma set_outbox_same (w : World) : set_outbox (outbox w) w = w.
Proof. destruct w; reflexivity. Qed.












End LoanFacts.

Lemma issueLoan_collateral_ratio_check_witness :
  issueLoan (P := stub_platform) "loan1"
    (loan_request (Decimal.of_Z 100) (Decimal.of_Z 149)) two_users
  = (two_users, Err (ValidationError "Collateral ratio must be at least 1.50"))
  /\ is_ok (snd (issueLoan (P := stub_platform) "loan1"
                  (loan_request (Decimal.of_Z 100) (Decimal.of_Z 150)) two_users)) = true.
Proof.
  split.
  - exact (proj1 (issueLoan_collateral_ratio_check (P := stub_platform) "loan1"
             (loan_request (Decimal.of_Z 100) (Decimal.of_Z 149)) two_users
             "alice" "alice" "bob" (Decimal.of_Z 100) (Decimal.of_Z 149)
             eq_refl eq_refl eq_refl ltac:(discriminate) (or_introl eq_refl)
             eq_refl eq_refl) eq_refl).
  - rewrite (proj1 (proj2 (issueLoan_collateral_ratio_check (P := stub_platform) "loan1"
             (loan_request (Decimal.of_Z 100) (Decimal.of_Z 150)) two_users
             "alice" "alice" "bob" (Decimal.of_Z 100) (Decimal.of_Z 150)
             eq_refl eq_refl eq_refl ltac:(discriminate) (or_introl eq_refl)
             eq_refl eq_refl)) eq_refl "issue_loan" eq_refl ltac:(discriminate)
             eq_refl eq_refl).
    reflexivity.
Defined.

(** C5 as stated fails on amount 2 with collateral 2.999999999999999999999:
    the exact ratio is below 1.5, the quotient rounds to 1.5 and the loan
    is issued. *)
Lemma issueLoan_accepts_ratio_below_minimum :
  let amount := Decimal.mk 2 0 in
  let collateralAmt := Decimal.mk 2999999999999999999999 (-21) in
  Decimal.cmp collateralAmt (Decimal.mul_exact MIN_COLLATERAL_RATIO amount) = Lt
  /\ Decimal.div collateralAmt amount = Decimal.mk 15000000000000000000 (-19)
  /\ is_ok (snd (issueLoan (P := stub_platform) "loan1"
                  (loan_request amount collateralAmt) two_users)) = true.
Proof. vm_compute. repeat split. Qed.


(** The scenario of the specification: a loan of 300 is repaid by 50, then
    by 250, and a third repayment is refused. *)
Example loan_of_300_repaid_in_two_steps :
  let w0 := one_loan (Decimal.of_Z 300) LoanStatus.PENDING in
  let '(w1, r1) := recordRepayment "r1" 0 (repay_request (Decimal.of_Z 50)) w0 in
  let '(w2, r2) := recordRepayment "r2" 1 (repay_request (Decimal.of_Z 250)) w1 in
  let '(w3, r3) := recordRepayment "r3" 2 (repay_request (Decimal.of_Z 1)) w2 in
  match r1, r2 with
  | Ok a, Ok b =>
      outstandingAfter a = Decimal.of_Z 250
      /\ Loan.status (fst (loan a)) = LoanStatus.ACTIVE
      /\ outstandingAfter b = Decimal.of_Z 0
      /\ Loan.status (fst (loan b)) = LoanStatus.REPAID
      /\ fullyRepaid b = true
      /\ r3 = Err (ValidationError "Loan is already fully repaid")
      /\ outbox w3 = [LoanUpdated "loan1" LoanStatus.ACTIVE;
                      LoanUpdated "loan1" LoanStatus.REPAID]
  | _, _ => False
  end.
Proof. vm_compute. repeat split. Qed.


(* ===================================================================== *)
(** * Challenges                                                          *)
(* ===================================================================== *)

Lemma purpose_eqb_eq (a b : ChallengePurpose) : purpose_eqb a b = true <-> a = b.
Proof. destruct a, b; simpl; split; intros H; try reflexivity; discriminate. Qed.

Lemma key_eqb_eq (a b : string * string * ChallengePurpose) :
  key_eqb a b = true <-> a = b.
Proof.
  destruct a as [[a1 a2] a3], b as [[b1 b2] b3]. unfold key_eqb.
  rewrite !andb_true_iff, !String.eqb_eq, purpose_eqb_eq. split.
  - intros [[-> ->] ->]. reflexivity.
  - intros H. injection H as -> -> ->. tauto.
Qed.

Lemma key_eqb_refl (a : string * string * ChallengePurpose) : key_eqb a a = true.
Proof. apply key_eqb_eq. reflexivity. Qed.

Lemma nodup_key_inj {A K : Type} (key : A -> K) (l : list A) (a b : A) :
  NoDup (map key l) -> In a l -> In b l -> key a = key b -> a = b.
Proof.
  induction l as [|c l IH]; simpl; intros Hnd Ha Hb E; [contradiction|].
  inversion Hnd as [|? ? Hnin Hnd']; subst.
  destruct Ha as [->|Ha], Hb as [->|Hb].
  - reflexivity.
  - exfalso. apply Hnin. rewrite E. apply in_map. assumption.
  - exfalso. apply Hnin. rewrite <- E. apply in_map. assumption.
  - apply IH; assumption.
Qed.

Lemma filter_length_le {A} (p q : A -> bool) (l : list A) :
  (forall x, p x = true -> q x = true) ->
  (List.length (filter p l) <= List.length (filter q l))%nat.
Proof.
  intros H. induction l as [|a l IH]; simpl; [lia|].
  destruct (p a) eqn:Ep.
  - rewrite (H a Ep). simpl. lia.
  - destruct (q a); simpl; lia.
Qed.

Lemma filter_key_absent (l : list WalletChallenge.t) (k : string * string * ChallengePurpose) :
  ~ In k (map challenge_key l) ->
  filter (fun c => key_eqb (challenge_key c) k) l = [].
Proof.
  induction l as [|b l IH]; intros Hnin; [reflexivity|].
  cbn [filter]. destruct (key_eqb (challenge_key b) k) eqn:Eb.
  - apply key_eqb_eq in Eb. exfalso. apply Hnin. left. assumption.
  - apply IH. intros Hin. apply Hnin. right. assumption.
Qed.

Lemma filter_key_le1 (l : list WalletChallenge.t) (k : string * string * ChallengePurpose) :
  NoDup (map challenge_key l) ->
  (List.length (filter (fun c => key_eqb (challenge_key c) k) l) <= 1)%nat.
Proof.
  induction l as [|a l IH]; intros Hnd; [simpl; lia|].
  cbn [map] in Hnd. inversion Hnd as [|? ? Hnin Hnd']; subst.
  cbn [filter]. destruct (key_eqb (challenge_key a) k) eqn:E.
  - apply key_eqb_eq in E. subst k.
    rewrite filter_key_absent by assumption. simpl. lia.
  - apply IH. assumption.
Qed.

(** The rows the consuming update matches. *)
Lemma consume_where_spec (address nonce : string) (purpose : ChallengePurpose)
  (userId : option string) (now : Z) (c : WalletChallenge.t) :
  consume_where address nonce purpose userId now c = true <->
  (challenge_key c = (address, nonce, purpose)
   /\ WalletChallenge.usedAt c = None
   /\ now < WalletChallenge.expiresAt c
   /\ (truthy userId = true -> WalletChallenge.userId c = userId)).
Proof.
  unfold consume_where, challenge_key.
  rewrite !andb_true_iff, !String.eqb_eq, purpose_eqb_eq, Z.ltb_lt.
  split.
  - intros [[[[[-> ->] ->] Hu] Ht] Hid]. repeat split; try assumption.
    + destruct (WalletChallenge.usedAt c); [discriminate|reflexivity].
    + intros Htr. rewrite Htr in Hid.
      destruct (WalletChallenge.userId c) as [x|], userId as [v|]; try discriminate.
      apply String.eqb_eq in Hid. subst. reflexivity.
  - intros [Hk [Hu [Ht Hid]]]. injection Hk as -> -> ->.
    repeat split; try assumption.
    + rewrite Hu. reflexivity.
    + destruct (truthy userId) eqn:Htr; [|reflexivity].
      rewrite (Hid eq_refl). destruct userId as [v|]; [|discriminate].
      apply String.eqb_refl.
Qed.

Lemma consume_where_key address nonce purpose userId now c :
  consume_where address nonce purpose userId now c = true ->
  key_eqb (challenge_key c) (address, nonce, purpose) = true.
Proof. intros H. apply consume_where_spec in H. apply key_eqb_eq. apply H. Qed.

Lemma set_walletChallenges_same (w : World) :
  set_walletChallenges (walletChallenges w) w = w.
Proof. destruct w; reflexivity. Qed.

Lemma with_usedAt_key (u : option Z) (c : WalletChallenge.t) :
  challenge_key (WalletChallenge.with_usedAt u c) = challenge_key c.
Proof. reflexivity. Qed.

Lemma requireNonEmptyString_ok (s : string) (fieldName : string) (v : string) :
  requireNonEmptyString (Some s) fieldName = Ok v -> v = trim s /\ trim s <> "".
Proof.
  unfold requireNonEmptyString. destruct (String.eqb (trim s) "") eqn:E; [discriminate|].
  intros H. injection H as <-. apply String.eqb_neq in E. tauto.
Qed.

Lemma consumed_rows_none address nonce purpose userId now w :
  filter (consume_where address nonce purpose userId now) (walletChallenges w) = [] ->
  consumed_rows address nonce purpose userId now w = walletChallenges w.
Proof.
  intros Hnone. unfold consumed_rows.
  rewrite <- (map_id (walletChallenges w)) at 2. apply map_ext_in.
  intros r Hr. destruct (consume_where _ _ _ _ _ r) eqn:G; [|reflexivity].
  exfalso. assert (Hin : In r (filter (consume_where address nonce purpose userId now)
                                      (walletChallenges w)))
    by (apply filter_In; split; assumption).
  rewrite Hnone in Hin. contradiction.
Qed.

Lemma consumed_rows_keys address nonce purpose userId now w :
  map challenge_key (consumed_rows address nonce purpose userId now w)
  = map challenge_key (walletChallenges w).
Proof.
  unfold consumed_rows. rewrite map_map. apply map_ext.
  intros r. destruct (consume_where _ _ _ _ _ r); reflexivity.
Qed.

Section ChallengeFacts.
Context {P : Platform}.

(** The call on well-formed arguments. *)
Lemma verifyAndConsumeChallenge_steps (now : Z) (address nonce signature : string)
  (purpose : ChallengePurpose) (userId : option string) (w : World)
  (bytes : list byte) :
  trim nonce <> "" ->
  decodeSignature (Some signature) = Ok bytes ->
  Keypair_fromPublicKey address = true ->
  verifyAndConsumeChallenge now address nonce signature purpose userId w =
  if negb (Keypair_verify address (buildChallengeMessage purpose (trim nonce)) bytes)
  then (w, Err (UnauthorizedError "Invalid signature"))
  else
    (set_walletChallenges (consumed_rows address (trim nonce) purpose userId now w) w,
     if Nat.eqb (List.length (filter (consume_where address (trim nonce) purpose userId now)
                                     (walletChallenges w))) 1
     then Ok tt
     else Err (UnauthorizedError "Invalid or expired challenge")).
Proof.
  intros Hn Hs Hk. unfold verifyAndConsumeChallenge, requireNonEmptyString.
  apply String.eqb_neq in Hn. rewrite Hn. unfold_m. rewrite Hs, Hk. cbn [negb].
  destruct (negb (Keypair_verify _ _ _)); [reflexivity|].
  unfold walletChallenge_consume, updateMany. fold (consumed_rows address (trim nonce) purpose userId now w).
  destruct (Nat.eqb _ 1); reflexivity.
Qed.

(** The call on other arguments fails before it reaches the store. *)
Lemma verifyAndConsumeChallenge_malformed (now : Z) (address nonce signature : string)
  (purpose : ChallengePurpose) (userId : option string) (w : World) :
  trim nonce = "" \/ (exists e, decodeSignature (Some signature) = Err e)
  \/ Keypair_fromPublicKey address = false ->
  exists e, verifyAndConsumeChallenge now address nonce signature purpose userId w = (w, Err e)
            /\ (error_name e = "ValidationError" \/ error_name e = "Error").
Proof.
  intros H. unfold verifyAndConsumeChallenge, requireNonEmptyString. unfold_m.
  destruct (String.eqb (trim nonce) "") eqn:En.
  { eexists. split; [reflexivity|left; reflexivity]. }
  destruct (decodeSignature (Some signature)) as [bytes|e] eqn:Es.
  2:{ exists e. split; [reflexivity|].
      unfold decodeSignature, requireNonEmptyString in Es.
      destruct (String.eqb (trim signature) "");
        [injection Es as <-; left; reflexivity|].
      repeat match type of Es with
             | (if ?c then _ else _) = _ => destruct c
             end; try discriminate; injection Es as <-; left; reflexivity. }
  destruct (Keypair_fromPublicKey address) eqn:Ek.
  - exfalso. destruct H as [H|[[e H]|H]]; try discriminate.
    apply String.eqb_neq in En. contradiction.
  - eexists. split; [reflexivity|right; reflexivity].
Qed.

Lemma consume_count_le1 address nonce purpose userId now w :
  challenges_unique w ->
  (List.length (filter (consume_where address nonce purpose userId now)
                       (walletChallenges w)) <= 1)%nat.
Proof.
  intros Hu.
  apply Nat.le_trans with
    (List.length (filter (fun c => key_eqb (challenge_key c) (address, nonce, purpose))
                         (walletChallenges w))).
  - apply filter_length_le. intros x. apply consume_where_key.
  - apply filter_key_le1. exact Hu.
Qed.

(** What a consumption attempt can do to the store. *)
Lemma verifyAndConsumeChallenge_outcome (now : Z) (address nonce signature : string)
  (purpose : ChallengePurpose) (userId : option string) (w : World) :
  challenges_unique w ->
  (snd (verifyAndConsumeChallenge now address nonce signature purpose userId w) = Ok tt
   /\ List.length (filter (consume_where address (trim nonce) purpose userId now)
                          (walletChallenges w)) = 1%nat
   /\ fst (verifyAndConsumeChallenge now address nonce signature purpose userId w)
      = set_walletChallenges (consumed_rows address (trim nonce) purpose userId now w) w)
  \/ (exists e,
        verifyAndConsumeChallenge now address nonce signature purpose userId w = (w, Err e)
        /\ (error_name e = "UnauthorizedError" \/ error_name e = "ValidationError"
            \/ error_name e = "Error")
        /\ (trim nonce <> "" ->
            (exists bytes, decodeSignature (Some signature) = Ok bytes) ->
            Keypair_fromPublicKey address = true ->
            exists message, e = UnauthorizedError message)).
Proof.
  intros Hu.
  destruct (String.eqb (trim nonce) "") eqn:En.
  { apply String.eqb_eq in En. right.
    destruct (verifyAndConsumeChallenge_malformed now address nonce signature purpose
                userId w (or_introl En)) as [e [He Hk]].
    exists e. split; [exact He|]. split; [tauto|]. intros Hn. contradiction. }
  apply String.eqb_neq in En.
  destruct (decodeSignature (Some signature)) as [bytes|e0] eqn:Es.
  2:{ right.
      destruct (verifyAndConsumeChallenge_malformed now address nonce signature purpose
                  userId w (or_intror (or_introl (ex_intro _ e0 Es)))) as [e [He Hk]].
      exists e. split; [exact He|]. split; [tauto|]. intros _ [b Hb]. discriminate. }
  destruct (Keypair_fromPublicKey address) eqn:Ek.
  2:{ right.
      destruct (verifyAndConsumeChallenge_malformed now address nonce signature purpose
                  userId w (or_intror (or_intror Ek))) as [e [He Hk]].
      exists e. split; [exact He|]. split; [tauto|]. intros _ _ H. discriminate. }
  rewrite (verifyAndConsumeChallenge_steps now address nonce signature purpose userId w
             bytes En Es Ek).
  destruct (negb (Keypair_verify _ _ _)).
  { right. eexists. split; [reflexivity|]. split; [left; reflexivity|].
    intros _ _ _. eexists. reflexivity. }
  pose proof (consume_count_le1 address (trim nonce) purpose userId now w Hu) as Hle.
  destruct (Nat.eqb _ 1) eqn:Ec.
  - left. apply Nat.eqb_eq in Ec. cbn [fst snd]. tauto.
  - right. apply Nat.eqb_neq in Ec. eexists. split; [|split].
    + rewrite consumed_rows_none, set_walletChallenges_same; [reflexivity|].
      destruct (filter _ _) as [|x xs]; [reflexivity|]. simpl in *. lia.
    + left. reflexivity.
    + intros _ _ _. eexists. reflexivity.
Qed.

Lemma consume_success_spent address nonce purpose userId now w :
  challenges_unique w ->
  List.length (filter (consume_where address nonce purpose userId now)
                      (walletChallenges w)) = 1%nat ->
  spent (address, nonce, purpose)
        (set_walletChallenges (consumed_rows address nonce purpose userId now w) w).
Proof.
  intros Hu Hc.
  destruct (filter (consume_where address nonce purpose userId now) (walletChallenges w))
    as [|c [|c' cs]] eqn:Hf; try discriminate. clear Hc.
  assert (Hin : In c (filter (consume_where address nonce purpose userId now)
                             (walletChallenges w))) by (rewrite Hf; left; reflexivity).
  apply filter_In in Hin. destruct Hin as [Hin Hw].
  pose proof (proj1 (consume_where_spec _ _ _ _ _ _) Hw) as [Hk _].
  unfold spent. cbn [walletChallenges set_walletChallenges]. unfold consumed_rows. split.
  - exists (WalletChallenge.with_usedAt (Some now) c). split; [|exact Hk].
    apply in_map_iff. exists c. rewrite Hw. tauto.
  - intros x Hx Hkx. apply in_map_iff in Hx. destruct Hx as [c0 [E Hin0]].
    assert (Hk0 : challenge_key c0 = (address, nonce, purpose)).
    { rewrite <- Hkx, <- E. destruct (consume_where _ _ _ _ _ c0); reflexivity. }
    assert (c0 = c) by (apply (nodup_key_inj challenge_key (walletChallenges w));
                        [exact Hu|assumption|assumption|congruence]).
    subst c0. rewrite Hw in E. subst x. discriminate.
Qed.

Lemma spent_consume_none key address nonce purpose userId now w :
  spent key w -> key = (address, nonce, purpose) ->
  filter (consume_where address nonce purpose userId now) (walletChallenges w) = [].
Proof.
  intros [_ Hused] ->.
  destruct (filter _ _) as [|c cs] eqn:Hf; [reflexivity|exfalso].
  assert (Hin : In c (filter (consume_where address nonce purpose userId now)
                             (walletChallenges w))) by (rewrite Hf; left; reflexivity).
  apply filter_In in Hin. destruct Hin as [Hin Hw].
  apply consume_where_spec in Hw. destruct Hw as [Hk [Hu _]].
  exact (Hused c Hin Hk Hu).
Qed.

Lemma spent_consumed_rows key address nonce purpose userId now w :
  spent key w ->
  spent key (set_walletChallenges (consumed_rows address nonce purpose userId now w) w).
Proof.
  intros [[c [Hin Hk]] Hused]. unfold spent, consumed_rows.
  cbn [walletChallenges set_walletChallenges]. split.
  - eexists. split; [apply in_map; exact Hin|].
    destruct (consume_where _ _ _ _ _ c); exact Hk.
  - intros x Hx Hkx. apply in_map_iff in Hx. destruct Hx as [c0 [E Hin0]].
    destruct (consume_where _ _ _ _ _ c0); subst x; [discriminate|].
    apply (Hused c0 Hin0 Hkx).
Qed.

(** What issuing a challenge can do to the store. *)
Lemma generateChallenge_outcome (now : Z) (entropy : nat -> byte) (address : option string)
  (purpose : ChallengePurpose) (userId : option string) (w : World) :
  (exists e, generateChallenge now entropy address purpose userId w = (w, Err e))
  \/ (exists row c,
        generateChallenge now entropy address purpose userId w
        = (set_walletChallenges (walletChallenges w ++ [row]) w, Ok c)
        /\ existsb (fun x => key_eqb (challenge_key x) (challenge_key row))
                   (walletChallenges w) = false
        /\ normalizeAddress address = Ok (WalletChallenge.walletAddress row)
        /\ Keypair_fromPublicKey (WalletChallenge.walletAddress row) = true
        /\ row = WalletChallenge.mk userId (WalletChallenge.walletAddress row)
                   (Buffer_toString_hex (randomBytes entropy 24)) purpose
                   (now + CHALLENGE_TTL_MS) None
        /\ c = mkChallenge (WalletChallenge.nonce row) (WalletChallenge.expiresAt row)
                 (buildChallengeMessage purpose (WalletChallenge.nonce row))).
Proof.
  unfold generateChallenge. unfold_m.
  destruct (normalizeAddress address) as [normalizedAddress|e] eqn:Hn;
    [|left; eexists; reflexivity].
  unfold assertValidStellarAddress.
  destruct (Keypair_fromPublicKey normalizedAddress) eqn:Hk;
    [|left; eexists; reflexivity].
  destruct (purpose_eqb purpose LINK_WALLET && negb (truthy userId))%bool;
    [left; eexists; reflexivity|].
  unfold walletChallenge_create. cbn [WalletChallenge.userId].
  destruct (existsb _ (walletChallenges w)) eqn:Hex; [left; eexists; reflexivity|].
  destruct userId as [u|].
  - destruct (user_exists u w); [|left; eexists; reflexivity].
    right. eexists. eexists. split; [reflexivity|].
    cbn [WalletChallenge.walletAddress WalletChallenge.nonce WalletChallenge.expiresAt].
    repeat split; assumption.
  - right. eexists. eexists. split; [reflexivity|].
    cbn [WalletChallenge.walletAddress WalletChallenge.nonce WalletChallenge.expiresAt].
    repeat split; assumption.
Qed.

Lemma existsb_key_false (l : list WalletChallenge.t) (k : string * string * ChallengePurpose) :
  existsb (fun x => key_eqb (challenge_key x) k) l = false ->
  ~ In k (map challenge_key l).
Proof.
  intros H Hin. apply in_map_iff in Hin. destruct Hin as [c [Hk Hc]].
  assert (existsb (fun x => key_eqb (challenge_key x) k) l = true).
  { apply existsb_exists. exists c. split; [assumption|]. apply key_eqb_eq. assumption. }
  congruence.
Qed.

Lemma run_call_unique (call : ChallengeCall) (w : World) :
  challenges_unique w -> challenges_unique (fst (run_call call w)).
Proof.
  intros Hu. destruct call as [now entropy address purpose userId
                              |now address nonce signature purpose userId]; cbn [run_call].
  - destruct (generateChallenge_outcome now entropy address purpose userId w)
      as [[e He]|[row [c [He [Hfresh _]]]]]; rewrite He; cbn [fst]; [exact Hu|].
    unfold challenges_unique. cbn [walletChallenges set_walletChallenges].
    rewrite map_app. cbn [map].
    apply NoDup_app; [exact Hu|repeat constructor; simpl; tauto|].
    intros k Hk [<-|[]]. exact (existsb_key_false _ _ Hfresh Hk).
  - destruct (verifyAndConsumeChallenge_outcome now address nonce signature purpose
                userId w Hu) as [[Hr [_ Hw]]|[e [He _]]].
    + destruct (verifyAndConsumeChallenge _ _ _ _ _ _ w) as [w' r]. cbn [fst snd] in *.
      subst w'. unfold challenges_unique. cbn [walletChallenges set_walletChallenges].
      rewrite consumed_rows_keys. exact Hu.
    + rewrite He. exact Hu.
Qed.

Lemma run_call_spent (key : string * string * ChallengePurpose) (call : ChallengeCall)
  (w : World) :
  challenges_unique w -> spent key w ->
  spent key (fst (run_call call w))
  /\ (snd (run_call call w) && targets key call)%bool = false.
Proof.
  intros Hu Hs. destruct call as [now entropy address purpose userId
                                 |now address nonce signature purpose userId];
    cbn [run_call targets].
  - rewrite andb_false_r. split; [|reflexivity].
    destruct (generateChallenge_outcome now entropy address purpose userId w)
      as [[e He]|[row [c [He [Hfresh _]]]]]; rewrite He; cbn [fst]; [exact Hs|].
    destruct Hs as [[c0 [Hin Hk]] Hused]. unfold spent.
    cbn [walletChallenges set_walletChallenges]. split.
    + exists c0. split; [apply in_or_app; left; exact Hin|exact Hk].
    + intros x Hx Hkx. apply in_app_or in Hx. destruct Hx as [Hx|[<-|[]]].
      * exact (Hused x Hx Hkx).
      * exfalso. apply (existsb_key_false _ _ Hfresh). rewrite Hkx, <- Hk.
        apply in_map. exact Hin.
  - destruct (verifyAndConsumeChallenge_outcome now address nonce signature purpose
                userId w Hu) as [[Hr [Hc Hw]]|[e [He _]]].
    + destruct (key_eqb (address, trim nonce, purpose) key) eqn:Ek.
      * apply key_eqb_eq in Ek.
        rewrite (spent_consume_none key address (trim nonce) purpose userId now w Hs
                   (eq_sym Ek)) in Hc. discriminate.
      * destruct (verifyAndConsumeChallenge _ _ _ _ _ _ w) as [w' r]. cbn [fst snd] in *.
        subst w'. rewrite andb_false_r. split; [|reflexivity].
        apply spent_consumed_rows. exact Hs.
    + rewrite He. cbn [fst snd is_ok andb]. split; [exact Hs|reflexivity].
Qed.

Lemma spent_no_more_consumptions (key : string * string * ChallengePurpose)
  (calls : list ChallengeCall) :
  forall w, challenges_unique w -> spent key w ->
            successful_consumptions key calls w = 0%nat.
Proof.
  induction calls as [|call rest IH]; intros w Hu Hs; [reflexivity|].
  cbn [successful_consumptions].
  pose proof (run_call_unique call w Hu) as Hu'.
  destruct (run_call_spent key call w Hu Hs) as [Hs' Hfail].
  destruct (run_call call w) as [w' ok]. cbn [fst snd] in *.
  rewrite Hfail, (IH w' Hu' Hs'). reflexivity.
Qed.

Lemma at_most_one_consumption (key : string * string * ChallengePurpose)
  (calls : list ChallengeCall) :
  forall w, challenges_unique w -> (successful_consumptions key calls w <= 1)%nat.
Proof.
  induction calls as [|call rest IH]; intros w Hu; [simpl; lia|].
  cbn [successful_consumptions].
  pose proof (run_call_unique call w Hu) as Hu'.
  destruct (snd (run_call call w) && targets key call)%bool eqn:Hok.
  - (* this attempt consumed the challenge *)
    apply andb_true_iff in Hok. destruct Hok as [Hsucc Htarget].
    destruct call as [now entropy address purpose userId
                     |now address nonce signature purpose userId];
      cbn [targets] in Htarget; [discriminate|].
    apply key_eqb_eq in Htarget. cbn [run_call] in *.
    destruct (verifyAndConsumeChallenge_outcome now address nonce signature purpose
                userId w Hu) as [[Hr [Hc Hw]]|[e [He _]]].
    + destruct (verifyAndConsumeChallenge _ _ _ _ _ _ w) as [w' r]. cbn [fst snd] in *.
      subst r w'. cbn [is_ok andb targets]. rewrite Htarget, key_eqb_refl.
      rewrite spent_no_more_consumptions; [lia|exact Hu'|].
      rewrite <- Htarget. apply consume_success_spent; assumption.
    + rewrite He in Hsucc. discriminate.
  - destruct (run_call call w) as [w' ok]. cbn [fst snd] in *. rewrite Hok.
    specialize (IH w' Hu'). lia.
Qed.

(** C1, as amended.  On a challenge table with its unique index,
    [verifyAndConsumeChallenge] succeeds only by marking the one row of
    that [(address, nonce, purpose)] that is unused, unexpired and of the
    given user; the challenge is then spent.  A call that finds no such
    row -- the challenge is used, expired, unknown or of another user --
    leaves the store as it was and fails with an [UnauthorizedError] when
    its nonce is not blank, its signature decodes to 64 bytes and its
    address is a public key; a call that is not of this form fails with a
    [ValidationError] (or the error of the key parser) before it reaches
    the store.  Of any calls run in any order, at most one consumption of
    the same challenge succeeds, and none once the challenge is spent. *)
Theorem verifyAndConsumeChallenge_consumes_at_most_once (w : World) :
  challenges_unique w ->
  (forall now address nonce signature purpose userId,
     let call := verifyAndConsumeChallenge now address nonce signature purpose userId w in
     (snd call = Ok tt ->
        exists c,
          In c (walletChallenges w)
          /\ challenge_key c = (address, trim nonce, purpose)
          /\ WalletChallenge.usedAt c = None
          /\ now < WalletChallenge.expiresAt c
          /\ (truthy userId = true -> WalletChallenge.userId c = userId)
          /\ fst call
             = set_walletChallenges
                 (consumed_rows address (trim nonce) purpose userId now w) w
          /\ spent (address, trim nonce, purpose) (fst call))
     /\ (snd call <> Ok tt ->
         exists e, call = (w, Err e)
                   /\ (error_name e = "UnauthorizedError"
                       \/ error_name e = "ValidationError" \/ error_name e = "Error"))
     /\ (trim nonce <> "" ->
         (exists bytes, decodeSignature (Some signature) = Ok bytes) ->
         Keypair_fromPublicKey address = true ->
         (forall c, In c (walletChallenges w) ->
                    challenge_key c = (address, trim nonce, purpose) ->
                    WalletChallenge.usedAt c <> None
                    \/ WalletChallenge.expiresAt c <= now
                    \/ (truthy userId = true /\ WalletChallenge.userId c <> userId)) ->
         exists message, call = (w, Err (UnauthorizedError message))))
  /\ (forall key calls, (successful_consumptions key calls w <= 1)%nat)
  /\ (forall key calls, spent key w -> successful_consumptions key calls w = 0%nat).
Proof.
  intros Hu. split; [|split].
  - intros now address nonce signature purpose userId call. subst call.
    pose proof (verifyAndConsumeChallenge_outcome now address nonce signature purpose
                  userId w Hu) as Hout.
    split; [|split].
    + intros Hok. destruct Hout as [[_ [Hc Hw]]|[e [He _]]].
      2:{ rewrite He in Hok. discriminate. }
      pose proof (consume_success_spent address (trim nonce) purpose userId now w Hu Hc)
        as Hs.
      destruct (filter (consume_where address (trim nonce) purpose userId now)
                       (walletChallenges w)) as [|c cs] eqn:Hf; [discriminate|].
      assert (Hin : In c (filter (consume_where address (trim nonce) purpose userId now)
                                 (walletChallenges w))) by (rewrite Hf; left; reflexivity).
      apply filter_In in Hin. destruct Hin as [Hin Hwh].
      apply consume_where_spec in Hwh. destruct Hwh as [Hk [Hun [Hex Hid]]].
      exists c. rewrite Hw.
      do 6 (split; [first [assumption|reflexivity]|]). exact Hs.
    + intros Hnok. destruct Hout as [[Hr _]|[e [He [Hk _]]]]; [contradiction|].
      exists e. split; assumption.
    + intros Hn Hs Hk Hnone. destruct Hout as [[_ [Hc _]]|[e [He [_ Hun]]]].
      * exfalso.
        destruct (filter (consume_where address (trim nonce) purpose userId now)
                         (walletChallenges w)) as [|c cs] eqn:Hf; [discriminate|].
        assert (Hin : In c (filter (consume_where address (trim nonce) purpose userId now)
                                   (walletChallenges w))) by (rewrite Hf; left; reflexivity).
        apply filter_In in Hin. destruct Hin as [Hin Hwh].
        apply consume_where_spec in Hwh. destruct Hwh as [Hkey [Hunused [Hex Hid]]].
        destruct (Hnone c Hin Hkey) as [H|[H|[Ht H]]]; [contradiction|lia|].
        apply H. apply Hid. exact Ht.
      * destruct (Hun Hn Hs Hk) as [message ->]. exists message. exact He.
  - intros key calls. apply at_most_one_consumption. exact Hu.
  - intros key calls Hs. apply spent_no_more_consumptions; assumption.
Qed.

End ChallengeFacts.

Lemma one_challenge_unique (usedAt : option Z) : challenges_unique (one_challenge usedAt).
Proof. unfold challenges_unique. simpl. repeat constructor. simpl. tauto. Qed.

Lemma verifyAndConsumeChallenge_consumes_at_most_once_witness :
  (successful_consumptions (P := stub_platform) ("GWALLET", "abc", LINK_WALLET)
     [Consume 5 "GWALLET" "abc" good_signature LINK_WALLET (Some "alice");
      Consume 6 "GWALLET" " abc " good_signature LINK_WALLET (Some "alice")]
     (one_challenge None) <= 1)%nat.
Proof.
  exact (proj1 (proj2 (verifyAndConsumeChallenge_consumes_at_most_once
           (P := stub_platform) (one_challenge None) (one_challenge_unique None)))
         ("GWALLET", "abc", LINK_WALLET)
         [Consume 5 "GWALLET" "abc" good_signature LINK_WALLET (Some "alice");
          Consume 6 "GWALLET" " abc " good_signature LINK_WALLET (Some "alice")]).
Defined.

(** C1 as stated fails on a second call whose signature is not a 64-byte
    value: the challenge is used, and the call fails with a
    [ValidationError], not an [UnauthorizedError]. *)
Lemma second_consumption_fails_with_ValidationError :
  let first := verifyAndConsumeChallenge (P := stub_platform) 5 "GWALLET" "abc"
                 good_signature LINK_WALLET (Some "alice") (one_challenge None) in
  let second := verifyAndConsumeChallenge (P := stub_platform) 6 "GWALLET" "abc"
                  "zz" LINK_WALLET (Some "alice") (fst first) in
  snd first = Ok tt
  /\ snd second = Err (ValidationError "Signature must be a 64-byte hex or base64 value")
  /\ (forall e, snd second = Err e -> error_name e <> "UnauthorizedError").
Proof.
  cbv zeta. split; [reflexivity|]. split; [reflexivity|].
  intros e H. vm_compute in H. injection H as <-. discriminate.
Qed.

(* ===================================================================== *)
(** * Issuing a challenge                                                 *)
(* ===================================================================== *)

Lemma byte_hex_roundtrip (b : byte) :
  byte_of_N (16 * hex_value (hex_digit (Byte.to_N b / 16))
             + hex_value (hex_digit (Byte.to_N b mod 16)))%N = b.
Proof. destruct b; vm_compute; reflexivity. Qed.

Lemma Buffer_hex_roundtrip (bs : list byte) :
  Buffer_from_hex (Buffer_toString_hex bs) = bs.
Proof.
  induction bs as [|b bs IH]; [reflexivity|].
  cbn [Buffer_toString_hex byte_to_hex String.append Buffer_from_hex].
  rewrite byte_hex_roundtrip, IH. reflexivity.
Qed.

Lemma Buffer_hex_length (bs : list byte) :
  String.length (Buffer_toString_hex bs) = (2 * List.length bs)%nat.
Proof.
  induction bs as [|b bs IH]; [reflexivity|].
  cbn [Buffer_toString_hex byte_to_hex String.append String.length List.length].
  rewrite IH. lia.
Qed.

Lemma hex_digit_is_hex (n : N) : (n < 16)%N -> is_hex_char (hex_digit n) = true.
Proof.
  intros H. destruct n as [|p]; [reflexivity|].
  do 5 (try destruct p as [p|p|]); try reflexivity; exfalso; lia.
Qed.

Lemma Buffer_hex_chars (bs : list byte) :
  string_forall is_hex_char (Buffer_toString_hex bs) = true.
Proof.
  induction bs as [|b bs IH]; [reflexivity|].
  cbn [Buffer_toString_hex byte_to_hex String.append string_forall].
  rewrite IH, !hex_digit_is_hex; [reflexivity| |].
  - apply N.mod_lt. discriminate.
  - destruct b; vm_compute; reflexivity.
Qed.

Lemma randomBytes_length (entropy : nat -> byte) (n : nat) :
  List.length (randomBytes entropy n) = n.
Proof. unfold randomBytes. rewrite length_map, length_seq. reflexivity. Qed.

Section IssueFacts.
Context {P : Platform}.

(** C7, as amended.  [generateChallenge] fails with a [ValidationError]
    when the address is blank or is not a public key, and when the
    purpose is [LINK_WALLET] and no user id is given.  When it succeeds,
    the nonce is the lower-case hexadecimal writing of the 24 bytes drawn
    (48 digits, from which the bytes are read back), the message is the
    canonical message of the purpose and the nonce, and one challenge row
    is appended for the normalised address, unused and expiring 600000 ms
    after [now]; nothing else is written. *)
Theorem generateChallenge_issues_fresh_challenge
  (now : Z) (entropy : nat -> byte) (address : option string)
  (purpose : ChallengePurpose) (userId : option string) (w : World) :
  (forall e, normalizeAddress address = Err e ->
     e = ValidationError "walletAddress is required"
     /\ generateChallenge now entropy address purpose userId w = (w, Err e))
  /\ (forall a, normalizeAddress address = Ok a -> Keypair_fromPublicKey a = false ->
        generateChallenge now entropy address purpose userId w
        = (w, Err (ValidationError "Invalid Stellar wallet address")))
  /\ (forall a, normalizeAddress address = Ok a -> Keypair_fromPublicKey a = true ->
        purpose = LINK_WALLET -> truthy userId = false ->
        generateChallenge now entropy address purpose userId w
        = (w, Err (ValidationError "userId is required for wallet linking challenges")))
  /\ (forall w' c, generateChallenge now entropy address purpose userId w = (w', Ok c) ->
        let bytes := randomBytes entropy 24 in
        List.length bytes = 24%nat
        /\ challenge_nonce c = Buffer_toString_hex bytes
        /\ String.length (challenge_nonce c) = 48%nat
        /\ string_forall is_hex_char (challenge_nonce c) = true
        /\ Buffer_from_hex (challenge_nonce c) = bytes
        /\ challenge_message c = buildChallengeMessage purpose (challenge_nonce c)
        /\ challenge_expiresAt c = now + 10 * 60 * 1000
        /\ (exists a,
              normalizeAddress address = Ok a /\ Keypair_fromPublicKey a = true
              /\ w' = set_walletChallenges
                        (walletChallenges w
                         ++ [WalletChallenge.mk userId a (challenge_nonce c) purpose
                               (now + 10 * 60 * 1000) None]) w)).
Proof.
  split; [|split; [|split]].
  - intros e He. unfold generateChallenge. unfold_m. rewrite He. split; [|reflexivity].
    unfold normalizeAddress, requireNonEmptyString in He.
    destruct address as [s|]; [destruct (String.eqb (trim s) "")|];
      try discriminate; injection He as <-; reflexivity.
  - intros a Ha Hk. unfold generateChallenge, assertValidStellarAddress. unfold_m.
    rewrite Ha, Hk. reflexivity.
  - intros a Ha Hk -> Hu. unfold generateChallenge, assertValidStellarAddress. unfold_m.
    rewrite Ha, Hk, Hu. reflexivity.
  - intros w' c H bytes.
    destruct (generateChallenge_outcome now entropy address purpose userId w)
      as [[e He]|[row [c0 [He [_ [Hn [Hk [Hrow Hc]]]]]]]]; rewrite He in H;
      [discriminate|].
    injection H as <- <-. rewrite Hc.
    assert (Hnonce : WalletChallenge.nonce row = Buffer_toString_hex (randomBytes entropy 24))
      by (rewrite Hrow; reflexivity).
    assert (Hexp : WalletChallenge.expiresAt row = now + 10 * 60 * 1000)
      by (rewrite Hrow; reflexivity).
    cbn [challenge_nonce challenge_message challenge_expiresAt].
    rewrite Hnonce, Hexp. subst bytes.
    split; [apply randomBytes_length|].
    split; [reflexivity|].
    split; [rewrite Buffer_hex_length, randomBytes_length; reflexivity|].
    split; [apply Buffer_hex_chars|].
    split; [apply Buffer_hex_roundtrip|].
    split; [reflexivity|]. split; [reflexivity|].
    exists (WalletChallenge.walletAddress row).
    split; [assumption|]. split; [assumption|].
    symmetry in Hrow. unfold CHALLENGE_TTL_MS in Hrow. rewrite Hrow. reflexivity.
Qed.

End IssueFacts.

(** C7 as stated fails on an address that is not a public key: the error
    is a [ValidationError]; the code base has no [InvalidAddress] error. *)
Lemma generateChallenge_invalid_address_is_ValidationError :
  snd (generateChallenge (P := stub_platform) 0 (fun _ => x00) (Some "not-a-key")
         LOGIN None two_users)
  = Err (ValidationError "Invalid Stellar wallet address")
  /\ error_name (ValidationError "Invalid Stellar wallet address") <> "InvalidAddress".
Proof. split; [reflexivity|discriminate]. Qed.

(* ===================================================================== *)
(** * Wallets and the primary wallet                                      *)
(* ===================================================================== *)

Lemma single_primary_tables (w : World) :
  single_primary w <-> one_primary (users w) (wallets w).
Proof. reflexivity. Qed.

Lemma wallets_of_map (uid : string) (f : Wallet.t -> Wallet.t) (ws : list Wallet.t) :
  (forall x, Wallet.userId (f x) = Wallet.userId x) ->
  wallets_of uid (map f ws) = map f (wallets_of uid ws).
Proof.
  intros Hf. unfold wallets_of. induction ws as [|x ws IH]; [reflexivity|].
  cbn [map filter]. rewrite Hf. destruct (String.eqb (Wallet.userId x) uid);
    cbn [map]; rewrite IH; reflexivity.
Qed.

Lemma wallets_of_filter (uid : string) (q : Wallet.t -> bool) (ws : list Wallet.t) :
  wallets_of uid (filter q ws) = filter q (wallets_of uid ws).
Proof.
  unfold wallets_of. induction ws as [|x ws IH]; [reflexivity|].
  cbn [filter]. destruct (q x) eqn:Eq, (String.eqb (Wallet.userId x) uid) eqn:Eu;
    cbn [filter]; rewrite ?Eq, ?Eu, IH; reflexivity.
Qed.

Lemma filter_filter_comm {A} (p q : A -> bool) (l : list A) :
  filter p (filter q l) = filter q (filter p l).
Proof.
  induction l as [|x l IH]; [reflexivity|].
  cbn [filter]. destruct (p x) eqn:Ep, (q x) eqn:Eq;
    cbn [filter]; rewrite ?Ep, ?Eq, IH; reflexivity.
Qed.

Lemma filter_nil_iff {A} (p : A -> bool) (l : list A) :
  filter p l = [] <-> forall x, In x l -> p x = false.
Proof.
  induction l as [|a l IH]; simpl.
  - split; [intros _ x []|reflexivity].
  - destruct (p a) eqn:E.
    + split; [discriminate|]. intros H. rewrite (H a (or_introl eq_refl)) in E. discriminate.
    + rewrite IH. split.
      * intros H x [<-|Hx]; [assumption|apply H; assumption].
      * intros H x Hx. apply H. right. assumption.
Qed.

Lemma filter_id {A} (p : A -> bool) (l : list A) :
  (forall x, In x l -> p x = true) -> filter p l = l.
Proof.
  induction l as [|a l IH]; simpl; intros H; [reflexivity|].
  rewrite (H a (or_introl eq_refl)). f_equal. apply IH.
  intros x Hx. apply H. right. assumption.
Qed.

Lemma map_id_in {A} (f : A -> A) (l : list A) :
  (forall x, In x l -> f x = x) -> map f l = l.
Proof.
  intros H. rewrite <- (map_id l) at 2. apply map_ext_in. exact H.
Qed.

(** ** Sorting keeps the rows *)

Lemma insert_by_In {A} (le : A -> A -> bool) (x y : A) (l : list A) :
  In y (insert_by le x l) <-> y = x \/ In y l.
Proof.
  induction l as [|a l IH]; simpl.
  - intuition auto.
  - destruct (le x a); simpl; [intuition auto|]. rewrite IH. intuition auto.
Qed.

Lemma sort_by_In {A} (le : A -> A -> bool) (y : A) (l : list A) :
  In y (sort_by le l) <-> In y l.
Proof.
  unfold sort_by. induction l as [|a l IH]; simpl; [tauto|].
  rewrite insert_by_In, IH. intuition auto.
Qed.

Lemma insert_by_length {A} (le : A -> A -> bool) (x : A) (l : list A) :
  List.length (insert_by le x l) = S (List.length l).
Proof.
  induction l as [|a l IH]; simpl; [reflexivity|].
  destruct (le x a); simpl; [reflexivity|]. rewrite IH. reflexivity.
Qed.

Lemma sort_by_length {A} (le : A -> A -> bool) (l : list A) :
  List.length (sort_by le l) = List.length l.
Proof.
  unfold sort_by. induction l as [|a l IH]; simpl; [reflexivity|].
  rewrite insert_by_length, IH. reflexivity.
Qed.

(** ** Making one wallet of a user the primary one *)

Lemma promote_map (uid target : string) (ws : list Wallet.t) :
  promote uid target ws = map (promoted uid target) ws.
Proof. unfold promote. rewrite map_map. reflexivity. Qed.

Lemma promoted_id uid target x : Wallet.id (promoted uid target x) = Wallet.id x.
Proof.
  unfold promoted. destruct (String.eqb (Wallet.userId x) uid);
    cbn [Wallet.id Wallet.with_isPrimary];
    destruct (String.eqb (Wallet.id x) target); reflexivity.
Qed.

Lemma promoted_userId uid target x : Wallet.userId (promoted uid target x) = Wallet.userId x.
Proof.
  unfold promoted. destruct (String.eqb (Wallet.userId x) uid);
    cbn [Wallet.id Wallet.with_isPrimary];
    destruct (String.eqb (Wallet.id x) target); reflexivity.
Qed.

Lemma promoted_address uid target x : Wallet.address (promoted uid target x) = Wallet.address x.
Proof.
  unfold promoted. destruct (String.eqb (Wallet.userId x) uid);
    cbn [Wallet.id Wallet.with_isPrimary];
    destruct (String.eqb (Wallet.id x) target); reflexivity.
Qed.

Lemma promoted_isPrimary_own uid target x :
  Wallet.userId x = uid ->
  Wallet.isPrimary (promoted uid target x) = String.eqb (Wallet.id x) target.
Proof.
  intros E. unfold promoted. rewrite E, String.eqb_refl.
  cbn [Wallet.id Wallet.with_isPrimary].
  destruct (String.eqb (Wallet.id x) target); reflexivity.
Qed.

(** A wallet of another user is left as it is, given that the target
    belongs to [uid]. *)
Lemma promoted_other (ws : list Wallet.t) (uid target : string) (t x : Wallet.t) :
  NoDup (map Wallet.id ws) -> In t ws -> Wallet.id t = target -> Wallet.userId t = uid ->
  In x ws -> Wallet.userId x <> uid -> promoted uid target x = x.
Proof.
  intros Hnd Ht Hid Hu Hx Hne. unfold promoted.
  apply String.eqb_neq in Hne. rewrite Hne.
  destruct (String.eqb (Wallet.id x) target) eqn:E; [|reflexivity].
  apply String.eqb_eq in E. exfalso.
  assert (x = t) by (apply (nodup_key_inj Wallet.id ws); congruence).
  subst x. apply String.eqb_neq in Hne. contradiction.
Qed.

Lemma promote_wallets_of_other (ws : list Wallet.t) (uid target uid' : string) (t : Wallet.t) :
  NoDup (map Wallet.id ws) -> In t ws -> Wallet.id t = target -> Wallet.userId t = uid ->
  uid' <> uid ->
  wallets_of uid' (promote uid target ws) = wallets_of uid' ws.
Proof.
  intros Hnd Ht Hid Hu Hne. rewrite promote_map.
  rewrite wallets_of_map by apply promoted_userId.
  apply map_id_in. intros x Hx. unfold wallets_of in Hx. apply filter_In in Hx.
  destruct Hx as [Hx Hux]. apply String.eqb_eq in Hux.
  apply (promoted_other ws uid target t); try assumption. congruence.
Qed.

Lemma promote_primaries_own (ws : list Wallet.t) (uid target : string) (t : Wallet.t) :
  NoDup (map Wallet.id ws) -> In t ws -> Wallet.id t = target -> Wallet.userId t = uid ->
  filter Wallet.isPrimary (wallets_of uid (promote uid target ws))
  = [promoted uid target t].
Proof.
  intros Hnd Ht Hid Hu. rewrite promote_map.
  rewrite wallets_of_map by apply promoted_userId.
  rewrite filter_map_swap.
  assert (E : filter (fun x => Wallet.isPrimary (promoted uid target x)) (wallets_of uid ws)
              = [t]).
  { rewrite (filter_ext_in' _ (fun x => String.eqb (Wallet.id x) target)).
    - unfold wallets_of. rewrite filter_filter_comm.
      rewrite (filter_unique Wallet.id target ws t Hnd).
      + cbn [filter]. rewrite Hu, String.eqb_refl. reflexivity.
      + clear Hu. unfold find. induction ws as [|a ws IH]; [contradiction|].
        cbn [List.find]. destruct (String.eqb (Wallet.id a) target) eqn:Ea.
        * apply String.eqb_eq in Ea. f_equal.
          apply (nodup_key_inj Wallet.id (a :: ws)); try assumption;
            [left; reflexivity|congruence].
        * cbn [map] in Hnd. inversion Hnd; subst. apply IH; [assumption|].
          destruct Ht as [->|Ht]; [|assumption].
          rewrite String.eqb_refl in Ea. discriminate.
    - intros x Hx. unfold wallets_of in Hx. apply filter_In in Hx.
      destruct Hx as [_ Hux]. apply String.eqb_eq in Hux.
      apply promoted_isPrimary_own. assumption. }
  rewrite E. reflexivity.
Qed.

Lemma find_keyed_in {A} (key : A -> string) (l : list A) (a : A) :
  NoDup (map key l) -> In a l ->
  find (fun x => String.eqb (key x) (key a)) l = Some a.
Proof.
  unfold find. induction l as [|b l IH]; intros Hnd Hin; [contradiction|].
  cbn [List.find]. destruct (String.eqb (key b) (key a)) eqn:E.
  - apply String.eqb_eq in E. f_equal.
    apply (nodup_key_inj key (b :: l)); try assumption. left. reflexivity.
  - cbn [map] in Hnd. inversion Hnd; subst. apply IH; [assumption|].
    destruct Hin as [->|Hin]; [|assumption].
    rewrite String.eqb_refl in E. discriminate.
Qed.

Lemma user_update_success (uid addr : string) (w w' : World) (r : unit) :
  user_update_stellarAddress uid addr w = (w', Ok r) ->
  user_exists uid w = true /\ w' = set_users (readdress uid addr (users w)) w.
Proof.
  unfold user_update_stellarAddress.
  destruct (user_exists uid w); cbn [negb]; [|discriminate].
  destruct (existsb _ (users w)); [discriminate|].
  intros H. injection H as <-. split; reflexivity.
Qed.

Lemma user_update_address_free (uid addr : string) (w w' : World) (r : unit) :
  user_update_stellarAddress uid addr w = (w', Ok r) ->
  existsb (fun u => negb (String.eqb (User.id u) uid)
                    && String.eqb (User.stellarAddress u) addr) (users w) = false.
Proof.
  unfold user_update_stellarAddress.
  destruct (negb (user_exists uid w)); [discriminate|].
  destruct (existsb _ (users w)); [discriminate|reflexivity].
Qed.

Lemma setPrimaryWallet_success (userId walletId : string) (w w' : World)
  (updated : Wallet.t) :
  wallet_ids_unique w ->
  setPrimaryWallet userId walletId w = (w', Ok updated) ->
  exists t,
    In t (wallets w) /\ Wallet.id t = walletId /\ Wallet.userId t = userId
    /\ updated = promoted userId walletId t
    /\ user_exists userId w = true
    /\ w' = set_users (readdress userId (Wallet.address t) (users w))
                      (set_wallets (promote userId walletId (wallets w)) w).
Proof.
  intros Hu H. unfold setPrimaryWallet, transaction in H.
  destruct (bind _ _ w) as [w1 [a|e]] eqn:Hb; [|discriminate].
  injection H as <- <-. unfold_m. unfold lockUserRow in Hb.
  destruct (user_exists userId w) eqn:Hex; [|discriminate].
  destruct (find _ (wallets w)) as [t|] eqn:Hf; [|discriminate].
  unfold find in Hf. apply find_some in Hf. destruct Hf as [Hin Hp].
  apply andb_true_iff in Hp. destruct Hp as [Hid Huid].
  apply String.eqb_eq in Hid. apply String.eqb_eq in Huid.
  unfold wallet_clear_primary, updateMany in Hb. cbn [fst snd] in Hb.
  unfold wallet_update in Hb. cbn [wallets set_wallets] in Hb.
  rewrite (find_map_keyed Wallet.id) in Hb.
  2:{ intros x. destruct (String.eqb (Wallet.userId x) userId); reflexivity. }
  assert (Hfind : find (fun x => String.eqb (Wallet.id x) walletId) (wallets w) = Some t)
    by (rewrite <- Hid; apply find_keyed_in; assumption).
  rewrite Hfind in Hb. cbn [option_map] in Hb.
  destruct (user_update_stellarAddress _ _ _) as [w2 [u|e]] eqn:Hup; [|discriminate].
  injection Hb as <- <-.
  apply user_update_success in Hup. destruct Hup as [_ ->].
  exists t. rewrite Huid, String.eqb_refl.
  cbn [Wallet.address Wallet.with_isPrimary].
  repeat split; try assumption.
  unfold promoted. rewrite Huid, String.eqb_refl. cbn [Wallet.id Wallet.with_isPrimary].
  rewrite Hid, String.eqb_refl. reflexivity.
Qed.

Lemma promote_ids (uid target : string) (ws : list Wallet.t) :
  map Wallet.id (promote uid target ws) = map Wallet.id ws.
Proof.
  rewrite promote_map, map_map. apply map_ext. intros x. apply promoted_id.
Qed.

Lemma readdress_In (uid addr : string) (us : list User.t) (u' : User.t) :
  In u' (readdress uid addr us) ->
  exists u, In u us /\ User.id u' = User.id u
            /\ (User.id u = uid -> User.stellarAddress u' = addr)
            /\ (User.id u <> uid -> u' = u).
Proof.
  unfold readdress. intros H. apply in_map_iff in H. destruct H as [u [E Hin]].
  exists u. split; [assumption|].
  destruct (String.eqb (User.id u) uid) eqn:Eu; subst u'.
  - apply String.eqb_eq in Eu. cbn [User.id User.stellarAddress].
    repeat split; try reflexivity. intros Hne. contradiction.
  - apply String.eqb_neq in Eu. repeat split; try reflexivity. intros He. contradiction.
Qed.

(** Making a wallet of [uid] the primary one and writing its address on
    the user row establishes the invariant for [uid] and keeps it for the
    others. *)
Lemma one_primary_promote (us : list User.t) (ws : list Wallet.t)
  (uid target : string) (t : Wallet.t) :
  NoDup (map Wallet.id ws) -> In t ws -> Wallet.id t = target -> Wallet.userId t = uid ->
  one_primary us ws ->
  one_primary (readdress uid (Wallet.address t) us) (promote uid target ws).
Proof.
  intros Hnd Ht Hid Hu Hinv u' Hu' Hne.
  destruct (readdress_In _ _ _ _ Hu') as [u [Hin [Eid [Hsame Hother]]]].
  rewrite Eid in *.
  destruct (String.eqb (User.id u) uid) eqn:E.
  - apply String.eqb_eq in E. rewrite E.
    exists (promoted uid target t). split.
    + apply (promote_primaries_own ws uid target t); assumption.
    + rewrite promoted_address. apply Hsame. assumption.
  - apply String.eqb_neq in E. rewrite (Hother E).
    rewrite (promote_wallets_of_other ws uid target (User.id u) t) in * by assumption.
    apply Hinv; assumption.
Qed.

(** Deleting a wallet that is not primary keeps the invariant. *)
Lemma one_primary_delete (us : list User.t) (ws : list Wallet.t) (wallet : Wallet.t) :
  NoDup (map Wallet.id ws) -> In wallet ws -> Wallet.isPrimary wallet = false ->
  one_primary us ws ->
  one_primary us (filter (fun x => negb (String.eqb (Wallet.id x) (Wallet.id wallet))) ws).
Proof.
  intros Hnd Hw Hnp Hinv u Hu Hne.
  rewrite wallets_of_filter in *.
  assert (Hne' : wallets_of (User.id u) ws <> []).
  { intros E. rewrite E in Hne. apply Hne. reflexivity. }
  destruct (Hinv u Hu Hne') as [p [Hp Ha]].
  exists p. split; [|assumption].
  rewrite filter_filter_comm, Hp. cbn [filter].
  assert (Hpin : In p (filter Wallet.isPrimary (wallets_of (User.id u) ws)))
    by (rewrite Hp; left; reflexivity).
  apply filter_In in Hpin. destruct Hpin as [Hpin Hprim].
  unfold wallets_of in Hpin. apply filter_In in Hpin. destruct Hpin as [Hpin _].
  destruct (String.eqb (Wallet.id p) (Wallet.id wallet)) eqn:E; [|reflexivity].
  apply String.eqb_eq in E. exfalso.
  assert (p = wallet) by (apply (nodup_key_inj Wallet.id ws); assumption).
  subst p. congruence.
Qed.

Lemma wallets_of_app (uid : string) (ws : list Wallet.t) (x : Wallet.t) :
  wallets_of uid (ws ++ [x])
  = wallets_of uid ws ++ (if String.eqb (Wallet.userId x) uid then [x] else []).
Proof. unfold wallets_of. rewrite filter_app. reflexivity. Qed.

(** Adding a wallet that is not primary to a user who has one keeps the
    invariant. *)
Lemma one_primary_append_secondary (us : list User.t) (ws : list Wallet.t) (x : Wallet.t) :
  wallets_of (Wallet.userId x) ws <> [] -> Wallet.isPrimary x = false ->
  one_primary us ws -> one_primary us (ws ++ [x]).
Proof.
  intros Hhas Hnp Hinv u Hu Hne. rewrite wallets_of_app in *.
  assert (Hne' : wallets_of (User.id u) ws <> []).
  { destruct (String.eqb (Wallet.userId x) (User.id u)) eqn:E.
    - apply String.eqb_eq in E. rewrite <- E. assumption.
    - rewrite app_nil_r in Hne. assumption. }
  destruct (Hinv u Hu Hne') as [p [Hp Ha]].
  exists p. split; [|assumption].
  rewrite filter_app, Hp.
  destruct (String.eqb (Wallet.userId x) (User.id u)); cbn [filter];
    rewrite ?Hnp; reflexivity.
Qed.

(** Adding a first wallet as primary and writing its address on the user
    row keeps the invariant. *)
Lemma one_primary_append_first (us : list User.t) (ws : list Wallet.t) (x : Wallet.t) :
  wallets_of (Wallet.userId x) ws = [] -> Wallet.isPrimary x = true ->
  one_primary us ws ->
  one_primary (readdress (Wallet.userId x) (Wallet.address x) us) (ws ++ [x]).
Proof.
  intros Hnone Hp Hinv u' Hu' Hne.
  destruct (readdress_In _ _ _ _ Hu') as [u [Hin [Eid [Hsame Hother]]]].
  rewrite Eid in *. rewrite wallets_of_app in *.
  destruct (String.eqb (Wallet.userId x) (User.id u)) eqn:E.
  - apply String.eqb_eq in E. rewrite <- E in *. rewrite Hnone. cbn [app filter].
    rewrite Hp. exists x. split; [reflexivity|]. apply Hsame. reflexivity.
  - apply String.eqb_neq in E. rewrite app_nil_r in *.
    rewrite (Hother (fun H => E (eq_sym H))). apply Hinv; assumption.
Qed.

(** What [unlinkWallet] does when it succeeds. *)
Lemma unlinkWallet_success (userId walletId : string) (w w' : World) (r : unit) :
  wallet_ids_unique w ->
  unlinkWallet userId walletId w = (w', Ok r) ->
  exists wallet,
    In wallet (wallets w) /\ Wallet.id wallet = walletId /\ Wallet.userId wallet = userId
    /\ (1 < List.length (user_wallets userId w))%nat
    /\ ((Wallet.isPrimary wallet = false
         /\ w' = set_wallets (without walletId (wallets w)) w)
        \/ (Wallet.isPrimary wallet = true
            /\ exists replacement,
                 find (fun item => negb (String.eqb (Wallet.id item) walletId))
                      (sort_by by_createdAt (user_wallets userId w)) = Some replacement
                 /\ In replacement (wallets w)
                 /\ Wallet.userId replacement = userId
                 /\ Wallet.id replacement <> walletId
                 /\ user_exists userId w = true
                 /\ existsb (fun u => negb (String.eqb (User.id u) userId)
                                      && String.eqb (User.stellarAddress u)
                                                    (Wallet.address replacement))
                            (users w) = false
                 /\ w' = set_users (readdress userId (Wallet.address replacement) (users w))
                           (set_wallets
                              (without walletId
                                 (promote userId (Wallet.id replacement) (wallets w))) w))).
Proof.
  intros Hu H. unfold unlinkWallet, transaction in H.
  destruct (bind _ _ w) as [w1 [a|e]] eqn:Hb; [|discriminate].
  injection H as <- <-. unfold_m. unfold lockUserRow in Hb.
  destruct (user_exists userId w) eqn:Hex; [|discriminate].
  fold by_createdAt in Hb.
  destruct (find (fun item => String.eqb (Wallet.id item) walletId)
                 (sort_by by_createdAt (user_wallets userId w))) as [wallet|] eqn:Hf;
    [|discriminate].
  destruct (find_some_keyed Wallet.id _ _ _ Hf) as [Hin Hid].
  apply sort_by_In in Hin. unfold user_wallets in Hin. apply filter_In in Hin.
  destruct Hin as [Hin Huid]. apply String.eqb_eq in Huid.
  rewrite sort_by_length in Hb.
  destruct (Nat.leb (List.length (user_wallets userId w)) 1) eqn:Hlen; [discriminate|].
  apply Nat.leb_gt in Hlen.
  exists wallet. do 4 (split; [assumption|]).
  destruct (Wallet.isPrimary wallet) eqn:Hp.
  - right. split; [reflexivity|].
    destruct (find (fun item => negb (String.eqb (Wallet.id item) walletId))
                   (sort_by by_createdAt (user_wallets userId w))) as [replacement|] eqn:Hr;
      [|discriminate].
    exists replacement. split; [reflexivity|].
    unfold find in Hr. apply find_some in Hr. destruct Hr as [Hrin Hrid].
    apply sort_by_In in Hrin. unfold user_wallets in Hrin. apply filter_In in Hrin.
    destruct Hrin as [Hrin Hruid]. apply String.eqb_eq in Hruid.
    apply negb_true_iff, String.eqb_neq in Hrid.
    do 3 (split; [assumption|]).
    split; [reflexivity|].
    unfold wallet_clear_primary, updateMany in Hb. cbn [fst snd] in Hb.
    unfold wallet_update in Hb. cbn [wallets set_wallets] in Hb.
    rewrite (find_map_keyed Wallet.id) in Hb.
    2:{ intros x. destruct (String.eqb (Wallet.userId x) userId); reflexivity. }
    rewrite (find_keyed_in Wallet.id (wallets w) replacement Hu Hrin) in Hb.
    cbn [option_map] in Hb.
    destruct (user_update_stellarAddress _ _ _) as [w2 [u|e]] eqn:Hup; [|discriminate].
    pose proof (user_update_address_free _ _ _ _ _ Hup) as Hfree.
    cbn [users set_wallets] in Hfree. split; [exact Hfree|].
    apply user_update_success in Hup. destruct Hup as [_ ->].
    unfold wallet_delete in Hb. cbn [wallets set_wallets set_users] in Hb.
    fold (promote userId (Wallet.id replacement) (wallets w)) in Hb.
    destruct (existsb _ (promote userId (Wallet.id replacement) (wallets w)));
      [|discriminate].
    injection Hb as <- _. reflexivity.
  - left. split; [reflexivity|].
    unfold wallet_delete in Hb.
    destruct (existsb _ (wallets w)); [|discriminate].
    injection Hb as <- _. reflexivity.
Qed.

Section WalletFacts.
Context {P : Platform}.

(** A consumption attempt writes the challenge table only. *)
Lemma verifyAndConsumeChallenge_frame (now : Z) (address nonce signature : string)
  (purpose : ChallengePurpose) (userId : option string) (w : World) :
  exists chs,
    fst (verifyAndConsumeChallenge now address nonce signature purpose userId w)
    = set_walletChallenges chs w.
Proof.
  unfold verifyAndConsumeChallenge. unfold_m.
  destruct (requireNonEmptyString (Some nonce) "nonce") as [nn|e];
    [|exists (walletChallenges w); rewrite set_walletChallenges_same; reflexivity].
  destruct (decodeSignature (Some signature)) as [bytes|e];
    [|exists (walletChallenges w); rewrite set_walletChallenges_same; reflexivity].
  destruct (negb (Keypair_fromPublicKey address));
    [exists (walletChallenges w); rewrite set_walletChallenges_same; reflexivity|].
  destruct (negb (Keypair_verify _ _ _));
    [exists (walletChallenges w); rewrite set_walletChallenges_same; reflexivity|].
  unfold walletChallenge_consume, updateMany.
  eexists. destruct (Nat.eqb _ 1); reflexivity.
Qed.

(** What [linkWallet] does when it succeeds. *)
Lemma linkWallet_success (now : Z) (newId : string) (createdAt : Z)
  (userId address nonce signature : string) (label : option string)
  (w w' : World) (created : Wallet.t) :
  linkWallet now newId createdAt userId address nonce signature label w = (w', Ok created) ->
  exists a chs,
    normalizeAddress (Some address) = Ok a
    /\ user_exists userId w = true
    /\ existsb (fun x => String.eqb (Wallet.id x) newId
                         || String.eqb (Wallet.address x) a) (wallets w) = false
    /\ created = Wallet.mk newId userId a
                   (Nat.eqb (List.length (user_wallets userId w)) 0)
                   (normalizeLabel label) createdAt
    /\ w' = (if Wallet.isPrimary created
             then set_users (readdress userId a (users w))
             else fun x => x)
              (set_wallets (wallets w ++ [created]) (set_walletChallenges chs w)).
Proof.
  intros H. unfold linkWallet in H. unfold bind at 1 in H. unfold lift at 1 in H.
  destruct (normalizeAddress (Some address)) as [a|e] eqn:Ha; [|discriminate].
  unfold bind at 1 in H. unfold lift at 1 in H.
  destruct (assertValidStellarAddress a) as [u|e]; [|discriminate].
  unfold map_P2002, transaction in H.
  destruct (bind (lockUserRow userId) _ w) as [w1 [c|e]] eqn:Hb.
  2:{ destruct e; try discriminate. destruct (String.eqb code "P2002"); discriminate. }
  injection H as <- <-. unfold bind at 1 in Hb. unfold lockUserRow in Hb.
  destruct (user_exists userId w) eqn:Hex; [|discriminate].
  unfold bind at 1 in Hb. unfold get at 1 in Hb.
  destruct (find (fun x => String.eqb (Wallet.address x) a) (wallets w)); [discriminate|].
  destruct (match find (fun u0 => String.eqb (User.stellarAddress u0) a) (users w) with
            | Some u0 => negb (String.eqb (User.id u0) userId)
            | None => false
            end); [discriminate|].
  unfold bind at 1 in Hb.
  destruct (verifyAndConsumeChallenge_frame now a nonce signature LINK_WALLET
              (Some userId) w) as [chs Hframe].
  destruct (verifyAndConsumeChallenge now a nonce signature LINK_WALLET (Some userId) w)
    as [w2 [v|e]]; [|discriminate].
  cbn [fst] in Hframe. subst w2.
  unfold bind at 1 in Hb. unfold get at 1 in Hb.
  unfold bind at 1 in Hb. unfold wallet_create in Hb.
  cbn [wallets set_walletChallenges Wallet.id Wallet.address] in Hb.
  destruct (existsb _ (wallets w)) eqn:Hfresh; [discriminate|].
  unfold user_wallets in *. cbn [wallets set_walletChallenges] in Hb.
  exists a, chs. do 3 (split; [first [reflexivity|assumption]|]).
  destruct (Nat.eqb (List.length (filter _ (wallets w))) 0) eqn:Hcount.
  - unfold bind at 1 in Hb.
    destruct (user_update_stellarAddress userId a _) as [w3 [v'|e]] eqn:Hup; [|discriminate].
    apply user_update_success in Hup. destruct Hup as [_ ->].
    unfold ret in Hb. injection Hb as <- <-. split; reflexivity.
  - unfold bind at 1 in Hb. unfold ret in Hb. injection Hb as <- <-. split; reflexivity.
Qed.

(** ** Transactions fail as a whole *)

Lemma keeps_bind {A B} (m : M A) (k : A -> M B) :
  keeps_outbox m -> (forall a, keeps_outbox (k a)) -> keeps_outbox (bind m k).
Proof.
  intros Hm Hk w. unfold bind. specialize (Hm w).
  destruct (m w) as [w1 [a|e]]; cbn [fst] in *; [|assumption].
  rewrite Hk. assumption.
Qed.

Lemma keeps_ret {A} (a : A) : keeps_outbox (ret a).
Proof. intros w. reflexivity. Qed.

Lemma keeps_throw {A} (e : AppError) : keeps_outbox (@throw A e).
Proof. intros w. reflexivity. Qed.

Lemma keeps_lift {A} (r : result A) : keeps_outbox (lift r).
Proof. intros w. reflexivity. Qed.

Lemma keeps_get : keeps_outbox get.
Proof. intros w. reflexivity. Qed.

Lemma keeps_lockUserRow uid : keeps_outbox (lockUserRow uid).
Proof. intros w. unfold lockUserRow. destruct (user_exists uid w); reflexivity. Qed.

Lemma keeps_wallet_clear_primary uid : keeps_outbox (wallet_clear_primary uid).
Proof. intros w. reflexivity. Qed.

Lemma keeps_wallet_update wid data : keeps_outbox (wallet_update wid data).
Proof. intros w. unfold wallet_update. destruct (find _ _); reflexivity. Qed.

Lemma keeps_wallet_delete wid : keeps_outbox (wallet_delete wid).
Proof. intros w. unfold wallet_delete. destruct (existsb _ _); reflexivity. Qed.

Lemma keeps_wallet_create row : keeps_outbox (wallet_create row).
Proof. intros w. unfold wallet_create. destruct (existsb _ _); reflexivity. Qed.

Lemma keeps_user_update uid addr : keeps_outbox (user_update_stellarAddress uid addr).
Proof.
  intros w. unfold user_update_stellarAddress.
  destruct (negb (user_exists uid w)); [reflexivity|].
  destruct (existsb _ _); reflexivity.
Qed.

Lemma keeps_verifyAndConsumeChallenge now address nonce signature purpose userId :
  keeps_outbox (verifyAndConsumeChallenge now address nonce signature purpose userId).
Proof.
  intros w.
  destruct (verifyAndConsumeChallenge_frame now address nonce signature purpose userId w)
    as [chs ->]. reflexivity.
Qed.

Ltac keeps :=
  repeat first
    [ apply keeps_ret | apply keeps_throw | apply keeps_lift | apply keeps_get
    | apply keeps_lockUserRow | apply keeps_wallet_clear_primary
    | apply keeps_wallet_update | apply keeps_wallet_delete | apply keeps_wallet_create
    | apply keeps_user_update | apply keeps_verifyAndConsumeChallenge
    | apply keeps_bind; [|intros ?]
    | progress cbv zeta
    | match goal with
      | |- keeps_outbox (match ?x with _ => _ end) => destruct x
      end ].

Lemma transaction_failure {A} (body : M A) (w w' : World) (e : AppError) :
  keeps_outbox body -> transaction body w = (w', Err e) -> w' = w.
Proof.
  intros Hk H. unfold transaction in H. specialize (Hk w).
  destruct (body w) as [w1 [a|e0]]; [discriminate|].
  injection H as <- _. cbn [fst] in Hk. rewrite Hk. apply set_outbox_same.
Qed.

Lemma unlinkWallet_failure (userId walletId : string) (w w' : World) (e : AppError) :
  unlinkWallet userId walletId w = (w', Err e) -> w' = w.
Proof.
  apply transaction_failure. keeps.
Qed.

Lemma setPrimaryWallet_failure (userId walletId : string) (w w' : World) (e : AppError) :
  setPrimaryWallet userId walletId w = (w', Err e) -> w' = w.
Proof. apply transaction_failure. keeps. Qed.

Lemma linkWallet_failure (now : Z) (newId : string) (createdAt : Z)
  (userId address nonce signature : string) (label : option string)
  (w w' : World) (e : AppError) :
  linkWallet now newId createdAt userId address nonce signature label w = (w', Err e) ->
  w' = w.
Proof.
  unfold linkWallet. unfold bind at 1. unfold lift at 1.
  destruct (normalizeAddress (Some address)) as [a|e0];
    [|intros H; injection H as <- _; reflexivity].
  unfold bind at 1. unfold lift at 1.
  destruct (assertValidStellarAddress a) as [u|e0];
    [|intros H; injection H as <- _; reflexivity].
  unfold map_P2002.
  match goal with |- context [transaction ?b w] =>
    pose proof (fun w1 e1 => transaction_failure b w w1 e1 ltac:(keeps)) as Hfail;
    destruct (transaction b w) as [w1 [c|e1]]
  end; [discriminate|].
  specialize (Hfail w1 e1 eq_refl). subst w1.
  destruct e1; try (intros H; injection H as <- _; reflexivity).
  destruct (String.eqb code "P2002"); intros H; injection H as <- _; reflexivity.
Qed.

(** ** Unlinking a wallet *)

Lemma find_keyed_some {A} (key : A -> string) (k : string) (l : list A) (a : A) :
  In a l -> key a = k -> exists b, find (fun x => String.eqb (key x) k) l = Some b.
Proof.
  intros Hin Hk. destruct (find (fun x => String.eqb (key x) k) l) as [b|] eqn:E.
  - exists b. reflexivity.
  - exfalso. pose proof (find_none _ _ E a Hin) as Hn. cbn beta in Hn.
    rewrite Hk, String.eqb_refl in Hn. discriminate.
Qed.

Lemma find_keyed_none {A} (key : A -> string) (k : string) (l : list A) :
  (forall x, In x l -> key x <> k) -> find (fun x => String.eqb (key x) k) l = None.
Proof.
  intros Hall. destruct (find (fun x => String.eqb (key x) k) l) as [b|] eqn:E;
    [|reflexivity].
  apply find_some in E. destruct E as [Hin Hk]. apply String.eqb_eq in Hk.
  exfalso. exact (Hall b Hin Hk).
Qed.

Lemma unlinkWallet_not_found (userId walletId : string) (w : World) :
  (forall x, In x (user_wallets userId w) -> Wallet.id x <> walletId) ->
  exists msg, unlinkWallet userId walletId w = (w, Err (NotFoundError msg)).
Proof.
  intros Hall. unfold unlinkWallet, transaction. unfold_m. unfold lockUserRow.
  destruct (user_exists userId w).
  - rewrite (find_keyed_none Wallet.id).
    + eexists. cbn [outbox]. rewrite set_outbox_same. reflexivity.
    + intros x Hin. apply sort_by_In in Hin. apply Hall. assumption.
  - eexists. rewrite set_outbox_same. reflexivity.
Qed.

Lemma unlinkWallet_only_wallet (userId walletId : string) (w : World) (x : Wallet.t) :
  user_exists userId w = true ->
  user_wallets userId w = [x] -> Wallet.id x = walletId ->
  unlinkWallet userId walletId w
  = (w, Err (ValidationError "Cannot unlink the only wallet")).
Proof.
  intros Hex Hone Hid. unfold unlinkWallet, transaction. unfold_m. unfold lockUserRow.
  rewrite Hex.
  destruct (find_keyed_some Wallet.id walletId
              (sort_by (fun a b => Wallet.createdAt a <=? Wallet.createdAt b)
                       (user_wallets userId w)) x) as [b Hb].
  { apply sort_by_In. rewrite Hone. left. reflexivity. }
  { assumption. }
  rewrite Hb, sort_by_length, Hone. cbn [List.length Nat.leb outbox].
  rewrite set_outbox_same. reflexivity.
Qed.

Lemma nodup_map_filter {A K} (key : A -> K) (q : A -> bool) (l : list A) :
  NoDup (map key l) -> NoDup (map key (filter q l)).
Proof.
  induction l as [|a l IH]; cbn [map filter]; intros H; [constructor|].
  inversion H as [|? ? Hnin Hnd]; subst.
  destruct (q a); [|apply IH; assumption].
  cbn [map]. constructor; [|apply IH; assumption].
  intros Hin. apply Hnin. apply in_map_iff in Hin. destruct Hin as [y [E Hy]].
  apply filter_In in Hy. apply in_map_iff. exists y. split; [assumption|apply Hy].
Qed.

Lemma two_members_length {A} (a b : A) (l : list A) :
  In a l -> In b l -> a <> b -> (1 < List.length l)%nat.
Proof.
  destruct l as [|x [|y l]]; cbn [In List.length]; intros Ha Hb Hne.
  - contradiction.
  - destruct Ha as [<-|[]], Hb as [<-|[]]. contradiction.
  - lia.
Qed.

(** [unlinkWallet] on the primary wallet of a user who has another
    wallet: the first other wallet by age replaces it, unless the address
    of that wallet is the address of another user. *)
Lemma unlinkWallet_primary (userId walletId : string) (w : World) (wallet : Wallet.t) :
  wallet_ids_unique w ->
  user_exists userId w = true ->
  In wallet (user_wallets userId w) -> Wallet.id wallet = walletId ->
  Wallet.isPrimary wallet = true ->
  (exists other, In other (user_wallets userId w) /\ Wallet.id other <> walletId) ->
  exists replacement,
    find (fun item => negb (String.eqb (Wallet.id item) walletId))
         (sort_by by_createdAt (user_wallets userId w)) = Some replacement
    /\ unlinkWallet userId walletId w
       = if existsb (fun u => negb (String.eqb (User.id u) userId)
                              && String.eqb (User.stellarAddress u)
                                            (Wallet.address replacement)) (users w)
         then (w, Err (PrismaError "P2002"))
         else (set_users (readdress userId (Wallet.address replacement) (users w))
                 (set_wallets
                    (without walletId
                       (promote userId (Wallet.id replacement) (wallets w))) w),
               Ok tt).
Proof.
  intros Hu Hex Hin Hid Hp [other [Hoin Hoid]].
  assert (Hw : In wallet (wallets w)).
  { unfold user_wallets in Hin. apply filter_In in Hin. apply Hin. }
  destruct (find (fun item => negb (String.eqb (Wallet.id item) walletId))
                 (sort_by by_createdAt (user_wallets userId w))) as [r|] eqn:Hr.
  2:{ exfalso. pose proof (find_none _ _ Hr other (proj2 (sort_by_In _ _ _) Hoin)) as Hn.
      cbn beta in Hn. apply negb_false_iff, String.eqb_eq in Hn. exact (Hoid Hn). }
  exists r. split; [reflexivity|].
  assert (Hf : find (fun item => String.eqb (Wallet.id item) walletId)
                    (sort_by by_createdAt (user_wallets userId w)) = Some wallet).
  { destruct (find_keyed_some Wallet.id walletId
                (sort_by by_createdAt (user_wallets userId w)) wallet) as [b Hb];
      [apply sort_by_In; exact Hin|exact Hid|].
    rewrite Hb. f_equal.
    destruct (find_some_keyed Wallet.id _ _ _ Hb) as [Hbin Hbid].
    apply sort_by_In in Hbin. unfold user_wallets in Hbin. apply filter_In in Hbin.
    apply (nodup_key_inj Wallet.id (wallets w)); [exact Hu|apply Hbin|exact Hw|congruence]. }
  assert (Hlen : Nat.leb (List.length (user_wallets userId w)) 1 = false).
  { apply Nat.leb_gt. apply (two_members_length wallet other); [exact Hin|exact Hoin|].
    intros E. apply Hoid. rewrite <- E. exact Hid. }
  pose proof Hr as Hr'. unfold find in Hr'. apply find_some in Hr'.
  destruct Hr' as [Hrin Hrid]. apply sort_by_In in Hrin.
  unfold user_wallets in Hrin. apply filter_In in Hrin. destruct Hrin as [Hrin Hruid].
  unfold unlinkWallet, transaction. unfold_m. unfold lockUserRow. rewrite Hex.
  fold by_createdAt. rewrite Hf, sort_by_length, Hlen, Hp, Hr.
  unfold wallet_clear_primary, updateMany. cbn [fst snd].
  unfold wallet_update. cbn [wallets set_wallets].
  rewrite (find_map_keyed Wallet.id).
  2:{ intros x. destruct (String.eqb (Wallet.userId x) userId); reflexivity. }
  rewrite (find_keyed_in Wallet.id (wallets w) r Hu Hrin). cbn [option_map].
  unfold user_update_stellarAddress, user_exists. cbn [users set_wallets].
  fold (user_exists userId w). rewrite Hex. cbn [negb].
  destruct (existsb _ (users w)).
  - cbn [outbox set_wallets]. rewrite set_outbox_same. reflexivity.
  - unfold wallet_delete. cbn [wallets set_users set_wallets].
    fold (promote userId (Wallet.id r) (wallets w)).
    assert (Hex' : existsb (fun x => String.eqb (Wallet.id x) walletId)
                     (promote userId (Wallet.id r) (wallets w)) = true).
    { apply existsb_exists. exists (promoted userId (Wallet.id r) wallet). split.
      - rewrite promote_map. apply in_map. exact Hw.
      - rewrite promoted_id, Hid. apply String.eqb_refl. }
    rewrite Hex'. reflexivity.
Qed.

(** C8. [unlinkWallet(userId, walletId)] fails with [NotFoundError] when
    [walletId] is not among the wallets of the user; it fails with
    [ValidationError("Cannot unlink the only wallet")] when that wallet is
    the only wallet of the user.  When it is to remove the primary wallet
    and the user has another wallet, another wallet of the user is the
    replacement.  If the address of the replacement is the address of
    another user, the unique column refuses it, the call fails and the
    store is as it was.  Otherwise the call succeeds: the replacement is
    made primary and its address is written on the user row before the row
    is deleted, so that the state before the delete and the final state
    both have the replacement as the only primary wallet of the user.  A
    call that fails leaves the store as it was, since all of it runs in
    one transaction. *)
Theorem unlinkWallet_checks_and_reassigns_primary
  (userId walletId : string) (w w' : World) (res : result unit) :
  wallet_ids_unique w ->
  unlinkWallet userId walletId w = (w', res) ->
  ((forall x, In x (user_wallets userId w) -> Wallet.id x <> walletId) ->
   exists msg, res = Err (NotFoundError msg))
  /\ (user_exists userId w = true ->
      (exists x, user_wallets userId w = [x] /\ Wallet.id x = walletId) ->
      res = Err (ValidationError "Cannot unlink the only wallet"))
  /\ (forall wallet,
        user_exists userId w = true ->
        In wallet (user_wallets userId w) -> Wallet.id wallet = walletId ->
        Wallet.isPrimary wallet = true ->
        (exists other, In other (user_wallets userId w) /\ Wallet.id other <> walletId) ->
        exists replacement,
          In replacement (user_wallets userId w)
          /\ Wallet.id replacement <> walletId
          /\ ((exists u, In u (users w) /\ User.id u <> userId
                         /\ User.stellarAddress u = Wallet.address replacement) ->
              (exists e, res = Err e) /\ w' = w)
          /\ ((forall u, In u (users w) -> User.id u <> userId ->
                         User.stellarAddress u <> Wallet.address replacement) ->
              res = Ok tt
              /\ exists mid,
                   (wallet_clear_primary userId ;;;
                    wallet_update (Wallet.id replacement) (Wallet.with_isPrimary true) ;;;
                    user_update_stellarAddress userId (Wallet.address replacement)) w
                   = (mid, Ok tt)
                   /\ primaries userId mid = [Wallet.with_isPrimary true replacement]
                   /\ (forall u, In u (users mid) -> User.id u = userId ->
                                 User.stellarAddress u = Wallet.address replacement)
                   /\ wallet_delete walletId mid = (w', Ok tt)
                   /\ primaries userId w' = [Wallet.with_isPrimary true replacement]
                   /\ users w' = users mid))
  /\ (forall e, res = Err e -> w' = w).
Proof.
  intros Hu Hrun. split; [|split; [|split]].
  - intros Hall. destruct (unlinkWallet_not_found userId walletId w Hall) as [msg E].
    rewrite E in Hrun. injection Hrun as _ <-. exists msg. reflexivity.
  - intros Hex [x [Hone Hid]].
    rewrite (unlinkWallet_only_wallet userId walletId w x Hex Hone Hid) in Hrun.
    injection Hrun as _ <-. reflexivity.
  - intros wallet Hex Hin Hid Hprim Hother.
    destruct (unlinkWallet_primary userId walletId w wallet Hu Hex Hin Hid Hprim Hother)
      as [r [Hr Hclosed]].
    pose proof Hr as Hr'. unfold find in Hr'. apply find_some in Hr'.
    destruct Hr' as [Hrin0 Hrid]. apply sort_by_In in Hrin0.
    apply negb_true_iff, String.eqb_neq in Hrid.
    pose proof Hrin0 as Hrin. unfold user_wallets in Hrin. apply filter_In in Hrin.
    destruct Hrin as [Hrin Hruid]. apply String.eqb_eq in Hruid.
    unfold user_wallets in Hin. apply filter_In in Hin. destruct Hin as [Hin Huid].
    exists r. split; [exact Hrin0|]. split; [exact Hrid|]. split.
    + intros [u [Huin [Hune Huaddr]]].
      assert (Htaken : existsb (fun u => negb (String.eqb (User.id u) userId)
                                         && String.eqb (User.stellarAddress u)
                                                       (Wallet.address r)) (users w) = true).
      { apply existsb_exists. exists u. split; [exact Huin|].
        apply String.eqb_neq in Hune. rewrite Hune, Huaddr, String.eqb_refl. reflexivity. }
      rewrite Htaken, Hrun in Hclosed. injection Hclosed as -> ->.
      split; [eexists; reflexivity|reflexivity].
    + intros Hnone.
      assert (Hfree : existsb (fun u => negb (String.eqb (User.id u) userId)
                                        && String.eqb (User.stellarAddress u)
                                                      (Wallet.address r)) (users w) = false).
      { destruct (existsb _ (users w)) eqn:E; [|reflexivity]. exfalso.
        apply existsb_exists in E. destruct E as [u [Huin E]].
        apply andb_true_iff in E. destruct E as [E1 E2].
        apply negb_true_iff, String.eqb_neq in E1. apply String.eqb_eq in E2.
        exact (Hnone u Huin E1 E2). }
      rewrite Hfree, Hrun in Hclosed. injection Hclosed as Hw' ->.
      split; [reflexivity|].
      assert (Hprom : promoted userId (Wallet.id r) r = Wallet.with_isPrimary true r).
      { unfold promoted. rewrite Hruid, String.eqb_refl.
        cbn [Wallet.id Wallet.with_isPrimary]. rewrite String.eqb_refl. reflexivity. }
      assert (Hmid : primaries userId
                       (set_users (readdress userId (Wallet.address r) (users w))
                          (set_wallets (promote userId (Wallet.id r) (wallets w)) w))
                     = [Wallet.with_isPrimary true r]).
      { unfold primaries, user_wallets. cbn [wallets set_users set_wallets].
        fold (wallets_of userId (promote userId (Wallet.id r) (wallets w))).
        rewrite (promote_primaries_own (wallets w) userId (Wallet.id r) r Hu Hrin
                   eq_refl Hruid).
        rewrite Hprom. reflexivity. }
      exists (set_users (readdress userId (Wallet.address r) (users w))
                (set_wallets (promote userId (Wallet.id r) (wallets w)) w)).
      split.
      { unfold_m. unfold wallet_clear_primary, updateMany. cbn [fst snd].
        unfold wallet_update. cbn [wallets set_wallets].
        rewrite (find_map_keyed Wallet.id).
        2:{ intros x. destruct (String.eqb (Wallet.userId x) userId); reflexivity. }
        rewrite (find_keyed_in Wallet.id (wallets w) r Hu Hrin). cbn [option_map].
        unfold user_update_stellarAddress, user_exists. cbn [users set_wallets].
        fold (user_exists userId w). rewrite Hex, Hfree. reflexivity. }
      split; [exact Hmid|].
      split.
      { intros u Hu' Hidu. cbn [users set_users] in Hu'.
        destruct (readdress_In _ _ _ _ Hu') as [u0 [_ [Eid [Hsame _]]]].
        apply Hsame. congruence. }
      split.
      { unfold wallet_delete. cbn [wallets set_users set_wallets].
        assert (Hex' : existsb (fun x => String.eqb (Wallet.id x) walletId)
                         (promote userId (Wallet.id r) (wallets w)) = true).
        { apply existsb_exists. exists (promoted userId (Wallet.id r) wallet). split.
          - rewrite promote_map. apply in_map. assumption.
          - rewrite promoted_id, Hid. apply String.eqb_refl. }
        rewrite Hex'. rewrite Hw'. reflexivity. }
      split; [|rewrite Hw'; reflexivity].
      rewrite Hw'. unfold primaries, user_wallets in *.
      cbn [wallets set_users set_wallets] in *. unfold without.
      fold (wallets_of userId
              (filter (fun x => negb (String.eqb (Wallet.id x) walletId))
                      (promote userId (Wallet.id r) (wallets w)))).
      fold (wallets_of userId (promote userId (Wallet.id r) (wallets w))) in Hmid.
      rewrite wallets_of_filter, filter_filter_comm, Hmid. cbn [filter Wallet.id
        Wallet.with_isPrimary].
      apply String.eqb_neq in Hrid. rewrite Hrid. reflexivity.
  - intros e ->. exact (unlinkWallet_failure userId walletId w w' e Hrun).
Qed.

(** ** The wallet operations keep the invariant *)

Lemma existsb_id_fresh (newId a : string) (ws : list Wallet.t) :
  existsb (fun x => String.eqb (Wallet.id x) newId || String.eqb (Wallet.address x) a) ws
  = false ->
  ~ In newId (map Wallet.id ws).
Proof.
  intros H Hin. apply in_map_iff in Hin. destruct Hin as [x [Hid Hx]].
  assert (Ht : existsb (fun x => String.eqb (Wallet.id x) newId
                                 || String.eqb (Wallet.address x) a) ws = true).
  { apply existsb_exists. exists x. split; [assumption|].
    rewrite Hid, String.eqb_refl. reflexivity. }
  congruence.
Qed.

Lemma nodup_map_snoc {A K} (key : A -> K) (l : list A) (x : A) :
  NoDup (map key l) -> ~ In (key x) (map key l) -> NoDup (map key (l ++ [x])).
Proof.
  intros Hnd Hnin. rewrite map_app. cbn [map].
  apply NoDup_app; [assumption|repeat constructor; intros []|].
  intros k Hk [<-|[]]. exact (Hnin Hk).
Qed.

Lemma linkWallet_keeps_invariant (now : Z) (newId : string) (createdAt : Z)
  (userId address nonce signature : string) (label : option string)
  (w w' : World) (created : Wallet.t) :
  wallet_ids_unique w -> single_primary w ->
  linkWallet now newId createdAt userId address nonce signature label w = (w', Ok created) ->
  single_primary w' /\ wallet_ids_unique w'
  /\ Wallet.userId created = userId
  /\ Wallet.isPrimary created = Nat.eqb (List.length (user_wallets userId w)) 0
  /\ wallets w' = wallets w ++ [created]
  /\ users w' = (if Wallet.isPrimary created
                 then readdress userId (Wallet.address created) (users w)
                 else users w).
Proof.
  intros Hu Hinv H.
  destruct (linkWallet_success _ _ _ _ _ _ _ _ _ _ _ H)
    as [a [chs [Ha [Hex [Hfresh [Hc Hw']]]]]].
  assert (Huid : Wallet.userId created = userId) by (rewrite Hc; reflexivity).
  assert (Haddr : Wallet.address created = a) by (rewrite Hc; reflexivity).
  assert (Hprim : Wallet.isPrimary created
                  = Nat.eqb (List.length (user_wallets userId w)) 0)
    by (rewrite Hc; reflexivity).
  assert (Hid : Wallet.id created = newId) by (rewrite Hc; reflexivity).
  assert (Hnd : NoDup (map Wallet.id (wallets w ++ [created]))).
  { apply nodup_map_snoc; [exact Hu|]. rewrite Hid.
    apply (existsb_id_fresh newId a). assumption. }
  apply single_primary_tables in Hinv.
  destruct (Wallet.isPrimary created) eqn:Hp; rewrite Hw'.
  - split.
    { apply single_primary_tables. cbn [users wallets set_users set_wallets
        set_walletChallenges].
      assert (Hnone : wallets_of (Wallet.userId created) (wallets w) = []).
      { symmetry in Hprim. apply Nat.eqb_eq in Hprim.
        apply length_zero_iff_nil in Hprim. rewrite Huid. exact Hprim. }
      pose proof (one_primary_append_first (users w) (wallets w) created Hnone Hp Hinv)
        as Hx.
      rewrite Huid, Haddr in Hx. exact Hx. }
    split; [exact Hnd|]. split; [exact Huid|]. split; [exact Hprim|].
    split; [reflexivity|]. cbn [users set_users]. rewrite Haddr. reflexivity.
  - split.
    { apply single_primary_tables. cbn [users wallets set_users set_wallets
        set_walletChallenges].
      apply one_primary_append_secondary; try assumption.
      symmetry in Hprim. apply Nat.eqb_neq in Hprim. rewrite Huid.
      intros E. apply Hprim. unfold user_wallets. fold (wallets_of userId (wallets w)).
      rewrite E. reflexivity. }
    split; [exact Hnd|]. split; [exact Huid|]. split; [exact Hprim|].
    split; reflexivity.
Qed.

Lemma unlinkWallet_keeps_invariant (userId walletId : string) (w w' : World) (r : unit) :
  wallet_ids_unique w -> single_primary w ->
  unlinkWallet userId walletId w = (w', Ok r) ->
  single_primary w' /\ wallet_ids_unique w'.
Proof.
  intros Hu Hinv H.
  destruct (unlinkWallet_success userId walletId w w' r Hu H)
    as [wallet [Hin [Hid [Huid [Hlen Hcase]]]]].
  apply single_primary_tables in Hinv.
  destruct Hcase as [[Hnp ->]|[Hp [t [_ [Htin [Htuid [Htid [_ [_ ->]]]]]]]]].
  - split.
    + apply single_primary_tables. cbn [users wallets set_wallets]. unfold without.
      rewrite <- Hid. apply one_primary_delete; assumption.
    + unfold wallet_ids_unique. cbn [wallets set_wallets]. unfold without.
      apply nodup_map_filter. exact Hu.
  - split.
    + apply single_primary_tables. cbn [users wallets set_users set_wallets].
      unfold without.
      assert (E : walletId = Wallet.id (promoted userId (Wallet.id t) wallet))
        by (rewrite promoted_id; symmetry; exact Hid).
      rewrite E. apply one_primary_delete.
      * rewrite promote_ids. exact Hu.
      * rewrite promote_map. apply in_map. exact Hin.
      * rewrite (promoted_isPrimary_own _ _ _ Huid). rewrite Hid.
        apply String.eqb_neq. intros E'. apply Htid. symmetry. exact E'.
      * apply one_primary_promote; try assumption. reflexivity.
    + unfold wallet_ids_unique. cbn [wallets set_users set_wallets]. unfold without.
      apply nodup_map_filter. rewrite promote_ids. exact Hu.
Qed.

Lemma setPrimaryWallet_keeps_invariant (userId walletId : string) (w w' : World)
  (updated : Wallet.t) :
  wallet_ids_unique w -> single_primary w ->
  setPrimaryWallet userId walletId w = (w', Ok updated) ->
  single_primary w' /\ wallet_ids_unique w'
  /\ primaries userId w' = [updated] /\ Wallet.id updated = walletId.
Proof.
  intros Hu Hinv H.
  destruct (setPrimaryWallet_success userId walletId w w' updated Hu H)
    as [t [Hin [Hid [Huid [Hup [Hex ->]]]]]].
  apply single_primary_tables in Hinv.
  split.
  { apply single_primary_tables. cbn [users wallets set_users set_wallets].
    apply one_primary_promote; assumption. }
  split.
  { unfold wallet_ids_unique. cbn [wallets set_users set_wallets].
    rewrite promote_ids. exact Hu. }
  split.
  { unfold primaries, user_wallets. cbn [wallets set_users set_wallets].
    fold (wallets_of userId (promote userId walletId (wallets w))).
    rewrite (promote_primaries_own (wallets w) userId walletId t Hu Hin Hid Huid).
    rewrite Hup. reflexivity. }
  rewrite Hup, promoted_id. exact Hid.
Qed.

(** C2. In a store where every user with a wallet has exactly one primary
    wallet, whose address is the address on the user row, the same holds
    after [linkWallet], [unlinkWallet] and [setPrimaryWallet], whether the
    call succeeds or fails; and a successful [linkWallet] appends the new
    wallet, makes it primary exactly when the user had no wallet before,
    and writes its address on the user row in that case only. *)
Theorem wallet_operations_preserve_single_primary (w w' : World) :
  wallet_ids_unique w -> single_primary w ->
  (forall now newId createdAt userId address nonce signature label res,
     linkWallet now newId createdAt userId address nonce signature label w = (w', res) ->
     single_primary w' /\ wallet_ids_unique w'
     /\ (forall created, res = Ok created ->
           wallets w' = wallets w ++ [created]
           /\ Wallet.userId created = userId
           /\ Wallet.isPrimary created = Nat.eqb (List.length (user_wallets userId w)) 0
           /\ users w' = (if Nat.eqb (List.length (user_wallets userId w)) 0
                          then readdress userId (Wallet.address created) (users w)
                          else users w)))
  /\ (forall userId walletId res,
        unlinkWallet userId walletId w = (w', res) ->
        single_primary w' /\ wallet_ids_unique w')
  /\ (forall userId walletId res,
        setPrimaryWallet userId walletId w = (w', res) ->
        single_primary w' /\ wallet_ids_unique w'
        /\ (forall updated, res = Ok updated ->
              primaries userId w' = [updated] /\ Wallet.id updated = walletId)).
Proof.
  intros Hu Hinv. split; [|split].
  - intros now newId createdAt userId address nonce signature label [created|e] H.
    + destruct (linkWallet_keeps_invariant _ _ _ _ _ _ _ _ _ _ _ Hu Hinv H)
        as [Hs [Hn [Huid [Hp [Hws Hus]]]]].
      split; [exact Hs|]. split; [exact Hn|].
      intros c Hc. injection Hc as <-.
      split; [exact Hws|]. split; [exact Huid|]. split; [exact Hp|].
      rewrite <- Hp. exact Hus.
    + rewrite (linkWallet_failure _ _ _ _ _ _ _ _ _ _ _ H).
      split; [exact Hinv|]. split; [exact Hu|]. intros c Hc. discriminate.
  - intros userId walletId [r|e] H.
    + exact (unlinkWallet_keeps_invariant _ _ _ _ _ Hu Hinv H).
    + rewrite (unlinkWallet_failure _ _ _ _ _ H). split; assumption.
  - intros userId walletId [updated|e] H.
    + destruct (setPrimaryWallet_keeps_invariant _ _ _ _ _ Hu Hinv H)
        as [Hs [Hn Hp]].
      split; [exact Hs|]. split; [exact Hn|]. intros c Hc. injection Hc as <-. exact Hp.
    + rewrite (setPrimaryWallet_failure _ _ _ _ _ H).
      split; [exact Hinv|]. split; [exact Hu|]. intros c Hc. discriminate.
Qed.

End WalletFacts.

Lemma two_wallets_unique : wallet_ids_unique two_wallets.
Proof.
  unfold wallet_ids_unique. cbn. repeat constructor; cbn.
  - intros [H|[]]. discriminate.
  - intros [].
Qed.

Lemma two_wallets_single_primary : single_primary two_wallets.
Proof.
  intros u [<-|[<-|[]]] Hne.
  - exists (sample_wallet "w1" "alice" "GALICE" true 1). split; reflexivity.
  - exfalso. apply Hne. reflexivity.
Qed.

Lemma unlinkWallet_checks_and_reassigns_primary_witness :
  exists replacement,
    In replacement (user_wallets "alice" two_wallets)
    /\ primaries "alice" (fst (unlinkWallet "alice" "w1" two_wallets))
       = [Wallet.with_isPrimary true replacement].
Proof.
  assert (Hother : exists other, In other (user_wallets "alice" two_wallets)
                                 /\ Wallet.id other <> "w1").
  { exists (sample_wallet "w2" "alice" "GSECOND" false 2).
    split; [right; left; reflexivity|discriminate]. }
  destruct (proj1 (proj2 (proj2 (unlinkWallet_checks_and_reassigns_primary
              "alice" "w1" two_wallets
              (fst (unlinkWallet "alice" "w1" two_wallets))
              (snd (unlinkWallet "alice" "w1" two_wallets))
              two_wallets_unique eq_refl)))
              (sample_wallet "w1" "alice" "GALICE" true 1)
              eq_refl (or_introl eq_refl) eq_refl eq_refl Hother)
    as [r [Hin [_ [_ Hok]]]].
  exists r. split; [exact Hin|].
  destruct Hok as [_ [mid [_ [_ [_ [_ [Hp _]]]]]]]; [|exact Hp].
  intros u Hu Hne. cbn in Hin, Hu.
  destruct Hin as [<-|[<-|[]]]; destruct Hu as [<-|[<-|[]]]; cbn;
    try discriminate; exfalso; apply Hne; reflexivity.
Defined.

(** A store that the services build: Carol registers with the address of
    Alice's second wallet ([createUser] looks at the user table only).
    Wallet ids and user addresses are still unique and every user with a
    wallet has a single primary wallet.  Alice's wallet [w1] is primary and
    she has another wallet, yet unlinking [w1] fails on the unique address
    column: no wallet is made primary, no address is written, nothing is
    deleted. *)
Example unlinkWallet_fails_when_replacement_address_is_taken :
  let w := fst (UserService.createUser (P := stub_platform) "carol" (Some "gsecond")
                  two_wallets) in
  w = set_users [User.mk "alice" "GALICE"; User.mk "bob" "GBOB";
                 User.mk "carol" "GSECOND"] two_wallets
  /\ wallet_ids_unique w /\ user_addresses_unique w /\ single_primary w
  /\ In (sample_wallet "w1" "alice" "GALICE" true 1) (user_wallets "alice" w)
  /\ In (sample_wallet "w2" "alice" "GSECOND" false 2) (user_wallets "alice" w)
  /\ unlinkWallet "alice" "w1" w = (w, Err (PrismaError "P2002"))
  /\ ~ (exists replacement,
          In replacement (user_wallets "alice" w)
          /\ Wallet.id replacement <> "w1"
          /\ In (Wallet.with_isPrimary true replacement)
                (wallets (fst (unlinkWallet "alice" "w1" w)))).
Proof.
  cbv zeta.
  assert (E : fst (UserService.createUser (P := stub_platform) "carol" (Some "gsecond")
                     two_wallets)
              = set_users [User.mk "alice" "GALICE"; User.mk "bob" "GBOB";
                           User.mk "carol" "GSECOND"] two_wallets) by reflexivity.
  rewrite E. split; [reflexivity|].
  split; [exact two_wallets_unique|].
  split.
  { unfold user_addresses_unique. cbn. repeat constructor; cbn;
      intros H; repeat (destruct H as [H|H]; [discriminate H|]); exact H. }
  split.
  { intros u Hu Hw. cbn in Hu. destruct Hu as [<-|[<-|[<-|[]]]].
    - exists (sample_wallet "w1" "alice" "GALICE" true 1). split; reflexivity.
    - exfalso. apply Hw. reflexivity.
    - exfalso. apply Hw. reflexivity. }
  split; [left; reflexivity|].
  split; [right; left; reflexivity|].
  split; [reflexivity|].
  intros [r [Hin [Hne Hp]]]. cbn in Hin, Hp.
  destruct Hin as [<-|[<-|[]]].
  - apply Hne. reflexivity.
  - destruct Hp as [Hp|[Hp|[]]]; discriminate Hp.
Qed.

(** Unlinking the primary wallet of Alice makes her other wallet primary
    and writes its address on her user row. *)
Example unlink_primary_of_two_wallets :
  unlinkWallet "alice" "w1" two_wallets
  = (set_users [User.mk "alice" "GSECOND"; User.mk "bob" "GBOB"]
       (set_wallets [sample_wallet "w2" "alice" "GSECOND" true 2] two_wallets),
     Ok tt).
Proof. reflexivity. Qed.

Lemma wallet_operations_preserve_single_primary_witness :
  single_primary (fst (setPrimaryWallet "alice" "w2" two_wallets)).
Proof.
  exact (proj1 (proj2 (proj2 (wallet_operations_preserve_single_primary
           (P := stub_platform) two_wallets
           (fst (setPrimaryWallet "alice" "w2" two_wallets))
           two_wallets_unique two_wallets_single_primary))
         "alice" "w2" (snd (setPrimaryWallet "alice" "w2" two_wallets)) eq_refl)).
Defined.

(* ===================================================================== *)
(** * Strings: [trim] and [toUpperCase]                                   *)
(* ===================================================================== *)

Lemma trimStart_starts_clean (s : string) : starts_clean (trimStart s).
Proof.
  induction s as [|c r IH]; cbn [trimStart]; [exact I|].
  destruct (is_space c) eqn:E; [exact IH|exact E].
Qed.

Lemma trimStart_clean (s : string) : starts_clean s -> trimStart s = s.
Proof. destruct s as [|c r]; cbn; [reflexivity|]. intros ->. reflexivity. Qed.

Lemma trimEnd_cons (c : ascii) (r : string) :
  trimEnd (String c r)
  = if String.eqb (trimEnd r) ""
    then (if is_space c then "" else String c "")
    else String c (trimEnd r).
Proof. cbn [trimEnd]. destruct (trimEnd r); reflexivity. Qed.

Lemma trimEnd_starts_clean (s : string) : starts_clean s -> starts_clean (trimEnd s).
Proof.
  destruct s as [|c r]; [intros _; exact I|]. cbn [starts_clean]. intros E.
  rewrite trimEnd_cons, E. destruct (String.eqb (trimEnd r) ""); exact E.
Qed.

Lemma trimEnd_idempotent (s : string) : trimEnd (trimEnd s) = trimEnd s.
Proof.
  induction s as [|c r IH]; [reflexivity|]. rewrite trimEnd_cons.
  destruct (String.eqb (trimEnd r) "") eqn:E.
  - destruct (is_space c) eqn:Ec; [reflexivity|]. cbn [trimEnd]. rewrite Ec. reflexivity.
  - rewrite trimEnd_cons, IH, E. reflexivity.
Qed.

Lemma trim_idempotent (s : string) : trim (trim s) = trim s.
Proof.
  unfold trim. rewrite (trimStart_clean (trimEnd (trimStart s))).
  - apply trimEnd_idempotent.
  - apply trimEnd_starts_clean, trimStart_starts_clean.
Qed.

Lemma upper_char_space (c : ascii) : is_space (upper_char c) = is_space c.
Proof. destruct c as [[] [] [] [] [] [] [] []]; reflexivity. Qed.

Lemma upper_char_idempotent (c : ascii) : upper_char (upper_char c) = upper_char c.
Proof. destruct c as [[] [] [] [] [] [] [] []]; reflexivity. Qed.

Lemma toUpperCase_idempotent (s : string) : toUpperCase (toUpperCase s) = toUpperCase s.
Proof.
  induction s as [|c r IH]; cbn [toUpperCase]; [reflexivity|].
  rewrite upper_char_idempotent, IH. reflexivity.
Qed.

Lemma toUpperCase_trimStart (s : string) :
  trimStart (toUpperCase s) = toUpperCase (trimStart s).
Proof.
  induction s as [|c r IH]; cbn [toUpperCase trimStart]; [reflexivity|].
  rewrite upper_char_space. destruct (is_space c); [exact IH|reflexivity].
Qed.

Lemma toUpperCase_empty (s : string) :
  String.eqb (toUpperCase s) "" = String.eqb s "".
Proof. destruct s; reflexivity. Qed.

Lemma toUpperCase_trimEnd (s : string) :
  trimEnd (toUpperCase s) = toUpperCase (trimEnd s).
Proof.
  induction s as [|c r IH]; [reflexivity|].
  cbn [toUpperCase]. rewrite !trimEnd_cons, IH, toUpperCase_empty, upper_char_space.
  destruct (String.eqb (trimEnd r) ""); [destruct (is_space c)|]; reflexivity.
Qed.

Lemma toUpperCase_trim (s : string) : trim (toUpperCase s) = toUpperCase (trim s).
Proof. unfold trim. rewrite toUpperCase_trimStart, toUpperCase_trimEnd. reflexivity. Qed.

(** Addresses are stored in one spelling: [normalizeAddress] returns a
    non-blank string without white space around it and without lower-case
    letters, and maps it to itself. *)
Theorem normalizeAddress_canonical (address : option string) (a : string) :
  normalizeAddress address = Ok a ->
  a <> "" /\ trim a = a /\ toUpperCase a = a /\ normalizeAddress (Some a) = Ok a.
Proof.
  unfold normalizeAddress, requireNonEmptyString.
  destruct address as [s|]; [|discriminate].
  destruct (String.eqb (trim s) "") eqn:E; [discriminate|].
  intros H. injection H as <-.
  assert (Ht : trim (toUpperCase (trim s)) = toUpperCase (trim s))
    by (rewrite toUpperCase_trim, trim_idempotent; reflexivity).
  assert (Hne : String.eqb (toUpperCase (trim s)) "" = false)
    by (rewrite toUpperCase_empty; exact E).
  split; [apply String.eqb_neq; exact Hne|]. split; [exact Ht|].
  split; [apply toUpperCase_idempotent|].
  rewrite Ht, Hne, toUpperCase_idempotent. reflexivity.
Qed.

Lemma normalizeAddress_canonical_witness :
  normalizeAddress (Some "GABC") = Ok "GABC".
Proof.
  exact (proj2 (proj2 (proj2 (normalizeAddress_canonical (Some "  gAbc ") "GABC" eq_refl)))).
Defined.

Lemma trimEnd_clean (s : string) :
  string_forall (fun c => negb (is_space c)) s = true -> trimEnd s = s.
Proof.
  induction s as [|c r IH]; [reflexivity|]. cbn [string_forall].
  intros H. apply andb_true_iff in H. destruct H as [Hc Hr].
  apply negb_true_iff in Hc. rewrite trimEnd_cons, (IH Hr), Hc.
  destruct r; reflexivity.
Qed.

Lemma trim_clean (s : string) :
  string_forall (fun c => negb (is_space c)) s = true -> trim s = s.
Proof.
  intros H. unfold trim. rewrite trimStart_clean; [apply trimEnd_clean; exact H|].
  destruct s as [|c r]; [exact I|]. cbn [string_forall] in H.
  apply andb_true_iff in H. destruct H as [Hc _]. apply negb_true_iff in Hc. exact Hc.
Qed.

Lemma string_forall_impl (p q : ascii -> bool) (s : string) :
  (forall c, p c = true -> q c = true) ->
  string_forall p s = true -> string_forall q s = true.
Proof.
  intros Hpq. induction s as [|c r IH]; cbn [string_forall]; [reflexivity|].
  intros H. apply andb_true_iff in H. destruct H as [Hc Hr].
  rewrite (Hpq c Hc), (IH Hr). reflexivity.
Qed.

Lemma hex_char_not_space (c : ascii) : is_hex_char c = true -> negb (is_space c) = true.
Proof. destruct c as [[] [] [] [] [] [] [] []]; cbv; intros H; congruence. Qed.

(* ===================================================================== *)
(** * Challenges and signatures                                           *)
(* ===================================================================== *)

(** The message to sign determines the purpose and the nonce: no message
    of a login challenge is the message of a wallet-linking challenge. *)
Theorem buildChallengeMessage_injective (p p' : ChallengePurpose) (n n' : string) :
  buildChallengeMessage p n = buildChallengeMessage p' n' -> p = p' /\ n = n'.
Proof.
  unfold buildChallengeMessage. destruct p, p'; cbn; intros H.
  - injection H as H. split; [reflexivity|exact H].
  - exfalso. discriminate H.
  - exfalso. discriminate H.
  - injection H as H. split; [reflexivity|exact H].
Qed.

Lemma buildChallengeMessage_injective_witness : LOGIN = LOGIN /\ "abc" = "abc".
Proof. exact (buildChallengeMessage_injective LOGIN LOGIN "abc" "abc" eq_refl). Defined.

Section SignatureFacts.
Context {P : Platform}.

(** A decoded signature has 64 bytes, whichever encoding was read; and
    the hexadecimal writing of any 64 bytes, with or without white space
    around it, decodes to these bytes. *)
Theorem decodeSignature_64_bytes :
  (forall signature bytes,
     decodeSignature signature = Ok bytes -> List.length bytes = 64%nat)
  /\ (forall bytes s,
        List.length bytes = 64%nat -> trim s = Buffer_toString_hex bytes ->
        decodeSignature (Some s) = Ok bytes)
  /\ (forall bytes,
        List.length bytes = 64%nat ->
        decodeSignature (Some (Buffer_toString_hex bytes)) = Ok bytes)
  /\ (forall signature e,
        decodeSignature signature = Err e ->
        e = ValidationError "signature is required"
        \/ e = ValidationError "Signature must be a 64-byte hex or base64 value").
Proof.
  assert (Hhex : forall bytes s,
            List.length bytes = 64%nat -> trim s = Buffer_toString_hex bytes ->
            decodeSignature (Some s) = Ok bytes).
  { intros bytes s Hlen Ht. unfold decodeSignature, requireNonEmptyString. rewrite Ht.
    assert (Hne : String.eqb (Buffer_toString_hex bytes) "" = false).
    { apply String.eqb_neq. intros E.
      pose proof (Buffer_hex_length bytes) as Hl. rewrite E, Hlen in Hl. discriminate. }
    rewrite Hne. unfold matches_hex. rewrite Hne, Buffer_hex_chars, Buffer_hex_length, Hlen.
    cbn [negb andb]. rewrite Buffer_hex_roundtrip, Hlen. reflexivity. }
  split; [|split; [|split]].
  - intros signature bytes. unfold decodeSignature.
    destruct (requireNonEmptyString signature "signature") as [value|e]; [|discriminate].
    destruct (matches_hex value && Nat.even (String.length value))%bool.
    + destruct (Nat.eqb (List.length (Buffer_from_hex value)) 64) eqn:E.
      * intros H. injection H as <-. apply Nat.eqb_eq. exact E.
      * destruct (matches_base64 value
                  && Nat.eqb (List.length (Buffer_from_base64 value)) 64)%bool eqn:E2;
          [|discriminate].
        intros H. injection H as <-. apply andb_true_iff in E2. apply Nat.eqb_eq, E2.
    + destruct (matches_base64 value
                && Nat.eqb (List.length (Buffer_from_base64 value)) 64)%bool eqn:E2;
        [|discriminate].
      intros H. injection H as <-. apply andb_true_iff in E2. apply Nat.eqb_eq, E2.
  - exact Hhex.
  - intros bytes Hlen. apply Hhex; [assumption|].
    apply trim_clean.
    apply (string_forall_impl is_hex_char); [apply hex_char_not_space|].
    apply Buffer_hex_chars.
  - intros signature e. unfold decodeSignature, requireNonEmptyString.
    destruct signature as [s|]; [|intros H; injection H as <-; left; reflexivity].
    destruct (String.eqb (trim s) ""); [intros H; injection H as <-; left; reflexivity|].
    destruct (matches_hex (trim s) && Nat.even (String.length (trim s)))%bool;
      [destruct (Nat.eqb (List.length (Buffer_from_hex (trim s))) 64); [discriminate|]|];
      (destruct (matches_base64 (trim s)
                 && Nat.eqb (List.length (Buffer_from_base64 (trim s))) 64)%bool;
       [discriminate|intros H; injection H as <-; right; reflexivity]).
Qed.

Lemma nonce_is_clean (bytes : list byte) :
  bytes <> [] ->
  trim (Buffer_toString_hex bytes) = Buffer_toString_hex bytes
  /\ Buffer_toString_hex bytes <> "".
Proof.
  intros Hne. split.
  - apply trim_clean.
    apply (string_forall_impl is_hex_char); [apply hex_char_not_space|].
    apply Buffer_hex_chars.
  - intros E. pose proof (Buffer_hex_length bytes) as Hl. rewrite E in Hl.
    destruct bytes; [exact (Hne eq_refl)|discriminate].
Qed.

Lemma consume_where_other_keys address nonce purpose userId now chs :
  existsb (fun x => key_eqb (challenge_key x) (address, nonce, purpose)) chs = false ->
  filter (consume_where address nonce purpose userId now) chs = [].
Proof.
  intros Hex. apply filter_nil_iff. intros x Hin.
  destruct (consume_where address nonce purpose userId now x) eqn:E; [|reflexivity].
  apply consume_where_key in E.
  assert (Ht : existsb (fun x => key_eqb (challenge_key x) (address, nonce, purpose)) chs
               = true) by (apply existsb_exists; exists x; split; assumption).
  congruence.
Qed.

Lemma consume_where_own (row : WalletChallenge.t) (now : Z) :
  WalletChallenge.usedAt row = None ->
  consume_where (WalletChallenge.walletAddress row) (WalletChallenge.nonce row)
    (WalletChallenge.purpose row) (WalletChallenge.userId row) now row
  = (now <? WalletChallenge.expiresAt row).
Proof.
  intros Hu. unfold consume_where. rewrite !String.eqb_refl, Hu.
  replace (purpose_eqb (WalletChallenge.purpose row) (WalletChallenge.purpose row))
    with true by (destruct (WalletChallenge.purpose row); reflexivity).
  cbn [andb]. destruct (now <? WalletChallenge.expiresAt row); [|reflexivity].
  destruct (WalletChallenge.userId row) as [u|]; cbn [truthy andb].
  - rewrite String.eqb_refl. destruct (negb (String.eqb u "")); reflexivity.
  - reflexivity.
Qed.

(** Issue, then consume.  A challenge just issued is consumed by the first
    call that presents a signature of its message by the key of its
    address, as long as the call is made before the challenge expires: the
    call succeeds and leaves the challenge used.  From the expiry time on
    the same call fails with [UnauthorizedError] and writes nothing. *)
Theorem issued_challenge_is_consumable_until_expiry
  (now now' : Z) (entropy : nat -> byte) (address : option string)
  (purpose : ChallengePurpose) (userId : option string) (w w1 : World)
  (c : Challenge) (a signature : string) (bytes : list byte) :
  challenges_unique w ->
  generateChallenge now entropy address purpose userId w = (w1, Ok c) ->
  normalizeAddress address = Ok a ->
  decodeSignature (Some signature) = Ok bytes ->
  Keypair_verify a (challenge_message c) bytes = true ->
  (now' < now + 600000 ->
   exists w2,
     verifyAndConsumeChallenge now' a (challenge_nonce c) signature purpose userId w1
     = (w2, Ok tt)
     /\ spent (a, challenge_nonce c, purpose) w2
     /\ In (WalletChallenge.mk userId a (challenge_nonce c) purpose (now + 600000)
              (Some now')) (walletChallenges w2))
  /\ (now + 600000 <= now' ->
      verifyAndConsumeChallenge now' a (challenge_nonce c) signature purpose userId w1
      = (w1, Err (UnauthorizedError "Invalid or expired challenge"))).
Proof.
  intros Hu Hgen Ha Hsig Hver.
  destruct (generateChallenge_outcome now entropy address purpose userId w)
    as [[e He]|[row [c0 [Hrun [Hfresh [Hna [Hkey [Hrow Hc]]]]]]]];
    [rewrite He in Hgen; discriminate|].
  rewrite Hrun in Hgen. injection Hgen as <- <-.
  rewrite Ha in Hna. injection Hna as Hna.
  set (nonce := Buffer_toString_hex (randomBytes entropy 24)) in *.
  assert (Hnonce : WalletChallenge.nonce row = nonce) by (rewrite Hrow; reflexivity).
  assert (Hclean : trim nonce = nonce /\ nonce <> "").
  { apply nonce_is_clean. intros E.
    pose proof (randomBytes_length entropy 24) as Hl. rewrite E in Hl. discriminate. }
  destruct Hclean as [Htrim Hne].
  assert (Hrow' : row = WalletChallenge.mk userId a nonce purpose (now + 600000) None).
  { rewrite Hrow, <- Hna. reflexivity. }
  clear Hrow Hnonce. subst row c0. clearbody nonce.
  cbn [challenge_nonce challenge_message WalletChallenge.nonce WalletChallenge.expiresAt
       WalletChallenge.walletAddress] in *.
  assert (Hsteps := verifyAndConsumeChallenge_steps now' a nonce signature purpose userId
                      (set_walletChallenges
                         (walletChallenges w
                          ++ [WalletChallenge.mk userId a nonce purpose (now + 600000) None])
                         w) bytes).
  rewrite Htrim in Hsteps. specialize (Hsteps Hne Hsig Hkey).
  rewrite Hver in Hsteps. cbn [negb] in Hsteps.
  unfold consumed_rows in Hsteps. cbn [walletChallenges set_walletChallenges] in Hsteps.
  rewrite filter_app, map_app in Hsteps.
  rewrite (consume_where_other_keys a nonce purpose userId now' (walletChallenges w) Hfresh)
    in Hsteps.
  rewrite (map_id_in _ (walletChallenges w)) in Hsteps.
  2:{ intros x Hin.
      pose proof (consume_where_other_keys a nonce purpose userId now' _ Hfresh) as Hnil.
      apply filter_nil_iff with (x := x) in Hnil; [|exact Hin]. rewrite Hnil. reflexivity. }
  cbn [filter map app] in Hsteps.
  pose proof (consume_where_own
                (WalletChallenge.mk userId a nonce purpose (now + 600000) None) now' eq_refl)
    as Hown.
  cbn [WalletChallenge.nonce WalletChallenge.expiresAt WalletChallenge.walletAddress
       WalletChallenge.purpose WalletChallenge.userId] in Hown.
  rewrite Hown in Hsteps.
  split.
  - intros Hlt. apply Z.ltb_lt in Hlt. rewrite Hlt in Hsteps.
    cbn [app List.length Nat.eqb] in Hsteps.
    eexists. split; [exact Hsteps|]. split.
    + split.
      * exists (WalletChallenge.mk userId a nonce purpose (now + 600000) (Some now')).
        split; [|reflexivity]. cbn [walletChallenges]. apply in_or_app. right. left.
        reflexivity.
      * cbn [walletChallenges]. intros x Hin Hk. apply in_app_or in Hin.
        destruct Hin as [Hin|[<-|[]]]; [|discriminate].
        exfalso.
        assert (Ht : existsb (fun x => key_eqb (challenge_key x) (a, nonce, purpose))
                       (walletChallenges w) = true).
        { apply existsb_exists. exists x. split; [exact Hin|]. rewrite Hk.
          apply key_eqb_refl. }
        pose proof (eq_trans (eq_sym Ht) Hfresh) as Habs. discriminate Habs.
    + cbn [walletChallenges]. apply in_or_app. right. left. reflexivity.
  - intros Hge. apply Z.ltb_ge in Hge. rewrite Hge in Hsteps.
    cbn [app List.length Nat.eqb] in Hsteps. exact Hsteps.
Qed.

End SignatureFacts.

Lemma issued_challenge_is_consumable_until_expiry_witness :
  let issued := generateChallenge (P := stub_platform) 5 zero_entropy (Some " gwallet")
                  LINK_WALLET (Some "alice") two_users in
  verifyAndConsumeChallenge (P := stub_platform) 600005 "GWALLET" zero_nonce
    good_signature LINK_WALLET (Some "alice") (fst issued)
  = (fst issued, Err (UnauthorizedError "Invalid or expired challenge")).
Proof.
  exact (proj2 (issued_challenge_is_consumable_until_expiry (P := stub_platform)
           5 600005 zero_entropy (Some " gwallet") LINK_WALLET (Some "alice") two_users
           _ (mkChallenge zero_nonce 600005 (buildChallengeMessage LINK_WALLET zero_nonce))
           "GWALLET" good_signature (Buffer_from_hex good_signature)
           (NoDup_nil _) eq_refl eq_refl eq_refl eq_refl) ltac:(lia)).
Defined.

(* ===================================================================== *)
(** * Sorting                                                             *)
(* ===================================================================== *)

Section Sorting.
Context {A : Type} (le : A -> A -> bool).
Hypothesis le_total : forall a b, le a b = true \/ le b a = true.
Hypothesis le_trans : forall a b c, le a b = true -> le b c = true -> le a c = true.

Lemma insert_by_Permutation (x : A) (l : list A) : Permutation (insert_by le x l) (x :: l).
Proof.
  induction l as [|y r IH]; cbn [insert_by]; [apply Permutation_refl|].
  destruct (le x y); [apply Permutation_refl|].
  apply perm_trans with (y :: x :: r); [apply perm_skip; exact IH|apply perm_swap].
Qed.

Lemma sort_by_Permutation (l : list A) : Permutation (sort_by le l) l.
Proof.
  unfold sort_by. induction l as [|x r IH]; cbn [fold_right]; [apply perm_nil|].
  apply perm_trans with (x :: fold_right (insert_by le) [] r);
    [apply insert_by_Permutation|apply perm_skip; exact IH].
Qed.

Lemma insert_by_sorted (x : A) (l : list A) :
  StronglySorted (fun a b => le a b = true) l ->
  StronglySorted (fun a b => le a b = true) (insert_by le x l).
Proof.
  induction l as [|y r IH]; cbn [insert_by]; intros Hs.
  - constructor; [constructor|constructor].
  - inversion Hs as [|? ? Hr Hall]; subst.
    destruct (le x y) eqn:E.
    + constructor; [exact Hs|]. constructor; [exact E|].
      apply Forall_forall. intros z Hz. rewrite Forall_forall in Hall.
      exact (le_trans x y z E (Hall z Hz)).
    + constructor; [apply IH; exact Hr|].
      apply Forall_forall. intros z Hz. apply insert_by_In in Hz.
      destruct Hz as [->|Hz].
      * destruct (le_total x y) as [H|H]; [congruence|exact H].
      * rewrite Forall_forall in Hall. exact (Hall z Hz).
Qed.

Lemma sort_by_sorted (l : list A) : StronglySorted (fun a b => le a b = true) (sort_by le l).
Proof.
  unfold sort_by. induction l as [|x r IH]; cbn [fold_right]; [constructor|].
  apply insert_by_sorted. exact IH.
Qed.

End Sorting.

Lemma StronglySorted_weaken {A} (R S : A -> A -> Prop) (l : list A) :
  (forall a b, R a b -> S a b) -> StronglySorted R l -> StronglySorted S l.
Proof.
  intros HRS. induction 1 as [|a l Hs IH Hall]; constructor; [exact IH|].
  apply Forall_forall. intros b Hb. rewrite Forall_forall in Hall. exact (HRS a b (Hall b Hb)).
Qed.


(* ===================================================================== *)
(** * Wallets: listing, linking, relabelling                              *)
(* ===================================================================== *)

Lemma wallet_order_sorted (l : list Wallet.t) :
  StronglySorted listed_before (sort_by wallet_order l).
Proof.
  apply (StronglySorted_weaken (fun a b => wallet_order a b = true)).
  - intros a b. unfold wallet_order, listed_before.
    destruct (Wallet.isPrimary a), (Wallet.isPrimary b); cbn [Bool.eqb]; intros H;
      try discriminate;
      first [left; split; reflexivity
            |right; split; [reflexivity|apply Z.leb_le; exact H]].
  - apply sort_by_sorted.
    + intros a b. unfold wallet_order.
      destruct (Wallet.isPrimary a), (Wallet.isPrimary b); cbn [Bool.eqb];
        try (left; reflexivity); try (right; reflexivity);
        destruct (Z.leb_spec (Wallet.createdAt a) (Wallet.createdAt b));
        [left; reflexivity|right; apply Z.leb_le; lia
        |left; reflexivity|right; apply Z.leb_le; lia].
    + intros a b c. unfold wallet_order.
      destruct (Wallet.isPrimary a), (Wallet.isPrimary b), (Wallet.isPrimary c);
        cbn [Bool.eqb]; intros H1 H2; try discriminate; try reflexivity;
        apply Z.leb_le in H1; apply Z.leb_le in H2; apply Z.leb_le; lia.
Qed.

(** In a list in that order a primary wallet, if there is one, comes
    first. *)
Lemma listed_primary_first (ws : list Wallet.t) (p : Wallet.t) :
  StronglySorted listed_before ws -> In p ws -> Wallet.isPrimary p = true ->
  exists h t, ws = h :: t /\ Wallet.isPrimary h = true.
Proof.
  intros Hsorted Hin Hp. destruct ws as [|h t]; [destruct Hin|].
  exists h, t. split; [reflexivity|].
  destruct Hin as [->|Hin]; [exact Hp|].
  inversion Hsorted as [|? ? _ Hall]; subst. rewrite Forall_forall in Hall.
  destruct (Hall p Hin) as [[Hh _]|[Hh _]]; [exact Hh|congruence].
Qed.

(** [getUserWallets] reads only: it returns the wallets of the user, each
    once, primary wallets before the others and older wallets before newer
    ones; so a primary wallet, when there is one, is the first of the
    list. *)
Theorem getUserWallets_lists_primary_first (userId : string) (w : World) :
  exists ws,
    getUserWallets userId w = (w, Ok ws)
    /\ Permutation ws (user_wallets userId w)
    /\ StronglySorted listed_before ws
    /\ (forall p, In p ws -> Wallet.isPrimary p = true ->
          exists h t, ws = h :: t /\ Wallet.isPrimary h = true).
Proof.
  exists (sort_by wallet_order (user_wallets userId w)).
  split; [reflexivity|]. split; [apply sort_by_Permutation|].
  split; [apply wallet_order_sorted|].
  intros p. apply listed_primary_first. apply wallet_order_sorted.
Qed.

Section LinkFacts.
Context {P : Platform}.

Lemma normalizeAddress_error (address : option string) (e : AppError) :
  normalizeAddress address = Err e -> e = ValidationError "walletAddress is required".
Proof.
  unfold normalizeAddress, requireNonEmptyString. destruct address as [s|].
  - destruct (String.eqb (trim s) ""); [|discriminate]. intros H. injection H as <-.
    reflexivity.
  - intros H. injection H as <-. reflexivity.
Qed.

(** What a successful consumption has checked. *)
Lemma verifyAndConsumeChallenge_success (now : Z) (address nonce signature : string)
  (purpose : ChallengePurpose) (userId : option string) (w w' : World) (r : unit) :
  verifyAndConsumeChallenge now address nonce signature purpose userId w = (w', Ok r) ->
  exists bytes,
    trim nonce <> ""
    /\ decodeSignature (Some signature) = Ok bytes
    /\ Keypair_verify address (buildChallengeMessage purpose (trim nonce)) bytes = true
    /\ List.length (filter (consume_where address (trim nonce) purpose userId now)
                           (walletChallenges w)) = 1%nat
    /\ w' = set_walletChallenges (consumed_rows address (trim nonce) purpose userId now w) w.
Proof.
  unfold verifyAndConsumeChallenge. unfold_m. unfold requireNonEmptyString.
  destruct (String.eqb (trim nonce) "") eqn:En; [discriminate|].
  destruct (decodeSignature (Some signature)) as [bytes|e]; [|discriminate].
  destruct (negb (Keypair_fromPublicKey address)); [discriminate|].
  destruct (negb (Keypair_verify address _ bytes)) eqn:Ev; [discriminate|].
  unfold walletChallenge_consume, updateMany.
  destruct (Nat.eqb _ 1) eqn:Ec; [|discriminate].
  intros H. injection H as <- _. exists bytes.
  split; [apply String.eqb_neq; exact En|]. split; [reflexivity|].
  split; [apply negb_false_iff; exact Ev|]. split; [apply Nat.eqb_eq; exact Ec|].
  reflexivity.
Qed.

(** The consumption inside a successful [linkWallet]. *)
Lemma linkWallet_consumption (now : Z) (newId : string) (createdAt : Z)
  (userId address nonce signature : string) (label : option string)
  (w w' : World) (created : Wallet.t) :
  linkWallet now newId createdAt userId address nonce signature label w = (w', Ok created) ->
  exists a,
    normalizeAddress (Some address) = Ok a
    /\ Keypair_fromPublicKey a = true
    /\ find (fun x => String.eqb (Wallet.address x) a) (wallets w) = None
    /\ verifyAndConsumeChallenge now a nonce signature LINK_WALLET (Some userId) w
       = (set_walletChallenges (walletChallenges w') w, Ok tt).
Proof.
  intros H.
  destruct (linkWallet_success _ _ _ _ _ _ _ _ _ _ _ H)
    as [a [chs [Ha [_ [_ [_ Hw']]]]]].
  exists a. split; [exact Ha|].
  unfold linkWallet in H. unfold bind at 1 in H. unfold lift at 1 in H.
  rewrite Ha in H. unfold bind at 1 in H. unfold lift at 1 in H.
  unfold assertValidStellarAddress in H.
  destruct (Keypair_fromPublicKey a) eqn:Hk; [|discriminate]. split; [reflexivity|].
  unfold map_P2002, transaction in H.
  destruct (bind (lockUserRow userId) _ w) as [w1 [c|e]] eqn:Hb.
  2:{ destruct e; try discriminate. destruct (String.eqb code "P2002"); discriminate. }
  unfold bind at 1 in Hb. unfold lockUserRow in Hb.
  destruct (user_exists userId w); [|discriminate].
  unfold bind at 1 in Hb. unfold get at 1 in Hb.
  destruct (find (fun x => String.eqb (Wallet.address x) a) (wallets w)); [discriminate|].
  split; [reflexivity|].
  destruct (match find (fun u0 => String.eqb (User.stellarAddress u0) a) (users w) with
            | Some u0 => negb (String.eqb (User.id u0) userId)
            | None => false
            end); [discriminate|].
  unfold bind at 1 in Hb.
  destruct (verifyAndConsumeChallenge_frame now a nonce signature LINK_WALLET
              (Some userId) w) as [chs' Hframe].
  destruct (verifyAndConsumeChallenge now a nonce signature LINK_WALLET (Some userId) w)
    as [w2 [[]|e]] eqn:Hv; [|discriminate].
  cbn [fst] in Hframe. subst w2.
  assert (Hchs : walletChallenges w1 = chs').
  { clear - Hb. unfold bind at 1 in Hb. unfold get at 1 in Hb.
    unfold bind at 1 in Hb. unfold wallet_create in Hb.
    destruct (existsb _ _); [discriminate|].
    unfold bind at 1 in Hb.
    destruct (Nat.eqb _ 0).
    - destruct (user_update_stellarAddress _ _ _) as [w3 [v'|e]] eqn:Hup; [|discriminate].
      apply user_update_success in Hup. destruct Hup as [_ ->].
      unfold ret in Hb. injection Hb as <- _. reflexivity.
    - unfold ret in Hb. injection Hb as <- _. reflexivity. }
  injection H as <- _. rewrite Hchs. reflexivity.
Qed.

(** [linkWallet] links a wallet only on proof of possession: when it
    succeeds, the signature decodes to 64 bytes that the key of the
    address verifies over the wallet-linking message of the nonce, and the
    store held a challenge for that address and nonce, issued to this
    user, unused and not expired, which the call leaves used at [now]. *)
Theorem linkWallet_spends_live_challenge (now : Z) (newId : string) (createdAt : Z)
  (userId address nonce signature : string) (label : option string)
  (w w' : World) (created : Wallet.t) :
  userId <> "" ->
  linkWallet now newId createdAt userId address nonce signature label w = (w', Ok created) ->
  exists a bytes expiresAt,
    normalizeAddress (Some address) = Ok a
    /\ Wallet.address created = a
    /\ decodeSignature (Some signature) = Ok bytes
    /\ Keypair_verify a (buildChallengeMessage LINK_WALLET (trim nonce)) bytes = true
    /\ now < expiresAt
    /\ In (WalletChallenge.mk (Some userId) a (trim nonce) LINK_WALLET expiresAt None)
          (walletChallenges w)
    /\ In (WalletChallenge.mk (Some userId) a (trim nonce) LINK_WALLET expiresAt (Some now))
          (walletChallenges w').
Proof.
  intros Hne H.
  destruct (linkWallet_success _ _ _ _ _ _ _ _ _ _ _ H)
    as [a0 [chs [Ha0 [_ [_ [Hc _]]]]]].
  destruct (linkWallet_consumption _ _ _ _ _ _ _ _ _ _ _ H) as [a [Ha [_ [_ Hv]]]].
  rewrite Ha in Ha0. injection Ha0 as <-.
  destruct (verifyAndConsumeChallenge_success _ _ _ _ _ _ _ _ _ Hv)
    as [bytes [_ [Hsig [Hver [Hcount Hw]]]]].
  destruct (filter (consume_where a (trim nonce) LINK_WALLET (Some userId) now)
                   (walletChallenges w)) as [|c [|]] eqn:Hf; try discriminate.
  assert (Hin : In c (filter (consume_where a (trim nonce) LINK_WALLET (Some userId) now)
                             (walletChallenges w))) by (rewrite Hf; left; reflexivity).
  apply filter_In in Hin. destruct Hin as [Hin Hwhere].
  pose proof Hwhere as Hspec. apply consume_where_spec in Hspec.
  destruct Hspec as [Hkey [Hunused [Hlive Huser]]].
  assert (Htruthy : truthy (Some userId) = true).
  { cbn [truthy]. apply negb_true_iff, String.eqb_neq. exact Hne. }
  specialize (Huser Htruthy).
  assert (Ec : c = WalletChallenge.mk (Some userId) a (trim nonce) LINK_WALLET
                     (WalletChallenge.expiresAt c) None).
  { destruct c as [cu ca cn cp ce cused]. unfold challenge_key in Hkey.
    cbn [WalletChallenge.userId WalletChallenge.walletAddress WalletChallenge.nonce
         WalletChallenge.purpose WalletChallenge.expiresAt WalletChallenge.usedAt] in *.
    injection Hkey as -> -> ->. subst cu cused. reflexivity. }
  exists a, bytes, (WalletChallenge.expiresAt c).
  split; [exact Ha|]. split; [rewrite Hc; reflexivity|]. split; [exact Hsig|].
  split; [exact Hver|]. split; [exact Hlive|]. split; [rewrite <- Ec; exact Hin|].
  assert (Hchs : walletChallenges w'
                 = consumed_rows a (trim nonce) LINK_WALLET (Some userId) now w).
  { apply (f_equal walletChallenges) in Hw. exact Hw. }
  rewrite Hchs. unfold consumed_rows. apply in_map_iff. exists c.
  split; [|exact Hin]. rewrite Hwhere. rewrite Ec at 1. reflexivity.
Qed.

Lemma find_first_some {A} (p : A -> bool) (l : list A) (x : A) :
  In x l -> p x = true -> exists y, find p l = Some y /\ In y l /\ p y = true.
Proof.
  intros Hin Hp. destruct (find p l) as [y|] eqn:E.
  - exists y. unfold find in E. apply find_some in E. destruct E. repeat split; assumption.
  - pose proof (find_none _ _ E x Hin) as Hn. congruence.
Qed.

Lemma linkWallet_conflict (now : Z) (newId : string) (createdAt : Z)
  (userId address nonce signature : string) (label : option string) (w : World)
  (a : string) :
  normalizeAddress (Some address) = Ok a -> Keypair_fromPublicKey a = true ->
  user_exists userId w = true ->
  (exists x, In x (wallets w) /\ Wallet.address x = a)
  \/ ((exists u, In u (users w) /\ User.stellarAddress u = a)
      /\ (forall u, In u (users w) -> User.stellarAddress u = a -> User.id u <> userId)) ->
  linkWallet now newId createdAt userId address nonce signature label w
  = (w, Err (ConflictError "Wallet address is already linked")).
Proof.
  intros Ha Hk Hex Hused.
  unfold linkWallet. unfold bind at 1. unfold lift at 1. rewrite Ha.
  unfold bind at 1. unfold lift at 1. unfold assertValidStellarAddress. rewrite Hk.
  unfold map_P2002, transaction. unfold bind at 1. unfold lockUserRow. rewrite Hex.
  unfold bind at 1. unfold get at 1.
  destruct (find (fun x => String.eqb (Wallet.address x) a) (wallets w)) as [x|] eqn:Ef.
  - unfold throw. rewrite set_outbox_same. reflexivity.
  - destruct Hused as [[x [Hin Hx]]|[[u [Hin Hu]] Hother]].
    + exfalso. pose proof (find_none _ _ Ef x Hin) as Hn. cbn beta in Hn.
      rewrite Hx, String.eqb_refl in Hn. discriminate.
    + destruct (find_first_some (fun u => String.eqb (User.stellarAddress u) a)
                  (users w) u Hin) as [y [Ey [Hy Hya]]];
        [rewrite Hu; apply String.eqb_refl|].
      rewrite Ey. apply String.eqb_eq in Hya.
      assert (Hne : String.eqb (User.id y) userId = false)
        by (apply String.eqb_neq; apply Hother; assumption).
      rewrite Hne. cbn [negb]. unfold throw. rewrite set_outbox_same. reflexivity.
Qed.

(** A wallet address is linked once.  [linkWallet] refuses, with a
    [ConflictError] and without writing, an address that a wallet already
    has or that is the address of another user; a violated unique
    constraint never surfaces as a store error; a failing call leaves the
    store as it was; and after a successful call the addresses of the
    wallets are still pairwise distinct, the new one being the normalised
    address. *)
Theorem linkWallet_links_an_address_once (now : Z) (newId : string) (createdAt : Z)
  (userId address nonce signature : string) (label : option string) (w : World) :
  let run := linkWallet now newId createdAt userId address nonce signature label w in
  (forall a,
     normalizeAddress (Some address) = Ok a -> Keypair_fromPublicKey a = true ->
     user_exists userId w = true ->
     (exists x, In x (wallets w) /\ Wallet.address x = a)
     \/ ((exists u, In u (users w) /\ User.stellarAddress u = a)
         /\ (forall u, In u (users w) -> User.stellarAddress u = a -> User.id u <> userId)) ->
     run = (w, Err (ConflictError "Wallet address is already linked")))
  /\ (forall e, snd run = Err e -> fst run = w /\ e <> PrismaError "P2002")
  /\ (forall created,
        snd run = Ok created ->
        NoDup (map Wallet.address (wallets w)) ->
        normalizeAddress (Some address) = Ok (Wallet.address created)
        /\ wallets (fst run) = wallets w ++ [created]
        /\ NoDup (map Wallet.address (wallets (fst run)))).
Proof.
  cbv zeta. split; [|split].
  - intros a Ha Hk Hex Hused. apply (linkWallet_conflict _ _ _ _ _ _ _ _ _ a); assumption.
  - intros e He.
    destruct (linkWallet now newId createdAt userId address nonce signature label w)
      as [w' r] eqn:Hrun. cbn [fst snd] in *. subst r.
    split; [exact (linkWallet_failure _ _ _ _ _ _ _ _ _ _ _ Hrun)|].
    unfold linkWallet in Hrun. unfold bind at 1 in Hrun. unfold lift at 1 in Hrun.
    destruct (normalizeAddress (Some address)) as [a|e0] eqn:Ha.
    2:{ injection Hrun as _ <-. rewrite (normalizeAddress_error _ _ Ha). discriminate. }
    unfold bind at 1 in Hrun. unfold lift at 1 in Hrun.
    unfold assertValidStellarAddress in Hrun.
    destruct (Keypair_fromPublicKey a); [|injection Hrun as _ <-; discriminate].
    unfold map_P2002 in Hrun.
    destruct (transaction _ w) as [w1 [c|e1]]; [discriminate|].
    destruct e1; try (injection Hrun as _ <-; discriminate).
    destruct (String.eqb code "P2002") eqn:Ec; injection Hrun as _ <-; [discriminate|].
    intros E. injection E as ->. discriminate.
  - intros created Hok Hnd.
    destruct (linkWallet now newId createdAt userId address nonce signature label w)
      as [w' r] eqn:Hrun. cbn [fst snd] in *. subst r.
    destruct (linkWallet_success _ _ _ _ _ _ _ _ _ _ _ Hrun)
      as [a [chs [Ha [_ [Hfresh [Hc Hw']]]]]].
    assert (Haddr : Wallet.address created = a) by (rewrite Hc; reflexivity).
    assert (Hws : wallets w' = wallets w ++ [created]).
    { rewrite Hw'. destruct (Wallet.isPrimary created); reflexivity. }
    rewrite Haddr. split; [exact Ha|]. split; [exact Hws|].
    rewrite Hws. apply nodup_map_snoc; [exact Hnd|].
    rewrite Haddr. intros Hin. apply in_map_iff in Hin. destruct Hin as [x [Hx Hin]].
    assert (Ht : existsb (fun x => String.eqb (Wallet.id x) newId
                                   || String.eqb (Wallet.address x) a) (wallets w) = true).
    { apply existsb_exists. exists x. split; [exact Hin|].
      rewrite Hx, String.eqb_refl. apply orb_true_r. }
    congruence.
Qed.

End LinkFacts.

Lemma linkWallet_spends_live_challenge_witness :
  exists expiresAt,
    5 < expiresAt
    /\ In (WalletChallenge.mk (Some "alice") "GWALLET" "abc" LINK_WALLET expiresAt (Some 5))
          (walletChallenges
             (fst (linkWallet (P := stub_platform) 5 "w1" 5 "alice" "gwallet" " abc"
                     good_signature None (one_challenge None)))).
Proof.
  destruct (linkWallet_spends_live_challenge (P := stub_platform) 5 "w1" 5 "alice"
              "gwallet" " abc" good_signature None (one_challenge None) _ _
              ltac:(discriminate) eq_refl)
    as [a [bytes [expiresAt [Ha [_ [_ [_ [Hlive [_ Hin]]]]]]]]].
  injection Ha as <-. exists expiresAt. split; [exact Hlive|exact Hin].
Defined.

(* ===================================================================== *)
(** * Wallets: primary wallet, label, unlinking                           *)
(* ===================================================================== *)

Lemma promoted_idempotent (uid target : string) (x : Wallet.t) :
  promoted uid target (promoted uid target x) = promoted uid target x.
Proof.
  unfold promoted.
  destruct (String.eqb (Wallet.userId x) uid) eqn:Eu;
    cbn [Wallet.id Wallet.userId Wallet.with_isPrimary];
    destruct (String.eqb (Wallet.id x) target) eqn:Ei;
    cbn [Wallet.id Wallet.userId Wallet.with_isPrimary];
    rewrite ?Eu, ?Ei; cbn [Wallet.id Wallet.userId Wallet.with_isPrimary];
    rewrite ?Eu, ?Ei; reflexivity.
Qed.

Lemma promote_idempotent (uid target : string) (ws : list Wallet.t) :
  promote uid target (promote uid target ws) = promote uid target ws.
Proof.
  rewrite !promote_map, map_map. apply map_ext. intros x. apply promoted_idempotent.
Qed.

Lemma readdress_idempotent (uid addr : string) (us : list User.t) :
  readdress uid addr (readdress uid addr us) = readdress uid addr us.
Proof.
  unfold readdress. rewrite map_map. apply map_ext. intros u.
  destruct (String.eqb (User.id u) uid) eqn:E; cbn [User.id]; rewrite E; reflexivity.
Qed.

Lemma readdress_exists (uid addr uid' : string) (us : list User.t) :
  existsb (fun u => String.eqb (User.id u) uid') (readdress uid addr us)
  = existsb (fun u => String.eqb (User.id u) uid') us.
Proof.
  unfold readdress. induction us as [|u r IH]; [reflexivity|]. cbn [map existsb].
  rewrite IH. destruct (String.eqb (User.id u) uid); reflexivity.
Qed.

Lemma readdress_others (uid addr a : string) (us : list User.t) :
  existsb (fun u => negb (String.eqb (User.id u) uid) && String.eqb (User.stellarAddress u) a)
          (readdress uid addr us)
  = existsb (fun u => negb (String.eqb (User.id u) uid)
                      && String.eqb (User.stellarAddress u) a) us.
Proof.
  unfold readdress. induction us as [|u r IH]; [reflexivity|]. cbn [map existsb].
  rewrite IH. destruct (String.eqb (User.id u) uid) eqn:E; cbn [User.id]; rewrite ?E;
    reflexivity.
Qed.

(** [setPrimaryWallet] on a wallet of the user, step by step. *)
Lemma setPrimaryWallet_run (userId walletId : string) (w : World) (t : Wallet.t) :
  wallet_ids_unique w ->
  In t (wallets w) -> Wallet.id t = walletId -> Wallet.userId t = userId ->
  setPrimaryWallet userId walletId w
  = if negb (user_exists userId w) then (w, Err (NotFoundError "User not found"))
    else if existsb (fun u => negb (String.eqb (User.id u) userId)
                              && String.eqb (User.stellarAddress u) (Wallet.address t))
                    (users w)
    then (w, Err (PrismaError "P2002"))
    else (set_users (readdress userId (Wallet.address t) (users w))
            (set_wallets (promote userId walletId (wallets w)) w),
          Ok (promoted userId walletId t)).
Proof.
  intros Hu Hin Hid Huid. unfold setPrimaryWallet, transaction. unfold_m.
  unfold lockUserRow. destruct (user_exists userId w) eqn:Hex; cbn [negb];
    [|rewrite set_outbox_same; reflexivity].
  assert (Hfind : find (fun x => String.eqb (Wallet.id x) walletId) (wallets w) = Some t)
    by (rewrite <- Hid; apply find_keyed_in; assumption).
  destruct (find (fun x => (String.eqb (Wallet.id x) walletId
                            && String.eqb (Wallet.userId x) userId)%bool) (wallets w))
    as [t'|] eqn:Hf.
  2:{ exfalso. pose proof (find_none _ _ Hf t Hin) as Hn. cbn beta in Hn.
      rewrite Hid, Huid, !String.eqb_refl in Hn. discriminate. }
  unfold wallet_clear_primary, updateMany. cbn [fst snd].
  unfold wallet_update. cbn [wallets set_wallets].
  rewrite (find_map_keyed Wallet.id).
  2:{ intros x. destruct (String.eqb (Wallet.userId x) userId); reflexivity. }
  rewrite Hfind. cbn [option_map].
  rewrite Huid, String.eqb_refl. cbn [Wallet.address Wallet.with_isPrimary].
  unfold user_update_stellarAddress, user_exists. cbn [users set_wallets].
  fold (user_exists userId w). rewrite Hex. cbn [negb].
  destruct (existsb _ (users w)).
  - cbn [outbox set_wallets]. rewrite set_outbox_same. reflexivity.
  - unfold promoted. rewrite Huid, String.eqb_refl.
    cbn [Wallet.id Wallet.with_isPrimary]. rewrite Hid, String.eqb_refl. reflexivity.
Qed.

Lemma setPrimaryWallet_not_found (userId walletId : string) (w : World) :
  (forall x, In x (wallets w) -> Wallet.id x = walletId -> Wallet.userId x <> userId) ->
  exists message, setPrimaryWallet userId walletId w = (w, Err (NotFoundError message)).
Proof.
  intros Hforeign. unfold setPrimaryWallet, transaction. unfold_m. unfold lockUserRow.
  destruct (user_exists userId w); [|eexists; rewrite set_outbox_same; reflexivity].
  destruct (find _ (wallets w)) as [t|] eqn:Hf;
    [|eexists; cbn [outbox]; rewrite set_outbox_same; reflexivity].
  exfalso. unfold find in Hf. apply find_some in Hf. destruct Hf as [Hin Hp].
  apply andb_true_iff in Hp. destruct Hp as [Hid Huid].
  apply String.eqb_eq in Hid. apply String.eqb_eq in Huid.
  exact (Hforeign t Hin Hid Huid).
Qed.

(** [setPrimaryWallet] refuses a wallet that is not a wallet of the user,
    with [NotFoundError] and without writing; and it is idempotent: called
    again after it succeeded, it succeeds with the same wallet and leaves
    the store as the first call left it. *)
Theorem setPrimaryWallet_is_idempotent (userId walletId : string) (w : World) :
  wallet_ids_unique w ->
  ((forall x, In x (wallets w) -> Wallet.id x = walletId -> Wallet.userId x <> userId) ->
   exists message, setPrimaryWallet userId walletId w = (w, Err (NotFoundError message)))
  /\ (forall w' updated,
        setPrimaryWallet userId walletId w = (w', Ok updated) ->
        Wallet.id updated = walletId /\ Wallet.userId updated = userId
        /\ Wallet.isPrimary updated = true
        /\ setPrimaryWallet userId walletId w' = (w', Ok updated)).
Proof.
  intros Hu. split.
  - apply setPrimaryWallet_not_found.
  - intros w' updated H.
    destruct (setPrimaryWallet_success userId walletId w w' updated Hu H)
      as [t [Hin [Hid [Huid [Hup [Hex Hw']]]]]].
    rewrite (setPrimaryWallet_run userId walletId w t Hu Hin Hid Huid) in H.
    rewrite Hex in H. cbn [negb] in H.
    destruct (existsb _ (users w)) eqn:Hfree; [discriminate|]. clear H.
    assert (Hpid : Wallet.id updated = walletId) by (rewrite Hup, promoted_id; exact Hid).
    assert (Hpuid : Wallet.userId updated = userId)
      by (rewrite Hup, promoted_userId; exact Huid).
    split; [exact Hpid|]. split; [exact Hpuid|]. split.
    { rewrite Hup, (promoted_isPrimary_own _ _ _ Huid), Hid. apply String.eqb_refl. }
    rewrite (setPrimaryWallet_run userId walletId w' updated).
    + rewrite Hw'. unfold user_exists. cbn [users wallets set_users set_wallets].
      rewrite readdress_exists. fold (user_exists userId w). rewrite Hex. cbn [negb].
      rewrite Hup, promoted_address, readdress_others, Hfree.
      rewrite promote_idempotent, readdress_idempotent, promoted_idempotent. reflexivity.
    + rewrite Hw'. unfold wallet_ids_unique. cbn [wallets set_users set_wallets].
      rewrite promote_ids. exact Hu.
    + rewrite Hw'. cbn [wallets set_users set_wallets]. rewrite promote_map, Hup.
      apply in_map. exact Hin.
    + exact Hpid.
    + exact Hpuid.
Qed.

Lemma setPrimaryWallet_is_idempotent_witness :
  setPrimaryWallet "alice" "w2" (fst (setPrimaryWallet "alice" "w2" two_wallets))
  = setPrimaryWallet "alice" "w2" two_wallets.
Proof.
  exact (proj2 (proj2 (proj2 (proj2 (setPrimaryWallet_is_idempotent "alice" "w2" two_wallets
           two_wallets_unique) _ _ eq_refl)))).
Defined.

Lemma filter_map_commute {A} (p : A -> bool) (f : A -> A) (l : list A) :
  (forall x, p (f x) = p x) -> filter p (map f l) = map f (filter p l).
Proof.
  intros Hp. induction l as [|a l IH]; [reflexivity|]. cbn [map filter].
  rewrite Hp, IH. destruct (p a); reflexivity.
Qed.

Lemma updateWalletLabel_not_found (userId walletId : string) (label : option string)
  (w : World) :
  (forall x, In x (wallets w) -> Wallet.id x = walletId -> Wallet.userId x <> userId) ->
  updateWalletLabel userId walletId label w = (w, Err (NotFoundError "Wallet not found")).
Proof.
  intros Hforeign. unfold updateWalletLabel. unfold_m.
  destruct (find _ (wallets w)) as [t|] eqn:Hf; [|reflexivity].
  exfalso. unfold find in Hf. apply find_some in Hf. destruct Hf as [Hin Hp].
  apply andb_true_iff in Hp. destruct Hp as [Hid Huid].
  apply String.eqb_eq in Hid. apply String.eqb_eq in Huid.
  exact (Hforeign t Hin Hid Huid).
Qed.

(** [updateWalletLabel] changes one label and nothing else.  A wallet that
    is not a wallet of the user is refused with [NotFoundError], and the
    store is not written.  Otherwise the wallet gets the new label, trimmed,
    and never blank: a blank or absent label clears it; every other wallet, every other
    column and the user table stay as they were, so a store in which every
    user has a single primary wallet stays so. *)
Theorem updateWalletLabel_changes_only_the_label
  (userId walletId : string) (label : option string) (w : World) :
  wallet_ids_unique w ->
  ((forall x, In x (wallets w) -> Wallet.id x = walletId -> Wallet.userId x <> userId) ->
   updateWalletLabel userId walletId label w = (w, Err (NotFoundError "Wallet not found")))
  /\ (forall t,
        In t (wallets w) -> Wallet.id t = walletId -> Wallet.userId t = userId ->
        let w' := set_wallets (relabel walletId (normalizeLabel label) (wallets w)) w in
        updateWalletLabel userId walletId label w
        = (w', Ok (Wallet.with_label (normalizeLabel label) t))
        /\ (forall x, In x (wallets w) -> Wallet.id x <> walletId -> In x (wallets w'))
        /\ map (Wallet.with_label None) (wallets w')
           = map (Wallet.with_label None) (wallets w)
        /\ (single_primary w -> single_primary w'))
  /\ (forall l, normalizeLabel label = Some l -> l <> "" /\ trim l = l).
Proof.
  intros Hu. split; [|split].
  3:{ intros l. unfold normalizeLabel. destruct label as [s|]; [|discriminate].
      destruct (String.eqb (trim s) "") eqn:E; [discriminate|].
      intros H. injection H as <-. split; [apply String.eqb_neq; exact E|].
      apply trim_idempotent. }
  - apply updateWalletLabel_not_found.
  - intros t Hin Hid Huid. cbv zeta. split; [|split; [|split]].
    + unfold updateWalletLabel. unfold_m.
      destruct (find (fun x => (String.eqb (Wallet.id x) walletId
                                && String.eqb (Wallet.userId x) userId)%bool) (wallets w))
        as [t'|] eqn:Hf.
      2:{ exfalso. pose proof (find_none _ _ Hf t Hin) as Hn. cbn beta in Hn.
          rewrite Hid, Huid, !String.eqb_refl in Hn. discriminate. }
      unfold wallet_update.
      assert (Hfind : find (fun x => String.eqb (Wallet.id x) walletId) (wallets w)
                      = Some t)
        by (rewrite <- Hid; apply find_keyed_in; assumption).
      rewrite Hfind. reflexivity.
    + intros x Hx Hne. cbn [wallets set_wallets]. unfold relabel. apply in_map_iff.
      exists x. split; [|exact Hx]. apply String.eqb_neq in Hne. rewrite Hne. reflexivity.
    + cbn [wallets set_wallets]. unfold relabel. rewrite map_map. apply map_ext.
      intros x. destruct (String.eqb (Wallet.id x) walletId); reflexivity.
    + intros Hinv u Hin' Hne.
      unfold primaries, user_wallets in *. cbn [wallets users set_wallets] in *.
      unfold relabel in *.
      rewrite filter_map_commute in Hne
        by (intros x; destruct (String.eqb (Wallet.id x) walletId); reflexivity).
      rewrite filter_map_commute
        by (intros x; destruct (String.eqb (Wallet.id x) walletId); reflexivity).
      rewrite filter_map_commute
        by (intros x; destruct (String.eqb (Wallet.id x) walletId); reflexivity).
      assert (Hne' : filter (fun x => String.eqb (Wallet.userId x) (User.id u)) (wallets w)
                     <> []).
      { intros E. rewrite E in Hne. apply Hne. reflexivity. }
      destruct (Hinv u Hin' Hne') as [p [Hp Ha]].
      unfold primaries, user_wallets in Hp. rewrite Hp. cbn [map].
      eexists. split; [reflexivity|].
      rewrite Ha. destruct (String.eqb (Wallet.id p) walletId); reflexivity.
Qed.

Lemma updateWalletLabel_changes_only_the_label_witness :
  updateWalletLabel "bob" "w2" (Some "mine") two_wallets
  = (two_wallets, Err (NotFoundError "Wallet not found")).
Proof.
  apply (proj1 (updateWalletLabel_changes_only_the_label "bob" "w2" (Some "mine")
                  two_wallets two_wallets_unique)).
  intros x [<-|[<-|[]]]; cbn; intros H; discriminate.
Defined.

Lemma without_length (walletId : string) (p : Wallet.t -> bool) (ws : list Wallet.t)
  (t : Wallet.t) :
  NoDup (map Wallet.id ws) -> In t ws -> Wallet.id t = walletId -> p t = true ->
  S (List.length (filter p (without walletId ws))) = List.length (filter p ws).
Proof.
  intros Hnd Hin Hid Hp. unfold without. induction ws as [|x r IH]; [destruct Hin|].
  cbn [map] in Hnd. inversion Hnd as [|? ? Hnin Hnd']; subst.
  cbn [filter]. destruct Hin as [->|Hin].
  - rewrite String.eqb_refl. cbn [negb]. rewrite Hp. cbn [List.length]. f_equal.
    f_equal. f_equal. apply filter_id. intros y Hy. apply negb_true_iff, String.eqb_neq.
    intros E. apply Hnin. rewrite <- E. apply in_map. exact Hy.
  - assert (Hne : String.eqb (Wallet.id x) (Wallet.id t) = false).
    { apply String.eqb_neq. intros E. apply Hnin. rewrite E. apply in_map. exact Hin. }
    rewrite Hne. cbn [negb filter]. destruct (p x); cbn [List.length];
      rewrite <- (IH Hnd' Hin); reflexivity.
Qed.

Lemma without_others (walletId : string) (p : Wallet.t -> bool) (ws : list Wallet.t) :
  (forall x, In x ws -> Wallet.id x = walletId -> p x = false) ->
  filter p (without walletId ws) = filter p ws.
Proof.
  intros Hall. unfold without. induction ws as [|x r IH]; [reflexivity|].
  cbn [filter]. destruct (String.eqb (Wallet.id x) walletId) eqn:E; cbn [negb filter].
  - apply String.eqb_eq in E. rewrite (Hall x (or_introl eq_refl) E).
    apply IH. intros y Hy. apply Hall. right. exact Hy.
  - rewrite IH; [reflexivity|]. intros y Hy. apply Hall. right. exact Hy.
Qed.

(** [unlinkWallet] removes one wallet and never the last one: after a
    successful call the wallet is gone, the user has one wallet less and
    still has one, and the wallets of the other users are as they were. *)
Theorem unlinkWallet_removes_one_wallet (userId walletId : string) (w w' : World) :
  wallet_ids_unique w ->
  unlinkWallet userId walletId w = (w', Ok tt) ->
  (forall x, In x (wallets w') -> Wallet.id x <> walletId)
  /\ S (List.length (user_wallets userId w')) = List.length (user_wallets userId w)
  /\ (1 <= List.length (user_wallets userId w'))%nat
  /\ (forall other, other <> userId -> user_wallets other w' = user_wallets other w).
Proof.
  intros Hu H.
  destruct (unlinkWallet_success userId walletId w w' tt Hu H)
    as [wallet [Hin [Hid [Huid [Hlen Hcase]]]]].
  assert (Hgone : forall l x, In x (without walletId l) -> Wallet.id x <> walletId).
  { intros l x Hx. unfold without in Hx. apply filter_In in Hx. destruct Hx as [_ Hx].
    apply negb_true_iff, String.eqb_neq in Hx. exact Hx. }
  assert (Hcount : S (List.length (user_wallets userId w')) = List.length (user_wallets userId w)
                   /\ (forall other, other <> userId ->
                         user_wallets other w' = user_wallets other w)
                   /\ (forall x, In x (wallets w') -> Wallet.id x <> walletId)).
  { destruct Hcase as [[_ ->]|[_ [r [_ [Hrin [Hruid [Hrid [_ [_ ->]]]]]]]]].
    - unfold user_wallets. cbn [wallets set_wallets]. split; [|split].
      + apply (without_length walletId _ (wallets w) wallet); try assumption.
        rewrite Huid. apply String.eqb_refl.
      + intros other Hne. apply without_others. intros x Hx Hxid.
        assert (x = wallet) by (apply (nodup_key_inj Wallet.id (wallets w));
            [exact Hu|assumption|assumption|congruence]).
        subst x. rewrite Huid. apply String.eqb_neq. intros E. apply Hne. symmetry.
        exact E.
      + apply Hgone.
    - unfold user_wallets. cbn [wallets set_users set_wallets]. split; [|split].
      + rewrite (without_length walletId _ (promote userId (Wallet.id r) (wallets w))
                   (promoted userId (Wallet.id r) wallet)).
        * fold (wallets_of userId (promote userId (Wallet.id r) (wallets w))).
          rewrite promote_map, wallets_of_map by (intros x; apply promoted_userId).
          rewrite length_map. reflexivity.
        * rewrite promote_ids. exact Hu.
        * rewrite promote_map. apply in_map. exact Hin.
        * rewrite promoted_id. exact Hid.
        * rewrite promoted_userId, Huid. apply String.eqb_refl.
      + intros other Hne. rewrite without_others.
        * fold (wallets_of other (promote userId (Wallet.id r) (wallets w))).
          apply (promote_wallets_of_other (wallets w) userId (Wallet.id r) other r);
            try assumption. reflexivity.
        * intros x Hx Hxid. rewrite promote_map in Hx. apply in_map_iff in Hx.
          destruct Hx as [y [<- Hy]]. rewrite promoted_id in Hxid.
          assert (y = wallet) by (apply (nodup_key_inj Wallet.id (wallets w));
            [exact Hu|assumption|assumption|congruence]).
          subst y. rewrite promoted_userId, Huid. apply String.eqb_neq. intros E.
          apply Hne. symmetry. exact E.
      + apply Hgone. }
  destruct Hcount as [Hc [Ho Hg]].
  split; [exact Hg|]. split; [exact Hc|]. split; [lia|exact Ho].
Qed.

Lemma unlinkWallet_removes_one_wallet_witness :
  List.length (user_wallets "alice" (fst (unlinkWallet "alice" "w1" two_wallets))) = 1%nat.
Proof.
  exact (eq_add_S _ 1%nat
           (proj1 (proj2 (unlinkWallet_removes_one_wallet "alice" "w1" two_wallets _
                            two_wallets_unique eq_refl)))).
Defined.

(* ===================================================================== *)
(** * Escrows: status names, the timeout sweep, histories                 *)
(* ===================================================================== *)

Lemma parse_status_iff (s : string) (st : EscrowStatus) :
  parse_status s = Some st <-> s = status_to_string st.
Proof.
  split.
  - unfold parse_status, find. intros H. apply find_some in H. destruct H as [_ H].
    apply String.eqb_eq in H. symmetry. exact H.
  - intros ->. destruct st; reflexivity.
Qed.

(** [normalizeStatus] on an absent value or a string of ASCII
    characters accepts the five status names, in any letter case and with
    white space around them, and nothing else: every other such value,
    the absent one included, is refused with the [ValidationError] that
    lists the names.  The name of a status reads back as that status. *)
Theorem normalizeStatus_reads_the_five_names (value : option string) (fieldName : string) :
  ascii_input value ->
  (forall st,
     normalizeStatus value fieldName = Ok st
     <-> exists s, value = Some s /\ toUpperCase (trim s) = status_to_string st)
  /\ (forall e,
        normalizeStatus value fieldName = Err e ->
        e = ValidationError
              (fieldName ++ " must be one of: PENDING, ACTIVE, COMPLETED, DISPUTED, EXPIRED"))
  /\ (forall st, normalizeStatus (Some (status_to_string st)) fieldName = Ok st).
Proof.
  intros _. split; [|split].
  - intros st. unfold normalizeStatus. destruct value as [s|]; cbn [option_map].
    + destruct (parse_status (toUpperCase (trim s))) as [st'|] eqn:E.
      * apply parse_status_iff in E. split.
        -- intros H. injection H as <-. exists s. split; [reflexivity|exact E].
        -- intros [s' [Hs Hst]]. injection Hs as <-. rewrite E in Hst.
           destruct st, st'; try discriminate; reflexivity.
      * split; [discriminate|]. intros [s' [Hs Hst]]. injection Hs as <-.
        apply parse_status_iff in Hst. congruence.
    + split; [discriminate|]. intros [s' [Hs _]]. discriminate.
  - intros e. unfold normalizeStatus. destruct value as [s|]; cbn [option_map].
    + destruct (parse_status (toUpperCase (trim s))); [discriminate|].
      intros H. injection H as <-. reflexivity.
    + intros H. injection H as <-. reflexivity.
  - intros st. destruct st; reflexivity.
Qed.

Lemma normalizeStatus_reads_the_five_names_witness :
  normalizeStatus (Some "  Active ") "status" = Ok ACTIVE
  /\ forall e, normalizeStatus (Some "  Active?") "status" = Err e ->
               error_name e = "ValidationError".
Proof.
  split.
  - apply (proj1 (normalizeStatus_reads_the_five_names (Some "  Active ") "status"
                    eq_refl) ACTIVE).
    exists "  Active ". split; reflexivity.
  - intros e He.
    rewrite (proj1 (proj2 (normalizeStatus_reads_the_five_names (Some "  Active?")
                             "status" eq_refl)) e He).
    reflexivity.
Defined.

Lemma expire_overdue_id (now : Z) (e : Escrow.t) :
  Escrow.id (expire_overdue now e) = Escrow.id e.
Proof. unfold expire_overdue. destruct (overdue_test now e); reflexivity. Qed.

Lemma expire_overdue_twice (now now' : Z) (e : Escrow.t) :
  now <= now' ->
  expire_overdue now' (expire_overdue now e) = expire_overdue now' e.
Proof.
  intros Hle. unfold expire_overdue.
  destruct (overdue_test now e) eqn:E; [|reflexivity].
  unfold overdue_test in *. apply andb_true_iff in E. destruct E as [Es Et].
  rewrite Es. cbn [Escrow.status Escrow.with_status status_eqb andb].
  apply Z.ltb_lt in Et.
  assert (Ht : (Escrow.expiresAt e <? now') = true) by (apply Z.ltb_lt; lia).
  rewrite Ht. reflexivity.
Qed.

Lemma overdue_after_sweep (now now' : Z) (es : list Escrow.t) :
  filter (overdue_test now') (map (expire_overdue now) es)
  = filter (fun e => negb (overdue_test now e) && overdue_test now' e) es.
Proof.
  induction es as [|e r IH]; [reflexivity|]. cbn [map filter]. rewrite IH.
  unfold expire_overdue. destruct (overdue_test now e) eqn:E; cbn [negb andb];
    [|reflexivity].
  unfold overdue_test at 1. cbn [Escrow.status Escrow.with_status].
  replace (status_eqb EXPIRED ACTIVE) with false by reflexivity. reflexivity.
Qed.

(** Sweeps compose, and no expiry is announced twice.  Without other
    writers, a tick at [now] followed by a tick at [now' >= now] leaves the
    escrow table as the single tick at [now'] leaves it, and the second
    tick broadcasts only for the escrows that became overdue in between;
    in particular a second tick at the same time writes and broadcasts
    nothing. *)
Theorem timeoutTick_sweeps_compose (now now' : Z) (w : World) :
  escrow_ids_unique w -> now <= now' ->
  let w1 := fst (timeoutTick quiet quiet NoFault now w) in
  let w2 := fst (timeoutTick quiet quiet NoFault now' w1) in
  escrows w2 = escrows (fst (timeoutTick quiet quiet NoFault now' w))
  /\ outbox w2
     = outbox w1
       ++ map expired_event
            (filter (fun e => negb (overdue_test now e) && overdue_test now' e) (escrows w))
  /\ timeoutTick quiet quiet NoFault now w1 = (w1, []).
Proof.
  intros Hu Hle. cbv zeta.
  assert (Hu1 : forall t, escrow_ids_unique
                            (set_outbox (outbox w ++ map expired_event (overdue t w))
                               (set_escrows (map (expire_overdue t) (escrows w)) w))).
  { intros t. unfold escrow_ids_unique. cbn [escrows set_outbox set_escrows].
    rewrite map_map. rewrite (map_ext _ Escrow.id); [exact Hu|].
    intros e. apply expire_overdue_id. }
  rewrite !(timeoutTick_quiet _ w Hu). cbn [fst].
  rewrite !timeoutTick_quiet by apply Hu1. cbn [fst].
  cbn [escrows outbox set_outbox set_escrows]. unfold overdue.
  cbn [escrows set_outbox set_escrows].
  fold (overdue_test now'). fold (overdue_test now).
  rewrite !overdue_after_sweep. split; [|split].
  - rewrite map_map. apply map_ext. intros e. apply expire_overdue_twice. exact Hle.
  - reflexivity.
  - rewrite (proj2 (filter_nil_iff
                      (fun e => negb (overdue_test now e) && overdue_test now e)
                      (escrows w))).
    + cbn [map]. rewrite app_nil_r. unfold set_outbox, set_escrows.
      cbn [users wallets walletChallenges escrows loans repayments outbox].
      rewrite map_map. rewrite (map_ext _ (expire_overdue now)); [reflexivity|].
      intros e. apply expire_overdue_twice. lia.
    + intros e _. destruct (overdue_test now e); reflexivity.
Qed.

Lemma timeoutTick_sweeps_compose_witness :
  let w := escrow_world [sample_escrow "e1" ACTIVE 10; sample_escrow "e2" ACTIVE 20] in
  let w1 := fst (timeoutTick quiet quiet NoFault 15 w) in
  timeoutTick quiet quiet NoFault 15 w1 = (w1, []).
Proof.
  cbv zeta.
  apply (timeoutTick_sweeps_compose 15 15
           (escrow_world [sample_escrow "e1" ACTIVE 10; sample_escrow "e2" ACTIVE 20])).
  - unfold escrow_ids_unique. cbn. repeat constructor; cbn.
    + intros [H|[]]. discriminate.
    + intros [].
  - lia.
Defined.

Lemma run_escrow_call_along (c : EscrowCall) (w : World) :
  along_table w (run_escrow_call c w).
Proof.
  destruct c as [event|fault now]; cbn [run_escrow_call].
  - apply processEscrowEvent_along; apply quiet_respects_table.
  - unfold timeoutTick.
    pose proof (along_table_sweep quiet quiet fault now w quiet_respects_table
                  quiet_respects_table) as H.
    destruct (timeoutSweep quiet quiet fault now w) as [w' [r|e]]; exact H.
Qed.

(** Whatever webhook events and timer ticks follow one another, no escrow
    is lost and every escrow ends in a status its transition table allows
    from the status it started in: a [COMPLETED] or [EXPIRED] escrow keeps
    its status for ever, and an escrow that has left [PENDING] never
    returns to it. *)
Theorem escrow_history_follows_transition_table (calls : list EscrowCall) (w : World) :
  along_table w (run_escrow_calls calls w)
  /\ (forall id e,
        escrow_findUnique id w = Some e ->
        exists e',
          escrow_findUnique id (run_escrow_calls calls w) = Some e'
          /\ (Escrow.status e = COMPLETED -> Escrow.status e' = COMPLETED)
          /\ (Escrow.status e = EXPIRED -> Escrow.status e' = EXPIRED)
          /\ (Escrow.status e <> PENDING -> Escrow.status e' <> PENDING)).
Proof.
  assert (Halong : along_table w (run_escrow_calls calls w)).
  { unfold run_escrow_calls. revert w. induction calls as [|c r IH]; intros w.
    - apply along_table_refl.
    - cbn [fold_left]. apply along_table_trans with (run_escrow_call c w);
        [apply run_escrow_call_along|apply IH]. }
  split; [exact Halong|].
  intros id e Hf. destruct (Halong id e Hf) as [e' [Hf' Hal]].
  exists e'. split; [exact Hf'|].
  destruct (Escrow.status e), (Escrow.status e'); try discriminate Hal;
    repeat split; intros H; try discriminate H; try reflexivity;
    try (exfalso; apply H; reflexivity); try (intros E; discriminate E).
Qed.

(* ===================================================================== *)
(** * Escrows: paging through a listing                                   *)
(* ===================================================================== *)

Lemma chunks_concat {A} (L : nat) (l : list A) (n : nat) :
  (0 < L)%nat -> (List.length l <= n * L)%nat ->
  List.concat (map (fun i => firstn L (skipn (i * L) l)) (seq 0 n)) = l.
Proof.
  intros HL. revert l. induction n as [|n IH]; intros l Hlen.
  - destruct l; [reflexivity|cbn in Hlen; lia].
  - cbn [seq map List.concat]. rewrite <- seq_shift, map_map.
    rewrite (map_ext _ (fun i => firstn L (skipn (i * L) (skipn L l)))).
    + rewrite IH; [apply firstn_skipn|]. rewrite length_skipn. lia.
    + intros i. rewrite skipn_skipn. f_equal. f_equal. lia.
Qed.

Lemma Qceiling_div_pos (a : Z) (p : positive) :
  Qceiling (inject_Z a / inject_Z (Zpos p)) = - ((- a) / Zpos p).
Proof.
  unfold Qceiling, Qfloor, Qdiv, Qmult, Qinv, Qopp, inject_Z. cbn [Qnum Qden].
  rewrite Z.mul_1_r. rewrite Pos.mul_1_l. reflexivity.
Qed.

Lemma ceiling_bounds (a l : Z) :
  0 < l -> 0 <= a ->
  a <= - ((- a) / l) * l /\ (0 < a -> (- ((- a) / l) - 1) * l < a) /\ 0 <= - ((- a) / l).
Proof.
  intros Hl Ha.
  pose proof (Z.div_mod (- a) l ltac:(lia)) as Hdm.
  pose proof (Z.mod_pos_bound (- a) l Hl) as Hm.
  nia.
Qed.

Section PagingFacts.
Context {P : Platform}.

Lemma coercePage_of_Z (p : Z) :
  1 <= p -> coercePage (Some (JsNum (JsFinite (inject_Z p)))) = p.
Proof.
  intros Hp. rewrite (coercePage_finite _ (inject_Z p)) by reflexivity.
  assert (H : Qle_bool 1 (inject_Z p) = true).
  { apply Qle_bool_iff. change 1%Q with (inject_Z 1). rewrite <- Zle_Qle. exact Hp. }
  rewrite H. apply Qfloor_Z.
Qed.

(** [listEscrows] in closed form. *)
Lemma listEscrows_run (query : EscrowListQuery.t) (w : World) :
  listEscrows query w
  = match status_filter query with
    | Err e => (w, Err e)
    | Ok st =>
        let page := coercePage (EscrowListQuery.page query) in
        let limit := coerceLimit (EscrowListQuery.limit query) in
        let total := Z.of_nat (List.length (matches query st w)) in
        (w, Ok (mkEscrowPage
                  (firstn (Z.to_nat limit)
                     (skipn (Z.to_nat ((page - 1) * limit)) (matches query st w)))
                  (mkPagination page limit total
                     (Z.max 1 (Qceiling (inject_Z total / inject_Z limit))))))
    end.
Proof.
  unfold listEscrows, status_filter, matches. unfold_m.
  destruct (trimmed (EscrowListQuery.status query)).
  - destruct (normalizeStatus (EscrowListQuery.status query) "status"); [|reflexivity].
    cbv zeta. rewrite sort_by_length. reflexivity.
  - cbv zeta. rewrite sort_by_length. reflexivity.
Qed.

Lemma status_filter_with_page (query : EscrowListQuery.t) (p : Z) :
  status_filter (with_page query p) = status_filter query.
Proof. reflexivity. Qed.

Lemma page_items_of_Z (query : EscrowListQuery.t) (st : option EscrowStatus) (w : World)
  (p : Z) :
  status_filter query = Ok st -> 1 <= p ->
  page_items (with_page query p) w
  = firstn (Z.to_nat (coerceLimit (EscrowListQuery.limit query)))
      (skipn (Z.to_nat ((p - 1) * coerceLimit (EscrowListQuery.limit query)))
             (matches query st w)).
Proof.
  intros Hst Hp. unfold page_items. rewrite listEscrows_run, status_filter_with_page, Hst.
  cbv zeta. cbn [snd items]. cbn [with_page EscrowListQuery.page EscrowListQuery.limit].
  rewrite (coercePage_of_Z p Hp). reflexivity.
Qed.

(** Paging through a listing shows every matching escrow once.  The pages
    1 to [totalPages] of a query, read from one store, are the consecutive
    slices of the matching escrows, newest first: together they are all of
    them, each once; when something matches, none of these pages is empty;
    and every later page is empty. *)
Theorem listEscrows_pages_partition_the_matches
  (query : EscrowListQuery.t) (w w' : World) (pg : EscrowPage) :
  listEscrows query w = (w', Ok pg) ->
  exists st,
    status_filter query = Ok st
    /\ Permutation (matches query st w)
         (filter (list_where (trimmed (EscrowListQuery.buyerId query))
                             (trimmed (EscrowListQuery.sellerId query)) st) (escrows w))
    /\ StronglySorted (fun a b => Escrow.createdAt b <= Escrow.createdAt a)
         (matches query st w)
    /\ pg_total (pagination pg) = Z.of_nat (List.length (matches query st w))
    /\ List.concat (map (fun p => page_items (with_page query (Z.of_nat p)) w)
                   (seq 1 (Z.to_nat (pg_totalPages (pagination pg)))))
       = matches query st w
    /\ (matches query st w <> [] ->
        forall p, 1 <= p <= pg_totalPages (pagination pg) ->
                  page_items (with_page query p) w <> [])
    /\ (forall p, pg_totalPages (pagination pg) < p ->
                  page_items (with_page query p) w = []).
Proof.
  intros H. rewrite listEscrows_run in H.
  destruct (status_filter query) as [st|e] eqn:Hst; [|discriminate].
  cbv zeta in H. injection H as _ <-. exists st. cbn [pagination pg_total pg_totalPages].
  set (all := matches query st w).
  set (limit := coerceLimit (EscrowListQuery.limit query)).
  pose proof (coerceLimit_range (EscrowListQuery.limit query)) as Hlimit.
  fold limit in Hlimit.
  set (total := Z.of_nat (List.length all)).
  assert (Hceil : Qceiling (inject_Z total / inject_Z limit) = - ((- total) / limit)).
  { destruct limit as [|lp|lp] eqn:El; try lia. apply Qceiling_div_pos. }
  rewrite Hceil.
  destruct (ceiling_bounds total limit ltac:(lia) ltac:(unfold total; lia))
    as [Hup [Hlow Hnn]].
  set (c := - ((- total) / limit)) in *.
  split; [reflexivity|]. split; [apply sort_by_Permutation|]. split.
  { apply (StronglySorted_weaken
             (fun a b => (Escrow.createdAt b <=? Escrow.createdAt a) = true)).
    - intros a b Hab. apply Z.leb_le. exact Hab.
    - apply sort_by_sorted.
      + intros a b. destruct (Z.leb_spec (Escrow.createdAt b) (Escrow.createdAt a));
          [left; reflexivity|right; apply Z.leb_le; lia].
      + intros a b d H1 H2. apply Z.leb_le in H1. apply Z.leb_le in H2.
        apply Z.leb_le. lia. }
  split; [reflexivity|].
  assert (Hpage : forall p, 1 <= p ->
            page_items (with_page query p) w
            = firstn (Z.to_nat limit) (skipn (Z.to_nat ((p - 1) * limit)) all)).
  { intros p Hp. apply page_items_of_Z; assumption. }
  split; [|split].
  - rewrite <- seq_shift, map_map.
    rewrite (map_ext _ (fun i => firstn (Z.to_nat limit) (skipn (i * Z.to_nat limit) all))).
    + apply chunks_concat; [lia|]. unfold total in *. nia.
    + intros i. rewrite Hpage by lia. f_equal. f_equal. nia.
  - intros Hne p Hp. rewrite Hpage by lia.
    assert (Hpos : 0 < total).
    { unfold total. destruct all; [exfalso; apply Hne; reflexivity|cbn; lia]. }
    specialize (Hlow Hpos).
    assert (Hskip : (Z.to_nat ((p - 1) * limit) < List.length all)%nat).
    { unfold total in *. nia. }
    intros E. apply (f_equal (@List.length _)) in E.
    rewrite length_firstn, length_skipn in E. cbn [List.length] in E. lia.
  - intros p Hp. rewrite Hpage by lia.
    rewrite skipn_all2; [destruct (Z.to_nat limit); reflexivity|].
    unfold total in *. nia.
Qed.

End PagingFacts.

(* ===================================================================== *)
(** * Escrows: creation                                                   *)
(* ===================================================================== *)

Lemma string_triple_ind (Pr : string -> Prop) :
  Pr "" -> (forall a, Pr (String a "")) -> (forall a b, Pr (String a (String b ""))) ->
  (forall a b c r, Pr r -> Pr (String a (String b (String c r)))) ->
  forall s, Pr s.
Proof.
  intros H0 H1 H2 H3 s.
  enough (H : Pr s /\ (forall a, Pr (String a s))
              /\ (forall a b, Pr (String a (String b s)))) by apply H.
  induction s as [|c r [IH0 [IH1 IH2]]].
  - repeat split; auto.
  - split; [apply IH1|]. split; [intros a; apply IH2|].
    intros a b. apply H3. exact IH0.
Qed.

Lemma sextet_is_base64 (n k : N) : is_base64_char (sextet n k) = true.
Proof.
  unfold sextet.
  assert (H : (N.land (N.shiftr n k) 63 < 64)%N).
  { change 63%N with (N.ones 6). rewrite N.land_ones. apply N.mod_lt. discriminate. }
  remember (N.land (N.shiftr n k) 63) as m. clear Heqm.
  destruct m as [|p]; [reflexivity|].
  do 6 (try destruct p as [p|p|]); try reflexivity; exfalso; lia.
Qed.

Lemma base64_tail_cons (c : ascii) (r : string) :
  is_base64_char c = true -> base64_tail (String c r) = base64_tail r.
Proof. intros H. cbn [base64_tail]. rewrite H. reflexivity. Qed.

Lemma base64_encode_tail (s : string) : base64_tail (base64_encode s) = true.
Proof.
  induction s as [|a|a b|a b c r IH] using string_triple_ind.
  - reflexivity.
  - cbn [base64_encode]. rewrite !base64_tail_cons by apply sextet_is_base64. reflexivity.
  - cbn [base64_encode]. rewrite !base64_tail_cons by apply sextet_is_base64. reflexivity.
  - cbn [base64_encode]. rewrite !base64_tail_cons by apply sextet_is_base64. exact IH.
Qed.

Lemma base64_encode_matches (s : string) :
  s <> "" -> matches_base64 (base64_encode s) = true.
Proof.
  intros Hne. pose proof (base64_encode_tail s) as Ht.
  destruct s as [|a [|b [|c r]]]; [exfalso; apply Hne; reflexivity| | |];
    cbn [base64_encode] in *; unfold matches_base64;
    rewrite sextet_is_base64; rewrite base64_tail_cons in Ht by apply sextet_is_base64;
    exact Ht.
Qed.

Lemma base64_encode_length (s : string) :
  (String.length (base64_encode s) mod 4 = 0)%nat.
Proof.
  induction s as [|a|a b|a b c r IH] using string_triple_ind; try reflexivity.
  cbn [base64_encode String.length].
  change (S (S (S (S (String.length (base64_encode r))))))
    with (4 + String.length (base64_encode r))%nat.
  rewrite <- (Nat.Div0.add_mod_idemp_l 4) , Nat.Div0.mod_same. exact IH.
Qed.

Example base64_encode_samples :
  base64_encode "Man" = "TWFu" /\ base64_encode "Ma" = "TWE=" /\ base64_encode "M" = "TQ=="
  /\ base64_encode "BASE64_XDR" = "QkFTRTY0X1hEUg==".
Proof. repeat split. Qed.

(** What [ensureBase64] returns is padded base64, and it returns it
    unchanged when given it again.  For every value but the empty string
    the result consists of characters of the base64 alphabet followed by
    at most two [=] and has a length that is a multiple of four; a value
    of that form is returned as it is, every other value is encoded; the
    empty string, and only it, yields the empty string. *)
Theorem ensureBase64_is_idempotent (value : string) :
  (value <> "" ->
   matches_base64 (ensureBase64 value) = true
   /\ (String.length (ensureBase64 value) mod 4 = 0)%nat)
  /\ (ensureBase64 value = "" <-> value = "")
  /\ (matches_base64 value = true -> (String.length value mod 4 = 0)%nat ->
      ensureBase64 value = value)
  /\ (matches_base64 value = false \/ (String.length value mod 4 <> 0)%nat ->
      ensureBase64 value = base64_encode value)
  /\ ensureBase64 (ensureBase64 value) = ensureBase64 value.
Proof.
  assert (Hshape : value <> "" ->
            matches_base64 (ensureBase64 value) = true
            /\ (String.length (ensureBase64 value) mod 4 = 0)%nat).
  { intros Hne. unfold ensureBase64.
    destruct (matches_base64 value && Nat.eqb (String.length value mod 4) 0)%bool eqn:E.
    - apply andb_true_iff in E. destruct E as [Em El]. apply Nat.eqb_eq in El.
      split; assumption.
    - split; [apply base64_encode_matches; exact Hne|apply base64_encode_length]. }
  split; [exact Hshape|]. split; [|split; [|split]].
  - split.
    + intros E. destruct value as [|c r]; [reflexivity|].
      destruct (Hshape ltac:(discriminate)) as [Hm _]. rewrite E in Hm. discriminate.
    + intros ->. reflexivity.
  - intros Hm Hl. unfold ensureBase64. rewrite Hm, Hl. reflexivity.
  - intros [Hm|Hl]; unfold ensureBase64.
    + rewrite Hm. reflexivity.
    + apply Nat.eqb_neq in Hl. rewrite Hl, andb_false_r. reflexivity.
  - destruct value as [|c r]; [reflexivity|].
    destruct (Hshape ltac:(discriminate)) as [Hm Hl].
    unfold ensureBase64 at 1. rewrite Hm, Hl. reflexivity.
Qed.

Lemma find_snoc {A} (p : A -> bool) (l : list A) (x : A) :
  find p (l ++ [x])
  = match find p l with
    | Some y => Some y
    | None => if p x then Some x else None
    end.
Proof.
  unfold find. induction l as [|a l IH]; cbn [app List.find]; [reflexivity|].
  destruct (p a); [reflexivity|exact IH].
Qed.

Lemma existsb_find_none {A} (p : A -> bool) (l : list A) :
  existsb p l = false -> find p l = None.
Proof.
  unfold find. induction l as [|a l IH]; cbn [existsb List.find]; [reflexivity|].
  destruct (p a); [discriminate|exact IH].
Qed.

Lemma two_matches_both_exist (b s : string) (us : list User.t) :
  NoDup (map User.id us) -> b <> s ->
  List.length (filter (fun u => String.eqb (User.id u) b || String.eqb (User.id u) s) us)
  = 2%nat ->
  (exists u, In u us /\ User.id u = b) /\ (exists u, In u us /\ User.id u = s).
Proof.
  intros Hnd Hne Hlen.
  assert (Hsplit : forall l,
            List.length (filter (fun u => String.eqb (User.id u) b
                                          || String.eqb (User.id u) s) l)
            = (List.length (filter (fun u => String.eqb (User.id u) b) l)
               + List.length (filter (fun u => String.eqb (User.id u) s) l))%nat).
  { induction l as [|u r IH]; [reflexivity|]. cbn [filter].
    destruct (String.eqb (User.id u) b) eqn:Eb; destruct (String.eqb (User.id u) s) eqn:Es;
      cbn [orb List.length]; rewrite ?IH; try lia.
    apply String.eqb_eq in Eb. apply String.eqb_eq in Es. congruence. }
  assert (Hle : forall k, (List.length (filter (fun u => String.eqb (User.id u) k) us)
                           <= 1)%nat).
  { intros k. clear - Hnd. induction us as [|u r IH]; [cbn; lia|].
    cbn [map] in Hnd. inversion Hnd as [|? ? Hnin Hnd']; subst. cbn [filter].
    destruct (String.eqb (User.id u) k) eqn:E; [|apply IH; exact Hnd'].
    apply String.eqb_eq in E. cbn [List.length].
    rewrite (proj2 (filter_nil_iff _ r)); [cbn; lia|].
    intros x Hx. apply String.eqb_neq. intros Ex. apply Hnin. rewrite E, <- Ex.
    apply in_map. exact Hx. }
  rewrite Hsplit in Hlen. pose proof (Hle b) as Hb. pose proof (Hle s) as Hs.
  assert (Hex : forall k,
            List.length (filter (fun u => String.eqb (User.id u) k) us) = 1%nat ->
            exists u, In u us /\ User.id u = k).
  { intros k Hk. destruct (filter (fun u => String.eqb (User.id u) k) us) as [|u r] eqn:E;
      [discriminate|].
    assert (Hin : In u (filter (fun u => String.eqb (User.id u) k) us))
      by (rewrite E; left; reflexivity).
    apply filter_In in Hin. destruct Hin as [Hin Hid]. apply String.eqb_eq in Hid.
    exists u. split; assumption. }
  split; apply Hex; lia.
Qed.

Section CreationFacts.
Context {P : Platform} {F : Formatting}.

(** [createEscrow] validates, then writes once.  A failing call leaves the
    store as it was and broadcasts nothing.  A successful call appends one
    escrow, [PENDING], between two different parties with an expiry after
    [now], broadcasts its creation, and touches nothing else; the escrow
    is then found under the id returned, every earlier escrow is found as
    before, and the transaction returned is padded base64.  In a store
    whose user ids are unique both parties are users. *)
Theorem createEscrow_appends_a_pending_escrow
  (now : Z) (newId : string) (createdAt : Z) (payload : CreateEscrowRequest.t)
  (w : World) :
  let run := createEscrow now newId createdAt payload w in
  (forall e, snd run = Err e -> fst run = w)
  /\ (forall r,
        snd run = Ok r ->
        exists row unsignedXdr,
          fst run = set_outbox (outbox w ++ [EscrowCreated newId (Escrow.buyerId row)
                                               (Escrow.sellerId row)])
                               (set_escrows (escrows w ++ [row]) w)
          /\ r = mkCreatedEscrow newId (ensureBase64 unsignedXdr)
          /\ Escrow.id row = newId
          /\ Escrow.status row = PENDING
          /\ Escrow.stellarTxHash row = None
          /\ required (CreateEscrowRequest.buyerId payload) "buyerId is required"
             = Ok (Escrow.buyerId row)
          /\ required (CreateEscrowRequest.sellerId payload) "sellerId is required"
             = Ok (Escrow.sellerId row)
          /\ Escrow.buyerId row <> Escrow.sellerId row
          /\ parseDate (CreateEscrowRequest.expiresAt payload) "expiresAt"
             = Ok (Escrow.expiresAt row)
          /\ now < Escrow.expiresAt row
          /\ getEscrow newId (fst run) = (fst run, Ok row)
          /\ (forall id e, escrow_findUnique id w = Some e ->
                           getEscrow id (fst run) = (fst run, Ok e))
          /\ (user_ids_unique w ->
              (exists u, In u (users w) /\ User.id u = Escrow.buyerId row)
              /\ (exists u, In u (users w) /\ User.id u = Escrow.sellerId row))).
Proof.
  cbv zeta. unfold createEscrow. unfold_m.
  destruct (required (CreateEscrowRequest.buyerId payload) "buyerId is required")
    as [buyerId|e0] eqn:Hb; [|split; [intros e _; reflexivity|discriminate]].
  destruct (required (CreateEscrowRequest.sellerId payload) "sellerId is required")
    as [sellerId|e0] eqn:Hs; [|split; [intros e _; reflexivity|discriminate]].
  destruct (String.eqb buyerId sellerId) eqn:Hdiff;
    [split; [intros e _; reflexivity|discriminate]|].
  destruct (parsePositiveAmount (CreateEscrowRequest.amount payload) "amount")
    as [amount|e0]; [|split; [intros e _; reflexivity|discriminate]].
  destruct (parseDate (CreateEscrowRequest.expiresAt payload) "expiresAt")
    as [expiresAt|e0] eqn:Hd; [|split; [intros e _; reflexivity|discriminate]].
  destruct (expiresAt <=? now) eqn:Hfuture;
    [split; [intros e _; reflexivity|discriminate]|].
  destruct (negb (Nat.eqb (List.length _) 2)) eqn:Hfound;
    [split; [intros e _; reflexivity|discriminate]|].
  destruct (String.eqb (trim contracts_escrow) "");
    [split; [intros e _; reflexivity|discriminate]|].
  destruct (buildContractInvokeXDR _ _ _) as [unsignedXdr|e0];
    [|split; [intros e _; reflexivity|discriminate]].
  unfold escrow_create. cbn [Escrow.id].
  destruct (existsb _ (escrows w)) eqn:Hfresh;
    [split; [intros e _; reflexivity|discriminate]|].
  cbn [fst snd Escrow.id Escrow.buyerId Escrow.sellerId outbox set_escrows].
  split; [discriminate|]. intros r Hr. injection Hr as <-.
  exists (Escrow.mk newId buyerId sellerId (Number_toString amount)
            (or_default (CreateEscrowRequest.assetCode payload) "USDC")
            PENDING None expiresAt createdAt), unsignedXdr.
  split; [reflexivity|].
  cbn [Escrow.id Escrow.status Escrow.stellarTxHash Escrow.buyerId Escrow.sellerId
       Escrow.expiresAt].
  split; [reflexivity|]. split; [reflexivity|]. split; [reflexivity|].
  split; [reflexivity|]. split; [reflexivity|]. split; [reflexivity|].
  split; [apply String.eqb_neq; exact Hdiff|]. split; [reflexivity|].
  split; [apply Z.leb_gt; exact Hfuture|].
  apply existsb_find_none in Hfresh.
  split; [|split].
  - unfold getEscrow, escrow_findUnique. cbn [escrows set_outbox set_escrows].
    rewrite find_snoc, Hfresh. cbn [Escrow.id]. rewrite String.eqb_refl. reflexivity.
  - intros id e He. unfold getEscrow, escrow_findUnique in *.
    cbn [escrows set_outbox set_escrows]. rewrite find_snoc, He. reflexivity.
  - intros Hu. apply negb_false_iff, Nat.eqb_eq in Hfound.
    apply two_matches_both_exist; [exact Hu|apply String.eqb_neq; exact Hdiff|exact Hfound].
Qed.

End CreationFacts.

Lemma listEscrows_pages_partition_the_matches_witness :
  let query := EscrowListQuery.mk None None None None (Some (JsNum (JsFinite 1))) in
  let w := escrow_world [sample_escrow "e1" ACTIVE 10; sample_escrow "e2" PENDING 20] in
  page_items (P := stub_platform) (with_page query 3) w = [].
Proof.
  cbv zeta.
  destruct (listEscrows_pages_partition_the_matches (P := stub_platform)
              (EscrowListQuery.mk None None None None (Some (JsNum (JsFinite 1))))
              (escrow_world [sample_escrow "e1" ACTIVE 10; sample_escrow "e2" PENDING 20])
              _ _ eq_refl)
    as [st [_ [_ [_ [_ [_ [_ Hlast]]]]]]].
  apply Hlast. reflexivity.
Defined.

(* ===================================================================== *)
(** * Loans: who may issue and repay, and what a call touches             *)
(* ===================================================================== *)

Section LoanGuards.
Context {P : Platform}.

Lemma required_error (v : option string) (message : string) (e : AppError) :
  required v message = Err e -> e = ValidationError message.
Proof.
  unfold required. destruct v as [s|]; [destruct (String.eqb (trim s) "")|];
    intros H; try discriminate; injection H as <-; reflexivity.
Qed.

(** [issueLoan] is all or nothing and only for the parties.  A failing
    call leaves the store as it was and broadcasts nothing.  A successful
    call was made by the borrower or the lender, who differ, with positive
    amounts whose rounded ratio is not below 1.5; it appends one [PENDING]
    loan between them, broadcasts it once and touches nothing else; with
    unique user ids both parties are users.  A requester who is neither
    party gets a [ForbiddenError]. *)
Theorem issueLoan_is_for_the_parties (newId : string) (payload : IssueLoanRequest.t)
  (w : World) :
  let run := issueLoan newId payload w in
  (forall e, snd run = Err e -> fst run = w)
  /\ (forall r,
        snd run = Ok r ->
        exists requester borrower lender amount collateralAmt,
          required (IssueLoanRequest.requestingUserId payload)
                   "requestingUserId is required" = Ok requester
          /\ required (IssueLoanRequest.borrowerId payload) "borrowerId is required"
             = Ok borrower
          /\ required (IssueLoanRequest.lenderId payload) "lenderId is required"
             = Ok lender
          /\ borrower <> lender
          /\ (requester = borrower \/ requester = lender)
          /\ IssueLoanRequest.amount payload = Some (Decimal.Finite amount)
          /\ IssueLoanRequest.collateralAmt payload = Some (Decimal.Finite collateralAmt)
          /\ 0 < Decimal.coef amount /\ 0 < Decimal.coef collateralAmt
          /\ Decimal.lt (Decimal.div collateralAmt amount) MIN_COLLATERAL_RATIO = false
          /\ issued_loanId r = newId
          /\ issued_loan r
             = Loan.mk newId borrower lender amount collateralAmt
                 (or_default (IssueLoanRequest.assetCode payload) "USDC")
                 (or_null (IssueLoanRequest.escrowAddress payload)) LoanStatus.PENDING
          /\ fst run = set_outbox (outbox w ++ [LoanUpdated newId LoanStatus.PENDING])
                                  (set_loans (loans w ++ [issued_loan r]) w)
          /\ (user_ids_unique w ->
              (exists u, In u (users w) /\ User.id u = borrower)
              /\ (exists u, In u (users w) /\ User.id u = lender)))
  /\ (forall requester borrower lender,
        required (IssueLoanRequest.requestingUserId payload)
                 "requestingUserId is required" = Ok requester ->
        required (IssueLoanRequest.borrowerId payload) "borrowerId is required"
          = Ok borrower ->
        required (IssueLoanRequest.lenderId payload) "lenderId is required" = Ok lender ->
        borrower <> lender -> requester <> borrower -> requester <> lender ->
        run = (w, Err (ForbiddenError "Only the borrower or lender can create this loan"))).
Proof.
  cbv zeta. split; [|split].
  3:{ intros requester borrower lender Hr Hb Hl Hbl Hrb Hrl.
      unfold issueLoan. unfold_m. rewrite Hr, Hb, Hl.
      apply String.eqb_neq in Hbl. apply String.eqb_neq in Hrb.
      apply String.eqb_neq in Hrl. rewrite Hbl, Hrb, Hrl. reflexivity. }
  all: unfold issueLoan; unfold_m.
  all: destruct (required (IssueLoanRequest.requestingUserId payload) _)
         as [requester|e0] eqn:Hr; [|first [intros e _; reflexivity|discriminate]].
  all: destruct (required (IssueLoanRequest.borrowerId payload) _)
         as [borrower|e0] eqn:Hb; [|first [intros e _; reflexivity|discriminate]].
  all: destruct (required (IssueLoanRequest.lenderId payload) _)
         as [lender|e0] eqn:Hl; [|first [intros e _; reflexivity|discriminate]].
  all: destruct (String.eqb borrower lender) eqn:Hbl;
         [first [intros e _; reflexivity|discriminate]|].
  all: destruct (negb (String.eqb requester borrower)
                 && negb (String.eqb requester lender))%bool eqn:Hparty;
         [first [intros e _; reflexivity|discriminate]|].
  all: destruct (parsePositiveDecimal (IssueLoanRequest.amount payload) "amount")
         as [amount|e0] eqn:Ha; [|first [intros e _; reflexivity|discriminate]].
  all: destruct (parsePositiveDecimal (IssueLoanRequest.collateralAmt payload) _)
         as [collateralAmt|e0] eqn:Hc; [|first [intros e _; reflexivity|discriminate]].
  all: destruct (Decimal.lt (Decimal.div collateralAmt amount) MIN_COLLATERAL_RATIO)
         eqn:Hratio; [first [intros e _; reflexivity|discriminate]|].
  all: destruct (negb (Nat.eqb (List.length _) 2)) eqn:Hfound;
         [first [intros e _; reflexivity|discriminate]|].
  all: destruct (String.eqb (trim contracts_loan) "");
         [first [intros e _; reflexivity|discriminate]|].
  all: destruct (buildContractInvokeXDR _ _ _) as [xdr|e0];
         [|first [intros e _; reflexivity|discriminate]].
  all: unfold loan_create; cbn [Loan.id];
       destruct (existsb _ (loans w)) eqn:Hfresh;
         [first [intros e _; reflexivity|discriminate]|].
  - intros e He. discriminate He.
  - cbn [fst snd Loan.id Loan.status outbox set_loans]. intros r Hrr. injection Hrr as <-.
    exists requester, borrower, lender, amount, collateralAmt.
    destruct (parsePositiveDecimal_ok _ _ _ Ha) as [Hav Hap].
    destruct (parsePositiveDecimal_ok _ _ _ Hc) as [Hcv Hcp].
    split; [reflexivity|]. split; [reflexivity|]. split; [reflexivity|].
    split; [apply String.eqb_neq; exact Hbl|]. split.
    { apply andb_false_iff in Hparty.
      destruct Hparty as [H|H]; apply negb_false_iff, String.eqb_eq in H;
        [left|right]; exact H. }
    split; [exact Hav|]. split; [exact Hcv|]. split; [exact Hap|]. split; [exact Hcp|].
    split; [exact Hratio|]. cbn [issued_loanId issued_loan].
    split; [reflexivity|]. split; [reflexivity|]. split; [reflexivity|].
    intros Hu. apply negb_false_iff, Nat.eqb_eq in Hfound.
    apply two_matches_both_exist; [exact Hu|apply String.eqb_neq; exact Hbl|exact Hfound].
Qed.



End LoanGuards.

(* ===================================================================== *)
(** * The rate limiter                                                    *)
(* ===================================================================== *)

Module RateLimitFacts.
Import RateLimit.

Lemma get_set_same (ip : string) (e : Entry) (m : Counts) : get ip (set ip e m) = Some e.
Proof.
  unfold get, set, find.
  destruct (existsb (fun kv => String.eqb (fst kv) ip) m) eqn:E.
  - induction m as [|[k v] r IH]; [discriminate|]. cbn [existsb fst] in E.
    cbn [map List.find fst]. destruct (String.eqb k ip) eqn:Ek.
    + cbn [fst]. rewrite String.eqb_refl. reflexivity.
    + cbn [fst]. rewrite Ek. apply IH. cbn [orb] in E. exact E.
  - induction m as [|[k v] r IH].
    + cbn. rewrite String.eqb_refl. reflexivity.
    + cbn [existsb fst] in E. apply orb_false_iff in E. destruct E as [Ek Er].
      cbn [app List.find fst]. rewrite Ek. apply IH. exact Er.
Qed.

Lemma get_set_other (ip ip' : string) (e : Entry) (m : Counts) :
  ip' <> ip -> get ip' (set ip e m) = get ip' m.
Proof.
  intros Hne. apply String.eqb_neq in Hne. unfold get, set, find. f_equal.
  destruct (existsb (fun kv => String.eqb (fst kv) ip) m).
  - induction m as [|[k v] r IH]; [reflexivity|]. cbn [map List.find fst].
    destruct (String.eqb k ip) eqn:Ek.
    + cbn [fst]. apply String.eqb_eq in Ek. subst k.
      rewrite String.eqb_sym, Hne. exact IH.
    + cbn [fst]. destruct (String.eqb k ip'); [reflexivity|exact IH].
  - induction m as [|[k v] r IH].
    + cbn. rewrite String.eqb_sym, Hne. reflexivity.
    + cbn [app List.find fst]. destruct (String.eqb k ip'); [reflexivity|exact IH].
Qed.

Lemma ceil_seconds (d : Z) :
  Qceiling (inject_Z d / inject_Z 1000) = - ((- d) / 1000).
Proof. apply Qceiling_div_pos. Qed.

(** One request. *)
Lemma rateLimitMiddleware_step (ip : option string) (now : Z) (m : Counts) :
  let key := or_default ip "unknown" in
  let '(m', d) := rateLimitMiddleware ip now m in
  (forall other, other <> key -> get other m' = get other m)
  /\ match get key m with
     | None => d = Next /\ get key m' = Some (mkEntry 1 (now + 60000))
     | Some (mkEntry c R) =>
         if now >? R
         then d = Next /\ get key m' = Some (mkEntry 1 (now + 60000))
         else get key m' = Some (mkEntry (c + 1) R)
              /\ (c < 100 -> d = Next)
              /\ (100 <= c -> d = TooManyRequests (- ((- (R - now)) / 1000)))
     end.
Proof.
  cbv zeta. unfold rateLimitMiddleware.
  destruct (get (or_default ip "unknown") m) as [[c R]|] eqn:Hg.
  - cbn [resetAt count]. destruct (now >? R) eqn:Ht.
    + split; [intros other Hne; apply get_set_other; exact Hne|].
      split; [reflexivity|apply get_set_same].
    + unfold MAX_REQUESTS. destruct (c + 1 >? 100) eqn:Hc.
      * split; [intros other Hne; apply get_set_other; exact Hne|].
        split; [apply get_set_same|]. split; [lia|].
        intros _. rewrite ceil_seconds. reflexivity.
      * split; [intros other Hne; apply get_set_other; exact Hne|].
        split; [apply get_set_same|]. split; [reflexivity|lia].
  - split; [intros other Hne; apply get_set_other; exact Hne|].
    split; [reflexivity|apply get_set_same].
Qed.

Lemma budget_in_window (ip : string) (requests : list (option string * Z)) :
  forall (m : Counts) (c R : Z),
    get ip m = Some (mkEntry c R) ->
    (forall i t, In (i, t) requests -> or_default i "unknown" = ip -> t <= R) ->
    Z.of_nat (passed ip requests (snd (run requests m))) <= Z.max 0 (100 - c).
Proof.
  induction requests as [|[i t] rest IH]; intros m c R Hg Hin; [cbn; lia|].
  cbn [run]. pose proof (rateLimitMiddleware_step i t m) as Hstep. cbv zeta in Hstep.
  destruct (rateLimitMiddleware i t m) as [m1 d].
  destruct (run rest m1) as [m2 ds] eqn:Hrun. cbn [snd passed].
  destruct Hstep as [Hother Hkey].
  assert (Hrest : forall i' t', In (i', t') rest -> or_default i' "unknown" = ip -> t' <= R)
    by (intros i' t' H; apply Hin; right; exact H).
  destruct (String.eqb (or_default i "unknown") ip) eqn:Ei.
  - apply String.eqb_eq in Ei. rewrite Ei in Hkey. rewrite Hg in Hkey.
    assert (Ht : (t >? R) = false).
    { specialize (Hin i t (or_introl eq_refl) Ei). lia. }
    rewrite Ht in Hkey. destruct Hkey as [Hg1 [Hlow Hhigh]].
    specialize (IH m1 (c + 1) R Hg1 Hrest). rewrite Hrun in IH. cbn [snd] in IH.
    destruct (Z.lt_ge_cases c 100) as [Hc|Hc].
    + rewrite (Hlow Hc). lia.
    + rewrite (Hhigh Hc). lia.
  - apply String.eqb_neq in Ei.
    assert (Hg1 : get ip m1 = Some (mkEntry c R)).
    { rewrite Hother; [exact Hg|]. intros E. apply Ei. symmetry. exact E. }
    specialize (IH m1 c R Hg1 Hrest). rewrite Hrun in IH. cbn [snd] in IH. lia.
Qed.

(** At most 100 requests of an address pass in one window.  The request
    that opens a window (the first of the address, or the first after the
    reset time) passes and sets the reset time one minute later; whatever
    other addresses do meanwhile, of this one and the requests of the same
    address that follow up to the reset time, at most 100 pass.  In an
    open window a request is refused exactly when the window has counted
    100 requests, and it is told to retry after the seconds left to the
    reset, rounded up. *)
Theorem rateLimit_passes_100_per_window
  (ip : option string) (now : Z) (m : Counts) (requests : list (option string * Z)) :
  let key := or_default ip "unknown" in
  match get key m with
  | Some e => resetAt e < now
  | None => True
  end ->
  (forall i t, In (i, t) requests -> or_default i "unknown" = key -> t <= now + 60000) ->
  let ds := snd (run ((ip, now) :: requests) m) in
  hd_error ds = Some Next
  /\ (passed key ((ip, now) :: requests) ds <= 100)%nat
  /\ (forall i t m0 c R,
        get (or_default i "unknown") m0 = Some (mkEntry c R) -> t <= R ->
        match snd (rateLimitMiddleware i t m0) with
        | Next => c < 100
        | TooManyRequests r => 100 <= c /\ 1000 * (r - 1) < R - t <= 1000 * r
        end).
Proof.
  cbv zeta. intros Hopen Hwindow.
  cbn [run]. pose proof (rateLimitMiddleware_step ip now m) as Hstep. cbv zeta in Hstep.
  destruct (rateLimitMiddleware ip now m) as [m1 d].
  destruct (run requests m1) as [m2 ds] eqn:Hrun. cbn [snd hd_error passed].
  destruct Hstep as [_ Hkey].
  assert (Hfirst : d = Next /\ get (or_default ip "unknown") m1
                                = Some (mkEntry 1 (now + 60000))).
  { destruct (get (or_default ip "unknown") m) as [[c R]|]; [|exact Hkey].
    cbn [resetAt] in Hopen. assert (Ht : (now >? R) = true) by lia.
    rewrite Ht in Hkey. exact Hkey. }
  destruct Hfirst as [-> Hg1]. split; [reflexivity|]. split.
  - rewrite String.eqb_refl.
    pose proof (budget_in_window (or_default ip "unknown") requests m1 1 (now + 60000)
                  Hg1 Hwindow) as Hb.
    rewrite Hrun in Hb. cbn [snd] in Hb. lia.
  - intros i t m0 c R Hg Ht.
    pose proof (rateLimitMiddleware_step i t m0) as Hstep. cbv zeta in Hstep.
    destruct (rateLimitMiddleware i t m0) as [m' d']. cbn [snd].
    destruct Hstep as [_ Hk]. rewrite Hg in Hk.
    assert (Hnot : (t >? R) = false) by lia. rewrite Hnot in Hk.
    destruct Hk as [_ [Hlow Hhigh]].
    destruct (Z.lt_ge_cases c 100) as [Hc|Hc].
    + rewrite (Hlow Hc). exact Hc.
    + rewrite (Hhigh Hc). split; [exact Hc|].
      pose proof (Z.div_mod (- (R - t)) 1000 ltac:(lia)) as Hdm.
      pose proof (Z.mod_pos_bound (- (R - t)) 1000 ltac:(lia)) as Hm.
      lia.
Qed.

Lemma rateLimit_passes_100_per_window_witness :
  hd_error (snd (run [(Some "10.0.0.1", 5); (None, 6); (Some "10.0.0.1", 7)] [])) = Some Next.
Proof.
  apply (rateLimit_passes_100_per_window (Some "10.0.0.1") 5 []
           [(None, 6); (Some "10.0.0.1", 7)]).
  - exact I.
  - intros i t [H|[H|[]]] _; injection H as _ <-; lia.
Defined.

End RateLimitFacts.

(* ===================================================================== *)
(** * The HTTP layer                                                      *)
(* ===================================================================== *)

Lemma errorMiddleware_status (e : AppError) :
  400 <= Http.status (errorMiddleware e) <= 500
  /\ exists error, Http.body (errorMiddleware e) = Http.Failure error.
Proof. destruct e; cbn; split; try lia; eexists; reflexivity. Qed.

Lemma respond_answers (success : Z) (handler : M Http.Response) (w : World) :
  (forall w' res, handler w = (w', Ok res) -> Http.status res = success) ->
  (forall w' e, handler w = (w', Err e) -> w' = w) ->
  answers success w (respond handler w).
Proof.
  intros Hok Herr. unfold respond, answers.
  destruct (handler w) as [w' [res|e]] eqn:E; cbn [fst snd].
  - left. exact (Hok w' res eq_refl).
  - right. destruct (errorMiddleware_status e) as [Hs Hb].
    split; [exact Hs|]. split; [exact (Herr w' e eq_refl)|exact Hb].
Qed.

Section ControllerFacts.
Context {P : Platform}.

Lemma getUserId_error (req : Http.Request) (e : AppError) :
  WalletController.getUserId req = Err e -> e = UnauthorizedError "Unauthorized".
Proof.
  unfold WalletController.getUserId. destruct (Http.user req) as [u|].
  - destruct (String.eqb u ""); [|discriminate]. intros H. injection H as <-. reflexivity.
  - intros H. injection H as <-. reflexivity.
Qed.

Lemma generateChallenge_failure (now : Z) (entropy : nat -> byte) (address : option string)
  (purpose : ChallengePurpose) (userId : option string) (w w' : World) (e : AppError) :
  generateChallenge now entropy address purpose userId w = (w', Err e) -> w' = w.
Proof.
  intros H.
  destruct (generateChallenge_outcome now entropy address purpose userId w)
    as [[e0 He]|[row [c [Hrun _]]]]; rewrite H in *.
  - injection He as -> _. reflexivity.
  - discriminate.
Qed.

Lemma updateWalletLabel_failure (userId walletId : string) (label : option string)
  (w w' : World) (e : AppError) :
  updateWalletLabel userId walletId label w = (w', Err e) -> w' = w.
Proof.
  unfold updateWalletLabel. unfold_m.
  destruct (find _ (wallets w)); [|intros H; injection H as <- _; reflexivity].
  unfold wallet_update. destruct (find _ (wallets w)); [discriminate|].
  intros H. injection H as <- _. reflexivity.
Qed.

(** Every wallet endpoint answers with the status of its success (200,
    201 for a link, 204 for an unlink) or with an error status between
    400 and 500 and an error body; and whenever it answers with an error,
    the store is as it was before the request. *)
Theorem wallet_endpoints_fail_without_writing
  (now : Z) (entropy : nat -> byte) (newId typeError : string) (createdAt : Z)
  (req : Http.Request) (w : World) :
  answers 200 w (respond (WalletController.listWallets req) w)
  /\ answers 200 w (respond (WalletController.walletChallenge now entropy req) w)
  /\ answers 201 w (respond (WalletController.linkWallet now newId createdAt req) w)
  /\ answers 204 w (respond (WalletController.unlinkWallet req) w)
  /\ answers 200 w (respond (WalletController.setPrimaryWallet req) w)
  /\ answers 200 w (respond (WalletController.updateWallet typeError req) w).
Proof.
  repeat split; apply respond_answers.
  - unfold WalletController.listWallets, getUserWallets. unfold_m.
    intros w' res. destruct (WalletController.getUserId req); [|discriminate].
    intros H. injection H as _ <-. reflexivity.
  - unfold WalletController.listWallets, getUserWallets. unfold_m.
    intros w' e. destruct (WalletController.getUserId req); [discriminate|].
    intros H. injection H as <- _. reflexivity.
  - unfold WalletController.walletChallenge. unfold_m. intros w' res.
    destruct (requireNonEmptyString _ _); [|discriminate].
    destruct (WalletController.getUserId req); [|discriminate].
    destruct (generateChallenge _ _ _ _ _ w) as [w1 [c|e]]; [|discriminate].
    intros H. injection H as _ <-. reflexivity.
  - unfold WalletController.walletChallenge. unfold_m. intros w' e.
    destruct (requireNonEmptyString _ _); [|intros H; injection H as <- _; reflexivity].
    destruct (WalletController.getUserId req);
      [|intros H; injection H as <- _; reflexivity].
    destruct (generateChallenge _ _ _ _ _ w) as [w1 [c|e1]] eqn:Hg; [discriminate|].
    intros H. injection H as <- _. exact (generateChallenge_failure _ _ _ _ _ _ _ _ Hg).
  - unfold WalletController.linkWallet. unfold_m. intros w' res.
    do 3 (destruct (requireNonEmptyString _ _); [|discriminate]).
    destruct (match option_map Http.label (Http.payload req) with
              | Some (Http.LabelString s) => Ok (Some s)
              | Some Http.LabelUndefined | None => Ok None
              | Some _ => Err (ValidationError "label must be a string")
              end); [|discriminate].
    destruct (WalletController.getUserId req); [|discriminate].
    destruct (linkWallet _ _ _ _ _ _ _ _ w) as [w1 [c|e]]; [|discriminate].
    intros H. injection H as _ <-. reflexivity.
  - unfold WalletController.linkWallet. unfold_m. intros w' e.
    do 3 (destruct (requireNonEmptyString _ _);
          [|intros H; injection H as <- _; reflexivity]).
    destruct (match option_map Http.label (Http.payload req) with
              | Some (Http.LabelString s) => Ok (Some s)
              | Some Http.LabelUndefined | None => Ok None
              | Some _ => Err (ValidationError "label must be a string")
              end); [|intros H; injection H as <- _; reflexivity].
    destruct (WalletController.getUserId req);
      [|intros H; injection H as <- _; reflexivity].
    destruct (linkWallet _ _ _ _ _ _ _ _ w) as [w1 [c|e1]] eqn:Hl; [discriminate|].
    intros H. injection H as <- _. exact (linkWallet_failure _ _ _ _ _ _ _ _ _ _ _ Hl).
  - unfold WalletController.unlinkWallet. unfold_m. intros w' res.
    destruct (WalletController.getUserId req); [|discriminate].
    destruct (unlinkWallet _ _ w) as [w1 [c|e]]; [|discriminate].
    intros H. injection H as _ <-. reflexivity.
  - unfold WalletController.unlinkWallet. unfold_m. intros w' e.
    destruct (WalletController.getUserId req);
      [|intros H; injection H as <- _; reflexivity].
    destruct (unlinkWallet _ _ w) as [w1 [c|e1]] eqn:Hl; [discriminate|].
    intros H. injection H as <- _. exact (unlinkWallet_failure _ _ _ _ _ Hl).
  - unfold WalletController.setPrimaryWallet. unfold_m. intros w' res.
    destruct (WalletController.getUserId req); [|discriminate].
    destruct (setPrimaryWallet _ _ w) as [w1 [c|e]]; [|discriminate].
    intros H. injection H as _ <-. reflexivity.
  - unfold WalletController.setPrimaryWallet. unfold_m. intros w' e.
    destruct (WalletController.getUserId req);
      [|intros H; injection H as <- _; reflexivity].
    destruct (setPrimaryWallet _ _ w) as [w1 [c|e1]] eqn:Hl; [discriminate|].
    intros H. injection H as <- _. exact (setPrimaryWallet_failure _ _ _ _ _ Hl).
  - unfold WalletController.updateWallet. unfold_m. intros w' res.
    destruct (Http.payload req) as [b|]; [|discriminate].
    destruct (WalletController.getUserId req); [|discriminate].
    destruct (Http.label b);
      try (destruct (updateWalletLabel _ _ _ w) as [w1 [c|e]]; [|discriminate];
           intros H; injection H as _ <-; reflexivity).
    destruct (find _ (wallets w)); discriminate.
  - unfold WalletController.updateWallet. unfold_m. intros w' e.
    destruct (Http.payload req) as [b|]; [|intros H; injection H as <- _; reflexivity].
    destruct (WalletController.getUserId req);
      [|intros H; injection H as <- _; reflexivity].
    destruct (Http.label b);
      try (destruct (updateWalletLabel _ _ _ w) as [w1 [c|e1]] eqn:Hl; [discriminate|];
           intros H; injection H as <- _;
           exact (updateWalletLabel_failure _ _ _ _ _ _ Hl)).
    destruct (find _ (wallets w)); intros H; injection H as <- _; reflexivity.
Qed.

Lemma getUserId_ok (req : Http.Request) (userId : string) :
  Http.user req = Some userId -> userId <> "" ->
  WalletController.getUserId req = Ok userId.
Proof.
  intros Hu Hne. unfold WalletController.getUserId. rewrite Hu.
  apply String.eqb_neq in Hne. rewrite Hne. reflexivity.
Qed.

Lemma getUserId_none (req : Http.Request) :
  truthy (Http.user req) = false ->
  WalletController.getUserId req = Err (UnauthorizedError "Unauthorized").
Proof.
  unfold WalletController.getUserId, truthy. destruct (Http.user req) as [u|];
    [|reflexivity].
  destruct (String.eqb u ""); [reflexivity|discriminate].
Qed.

(** No wallet endpoint serves a request without a user.  Such a request
    is answered 401, or 400 when the challenge or link request is
    malformed, or (for a relabelling without a body) 500; the store is
    not written, and no challenge is issued. *)
Theorem wallet_endpoints_require_a_user
  (now : Z) (entropy : nat -> byte) (newId typeError : string) (createdAt : Z)
  (req : Http.Request) (w : World) :
  truthy (Http.user req) = false ->
  let unauthorized := Http.mkResponse 401 (Http.Failure (Some "Unauthorized")) in
  respond (WalletController.listWallets req) w = (w, unauthorized)
  /\ respond (WalletController.unlinkWallet req) w = (w, unauthorized)
  /\ respond (WalletController.setPrimaryWallet req) w = (w, unauthorized)
  /\ (Http.payload req <> None ->
      respond (WalletController.updateWallet typeError req) w = (w, unauthorized))
  /\ (let out := respond (WalletController.walletChallenge now entropy req) w in
      fst out = w /\ (snd out = unauthorized \/ Http.status (snd out) = 400))
  /\ (let out := respond (WalletController.linkWallet now newId createdAt req) w in
      fst out = w /\ (snd out = unauthorized \/ Http.status (snd out) = 400)).
Proof.
  intros Hno. cbv zeta. pose proof (getUserId_none req Hno) as Hg.
  split; [|split; [|split; [|split; [|split]]]].
  - unfold respond, WalletController.listWallets. unfold_m. rewrite Hg. reflexivity.
  - unfold respond, WalletController.unlinkWallet. unfold_m. rewrite Hg. reflexivity.
  - unfold respond, WalletController.setPrimaryWallet. unfold_m. rewrite Hg. reflexivity.
  - intros Hb. unfold respond, WalletController.updateWallet. unfold_m.
    destruct (Http.payload req); [|exfalso; apply Hb; reflexivity].
    rewrite Hg. reflexivity.
  - unfold respond, WalletController.walletChallenge. unfold_m. rewrite Hg.
    unfold requireNonEmptyString.
    destruct (Http.field Http.walletAddress req) as [s|];
      [destruct (String.eqb (trim s) "")|]; cbn; split; auto.
  - unfold respond, WalletController.linkWallet. unfold_m. rewrite Hg.
    unfold requireNonEmptyString.
    destruct (Http.field Http.walletAddress req) as [s1|];
      [destruct (String.eqb (trim s1) "")|]; cbn [fst snd]; try (split; auto; fail).
    destruct (Http.field Http.nonce req) as [s2|];
      [destruct (String.eqb (trim s2) "")|]; cbn [fst snd]; try (split; auto; fail).
    destruct (Http.field Http.signature req) as [s3|];
      [destruct (String.eqb (trim s3) "")|]; cbn [fst snd]; try (split; auto; fail).
    destruct (option_map Http.label (Http.payload req)) as [[| |s|]|];
      cbn [fst snd]; split; auto.
Qed.

(** The status codes of the wallet endpoints for a signed-in user: 404
    for a wallet that is not a wallet of the user, on unlink, primary
    change and relabelling; 400 on unlinking the only wallet; 409 on
    linking an address that a wallet already has; 500 on relabelling
    without a body, and on a label that is not a string once the wallet
    is found.  None of these requests writes the store. *)
Theorem wallet_endpoints_status_codes
  (now : Z) (newId typeError : string) (createdAt : Z)
  (req : Http.Request) (w : World) (userId : string) :
  Http.user req = Some userId -> userId <> "" ->
  ((forall x, In x (wallets w) -> Wallet.id x = Http.params_id req ->
              Wallet.userId x <> userId) ->
   (exists message,
      respond (WalletController.unlinkWallet req) w
      = (w, Http.mkResponse 404 (Http.Failure (Some message))))
   /\ (exists message,
         respond (WalletController.setPrimaryWallet req) w
         = (w, Http.mkResponse 404 (Http.Failure (Some message))))
   /\ (Http.payload req <> None ->
       respond (WalletController.updateWallet typeError req) w
       = (w, Http.mkResponse 404 (Http.Failure (Some "Wallet not found")))))
  /\ (forall x,
        user_exists userId w = true -> user_wallets userId w = [x] ->
        Wallet.id x = Http.params_id req ->
        respond (WalletController.unlinkWallet req) w
        = (w, Http.mkResponse 400 (Http.Failure (Some "Cannot unlink the only wallet"))))
  /\ (forall address nonce signature a x,
        requireNonEmptyString (Http.field Http.walletAddress req) "walletAddress"
          = Ok address ->
        requireNonEmptyString (Http.field Http.nonce req) "nonce" = Ok nonce ->
        requireNonEmptyString (Http.field Http.signature req) "signature"
          = Ok signature ->
        (forall b, Http.payload req = Some b ->
                   Http.label b = Http.LabelUndefined
                   \/ exists s, Http.label b = Http.LabelString s) ->
        normalizeAddress (Some address) = Ok a -> Keypair_fromPublicKey a = true ->
        user_exists userId w = true ->
        In x (wallets w) -> Wallet.address x = a ->
        respond (WalletController.linkWallet now newId createdAt req) w
        = (w, Http.mkResponse 409
                (Http.Failure (Some "Wallet address is already linked"))))
  /\ (Http.payload req = None ->
      Http.status (snd (respond (WalletController.updateWallet typeError req) w)) = 500
      /\ fst (respond (WalletController.updateWallet typeError req) w) = w)
  /\ (forall b x,
        Http.payload req = Some b -> Http.label b = Http.LabelOther ->
        In x (wallets w) -> Wallet.id x = Http.params_id req -> Wallet.userId x = userId ->
        Http.status (snd (respond (WalletController.updateWallet typeError req) w)) = 500
        /\ fst (respond (WalletController.updateWallet typeError req) w) = w).
Proof.
  intros Hu Hne. pose proof (getUserId_ok req userId Hu Hne) as Hg.
  split; [|split; [|split; [|split]]].
  - intros Hforeign. split; [|split].
    + destruct (unlinkWallet_not_found userId (Http.params_id req) w) as [message Hm].
      { intros x Hx Hid. unfold user_wallets in Hx. apply filter_In in Hx.
        destruct Hx as [Hin Hux]. apply String.eqb_eq in Hux.
        exact (Hforeign x Hin Hid Hux). }
      eexists. unfold respond, WalletController.unlinkWallet. unfold_m.
      rewrite Hg, Hm. reflexivity.
    + destruct (setPrimaryWallet_not_found userId (Http.params_id req) w Hforeign)
        as [message Hm].
      eexists. unfold respond, WalletController.setPrimaryWallet. unfold_m.
      rewrite Hg, Hm. reflexivity.
    + intros Hb. unfold respond, WalletController.updateWallet. unfold_m.
      destruct (Http.payload req) as [b|]; [|exfalso; apply Hb; reflexivity].
      rewrite Hg.
      pose proof (fun l => updateWalletLabel_not_found userId (Http.params_id req) l w
                             Hforeign) as Hm.
      destruct (Http.label b); rewrite ?Hm; try reflexivity.
      destruct (find _ (wallets w)) as [t|] eqn:Hf; [|reflexivity].
      exfalso. unfold find in Hf. apply find_some in Hf. destruct Hf as [Hin Hp].
      apply andb_true_iff in Hp. destruct Hp as [Hid Huid].
      apply String.eqb_eq in Hid. apply String.eqb_eq in Huid.
      exact (Hforeign t Hin Hid Huid).
  - intros x Hex Hone Hid. unfold respond, WalletController.unlinkWallet. unfold_m.
    rewrite Hg, (unlinkWallet_only_wallet userId (Http.params_id req) w x Hex Hone Hid).
    reflexivity.
  - intros address nonce signature a x Haddr Hnonce Hsig Hlabel Ha Hk Hex Hin Hx.
    unfold respond, WalletController.linkWallet. unfold_m.
    rewrite Haddr, Hnonce, Hsig.
    assert (Hl : exists l,
               match option_map Http.label (Http.payload req) with
               | Some (Http.LabelString s) => Ok (Some s)
               | Some Http.LabelUndefined | None => Ok None
               | Some _ => Err (ValidationError "label must be a string")
               end = Ok l).
    { destruct (Http.payload req) as [b|]; cbn [option_map]; [|eexists; reflexivity].
      destruct (Hlabel b eq_refl) as [E|[s E]]; rewrite E; eexists; reflexivity. }
    destruct Hl as [l ->]. rewrite Hg.
    rewrite (linkWallet_conflict now newId createdAt userId address nonce signature l w a
               Ha Hk Hex).
    + reflexivity.
    + left. exists x. split; assumption.
  - intros Hb. unfold respond, WalletController.updateWallet. unfold_m. rewrite Hb.
    split; reflexivity.
  - intros b x Hb Hl Hin Hid Huid. unfold respond, WalletController.updateWallet.
    unfold_m. rewrite Hb, Hg, Hl.
    destruct (find _ (wallets w)) as [t|] eqn:Hf; [split; reflexivity|].
    exfalso. pose proof (find_none _ _ Hf x Hin) as Hn. cbn beta in Hn.
    rewrite Hid, Huid, !String.eqb_refl in Hn. discriminate.
Qed.

End ControllerFacts.

Lemma wallet_endpoints_require_a_user_witness :
  respond (WalletController.unlinkWallet (Http.mkRequest None None "w1")) two_wallets
  = (two_wallets, Http.mkResponse 401 (Http.Failure (Some "Unauthorized"))).
Proof.
  exact (proj1 (proj2 (wallet_endpoints_require_a_user (P := stub_platform)
           0 zero_entropy "w9" "TypeError" 0 (Http.mkRequest None None "w1") two_wallets
           eq_refl))).
Defined.

Lemma wallet_endpoints_status_codes_witness :
  Http.status (snd (respond (WalletController.unlinkWallet
                               (Http.mkRequest (Some "bob") None "w1")) two_wallets))
  = 404.
Proof.
  destruct (proj1 (proj1 (wallet_endpoints_status_codes (P := stub_platform)
                            0 "w9" "TypeError" 0 (Http.mkRequest (Some "bob") None "w1")
                            two_wallets "bob" eq_refl ltac:(discriminate))
                     ltac:(intros x [<-|[<-|[]]]; cbn; intros H; discriminate)))
    as [message H].
  exact (f_equal (fun out => Http.status (snd out)) H).
Defined.

(* ===================================================================== *)
(** * UserService                                                         *)
(* ===================================================================== *)

Section UserFacts.
Context {P : Platform}.

Lemma normalise_empty (s : string) :
  String.eqb (trim (UserService.normalise s)) "" = String.eqb (trim s) "".
Proof.
  unfold UserService.normalise. rewrite toUpperCase_trim, trim_idempotent.
  apply toUpperCase_empty.
Qed.

Lemma normalise_idempotent (s : string) :
  UserService.normalise (UserService.normalise s) = UserService.normalise s.
Proof.
  unfold UserService.normalise.
  rewrite toUpperCase_trim, trim_idempotent. apply toUpperCase_idempotent.
Qed.

Lemma createUser_again (newId s : string) (w : World) (user : User.t) :
  String.eqb (trim s) "" = false ->
  Keypair_fromPublicKey (UserService.normalise s) = true ->
  find (fun u => String.eqb (User.stellarAddress u) (UserService.normalise s)) (users w)
  = Some user ->
  UserService.createUser newId (Some s) w = (w, Ok user).
Proof.
  intros Hb Hk Hf. unfold UserService.createUser. unfold_m. rewrite Hb.
  unfold assertValidStellarAddress. rewrite Hk. unfold user_upsert. rewrite Hf.
  reflexivity.
Qed.

(** [createUser] is an idempotent upsert keyed on the normalised address.
    A failing call leaves the store as it was.  A successful call returns
    a user of the store whose address is the normalised address, a public
    key; it adds that user when no user had the address and writes nothing
    otherwise; ids and addresses of users stay pairwise distinct; and any
    later call with an address that normalises to the same, in any letter
    case and with white space around, returns the same user and writes
    nothing. *)
Theorem createUser_is_idempotent (newId : string) (stellarAddress : option string)
  (w : World) :
  let run := UserService.createUser newId stellarAddress w in
  (forall e, snd run = Err e -> fst run = w)
  /\ (forall user,
        snd run = Ok user ->
        (exists s, stellarAddress = Some s
                   /\ User.stellarAddress user = UserService.normalise s)
        /\ Keypair_fromPublicKey (User.stellarAddress user) = true
        /\ In user (users (fst run))
        /\ (fst run = w \/ fst run = set_users (users w ++ [user]) w)
        /\ ((exists u, In u (users w) /\ User.stellarAddress u = User.stellarAddress user)
            -> fst run = w)
        /\ (user_ids_unique w -> user_ids_unique (fst run))
        /\ (user_addresses_unique w -> user_addresses_unique (fst run))
        /\ (forall newId' s',
              UserService.normalise s' = User.stellarAddress user ->
              UserService.createUser newId' (Some s') (fst run) = (fst run, Ok user))).
Proof.
  cbv zeta.
  destruct (UserService.createUser newId stellarAddress w) as [w1 r] eqn:Hrun.
  cbn [fst snd]. unfold UserService.createUser in Hrun. unfold_m.
  destruct stellarAddress as [s|];
    [|injection Hrun as <- <-; split; [intros e _; reflexivity|discriminate]].
  destruct (String.eqb (trim s) "") eqn:Hblank;
    [injection Hrun as <- <-; split; [intros e _; reflexivity|discriminate]|].
  unfold assertValidStellarAddress in Hrun.
  destruct (Keypair_fromPublicKey (UserService.normalise s)) eqn:Hkey;
    [|injection Hrun as <- <-; split; [intros e _; reflexivity|discriminate]].
  assert (Hsame : forall s', UserService.normalise s' = UserService.normalise s ->
            String.eqb (trim s') "" = false
            /\ Keypair_fromPublicKey (UserService.normalise s') = true).
  { intros s' Hs'. split; [|rewrite Hs'; exact Hkey].
    rewrite <- normalise_empty, Hs', normalise_empty. exact Hblank. }
  unfold user_upsert in Hrun.
  destruct (find (fun u => String.eqb (User.stellarAddress u) (UserService.normalise s))
                 (users w)) as [existing|] eqn:Hfind.
  - injection Hrun as <- <-. split; [discriminate|]. intros user Hu. injection Hu as <-.
    pose proof Hfind as Hf. unfold find in Hf. apply find_some in Hf.
    destruct Hf as [Hin Haddr]. apply String.eqb_eq in Haddr.
    split; [exists s; split; [reflexivity|exact Haddr]|].
    split; [rewrite Haddr; exact Hkey|]. split; [exact Hin|].
    split; [left; reflexivity|]. split; [intros _; reflexivity|].
    split; [intros H; exact H|]. split; [intros H; exact H|].
    intros newId' s' Hs'. rewrite Haddr in Hs'. destruct (Hsame s' Hs') as [Hb Hk].
    apply createUser_again; [exact Hb|exact Hk|]. rewrite Hs'. exact Hfind.
  - destruct (existsb (fun u => String.eqb (User.id u) newId) (users w)) eqn:Hid;
      [injection Hrun as <- <-; split; [intros e _; reflexivity|discriminate]|].
    injection Hrun as <- <-. split; [discriminate|]. intros user Hu. injection Hu as <-.
    cbn [User.stellarAddress users set_users].
    split; [exists s; split; reflexivity|]. split; [exact Hkey|].
    split; [apply in_or_app; right; left; reflexivity|].
    split; [right; reflexivity|].
    split.
    { intros [u [Hin Hu]]. exfalso. pose proof (find_none _ _ Hfind u Hin) as Hn.
      cbn beta in Hn. rewrite Hu, String.eqb_refl in Hn. discriminate. }
    split.
    { intros Hnd. unfold user_ids_unique. cbn [users set_users].
      apply nodup_map_snoc; [exact Hnd|]. cbn [User.id]. intros Hin.
      apply in_map_iff in Hin. destruct Hin as [u [Hu Hin]].
      assert (Ht : existsb (fun u => String.eqb (User.id u) newId) (users w) = true)
        by (apply existsb_exists; exists u; split; [exact Hin|];
            rewrite Hu; apply String.eqb_refl).
      congruence. }
    split.
    { intros Hnd. unfold user_addresses_unique. cbn [users set_users].
      apply nodup_map_snoc; [exact Hnd|]. cbn [User.stellarAddress]. intros Hin.
      apply in_map_iff in Hin. destruct Hin as [u [Hu Hin]].
      pose proof (find_none _ _ Hfind u Hin) as Hn. cbn beta in Hn.
      rewrite Hu, String.eqb_refl in Hn. discriminate. }
    intros newId' s' Hs'. destruct (Hsame s' Hs') as [Hb Hk].
    apply createUser_again; [exact Hb|exact Hk|].
    cbn [users set_users]. rewrite Hs', find_snoc, Hfind. cbn [User.stellarAddress].
    rewrite String.eqb_refl. reflexivity.
Qed.

(** [getUserById] reads only.  It fails with [NotFoundError] when no user
    has the id.  Otherwise the profile holds that user and its wallets,
    each once, primary first and then by age; [primaryWallet] is absent
    exactly when no wallet is primary, and is otherwise a primary wallet of
    the user and the first of the list; and in a store where every user
    has a single primary wallet, the profile of a user with a wallet shows
    that wallet, whose address is the address of the user. *)
Theorem getUserById_shows_the_primary_wallet (id : string) (w : World) :
  let run := UserService.getUserById id w in
  fst run = w
  /\ ((forall u, In u (users w) -> User.id u <> id) ->
      snd run = Err (NotFoundError "User not found"))
  /\ (forall profile,
        snd run = Ok profile ->
        In (profile_user profile) (users w)
        /\ User.id (profile_user profile) = id
        /\ Permutation (profile_wallets profile) (user_wallets id w)
        /\ StronglySorted listed_before (profile_wallets profile)
        /\ (profile_primaryWallet profile = None
            <-> forall x, In x (user_wallets id w) -> Wallet.isPrimary x = false)
        /\ (forall p, profile_primaryWallet profile = Some p ->
              Wallet.isPrimary p = true /\ Wallet.userId p = id
              /\ exists t, profile_wallets profile = p :: t)
        /\ (single_primary w -> user_wallets id w <> [] ->
            exists p, profile_primaryWallet profile = Some p
                      /\ primaries id w = [p]
                      /\ Wallet.address p = User.stellarAddress (profile_user profile))).
Proof.
  cbv zeta. unfold UserService.getUserById.
  destruct (find (fun u => String.eqb (User.id u) id) (users w)) as [user|] eqn:Hfind.
  2:{ cbn [fst snd]. split; [reflexivity|]. split; [reflexivity|discriminate]. }
  cbn [fst snd]. split; [reflexivity|].
  destruct (find_some_keyed User.id _ _ _ Hfind) as [Hin Hid].
  split; [intros Hall; exfalso; exact (Hall user Hin Hid)|].
  intros profile Hp. injection Hp as <-.
  cbn [profile_user profile_wallets profile_primaryWallet]. rewrite Hid.
  set (ws := sort_by wallet_order (user_wallets id w)).
  assert (Hsorted : StronglySorted listed_before ws) by apply wallet_order_sorted.
  assert (Hmem : forall x, In x ws <-> In x (user_wallets id w)) by (intros x; apply sort_by_In).
  split; [exact Hin|]. split; [reflexivity|]. split; [apply sort_by_Permutation|].
  split; [exact Hsorted|]. split; [|split].
  - split.
    + intros Hnone x Hx. apply Hmem in Hx.
      pose proof (find_none _ _ Hnone x Hx) as Hn. exact Hn.
    + intros Hall. destruct (find Wallet.isPrimary ws) as [p|] eqn:E; [|reflexivity].
      unfold find in E. apply find_some in E. destruct E as [Hp Hprim].
      apply Hmem in Hp. rewrite (Hall p Hp) in Hprim. discriminate.
  - intros p Hp. pose proof Hp as Hp'. unfold find in Hp'. apply find_some in Hp'.
    destruct Hp' as [Hpin Hprim]. split; [exact Hprim|]. split.
    { apply Hmem in Hpin. unfold user_wallets in Hpin. apply filter_In in Hpin.
      apply String.eqb_eq. apply Hpin. }
    destruct (listed_primary_first ws p Hsorted Hpin Hprim) as [h [t [Hws Hh]]].
    exists t. rewrite Hws in Hp. unfold find in Hp. cbn [List.find] in Hp.
    rewrite Hh in Hp. injection Hp as <-. exact Hws.
  - intros Hinv Hne. rewrite <- Hid in Hne.
    destruct (Hinv user Hin Hne) as [p [Hprim Haddr]]. rewrite Hid in Hprim.
    exists p. split; [|split; [exact Hprim|symmetry; exact Haddr]].
    assert (Hp : In p (primaries id w)) by (rewrite Hprim; left; reflexivity).
    unfold primaries in Hp. apply filter_In in Hp. destruct Hp as [Hpin Hpp].
    destruct (find Wallet.isPrimary ws) as [p'|] eqn:E.
    + unfold find in E. apply find_some in E. destruct E as [Hp'in Hp'p].
      apply Hmem in Hp'in.
      assert (Hp' : In p' (primaries id w))
        by (unfold primaries; apply filter_In; split; assumption).
      rewrite Hprim in Hp'. destruct Hp' as [<-|[]]. reflexivity.
    + exfalso. apply Hmem in Hpin. pose proof (find_none _ _ E p Hpin) as Hn.
      congruence.
Qed.

End UserFacts.

(* ===================================================================== *)
(** * Escrows: webhook events delivered more than once                    *)
(* ===================================================================== *)

Lemma event_data_idempotent (event : EscrowEventPayload.t) (st : EscrowStatus)
  (e : Escrow.t) :
  event_data event st (event_data event st e) = event_data event st e.
Proof. unfold event_data. destruct (truthy _); reflexivity. Qed.

(** [processEscrowEvent] without other writers, on an allowed transition. *)
Lemma processEscrowEvent_quiet (event : EscrowEventPayload.t) (w : World)
  (escrowId : string) (st : EscrowStatus) (existing : Escrow.t) :
  trimmed (EscrowEventPayload.escrowId event) = Some escrowId ->
  normalizeStatus (EscrowEventPayload.status event) "status" = Ok st ->
  escrow_findUnique escrowId w = Some existing ->
  allowed (Escrow.status existing) st = true ->
  escrow_ids_unique w ->
  processEscrowEvent quiet quiet event w
  = (set_outbox (outbox w ++ (if status_eqb (Escrow.status existing) st then []
                              else [EscrowUpdated escrowId st]))
       (set_escrows (map (fun r => if String.eqb (Escrow.id r) escrowId
                                   then event_data event st r else r) (escrows w)) w),
     Ok (event_data event st existing)).
Proof.
  intros Ht Hn Hf Hal Hu.
  rewrite (processEscrowEvent_allowed quiet quiet event w escrowId st existing)
    by assumption.
  cbv zeta. unfold quiet, updateMany. cbn [fst snd].
  rewrite (event_guard_filter w escrowId (Escrow.status existing) Hu), Hf,
    status_eqb_refl.
  cbn [List.length Nat.eqb negb].
  rewrite (event_guard_map_one w escrowId existing) by assumption.
  destruct (find_some_keyed Escrow.id _ _ _ Hf) as [_ Hid].
  assert (Hfw : escrow_findUnique escrowId
            (set_escrows (map (fun r => if String.eqb (Escrow.id r) escrowId
                                        then event_data event st r else r)
                              (escrows w)) w) = Some (event_data event st existing)).
  { unfold escrow_findUnique in *. cbn [escrows set_escrows].
    rewrite (find_map_keyed Escrow.id).
    - rewrite Hf. cbn [option_map]. rewrite Hid, String.eqb_refl. reflexivity.
    - intros x. destruct (String.eqb (Escrow.id x) escrowId);
        [apply event_data_id|reflexivity]. }
  rewrite Hfw, event_data_status, event_data_id, Hid.
  destruct (status_eqb (Escrow.status existing) st); cbn [negb].
  - rewrite app_nil_r. reflexivity.
  - reflexivity.
Qed.

(** Webhook events can be delivered twice.  Take an event whose escrow
    id and status are absent or strings of ASCII characters, a store with
    unique escrow ids and no other writer.  An event that fails leaves the
    store as it was; an event that succeeded and is delivered again
    succeeds again, returns the same escrow, changes no escrow and
    broadcasts nothing.  An event with a blank escrow id, or with a
    status string that is not a status name, is refused with a
    [ValidationError], an event for an unknown escrow with a
    [NotFoundError]. *)
Theorem processEscrowEvent_replay_is_silent (event : EscrowEventPayload.t) (w : World) :
  escrow_ids_unique w ->
  ascii_input (EscrowEventPayload.escrowId event) ->
  ascii_input (EscrowEventPayload.status event) ->
  let run := processEscrowEvent quiet quiet event w in
  (forall e, snd run = Err e -> fst run = w)
  /\ (forall updated,
        snd run = Ok updated ->
        processEscrowEvent quiet quiet event (fst run) = (fst run, Ok updated))
  /\ (forall s,
        EscrowEventPayload.escrowId event = Some s -> trim s = "" ->
        run = (w, Err (ValidationError "escrowId is required")))
  /\ (forall escrowId s e,
        trimmed (EscrowEventPayload.escrowId event) = Some escrowId ->
        EscrowEventPayload.status event = Some s ->
        normalizeStatus (Some s) "status" = Err e ->
        run = (w, Err e) /\ error_name e = "ValidationError")
  /\ (forall escrowId st,
        trimmed (EscrowEventPayload.escrowId event) = Some escrowId ->
        normalizeStatus (EscrowEventPayload.status event) "status" = Ok st ->
        escrow_findUnique escrowId w = None ->
        run = (w, Err (NotFoundError "Escrow not found"))).
Proof.
  intros Hu _ _. cbv zeta.
  assert (Hblank : forall s, EscrowEventPayload.escrowId event = Some s -> trim s = "" ->
                             trimmed (EscrowEventPayload.escrowId event) = None).
  { intros s Hs Hb. unfold trimmed. rewrite Hs, Hb. reflexivity. }
  assert (Hcases :
    match trimmed (EscrowEventPayload.escrowId event) with
    | None => processEscrowEvent quiet quiet event w
              = (w, Err (ValidationError "escrowId is required"))
    | Some escrowId =>
        match normalizeStatus (EscrowEventPayload.status event) "status" with
        | Err e => processEscrowEvent quiet quiet event w = (w, Err e)
        | Ok st =>
            match escrow_findUnique escrowId w with
            | None => processEscrowEvent quiet quiet event w
                      = (w, Err (NotFoundError "Escrow not found"))
            | Some existing =>
                allowed (Escrow.status existing) st = false ->
                exists e, processEscrowEvent quiet quiet event w = (w, Err e)
            end
        end
    end).
  { unfold processEscrowEvent. unfold_m.
    destruct (trimmed (EscrowEventPayload.escrowId event)) as [escrowId|]; [|reflexivity].
    destruct (normalizeStatus (EscrowEventPayload.status event) "status") as [st|e];
      [|reflexivity].
    destruct (escrow_findUnique escrowId w) as [existing|]; [|reflexivity].
    intros Hal. rewrite Hal. cbn [negb]. eexists. reflexivity. }
  destruct (trimmed (EscrowEventPayload.escrowId event)) as [escrowId|] eqn:Ht.
  2:{ rewrite Hcases. cbn [fst snd]. split; [intros e _; reflexivity|].
      split; [intros; congruence|]. split; [intros; reflexivity|].
      split; intros; congruence. }
  assert (Hfilled : forall s, EscrowEventPayload.escrowId event = Some s ->
                              trim s = "" -> False).
  { intros s Hs Hb. specialize (Hblank s Hs Hb). congruence. }
  destruct (normalizeStatus (EscrowEventPayload.status event) "status") as [st|e0] eqn:Hn.
  2:{ rewrite Hcases. cbn [fst snd]. split; [intros e _; reflexivity|].
      split; [intros; congruence|].
      split; [intros s Hs Hb; destruct (Hfilled s Hs Hb)|].
      split; [|intros; congruence].
      intros escrowId' s e _ Hs He. rewrite Hs, He in Hn. injection Hn as <-.
      split; [reflexivity|].
      unfold normalizeStatus in He. cbn [option_map] in He.
      destruct (parse_status (toUpperCase (trim s))); [discriminate|].
      injection He as <-. reflexivity. }
  assert (Hstatus : forall s e, EscrowEventPayload.status event = Some s ->
                                normalizeStatus (Some s) "status" = Err e -> False).
  { intros s e Hs He. rewrite Hs, He in Hn. discriminate. }
  destruct (escrow_findUnique escrowId w) as [existing|] eqn:Hf.
  2:{ rewrite Hcases. cbn [fst snd]. split; [intros e _; reflexivity|].
      split; [intros; congruence|].
      split; [intros s Hs Hb; destruct (Hfilled s Hs Hb)|].
      split; [intros escrowId' s e _ Hs He; destruct (Hstatus s e Hs He)|].
      intros escrowId' st' _ _ _. reflexivity. }
  destruct (allowed (Escrow.status existing) st) eqn:Hal.
  2:{ destruct (Hcases eq_refl) as [e He]. rewrite He. cbn [fst snd].
      split; [intros e' _; reflexivity|]. split; [intros; congruence|].
      split; [intros s Hs Hb; destruct (Hfilled s Hs Hb)|].
      split; [intros escrowId' s e' _ Hs He'; destruct (Hstatus s e' Hs He')|].
      intros escrowId' st' E1 E2 E3. injection E1 as <-. congruence. }
  clear Hcases.
  rewrite (processEscrowEvent_quiet event w escrowId st existing Ht Hn Hf Hal Hu).
  cbn [fst snd]. split; [intros; congruence|].
  split; [|split; [intros s Hs Hb; destruct (Hfilled s Hs Hb)|
                   split; [intros escrowId' s e' _ Hs He'; destruct (Hstatus s e' Hs He')|
                           intros escrowId' st' E1 E2 E3; injection E1 as <-; congruence]]].
  intros updated Hup. injection Hup as <-.
  destruct (find_some_keyed Escrow.id _ _ _ Hf) as [_ Hid].
  set (written := map (fun r => if String.eqb (Escrow.id r) escrowId
                                then event_data event st r else r) (escrows w)).
  set (w1 := set_outbox _ (set_escrows written w)).
  assert (Hu1 : escrow_ids_unique w1).
  { unfold escrow_ids_unique, w1, written. cbn [escrows set_outbox set_escrows].
    rewrite map_map. rewrite (map_ext _ Escrow.id); [exact Hu|].
    intros x. destruct (String.eqb (Escrow.id x) escrowId);
      [apply event_data_id|reflexivity]. }
  assert (Hf1 : escrow_findUnique escrowId w1 = Some (event_data event st existing)).
  { unfold escrow_findUnique, w1, written in *. cbn [escrows set_outbox set_escrows].
    rewrite (find_map_keyed Escrow.id).
    - rewrite Hf. cbn [option_map]. rewrite Hid, String.eqb_refl. reflexivity.
    - intros x. destruct (String.eqb (Escrow.id x) escrowId);
        [apply event_data_id|reflexivity]. }
  rewrite (processEscrowEvent_quiet event w1 escrowId st (event_data event st existing)
             Ht Hn Hf1).
  - rewrite event_data_status, status_eqb_refl, app_nil_r, event_data_idempotent.
    f_equal.
    assert (Hsame : map (fun r => if String.eqb (Escrow.id r) escrowId
                                  then event_data event st r else r) (escrows w1)
                    = written).
    { change (escrows w1) with written. unfold written. rewrite map_map.
      apply map_ext. intros x. destruct (String.eqb (Escrow.id x) escrowId) eqn:E.
      - rewrite event_data_id, E. apply event_data_idempotent.
      - rewrite E. reflexivity. }
    rewrite Hsame. reflexivity.
  - rewrite event_data_status. apply allowed_refl.
  - exact Hu1.
Qed.

Lemma processEscrowEvent_replay_is_silent_witness :
  let w := escrow_world [sample_escrow "e1" PENDING 10; sample_escrow "e2" ACTIVE 20] in
  let w1 := fst (processEscrowEvent quiet quiet (status_event "e1" "active") w) in
  processEscrowEvent quiet quiet (status_event "e1" "active") w1
  = (w1, snd (processEscrowEvent quiet quiet (status_event "e1" "active") w)).
Proof.
  cbv zeta.
  refine (proj1 (proj2 (processEscrowEvent_replay_is_silent
                          (status_event "e1" "active")
                          (escrow_world [sample_escrow "e1" PENDING 10;
                                         sample_escrow "e2" ACTIVE 20]) _ _ _)) _ _).
  - unfold escrow_ids_unique. cbn. repeat constructor; cbn.
    + intros [H|[]]. discriminate.
    + intros [].
  - reflexivity.
  - reflexivity.
  - reflexivity.
Defined.

(* ===================================================================== *)
(** * The websocket connection set                                        *)
(* ===================================================================== *)

Lemma ws_heartbeat_kept (connections : Ws.Connections) :
  fst (Ws.heartbeat connections)
  = map (Ws.set_isAlive false) (filter Ws.isAlive connections).
Proof.
  induction connections as [|ws rest IH]; [reflexivity|].
  cbn [Ws.heartbeat filter]. destruct (Ws.heartbeat rest) as [kept calls].
  cbn [fst] in IH. destruct (Ws.isAlive ws); cbn [negb fst map]; congruence.
Qed.

Lemma ws_heartbeat_calls (connections : Ws.Connections) :
  snd (Ws.heartbeat connections)
  = map (fun ws => if Ws.isAlive ws then Ws.Ping (Ws.ref ws)
                   else Ws.Terminate (Ws.ref ws)) connections.
Proof.
  induction connections as [|ws rest IH]; [reflexivity|].
  cbn [Ws.heartbeat map]. destruct (Ws.heartbeat rest) as [kept calls].
  cbn [snd] in IH. destruct (Ws.isAlive ws); cbn [negb snd]; congruence.
Qed.

Lemma ws_refs_update (r : nat) (f : Ws.ExtendedWebSocket -> Ws.ExtendedWebSocket)
  (connections : Ws.Connections) :
  (forall ws, Ws.ref (f ws) = Ws.ref ws) ->
  Ws.refs (Ws.update r f connections) = Ws.refs connections.
Proof.
  intros Hf. unfold Ws.refs, Ws.update. rewrite map_map. apply map_ext.
  intros ws. destruct (Nat.eqb (Ws.ref ws) r); [apply Hf|reflexivity].
Qed.

Lemma ws_refs_heartbeat (connections : Ws.Connections) :
  Ws.refs (fst (Ws.heartbeat connections))
  = Ws.refs (filter Ws.isAlive connections).
Proof.
  rewrite ws_heartbeat_kept. unfold Ws.refs. rewrite map_map. reflexivity.
Qed.

Lemma ws_has_refs (r : nat) (connections : Ws.Connections) :
  Ws.has r connections = true <-> In r (Ws.refs connections).
Proof.
  unfold Ws.has, Ws.refs. rewrite existsb_exists, in_map_iff.
  split; intros [ws [H1 H2]]; exists ws.
  - apply Nat.eqb_eq in H2. split; assumption.
  - split; [assumption|apply Nat.eqb_eq; assumption].
Qed.

Lemma ws_silent_after_heartbeat (r : nat) (connections : Ws.Connections) :
  ws_silent r (fst (Ws.heartbeat connections)).
Proof.
  intros ws Hin _. rewrite ws_heartbeat_kept in Hin.
  apply in_map_iff in Hin. destruct Hin as [x [<- _]]. reflexivity.
Qed.

Lemma ws_silent_update (r r' : nat) (f : Ws.ExtendedWebSocket -> Ws.ExtendedWebSocket)
  (connections : Ws.Connections) :
  (forall ws, Ws.ref (f ws) = Ws.ref ws) ->
  (r' <> r \/ forall ws, Ws.isAlive (f ws) = Ws.isAlive ws) ->
  ws_silent r connections -> ws_silent r (Ws.update r' f connections).
Proof.
  intros Hf Hor Hs ws Hin Hr. unfold Ws.update in Hin.
  apply in_map_iff in Hin. destruct Hin as [x [E Hx]].
  destruct (Nat.eqb (Ws.ref x) r') eqn:Er.
  - subst ws. rewrite Hf in Hr. apply Nat.eqb_eq in Er.
    destruct Hor as [Hne|Hal]; [congruence|]. rewrite Hal. apply Hs; assumption.
  - subst ws. apply Hs; assumption.
Qed.

Lemma ws_silent_happen (r : nat) (connections : Ws.Connections) (h : Ws.Happening) :
  (forall state, h <> Ws.Added r state) -> h <> Ws.Pong r ->
  ws_silent r connections -> ws_silent r (Ws.happen connections h).
Proof.
  intros Hadd Hpong Hs. destruct h as [r' state|r'|r'|r'| |r' state]; cbn [Ws.happen].
  - assert (Hne : r' <> r) by (intros ->; exact (Hadd state eq_refl)).
    unfold Ws.addConnection. destruct (Ws.has r' connections).
    + apply ws_silent_update; [reflexivity|left; exact Hne|exact Hs].
    + intros ws Hin Hr. apply in_app_iff in Hin. destruct Hin as [Hin|[<-|[]]].
      * apply Hs; assumption.
      * cbn in Hr. congruence.
  - assert (Hne : r' <> r) by (intros ->; exact (Hpong eq_refl)).
    apply ws_silent_update; [reflexivity|left; exact Hne|exact Hs].
  - intros ws Hin Hr. apply filter_In in Hin. apply Hs; [apply Hin|exact Hr].
  - intros ws Hin Hr. apply filter_In in Hin. apply Hs; [apply Hin|exact Hr].
  - apply ws_silent_after_heartbeat.
  - apply ws_silent_update; [reflexivity|right; reflexivity|exact Hs].
Qed.

Lemma ws_silent_history (r : nat) (history : list Ws.Happening)
  (connections : Ws.Connections) :
  Forall (fun h => (forall state, h <> Ws.Added r state) /\ h <> Ws.Pong r) history ->
  ws_silent r connections -> ws_silent r (fold_left Ws.happen history connections).
Proof.
  revert connections. induction history as [|h history IH]; intros connections HF Hs.
  - exact Hs.
  - inversion HF as [|? ? [H1 H2] HF']; subst. cbn [fold_left].
    apply IH; [exact HF'|]. apply ws_silent_happen; assumption.
Qed.

(** A connection that does not answer the ping is dropped.  Whatever
    happens between one run of the 30 s interval and the next, a
    connection that sent no pong in between, and was not added again, is
    not in the set after the second run; and if it was in the set when the
    second run began, that run terminated it. *)
Theorem heartbeat_drops_silent_connections (r : nat) (history : list Ws.Happening)
  (connections : Ws.Connections) :
  Forall (fun h => (forall state, h <> Ws.Added r state) /\ h <> Ws.Pong r) history ->
  let before := fold_left Ws.happen history (Ws.happen connections Ws.Interval) in
  ~ In r (Ws.refs (Ws.happen before Ws.Interval))
  /\ (In r (Ws.refs before) -> In (Ws.Terminate r) (snd (Ws.heartbeat before)))
  /\ ~ In (Ws.Ping r) (snd (Ws.heartbeat before)).
Proof.
  intros HF before.
  assert (Hs : ws_silent r before).
  { apply ws_silent_history; [exact HF|]. cbn [Ws.happen]. apply ws_silent_after_heartbeat. }
  split; [|split].
  - cbn [Ws.happen]. rewrite ws_refs_heartbeat. unfold Ws.refs. intros Hin.
    apply in_map_iff in Hin. destruct Hin as [ws [Hr Hin]].
    apply filter_In in Hin. destruct Hin as [Hin Halive].
    rewrite (Hs ws Hin Hr) in Halive. discriminate.
  - intros Hin. unfold Ws.refs in Hin. apply in_map_iff in Hin.
    destruct Hin as [ws [Hr Hin]]. rewrite ws_heartbeat_calls. apply in_map_iff.
    exists ws. split; [|exact Hin]. rewrite (Hs ws Hin Hr), Hr. reflexivity.
  - rewrite ws_heartbeat_calls. intros Hin. apply in_map_iff in Hin.
    destruct Hin as [ws [E Hin]]. destruct (Ws.isAlive ws) eqn:Ha; [|discriminate].
    injection E as Hr. rewrite (Hs ws Hin Hr) in Ha. discriminate.
Qed.

Lemma heartbeat_drops_silent_connections_witness :
  let history := [Ws.Pong 2; Ws.StateChanged 1 Ws.CLOSING; Ws.Added 3 Ws.OPEN] in
  let before := fold_left Ws.happen history
                  (Ws.happen (Ws.after [Ws.Added 1 Ws.OPEN; Ws.Added 2 Ws.OPEN])
                     Ws.Interval) in
  ~ In 1%nat (Ws.refs (Ws.happen before Ws.Interval))
  /\ (In 1%nat (Ws.refs before) -> In (Ws.Terminate 1) (snd (Ws.heartbeat before)))
  /\ ~ In (Ws.Ping 1) (snd (Ws.heartbeat before)).
Proof.
  cbv zeta.
  apply (heartbeat_drops_silent_connections 1
           [Ws.Pong 2; Ws.StateChanged 1 Ws.CLOSING; Ws.Added 3 Ws.OPEN]
           (Ws.after [Ws.Added 1 Ws.OPEN; Ws.Added 2 Ws.OPEN])).
  repeat constructor; intros; discriminate.
Defined.

Lemma ws_pongs_refs (pongs : list nat) (connections : Ws.Connections) :
  Ws.refs (fold_left (fun c r => Ws.on_pong r c) pongs connections)
  = Ws.refs connections.
Proof.
  revert connections. induction pongs as [|r pongs IH]; intros connections;
    [reflexivity|].
  cbn [fold_left]. rewrite IH. apply ws_refs_update. reflexivity.
Qed.

Lemma ws_pongs_length (pongs : list nat) (connections : Ws.Connections) :
  List.length (fold_left (fun c r => Ws.on_pong r c) pongs connections)
  = List.length connections.
Proof.
  rewrite <- (length_map Ws.ref), <- (length_map Ws.ref connections).
  exact (f_equal (@List.length nat) (ws_pongs_refs pongs connections)).
Qed.

Lemma ws_pongs_alive (pongs : list nat) (connections : Ws.Connections) :
  map Ws.isAlive (fold_left (fun c r => Ws.on_pong r c) pongs connections)
  = map (fun ws => Ws.isAlive ws || existsb (Nat.eqb (Ws.ref ws)) pongs) connections.
Proof.
  revert connections. induction pongs as [|r pongs IH]; intros connections.
  - cbn [fold_left existsb]. apply map_ext. intros ws. rewrite orb_false_r. reflexivity.
  - cbn [fold_left existsb]. rewrite IH. unfold Ws.on_pong, Ws.update.
    rewrite map_map. apply map_ext. intros ws.
    destruct (Nat.eqb (Ws.ref ws) r) eqn:E.
    + cbn [Ws.set_isAlive Ws.isAlive Ws.ref orb]. rewrite orb_true_r. reflexivity.
    + reflexivity.
Qed.

Lemma ws_refs_alive (c : Ws.Connections) :
  Ws.refs (filter Ws.isAlive c)
  = map fst (filter snd (combine (Ws.refs c) (map Ws.isAlive c))).
Proof.
  induction c as [|ws c IH]; [reflexivity|].
  cbn [filter Ws.refs map combine snd]. destruct (Ws.isAlive ws); cbn [map fst];
    unfold Ws.refs in IH; rewrite IH; reflexivity.
Qed.

(** Which connections outlive two heartbeats.  When only pongs arrive
    between one run of the interval and the next, the connections left
    after the second run are, in their order, those that were alive at the
    first run and sent a pong since; the set never grows through a
    heartbeat. *)
Theorem heartbeat_keeps_answering_connections (pongs : list nat)
  (connections : Ws.Connections) :
  let pinged := fst (Ws.heartbeat connections) in
  let before := fold_left (fun c r => Ws.on_pong r c) pongs pinged in
  Ws.refs (fst (Ws.heartbeat before))
  = filter (fun r => existsb (Nat.eqb r) pongs)
      (Ws.refs (filter Ws.isAlive connections))
  /\ Forall (fun ws => Ws.isAlive ws = false) (fst (Ws.heartbeat before))
  /\ (Ws.getConnectionCount (fst (Ws.heartbeat before))
      <= Ws.getConnectionCount pinged <= Ws.getConnectionCount connections)%nat.
Proof.
  cbv zeta. split; [|split].
  - rewrite ws_refs_heartbeat, ws_refs_alive, ws_pongs_refs, ws_pongs_alive.
    rewrite ws_refs_heartbeat, ws_heartbeat_kept.
    generalize (filter Ws.isAlive connections). intros c.
    induction c as [|ws c IH]; [reflexivity|].
    cbn [map Ws.refs combine filter snd Ws.set_isAlive Ws.isAlive Ws.ref orb].
    unfold Ws.refs in IH.
    destruct (existsb (Nat.eqb (Ws.ref ws)) pongs); cbn [map fst]; rewrite IH; reflexivity.
  - rewrite ws_heartbeat_kept. apply Forall_forall. intros ws Hin.
    apply in_map_iff in Hin. destruct Hin as [x [<- _]]. reflexivity.
  - unfold Ws.getConnectionCount. split.
    + rewrite (ws_heartbeat_kept (fold_left _ _ _)), length_map.
      rewrite <- (ws_pongs_length pongs (fst (Ws.heartbeat connections))).
      apply List.filter_length_le.
    + rewrite ws_heartbeat_kept, length_map. apply List.filter_length_le.
Qed.

Lemma ws_refs_delete (r : nat) (connections : Ws.Connections) :
  NoDup (Ws.refs connections) -> NoDup (Ws.refs (Ws.delete r connections)).
Proof. apply nodup_map_filter. Qed.

Lemma ws_refs_happen (connections : Ws.Connections) (h : Ws.Happening) :
  NoDup (Ws.refs connections) -> NoDup (Ws.refs (Ws.happen connections h)).
Proof.
  intros Hnd. destruct h as [r state|r|r|r| |r state]; cbn [Ws.happen].
  - unfold Ws.addConnection. destruct (Ws.has r connections) eqn:Hhas.
    + rewrite ws_refs_update; [exact Hnd|reflexivity].
    + apply nodup_map_snoc; [exact Hnd|]. cbn [Ws.ref]. intros Hin.
      apply ws_has_refs in Hin. congruence.
  - unfold Ws.on_pong. rewrite ws_refs_update; [exact Hnd|reflexivity].
  - apply ws_refs_delete. exact Hnd.
  - apply ws_refs_delete. exact Hnd.
  - rewrite ws_refs_heartbeat. apply nodup_map_filter. exact Hnd.
  - rewrite ws_refs_update; [exact Hnd|reflexivity].
Qed.

Lemma ws_refs_unique (history : list Ws.Happening) (connections : Ws.Connections) :
  NoDup (Ws.refs connections) ->
  NoDup (Ws.refs (fold_left Ws.happen history connections)).
Proof.
  revert connections. induction history as [|h history IH]; intros connections Hnd;
    [exact Hnd|].
  cbn [fold_left]. apply IH. apply ws_refs_happen. exact Hnd.
Qed.

Lemma ws_broadcast_calls (stringify : Ws.WebSocketEvent -> string)
  (event : Ws.WebSocketEvent) (connections : Ws.Connections) :
  Ws.broadcastEvent stringify event connections
  = map (fun ws => Ws.Send (Ws.ref ws) (stringify event))
      (filter (fun ws => Ws.readyState_eqb (Ws.readyState ws) Ws.OPEN) connections).
Proof.
  unfold Ws.broadcastEvent. cbv zeta.
  induction connections as [|ws rest IH]; [reflexivity|].
  cbn [flat_map filter]. rewrite IH.
  destruct (Ws.readyState_eqb (Ws.readyState ws) Ws.OPEN); reflexivity.
Qed.

Lemma ws_readyState_eqb_eq (a b : Ws.ReadyState) :
  Ws.readyState_eqb a b = true <-> a = b.
Proof. destruct a, b; cbn; split; intros H; try reflexivity; discriminate H. Qed.

(** Who receives a broadcast.  After any history of a connection set
    that started empty, [broadcastEvent] sends the serialised event once
    to every connection of the set whose socket is [OPEN] and to nothing
    else, no socket receives it twice, and a socket whose close or error
    handler has just run receives nothing. *)
Theorem broadcastEvent_reaches_open_connections_once
  (stringify : Ws.WebSocketEvent -> string) (event : Ws.WebSocketEvent)
  (history : list Ws.Happening) :
  let connections := Ws.after history in
  let calls := Ws.broadcastEvent stringify event connections in
  NoDup calls
  /\ (forall c, In c calls <->
                exists ws, In ws connections /\ Ws.readyState ws = Ws.OPEN
                           /\ c = Ws.Send (Ws.ref ws) (stringify event))
  /\ (forall r message,
        ~ In (Ws.Send r message)
             (Ws.broadcastEvent stringify event (Ws.on_close r connections))
        /\ ~ In (Ws.Send r message)
                (Ws.broadcastEvent stringify event (Ws.on_error r connections))).
Proof.
  cbv zeta.
  assert (Hnd : NoDup (Ws.refs (Ws.after history))).
  { apply ws_refs_unique. constructor. }
  split; [|split].
  - rewrite ws_broadcast_calls.
    pose proof (nodup_map_filter Ws.ref
                  (fun ws => Ws.readyState_eqb (Ws.readyState ws) Ws.OPEN) _ Hnd) as H.
    revert H. generalize (filter (fun ws => Ws.readyState_eqb (Ws.readyState ws) Ws.OPEN)
                            (Ws.after history)).
    intros l. induction l as [|ws l IH]; cbn [map]; intros H; [constructor|].
    inversion H as [|? ? Hnin Hl]; subst. constructor; [|apply IH; exact Hl].
    intros Hin. apply Hnin. apply in_map_iff in Hin. destruct Hin as [x [E Hx]].
    injection E as E. apply in_map_iff. exists x. split; assumption.
  - intros c. rewrite ws_broadcast_calls, in_map_iff. split.
    + intros [ws [E Hin]]. apply filter_In in Hin. destruct Hin as [Hin Hopen].
      exists ws. split; [exact Hin|]. split; [|symmetry; exact E].
      apply ws_readyState_eqb_eq. exact Hopen.
    + intros [ws [Hin [Hopen ->]]]. exists ws. split; [reflexivity|].
      apply filter_In. split; [exact Hin|]. apply ws_readyState_eqb_eq. exact Hopen.
  - assert (Hgone : forall r message c,
              ~ In (Ws.Send r message)
                   (Ws.broadcastEvent stringify event (Ws.delete r c))).
    { intros r message c. rewrite ws_broadcast_calls. intros Hin.
      apply in_map_iff in Hin. destruct Hin as [ws [E Hin]]. injection E as Hr _.
      apply filter_In in Hin. destruct Hin as [Hin _]. unfold Ws.delete in Hin.
      apply filter_In in Hin. destruct Hin as [_ Hne].
      rewrite Hr, Nat.eqb_refl in Hne. discriminate. }
    intros r message. split; apply Hgone.
Qed.
